(* ===== verification/_CoqProject ===== *)
-Q . S2P
Prelude.v
Text.v
Json.v
CoreTypes.v
Emit.v
Envelope.v
Lifecycle.v
Drain.v
Interleaver.v
ChatSse.v
ChatSseLifecycle.v
ChatUnary.v
DeepSeek.v
DeepSeekLifecycle.v
Breaker.v
Float64.v
Fallback.v
Retry.v
Request.v
Config.v
Validation.v
RateLimit.v
ImageTokens.v
CostFilter.v
StaticRoutes.v
Plugins.v
Supervisor.v
ModelIndex.v
Resolver.v
Startup.v
PluginBuild.v
Admission.v
Resilient.v
AppState.v
GatewayErrors.v
Conversation.v
ChatDecode.v
AnthropicDecode.v
ResponsesDecode.v
ChatBuild.v
ChatFlavors.v
AnthropicBuild.v
ResponsesBuild.v
Sse.v
AnthropicEncode.v
AnthropicParse.v
AnthropicRelay.v
ResponsesParse.v
GeminiScan.v
Http.v
Passthrough.v
GeminiWire.v
ChatEncode.v
ResponsesEncode.v
UnaryPath.v
GeminiParse.v
GeminiProvider.v
Upstreams.v
Copilot.v
PiiScrubber.v
PromptCompressor.v
Pipeline.v
AnthropicRequest.v
ChatRequest.v
ToolConversation.v
EndToEnd.v
ResponsesRelay.v
ResponsesChain.v
RoundTrip.v
