(* ===== verification/Prelude.v ===== *)
(** * AgentShim: a verified model of the gateway

    AgentShim is a gateway between clients that speak one of three dialects
    (Anthropic Messages, OpenAI Chat Completions, OpenAI Responses) and upstream
    providers that speak others.  A request is decoded into a canonical request,
    routed to a chain of upstreams, admitted, sent, and what comes back is parsed
    into a stream of canonical events that an encoder turns into the client's
    dialect.  This library models the Rust crates under src/crates and proves
    what makes them correct.  Paths below are relative to src/crates.

    ** How the program is put together

    - core: the canonical request and stream types everything else speaks.
    - config: the configuration, its validation at startup and on reload.
    - router: resolution of a model to a chain of upstreams, circuit breakers,
      rate limits, the cost filter, admission, retries and the chain walk.
    - providers: one parser per upstream dialect, from wire to canonical events.
    - frontends: one encoder per client dialect, from canonical events to wire.
    - plugins: hooks run on requests, on stream events and on finished responses.
    - gateway: the process state and its reload, and the pipeline that takes a
      request through all of the above.

    The contract between providers and frontends is the canonical lifecycle that
    protocol-tests/src/lifecycle.rs checks; [Lifecycle] is that validator, parsers
    are proved to produce streams it accepts and encoders are proved against it.

    ** The files

    Foundations
    - [Prelude] (this file): results, wrapping and saturating integers, strings,
      sorting and the generic lemmas.  Unsigned machine integers are [Z] with
      their wrap-around written out ([u32_add], [u64_add], [as_u32], ...).
    - [Json]: the interface [JsonApi] to serde_json's values, with a concrete
      tree instance for the samples.
    - [Text]: str::trim.  [Float64]: IEEE doubles with the operations the source uses.
    - [Emit]: the state-and-output monad of the stream handlers, its monitors and
      a weakest-precondition calculus ([wp]).  [Drain]: the hand-written poll
      loops and their equivalence with a fold.  [Envelope]: the monitor of the
      start and stop events.
    - [CoreTypes], [Request]: core/src (stream events, usage, stop reasons; the
      request, its policies and their merge).

    Providers
    - [Lifecycle]: protocol-tests/src/lifecycle.rs.
    - [Interleaver], [ChatSse], [ChatUnary]: providers/src/oai_chat_wire;
      [ChatSseLifecycle]: the streaming parser meets the lifecycle for every
      upstream that follows the protocol.
    - [DeepSeek], [DeepSeekLifecycle]: providers/src/deepseek.
    - [AnthropicParse], [AnthropicRelay]: providers/src/anthropic/response.rs, and
      what becomes of its streams at an Anthropic client.
    - [ResponsesParse]: openai_compatible/responses_api/parse_stream.rs;
      [ResponsesRelay], [ResponsesChain]: its streams at clients of each dialect,
      and behind another gateway.
    - [GeminiScan], [GeminiWire], [GeminiParse], [GeminiProvider]:
      providers/src/gemini, from request building to the byte scanner, the parser
      and the HTTP exchange.
    - [Http], [Upstreams]: the HTTP exchange and the [BackendProvider] trait with
      the Anthropic, OpenAI-compatible, DeepSeek and GLM providers (lib.rs and the
      mod.rs files).  [Passthrough]: anthropic/passthrough.rs, the byte-level
      rewriting of a raw body.  [Copilot]: providers/src/github_copilot.

    Requests
    - [Conversation]: what the decoders share, and the discipline of tool calls.
      [ChatDecode], [AnthropicDecode], [ResponsesDecode]: the decode.rs and
      wire.rs of the three front ends.
    - [ChatBuild], [AnthropicBuild], [ResponsesBuild]: the request builders
      (oai_chat_wire/canonical_to_chat.rs, anthropic/request.rs,
      openai_compatible/responses_api/encode_request.rs).  [ChatFlavors]: the
      bodies DeepSeek and GLM receive (deepseek/request.rs, glm/request.rs).
    - [AnthropicRequest], [ChatRequest], [ToolConversation]: compositions of a
      decoder and a builder.

    Router and configuration
    - [Config], [Validation]: config/src/schema.rs, plugins.rs, validation.rs.
    - [StaticRoutes], [ModelIndex], [Resolver]: the routing tables, the fuzzy
      model index, resolution and the catalogue.
    - [Breaker], [Fallback], [Retry], [RateLimit], [ImageTokens], [CostFilter]:
      the modules of router/src of those names.
    - [Admission]: the gates and the ticket of breaker holds;
      [Resilient]: the chain walk (resilient_caller.rs).
    - [Startup]: what a validated configuration guarantees the router.

    Plugins
    - [Plugins]: registry.rs, invoke.rs and the traits; [PluginBuild]: the registry
      of a validated configuration; [Supervisor]: the tasks of the response hook
      and the flush at shutdown, as a step relation.  [PiiScrubber],
      [PromptCompressor]: the built-in plugins of plugins/src/builtin.

    Front ends
    - [Sse]: frames and keepalives.  [AnthropicEncode], [ChatEncode],
      [ResponsesEncode]: the streaming encoders.  [UnaryPath]: collect_stream and
      the three non-streaming encoders.

    Gateway
    - [AppState]: state.rs, reload.rs and handle_reload of commands/serve.rs.
    - [GatewayErrors]: the errors and their HTTP answers (handlers/mod.rs).
    - [Pipeline]: pipeline.rs, from the inbound bytes to the served answer, and
      the gateway as a history of requests, answers and reloads.
    - [EndToEnd], [RoundTrip]: compositions of a parser and an encoder.

    ** What is proved

    - Streams: the parsers produce streams that meet the lifecycle contract for
      conforming upstreams ([ChatSseLifecycle], [DeepSeekLifecycle],
      [AnthropicParse], [ResponsesParse], which also says when a response starts
      and how it is stopped, [ChatUnary]) or for every upstream ([GeminiParse],
      [GeminiScan] for the framing of Gemini's bytes)
      and keep all text and tool-call deltas, for any input; the encoders turn
      streams that meet the contract into responses their protocol automata
      accept ([AnthropicEncode], [ResponsesEncode]) with the same deltas; polling
      terminates and equals the fold ([Drain]).  [EndToEnd] composes the two
      sides, [RoundTrip] and [ResponsesChain] read an encoded response back.
      A Gemini stream says what the unary answer says
      ([GeminiParse.gemini_stream_is_unary]).
    - Requests: what a client sends reaches an upstream of its own dialect as its
      relay ([AnthropicRequest], [ChatRequest]), and a conversation whose tool
      calls are answered in place reaches other dialects as one, with the same
      calls and replies in the same order ([ToolConversation]).  [AnthropicRelay] says the same of the streams of an
      Anthropic upstream at an Anthropic client.  The Gemini builder keeps every
      tool call answered by name, and the exchange returns the events of the
      bytes or the error of the status ([GeminiProvider]); the strict Chat
      upstreams receive only fields they accept ([ChatFlavors]).  The raw passthrough
      replaces the model in the bytes as serde_json would ([Passthrough]).
    - Providers: what they answer is the reading of one successful exchange, of
      the request that configuration, canonical request and target determine, and
      meets the contract when the upstream keeps its protocol
      ([Upstreams.completions_meet_contract], [Copilot]); a token of Copilot's is
      that of the last exchange, and dropped when rejected.
    - Configuration: [Validation.validate_spec] characterises the accepted
      configurations, [Startup] and [PluginBuild] what startup makes of them, and
      [AppState.running_configuration] that the running process always serves
      one of them through any reloads.
    - Routing: the lookups select the most specific entry, the fuzzy upgrade the
      best model, the catalogue is complete.
    - Resilience: when breakers trip, that probes are exclusive and never wedge;
      the retry loop's attempts and budget, under the policies whose jitter rand
      can draw, which the validated ones are; the gates of admission, with every
      charge, decision and refusal; that a ticket records each hold once; the
      chain walk against its reference.
    - Plugins: whatever they do, protected fields survive; failures under the
      skip policy change nothing; what the flush at shutdown reports.  Of the
      built-in ones: the scrubbed stream is the original one with its texts
      scrubbed piece by piece, the compressor keeps whole groups and stays within
      its budget when it says so.
    - The pipeline: [Pipeline.requests_pass_the_gates] (nothing reaches an
      upstream but through decoding, authentication, routing, hooks that answer
      [Ok] and admission), [Pipeline.every_request_is_answered] (no panic, no loop, after
      any history), [Pipeline.answers_carry_the_stream] and
      [Pipeline.answers_settle_the_ticket] (what clients and breakers get).
    - The modules [Samples] evaluate the definitions on concrete inputs: they
      discharge the hypotheses of the theorems and show where the code departs
      from its intention.

    ** Conventions

    Fallible functions return [result]; a panic is [None].  Handlers that update
    a state and push events are [emit S E A] programs.  Third-party code is a
    parameter: serde_json, base64, the token bucket of governor, the tokenizer, clocks,
    entropy, providers' network calls, plugins' hooks (programs on a world [W]).
    A clock is read through a counter of readings.  Streams are the list of what
    their polls return.  Locks and atomic sections are single steps; a hash map
    whose iteration order matters has the order as a parameter.  [retry_loop] is
    given [max_attempts] rounds of fuel, [walk] recurses on the chain: both are
    proved to return ([Retry.retry_with_policy_spec],
    [Resilient.complete_inner_answers]).  The poll loops recurse on the source;
    collecting one takes fuel, and the collection theorems give the amount that
    is enough.  The byte scanner of [Passthrough] is given two more than the length
    of the body, and returns on every body ([Passthrough.rewrite_model_returns]).

    ** Not modelled

    - reqwest, TLS, timeouts and the trace headers of http_client.rs: parameters of
      [Http]; [Resilient] and [Pipeline] take the providers as parameters, which
      [Upstreams], [GeminiProvider] and [Copilot] define.
    - Copilot's device-flow login and the saving of its credentials: they belong
      to the command line.
    - The usage_recorder plugin, which logs and counts; the regex engine of the
      PII scrubber and the tokenizer of the compressor are parameters.  The
      theorems of [Plugins] and [Pipeline] hold for any plugin.
    - The deserialisation of wire types from bytes (serde), a parameter of every
      decoder and parser; which decoder reads a request is a parameter of
      [Pipeline] ([decode_request]), which any of the three supplies.
    - The catalogue, count_tokens and health handlers: they read what [Resolver],
      [ImageTokens] and [AppState] define.
    - Logging, metrics, tracing spans and the admin and CLI commands: they read
      the state and have no effect on the request path. *)
From Stdlib Require Ascii.
From stdpp Require Export base tactics list option sets gmap strings.
From stdpp Require Export numbers list_numbers.

(** ** Results

    Rust's [Result<T, E>]: every fallible function of the source returns one. *)
Inductive result (A E : Type) : Type :=
| Ok (a : A)
| Err (e : E).
Arguments Ok {A E} a.
Arguments Err {A E} e.

Definition result_map {A B E} (f : A → B) (r : result A E) : result B E :=
  match r with Ok a => Ok (f a) | Err e => Err e end.
Definition map_err {A E F} (f : E → F) (r : result A E) : result A F :=
  match r with Ok a => Ok a | Err e => Err (f e) end.
Definition is_ok {A E} (r : result A E) : bool :=
  match r with Ok _ => true | Err _ => false end.
Definition result_ok {A E} (r : result A E) : option A :=
  match r with Ok a => Some a | Err _ => None end.

(** The [Ok] items of a stream of results, in order. *)
Definition oks {A E} (l : list (result A E)) : list A := omap result_ok l.

Declare Scope shim_scope.
Delimit Scope shim_scope with shim.
(** Rust's [?] operator. *)
Notation "'let?' x ':=' c 'in' k" :=
  (match c with Ok x => k | Err e => Err e end)
  (at level 10, x pattern, c at level 100, k at level 200) : shim_scope.
Open Scope shim_scope.

(** A condition that must hold, and a fallible check of every element: the
    first failure is the result. *)
Definition ensure {E} (b : bool) (e : E) : result unit E := if b then Ok tt else Err e.
Fixpoint try_each {A E} (f : A → result unit E) (l : list A) : result unit E :=
  match l with [] => Ok tt | x :: l' => let? _ := f x in try_each f l' end.

Lemma ensure_ok {E} b (e : E) : ensure b e = Ok tt ↔ b = true.
Proof. by destruct b. Qed.
Lemma ensure_err {E} b (e e' : E) : ensure b e = Err e' ↔ b = false ∧ e = e'.
Proof. destruct b; split; [done|naive_solver| |naive_solver]. intros [= ->]. done. Qed.
Lemma then_ok {A E} (r : result unit E) (k : result A E) x :
  (let? _ := r in k) = Ok x ↔ r = Ok tt ∧ k = Ok x.
Proof. destruct r as [[]|e]; naive_solver. Qed.
Lemma then_err {A E} (r : result unit E) (k : result A E) e :
  (let? _ := r in k) = Err e ↔ r = Err e ∨ r = Ok tt ∧ k = Err e.
Proof. destruct r as [[]|e']; naive_solver. Qed.
Lemma try_each_ok {A E} (f : A → result unit E) l :
  try_each f l = Ok tt ↔ ∀ x, x ∈ l → f x = Ok tt.
Proof.
  rewrite <- Forall_forall. induction l as [|x l IH]; simpl; [by split; constructor|].
  by rewrite then_ok, Forall_cons, IH.
Qed.
Lemma try_each_err {A E} (f : A → result unit E) l e :
  try_each f l = Err e → ∃ x, x ∈ l ∧ f x = Err e.
Proof.
  induction l as [|x l IH]; simpl; [done|].
  intros [H|[_ (y & ? & ?)%IH]]%then_err; [exists x|exists y]; split; set_solver.
Qed.
Lemma map_err_ok {A E F} (g : E → F) (r : result A E) x : map_err g r = Ok x ↔ r = Ok x.
Proof. destruct r; naive_solver. Qed.
Lemma map_err_err {A E F} (g : E → F) (r : result A E) e :
  map_err g r = Err e ↔ ∃ e', r = Err e' ∧ g e' = e.
Proof. destruct r; naive_solver. Qed.

(** ** Machine integers

    Unsigned integers are values of [Z]; the operators below write out the
    wrap-around of the release profile (overflow checks off), saturation and
    checked subtraction. *)
Definition u32_max : Z := 4294967295.
Definition u64_max : Z := 18446744073709551615.
Definition is_u32 (z : Z) : Prop := (0 ≤ z ≤ u32_max)%Z.
Definition is_u64 (z : Z) : Prop := (0 ≤ z ≤ u64_max)%Z.
Definition wrap32 (z : Z) : Z := (z mod (u32_max + 1))%Z.
Definition wrap64 (z : Z) : Z := (z mod (u64_max + 1))%Z.
Definition u32_add (a b : Z) : Z := wrap32 (a + b).
Definition u32_mul (a b : Z) : Z := wrap32 (a * b).
Definition u64_add (a b : Z) : Z := wrap64 (a + b).
Definition u32_saturating_add (a b : Z) : Z := (Z.min u32_max (a + b))%Z.
Definition saturating_sub (a b : Z) : Z := (Z.max 0 (a - b))%Z.
(** [x as u32] of a wider unsigned value keeps the low 32 bits. *)
Definition as_u32 (z : Z) : Z := wrap32 z.
(** [checked_sub]: [None] when the result would be negative. *)
Definition checked_sub (a b : Z) : option Z :=
  if (b <=? a)%Z then Some (a - b)%Z else None.

Create HintDb width.

Lemma wrap32_small z : is_u32 z → wrap32 z = z.
Proof. unfold is_u32, wrap32, u32_max. intros. apply Z.mod_small. lia. Qed.
Lemma wrap32_idemp z : wrap32 (wrap32 z) = wrap32 z.
Proof. apply Z.mod_mod. done. Qed.
Lemma wrap32_add_l a b : wrap32 (wrap32 a + b) = wrap32 (a + b).
Proof. apply Z.add_mod_idemp_l. done. Qed.
Lemma wrap64_small z : is_u64 z → wrap64 z = z.
Proof. unfold is_u64, wrap64, u64_max. intros. apply Z.mod_small. lia. Qed.
Lemma wrap32_range z : is_u32 (wrap32 z).
Proof.
  unfold is_u32, wrap32, u32_max.
  pose proof (Z.mod_pos_bound z (4294967295 + 1)). lia.
Qed.
Lemma wrap64_range z : is_u64 (wrap64 z).
Proof.
  unfold is_u64, wrap64, u64_max.
  pose proof (Z.mod_pos_bound z (18446744073709551615 + 1)). lia.
Qed.
Lemma u32_add_small a b : is_u32 (a + b) → u32_add a b = (a + b)%Z.
Proof. apply wrap32_small. Qed.
Lemma u64_add_small a b : is_u64 (a + b) → u64_add a b = (a + b)%Z.
Proof. apply wrap64_small. Qed.
Lemma as_u32_range z : is_u32 (as_u32 z).
Proof. apply wrap32_range. Qed.
Lemma saturating_add_range a b :
  is_u32 a → is_u32 b → is_u32 (u32_saturating_add a b).
Proof. unfold is_u32, u32_saturating_add, u32_max. lia. Qed.
#[export] Hint Resolve wrap32_range wrap64_range as_u32_range saturating_add_range : width.

(** ** Strings

    A Rust [str] is the list of its UTF-8 bytes, here [String.string]. *)
Definition str_is_empty (s : string) : bool :=
  match s with EmptyString => true | _ => false end.

Fixpoint concat_strings (l : list string) : string :=
  match l with [] => EmptyString | s :: l => (s ++ concat_strings l)%string end.

Lemma string_app_assoc (a b c : string) : ((a ++ b) ++ c)%string = (a ++ (b ++ c))%string.
Proof. induction a as [|x a IH]; [done|]. exact (f_equal (String x) IH). Qed.
Lemma string_app_nil_r (a : string) : (a ++ "")%string = a.
Proof. induction a as [|x a IH]; [done|]. exact (f_equal (String x) IH). Qed.
Lemma concat_strings_app l k :
  concat_strings (l ++ k) = (concat_strings l ++ concat_strings k)%string.
Proof.
  induction l as [|s l IH]; simpl; [done|]. by rewrite IH, string_app_assoc.
Qed.
Lemma str_is_empty_spec s : str_is_empty s = true ↔ s = EmptyString.
Proof. by destruct s. Qed.

(** ASCII case folding, byte by byte. *)
Definition ascii_lower (c : Ascii.ascii) : Ascii.ascii :=
  let n := Ascii.N_of_ascii c in
  if (65 <=? n)%N && (n <=? 90)%N then Ascii.ascii_of_N (n + 32) else c.
Fixpoint to_ascii_lowercase (s : string) : string :=
  match s with
  | EmptyString => EmptyString
  | String c s => String (ascii_lower c) (to_ascii_lowercase s)
  end.
Definition eq_ignore_ascii_case (a b : string) : bool :=
  bool_decide (to_ascii_lowercase a = to_ascii_lowercase b).

(** [str::starts_with], and [strip_suffix] of a final character. *)
Fixpoint starts_with (s p : string) : bool :=
  match p, s with
  | EmptyString, _ => true
  | String c p', String d s' => bool_decide (c = d) && starts_with s' p'
  | String _ _, EmptyString => false
  end.
Fixpoint strip_last (c : Ascii.ascii) (s : string) : option string :=
  match s with
  | EmptyString => None
  | String d EmptyString => if bool_decide (d = c) then Some EmptyString else None
  | String d s' => String d <$> strip_last c s'
  end.
Fixpoint count_char (c : Ascii.ascii) (s : string) : nat :=
  match s with
  | EmptyString => 0
  | String d s' => (if bool_decide (d = c) then 1 else 0) + count_char c s'
  end.

(** [split_once], [strip_prefix] and [chars().all] on ASCII classes. *)
Fixpoint split_once (c : Ascii.ascii) (s : string) : option (string * string) :=
  match s with
  | EmptyString => None
  | String d s' =>
      if bool_decide (d = c) then Some (EmptyString, s')
      else (λ p, (String d p.1, p.2)) <$> split_once c s'
  end.
Fixpoint strip_prefix (p s : string) : option string :=
  match p, s with
  | EmptyString, _ => Some s
  | String c p', String d s' => if bool_decide (c = d) then strip_prefix p' s' else None
  | String _ _, EmptyString => None
  end.
Fixpoint all_chars (f : Ascii.ascii → bool) (s : string) : bool :=
  match s with EmptyString => true | String c s' => f c && all_chars f s' end.

Lemma split_once_none c s : split_once c s = None ↔ count_char c s = 0.
Proof.
  induction s as [|d s IH]; simpl; [done|]. case_bool_decide; [by split; [|lia]|].
  by rewrite fmap_None, IH.
Qed.
Lemma split_once_some c s a b :
  split_once c s = Some (a, b) ↔ s = (a ++ String c b)%string ∧ count_char c a = 0.
Proof.
  revert a b. induction s as [|d s IH]; intros a b; simpl.
  { split; [done|]. intros [Heq _]. by destruct a. }
  case_bool_decide as Hd; subst.
  - split; [by intros [= <- <-]|]. destruct a as [|x a]; [by intros [[= ->] _]|].
    intros [Heq H0]. injection Heq as -> _. simpl in H0. by rewrite bool_decide_eq_true_2 in H0.
  - rewrite fmap_Some. split.
    + intros ([a' b'] & [-> H0]%IH & Heq). injection Heq as -> ->. simpl.
      by rewrite bool_decide_eq_false_2.
    + intros [Heq H0]. destruct a as [|x a]; injection Heq; [congruence|]. intros -> ->.
      exists (a, b). split; [|done]. apply IH. split; [done|]. simpl in H0. lia.
Qed.
Lemma strip_prefix_spec p s r : strip_prefix p s = Some r ↔ s = (p ++ r)%string.
Proof.
  revert s. induction p as [|c p IH]; intros s; simpl; [naive_solver|].
  destruct s as [|d s]; [split; [done|intros H; discriminate H]|].
  case_bool_decide; subst.
  - rewrite IH. split; [by intros ->|]. intros H'. by injection H'.
  - split; [done|]. intros H'. injection H'. congruence.
Qed.

Lemma starts_with_spec s p : starts_with s p = true ↔ ∃ r, s = (p ++ r)%string.
Proof.
  revert s. induction p as [|c p IH]; intros s; [split; [by exists s|by destruct s]|].
  destruct s as [|d s]; simpl.
  - split; [done|]. intros [r Hr]. discriminate Hr.
  - rewrite andb_true_iff, bool_decide_eq_true, IH. split.
    + intros [-> [r ->]]. by exists r.
    + intros [r Hr]. injection Hr as -> ->. eauto.
Qed.
Lemma starts_with_length s p : starts_with s p = true → String.length p ≤ String.length s.
Proof.
  revert s. induction p as [|c p IH]; intros s; [simpl; lia|].
  destruct s as [|d s]; simpl; [done|]. intros [_ H%IH]%andb_true_iff. lia.
Qed.
(** Two prefixes of one string with the same length are equal. *)
Lemma starts_with_same_length s p q :
  starts_with s p = true → starts_with s q = true → String.length p = String.length q → p = q.
Proof.
  revert s q. induction p as [|c p IH]; intros s q; destruct q as [|d q]; simpl; try done.
  destruct s as [|e s]; [done|]. simpl.
  intros [Hc%bool_decide_eq_true Hp]%andb_true_iff [Hd%bool_decide_eq_true Hq]%andb_true_iff [= Hl].
  subst. f_equal. by eapply IH.
Qed.

Lemma strip_last_spec c s p : strip_last c s = Some p ↔ s = (p ++ String c EmptyString)%string.
Proof.
  revert p. induction s as [|d s IH]; intros p; [split; [done|by destruct p]|].
  change (strip_last c (String d s)) with
    (match s with EmptyString => if bool_decide (d = c) then Some EmptyString else None
     | _ => String d <$> strip_last c s end).
  destruct s as [|d' s].
  - case_bool_decide; subst; (split; [try done|]).
    + by intros [= <-].
    + destruct p as [|x p]; [done|]. intros Heq. injection Heq as -> Heq. by destruct p.
    + destruct p as [|x p]; intros Heq; injection Heq; [congruence|]. by destruct p.
  - rewrite fmap_Some. split.
    + intros (q & Hq%IH & ->). by rewrite Hq.
    + destruct p as [|x p]; intros Heq; [discriminate Heq|]. injection Heq as -> Heq.
      exists p. split; [by apply IH|done].
Qed.
Lemma count_char_app c s t : count_char c (s ++ t) = count_char c s + count_char c t.
Proof. induction s as [|d s IH]; [done|]. change (String d s ++ t)%string with (String d (s ++ t)). simpl. lia. Qed.

Lemma omap_id_fmap {A B} (f : A → option B) (l : list A) : omap id (f <$> l) = omap f l.
Proof. induction l as [|x l IH]; [done|]. simpl. unfold id at 1. destruct (f x); [f_equal|]; exact IH. Qed.

(** A fold, by the elements it has consumed. *)
Lemma foldl_prefix {A B} (P : list A → B → Prop) (f : B → A → B) l a :
  P [] a → (∀ pre x b, x ∈ l → P pre b → P (pre ++ [x]) (f b x)) → P l (foldl f a l).
Proof.
  intros Ha Hf. assert (H : ∀ pre b, P pre b → P (pre ++ l) (foldl f b l)).
  { clear Ha. induction l as [|x l IH]; intros pre b Hb; simpl; [by rewrite app_nil_r|].
    replace (pre ++ x :: l) with ((pre ++ [x]) ++ l) by by rewrite <- app_assoc.
    apply IH; [intros; apply Hf; [by right|done]|]. apply Hf; [by left|done]. }
  by apply (H []).
Qed.

(** ** Stable sorting

    [slice::sort_by_key]: the stable order, here by insertion from the right,
    for a total preorder [leb]. *)
Section Sorting.
Context {A : Type} (leb : A → A → bool).
Fixpoint insert_by (x : A) (l : list A) : list A :=
  match l with
  | [] => [x]
  | y :: l' => if leb x y then x :: l else y :: insert_by x l'
  end.
Fixpoint sort_by (l : list A) : list A :=
  match l with [] => [] | x :: l' => insert_by x (sort_by l') end.

Lemma insert_by_perm x l : insert_by x l ≡ₚ x :: l.
Proof.
  induction l as [|y l IH]; simpl; [done|]. destruct (leb x y); [done|].
  rewrite IH. apply perm_swap.
Qed.
Lemma sort_by_perm l : sort_by l ≡ₚ l.
Proof. induction l as [|x l IH]; simpl; [done|]. by rewrite insert_by_perm, IH. Qed.

Fixpoint ascending (l : list A) : Prop :=
  match l with [] => True | x :: l' => Forall (λ y, leb x y = true) l' ∧ ascending l' end.

Context (leb_total : ∀ x y, leb x y = false → leb y x = true).
Context (leb_trans : ∀ x y z, leb x y = true → leb y z = true → leb x z = true).
Lemma ascending_insert_by x l : ascending l → ascending (insert_by x l).
Proof using leb_total leb_trans.
  induction l as [|y l IH]; simpl; [done|]. intros [Hy Hl].
  destruct (leb x y) eqn:Hxy; simpl.
  - split; [|done]. constructor; [done|]. eapply Forall_impl; [exact Hy|]. simpl. eauto.
  - split; [|by apply IH]. rewrite insert_by_perm. constructor; [auto|done].
Qed.
Lemma sort_by_ascending l : ascending (sort_by l).
Proof using leb_total leb_trans. induction l; simpl; [done|]. by apply ascending_insert_by. Qed.

(** The first element of a sorted list in a class is its least one. *)
Lemma ascending_find (P : A → Prop) `{∀ x, Decision (P x)} l i x :
  ascending l → list_find P l = Some (i, x) →
  P x ∧ x ∈ l ∧ ∀ y, y ∈ l → P y → x = y ∨ leb x y = true.
Proof.
  revert i. induction l as [|z l IH]; intros i; [done|]. intros [Hz Hl]. simpl. case_decide.
  - intros [= <- <-]. split_and!; [done|by left|]. intros y [->|Hy]%elem_of_cons _; [by left|].
    right. rewrite Forall_forall in Hz. by apply Hz.
  - intros ([j w] & Hf & Heq)%fmap_Some. simplify_eq/=. destruct (IH _ Hl Hf) as (HP & Hin & Hmin).
    split_and!; [done|by right|]. intros y [->|Hy]%elem_of_cons HPy; [done|by apply Hmin].
Qed.
End Sorting.

Section SortingByKey.
Context {A : Type} (key : A → nat).
(** [sort_by_key(key)], and [sort_by_key(|x| Reverse(key(x)))]. *)
Definition sort_by_key : list A → list A := sort_by (λ x y, key x <=? key y).
Definition sort_by_key_reverse : list A → list A := sort_by (λ x y, key y <=? key x).
Lemma sort_by_key_perm l : sort_by_key l ≡ₚ l.
Proof. apply sort_by_perm. Qed.
Lemma sort_by_key_reverse_perm l : sort_by_key_reverse l ≡ₚ l.
Proof. apply sort_by_perm. Qed.
Lemma sort_by_key_ascending l : ascending (λ x y, key x <=? key y) (sort_by_key l).
Proof. apply sort_by_ascending; intros *; rewrite ?Nat.leb_gt, ?Nat.leb_le; lia. Qed.
Lemma sort_by_key_reverse_ascending l : ascending (λ x y, key y <=? key x) (sort_by_key_reverse l).
Proof. apply sort_by_ascending; intros *; rewrite ?Nat.leb_gt, ?Nat.leb_le; lia. Qed.
End SortingByKey.

(** ** The lexicographic order of strings *)
Lemma ltb_trans a b c :
  String.ltb a b = true → String.ltb b c = true → String.ltb a c = true.
Proof.
  unfold String.ltb. revert b c. induction a as [|x a IH]; intros [|y b] [|z c]; simpl; try done.
  unfold Ascii.compare.
  destruct (N.compare_spec (Ascii.N_of_ascii x) (Ascii.N_of_ascii y)) as [Hxy|Hxy|Hxy]; [|intros _|done];
    destruct (N.compare_spec (Ascii.N_of_ascii y) (Ascii.N_of_ascii z)) as [Hyz|Hyz|Hyz]; try done;
    destruct (N.compare_spec (Ascii.N_of_ascii x) (Ascii.N_of_ascii z)) as [Hxz|Hxz|Hxz]; try done; try lia.
  apply IH.
Qed.
Lemma ltb_irrefl a : String.ltb a a = false.
Proof.
  unfold String.ltb. induction a as [|x a IH]; simpl; [done|]. unfold Ascii.compare.
  by rewrite N.compare_refl.
Qed.
Lemma ltb_total a b : String.ltb a b = false → String.ltb b a = false → a = b.
Proof.
  unfold String.ltb. rewrite (String.compare_antisym b a).
  destruct (String.compare a b) eqn:H; simpl; try done. intros _ _. by apply String.compare_eq_iff.
Qed.
Lemma leb_ltb a b : String.leb a b = negb (String.ltb b a).
Proof.
  unfold String.leb, String.ltb. rewrite (String.compare_antisym b a). by destruct (String.compare a b).
Qed.
Lemma string_leb_total a b : String.leb a b = false → String.leb b a = true.
Proof. intros H. by destruct (String.leb_total a b) as [|]; [congruence|]. Qed.
Lemma string_leb_trans a b c : String.leb a b = true → String.leb b c = true → String.leb a c = true.
Proof.
  rewrite !leb_ltb, !negb_true_iff. intros Hab Hbc.
  destruct (String.ltb c a) eqn:Hca; [|done].
  destruct (String.ltb a b) eqn:H; [by rewrite (ltb_trans _ _ _ Hca H) in Hbc|].
  assert (a = b) as -> by by apply ltb_total. congruence.
Qed.

(** ** Ordered maps

    A [BTreeMap<String, _>] is a finite map whose iterators follow the order of
    its keys, the lexicographic order of their bytes. *)
Section Entries.
Context {A : Type}.
Definition entries (m : gmap string A) : list (string * A) :=
  sort_by (λ p q, String.leb p.1 q.1) (map_to_list m).
Definition keys (m : gmap string A) : list string := (entries m).*1.

Lemma elem_of_entries m k x : (k, x) ∈ entries m ↔ m !! k = Some x.
Proof. unfold entries. by rewrite sort_by_perm, elem_of_map_to_list. Qed.
Lemma elem_of_keys m k : k ∈ keys m ↔ is_Some (m !! k).
Proof.
  unfold keys. rewrite list_elem_of_fmap. split.
  - intros ([k' x] & -> & ?%elem_of_entries). by exists x.
  - intros [x Hx]. exists (k, x). by rewrite elem_of_entries.
Qed.
Lemma entries_ascending m : ascending (λ p q : string * A, String.leb p.1 q.1) (entries m).
Proof.
  apply sort_by_ascending; intros *; [apply string_leb_total|apply string_leb_trans].
Qed.
Lemma NoDup_keys m : NoDup (keys m).
Proof. unfold keys, entries. rewrite sort_by_perm. apply NoDup_fst_map_to_list. Qed.
End Entries.

(** ** Option access *)
Definition unwrap_or {A} (d : A) (o : option A) : A := default d o.

(** ** Tactics *)
Ltac inv H := inversion H; clear H; simplify_eq.
(** Split every [match]/[if] of the goal or of a hypothesis, keeping equations. *)
Ltac split_matches := repeat (case_match; simplify_eq).
