(* ===== verification/Text.v ===== *)
(** * Trimming ([str::trim] of Rust's standard library)

    Strings are the bytes of their UTF-8 encoding, so a character of Unicode
    white space is one, two or three bytes. *)
From S2P Require Import Prelude.
#[local] Open Scope string_scope.
#[local] Open Scope list_scope.

(** The characters with the property White_Space: six of one byte, two of two
    and seventeen of three. *)
Definition white_space : list string :=
  let c l := foldr (λ n, String (Ascii.ascii_of_nat n)) EmptyString l in
  (c <$> [[9]; [10]; [11]; [12]; [13]; [32]; [194; 133]; [194; 160]; [225; 154; 128]]) ++
  ((λ n, c [226; 128; n]) <$> seq 128 11) ++
  (c <$> [[226; 128; 168]; [226; 128; 169]; [226; 128; 175]; [226; 129; 159]; [227; 128; 128]]).
Definition is_white (s : string) : bool := bool_decide (s ∈ white_space).

Fixpoint trim_start (s : string) : string :=
  match s with
  | EmptyString => EmptyString
  | String a s1 =>
      if is_white (String a "") then trim_start s1 else
      match s1 with
      | EmptyString => s
      | String b s2 =>
          if is_white (String a (String b "")) then trim_start s2 else
          match s2 with
          | EmptyString => s
          | String c s3 => if is_white (String a (String b (String c ""))) then trim_start s3 else s
          end
      end
  end.
(** No white space starts inside another character, so a suffix that is white
    space starts at a character. *)
Fixpoint trim_end (s : string) : string :=
  match s with
  | EmptyString => EmptyString
  | String a s' => if str_is_empty (trim_start s) then EmptyString else String a (trim_end s')
  end.
Definition trim (s : string) : string := trim_end (trim_start s).
(** [s.trim().is_empty()]. *)
Definition is_blank (s : string) : bool := str_is_empty (trim s).

(** ** What is trimmed *)

(** A sequence of white-space characters. *)
Definition spaces (s : string) : Prop :=
  ∃ l, Forall (λ c, is_white c = true) l ∧ s = foldr String.append EmptyString l.

Lemma spaces_nil : spaces "".
Proof. by exists []. Qed.
Lemma spaces_cons c s : is_white c = true → spaces s → spaces (c ++ s).
Proof. intros Hc (l & Hl & ->). exists (c :: l). split; [by constructor|done]. Qed.

Lemma trim_start_spec s : ∃ p, spaces p ∧ s = (p ++ trim_start s)%string.
Proof.
  induction s as [s IH] using (induction_ltof1 _ String.length). unfold ltof in IH.
  assert (Hcons : ∀ c r, is_white c = true → (String.length r < String.length s)%nat → s = (c ++ r)%string →
    trim_start s = trim_start r → ∃ p, spaces p ∧ s = (p ++ trim_start s)%string).
  { intros c r Hc Hlen Hs Ht. destruct (IH r Hlen) as (p & Hp & Hr).
    exists (c ++ p)%string. split; [by apply spaces_cons|]. by rewrite string_app_assoc, Ht, <- Hr. }
  assert (Hstop : trim_start s = s → ∃ p, spaces p ∧ s = (p ++ trim_start s)%string).
  { intros ->. exists EmptyString. split; [apply spaces_nil|done]. }
  destruct s as [|a s1]; [by apply Hstop|]. simpl in *.
  destruct (is_white (String a "")) eqn:H1; [by apply (Hcons (String a "") s1); auto with arith|].
  destruct s1 as [|b s2]; [by apply Hstop|].
  destruct (is_white (String a (String b ""))) eqn:H2; [by apply (Hcons (String a (String b "")) s2); auto with arith|].
  destruct s2 as [|c s3]; [by apply Hstop|].
  destruct (is_white (String a (String b (String c "")))) eqn:H3;
    [by apply (Hcons (String a (String b (String c ""))) s3); auto with arith|by apply Hstop].
Qed.

Lemma trim_end_spec s : ∃ q, spaces q ∧ s = (trim_end s ++ q)%string.
Proof.
  induction s as [|a s IH]; [by exists EmptyString; split; [apply spaces_nil|]|]. cbn [trim_end].
  destruct (str_is_empty (trim_start (String a s))) eqn:He.
  - apply str_is_empty_spec in He. destruct (trim_start_spec (String a s)) as (p & Hp & Hs).
    rewrite He, string_app_nil_r in Hs. exists p. by rewrite Hs.
  - destruct IH as (q & Hq & Hs). exists q. split; [done|]. exact (f_equal (String a) Hs).
Qed.

(** Trimming takes white space off both ends, and nothing else. *)
Lemma trim_spec s : ∃ p q, spaces p ∧ spaces q ∧ s = (p ++ trim s ++ q)%string.
Proof.
  destruct (trim_start_spec s) as (p & Hp & Hs). destruct (trim_end_spec (trim_start s)) as (q & Hq & Ht).
  exists p, q. split_and!; [done..|]. unfold trim. rewrite <- Ht. done.
Qed.
