(* ===== verification/Json.v ===== *)
(** * JSON values

    The providers read upstream payloads through [serde_json::Value], which is
    a third-party type: the development is parametric in it.  [JsonApi] lists
    the accessors the source calls ([get], [as_str], [as_u64], [as_array],
    [is_null], [from_str]); [JsonLaws] the one documented fact the code relies
    on ([as_u64] returns an unsigned 64-bit integer); [JsonValues] lists the
    constructors and [JsonValueLaws] that the accessors read them back.  [TreeJson] is a concrete
    instance, used to evaluate the definitions on concrete payloads. *)
From S2P Require Import Prelude.

Class JsonApi := {
  value : Type;
  (** [serde_json::from_str], with the error's text on failure. *)
  from_str : string → result value string;
  (** [Value::get] with a string key: [None] unless an object with that key. *)
  get : string → value → option value;
  as_str : value → option string;
  as_u64 : value → option Z;
  as_array : value → option (list value);
  is_null : value → bool;
  (** [Value::to_string]. *)
  to_json_string : value → string;
}.

(** The constructors of [Value] the source uses: [Null], [String], [Array] and
    [Object], the latter with the fields of a [json!] literal. *)
Class JsonValues (J : JsonApi) := {
  json_null : value;
  json_string : string → value;
  json_array : list value → value;
  json_object : list (string * value) → value;
}.

(** The accessors read the constructors back. *)
Class JsonValueLaws (J : JsonApi) `{V : !JsonValues J} : Prop := {
  as_str_string : ∀ s, as_str (json_string s) = Some s;
  as_str_array : ∀ l, as_str (json_array l) = None;
  as_str_null : as_str json_null = None;
  as_array_array : ∀ l, as_array (json_array l) = Some l;
  as_array_string : ∀ s, as_array (json_string s) = None;
  as_array_null : as_array json_null = None;
  is_null_null : is_null json_null = true;
  is_null_string : ∀ s, is_null (json_string s) = false;
  is_null_array : ∀ l, is_null (json_array l) = false;
}.

Class JsonLaws (J : JsonApi) : Prop := {
  as_u64_range : ∀ v n, as_u64 v = Some n → is_u64 n;
}.

(** [v.get(a).and_then(|x| x.get(b))] and the like. *)
Definition get2 `{JsonApi} (a b : string) (v : value) : option value :=
  get a v ≫= get b.
Definition get_str `{JsonApi} (k : string) (v : value) : option string :=
  get k v ≫= as_str.
Definition get_u64 `{JsonApi} (k : string) (v : value) : option Z :=
  get k v ≫= as_u64.
Definition get_array `{JsonApi} (k : string) (v : value) : option (list value) :=
  get k v ≫= as_array.

(** ** A concrete instance *)
Inductive tree : Type :=
| TNull
| TBool (b : bool)
| TNum (n : N)
| TStr (s : string)
| TArr (l : list tree)
| TObj (fields : list (string * tree)).

Definition tree_get (k : string) (t : tree) : option tree :=
  match t with
  | TObj fs => (λ p, p.2.2) <$> list_find (λ f, f.1 = k) fs
  | _ => None
  end.

Section TreeJson.
(** The parser of the instance is a table of the documents under test. *)
Variable parse_table : list (string * tree).

Definition tree_from_str (s : string) : result tree string :=
  match list_find (λ f, f.1 = s) parse_table with
  | Some (_, f) => Ok f.2
  | None => Err "expected value"%string
  end.

Definition TreeJson : JsonApi := {|
  value := tree;
  from_str := tree_from_str;
  get := tree_get;
  as_str t := match t with TStr s => Some s | _ => None end;
  as_u64 t := match t with
              | TNum n => if (Z.of_N n <=? u64_max)%Z then Some (Z.of_N n) else None
              | _ => None end;
  as_array t := match t with TArr l => Some l | _ => None end;
  is_null t := match t with TNull => true | _ => false end;
  to_json_string t := "{}"%string;
|}.

#[export] Instance TreeJson_values : JsonValues TreeJson :=
  @Build_JsonValues TreeJson TNull TStr TArr TObj.
#[export] Instance TreeJson_value_laws : JsonValueLaws TreeJson.
Proof. by split. Qed.
Lemma TreeJson_laws : JsonLaws TreeJson.
Proof.
  split. intros v n. simpl. destruct v; try done.
  destruct (Z.leb_spec (Z.of_N n0) u64_max); intros [= <-].
  unfold is_u64. lia.
Qed.
End TreeJson.
