(* ===== verification/CoreTypes.v ===== *)
(** * The canonical stream types (crates/core)

    The events every provider parser produces and every frontend encoder
    consumes ([stream.rs]), token usage and stop reasons ([usage.rs]), safety
    ratings ([safety.rs]), stream errors ([error.rs]) and the stop-reason and
    role mappings of [mapping/anthropic_wire.rs]. *)
From S2P Require Import Prelude Json.

(** ** Enumerations *)
Inductive MessageRole := User | Assistant | Tool | System.

Inductive ContentBlockKind :=
| Text | ToolCall | Reasoning | RedactedReasoning | Image | Audio.

Inductive StopReason :=
| EndTurn | MaxTokens | ToolUse | StopSequence | ContentFilter
| OtherReason (s : string).

Inductive StreamError :=
| UpstreamError (s : string)
| DecodeError (s : string)
| EncodeError (s : string)
| ClientDisconnected
| StreamTimeout.

Inductive SafetyCategory :=
| HateSpeech | Harassment | DangerousContent | SexuallyExplicit
| OtherCategory (s : string).

Inductive SafetyLevel :=
| Negligible | Low | Medium | High
| OtherLevel (s : string).

#[export] Instance MessageRole_eq_dec : EqDecision MessageRole.
Proof. solve_decision. Defined.
#[export] Instance ContentBlockKind_eq_dec : EqDecision ContentBlockKind.
Proof. solve_decision. Defined.
#[export] Instance StopReason_eq_dec : EqDecision StopReason.
Proof. solve_decision. Defined.
#[export] Instance StreamError_eq_dec : EqDecision StreamError.
Proof. solve_decision. Defined.
#[export] Instance SafetyCategory_eq_dec : EqDecision SafetyCategory.
Proof. solve_decision. Defined.
#[export] Instance SafetyLevel_eq_dec : EqDecision SafetyLevel.
Proof. solve_decision. Defined.

Record SafetyRating := {
  category : SafetyCategory;
  probability : SafetyLevel;
}.

(** ** Usage and events *)
Section Events.
Context `{J : JsonApi}.

Record Usage := {
  input_tokens : option Z;
  output_tokens : option Z;
  cache_creation_input_tokens : option Z;
  cache_read_input_tokens : option Z;
  reasoning_tokens : option Z;
  estimated : bool;
  provider_raw : option value;
  safety_ratings : option (list SafetyRating);
}.

(** [Usage::default()]. *)
Definition default_usage : Usage := {|
  input_tokens := None; output_tokens := None;
  cache_creation_input_tokens := None; cache_read_input_tokens := None;
  reasoning_tokens := None; estimated := false;
  provider_raw := None; safety_ratings := None |}.

Record RawProviderEventData := {
  raw_provider : string;
  raw_event_name : string;
  raw_data : value;
}.

(** The canonical stream events, with the fields in source order. *)
Inductive StreamEvent :=
| ResponseStart (id model : string) (created_at_unix : Z)
| MessageStart (role : MessageRole)
| ContentBlockStart (index : Z) (kind : ContentBlockKind)
| TextDelta (index : Z) (text : string)
| ReasoningDelta (index : Z) (text : string)
| ToolCallStart (index : Z) (id name : string)
| ToolCallArgumentsDelta (index : Z) (json_fragment : string)
| ToolCallStop (index : Z)
| ContentBlockStop (index : Z)
| UsageDelta (usage : Usage)
| MessageStop (stop_reason : StopReason) (stop_sequence : option string)
| ResponseStop (usage : option Usage)
| ErrorEvent (message : string)
| RawProviderEvent (d : RawProviderEventData).

(** The text carried by the text deltas, resp. reasoning and argument deltas. *)
Definition text_of (e : StreamEvent) : string :=
  match e with TextDelta _ t => t | _ => EmptyString end.
Definition reasoning_of (e : StreamEvent) : string :=
  match e with ReasoningDelta _ t => t | _ => EmptyString end.
Definition arguments_of (e : StreamEvent) : string :=
  match e with ToolCallArgumentsDelta _ t => t | _ => EmptyString end.
End Events.
Arguments Usage {J}.
Arguments StreamEvent {J}.

Definition all_text `{JsonApi} (l : list StreamEvent) : string :=
  concat_strings (text_of <$> l).
Definition all_reasoning `{JsonApi} (l : list StreamEvent) : string :=
  concat_strings (reasoning_of <$> l).

Lemma all_text_app `{JsonApi} l k : all_text (l ++ k) = (all_text l ++ all_text k)%string.
Proof. unfold all_text. by rewrite fmap_app, concat_strings_app. Qed.
Lemma all_reasoning_app `{JsonApi} l k :
  all_reasoning (l ++ k) = (all_reasoning l ++ all_reasoning k)%string.
Proof. unfold all_reasoning. by rewrite fmap_app, concat_strings_app. Qed.

(** ** Stop-reason and role mappings *)
#[local] Open Scope string_scope.

(** [StopReason::from_provider_string]. *)
Definition from_provider_string (s : string) : StopReason :=
  if bool_decide (s = "end_turn" ∨ s = "stop") then EndTurn
  else if bool_decide (s = "max_tokens" ∨ s = "length") then MaxTokens
  else if bool_decide (s = "tool_use" ∨ s = "tool_calls") then ToolUse
  else if bool_decide (s = "stop_sequence") then StopSequence
  else if bool_decide (s = "content_filter") then ContentFilter
  else OtherReason s.

Definition stop_reason_to_anthropic (r : StopReason) : string :=
  match r with
  | EndTurn => "end_turn"
  | MaxTokens => "max_tokens"
  | ToolUse => "tool_use"
  | StopSequence => "stop_sequence"
  | ContentFilter => "content_filter"
  | OtherReason _ => "end_turn"
  end.

Definition stop_reason_from_anthropic (s : string) : StopReason :=
  if bool_decide (s = "end_turn") then EndTurn
  else if bool_decide (s = "max_tokens") then MaxTokens
  else if bool_decide (s = "tool_use") then ToolUse
  else if bool_decide (s = "stop_sequence") then StopSequence
  else if bool_decide (s = "content_filter") then ContentFilter
  else OtherReason s.

Definition role_to_anthropic (role : MessageRole) : string :=
  match role with
  | User => "user" | Assistant => "assistant" | Tool => "user" | System => "system"
  end.

Definition role_from_anthropic (s : string) : option MessageRole :=
  if bool_decide (s = "user") then Some User
  else if bool_decide (s = "assistant") then Some Assistant
  else if bool_decide (s = "system") then Some System
  else None.

(** [finish_reason_from_canonical] of the OpenAI Chat frontend. *)
Definition finish_reason_from_canonical (r : StopReason) : string :=
  match r with
  | EndTurn => "stop"
  | MaxTokens => "length"
  | ToolUse => "tool_calls"
  | ContentFilter => "content_filter"
  | StopSequence => "stop"
  | OtherReason _ => "stop"
  end.

(** [status_from_stop_reason] of the OpenAI Responses frontend. *)
Definition status_from_stop_reason (r : StopReason) : string :=
  match r with ContentFilter => "incomplete" | _ => "completed" end.

(** [StreamError]'s [Display]. *)
Definition show_stream_error (e : StreamError) : string :=
  match e with
  | UpstreamError s => "upstream error: " ++ s
  | DecodeError s => "decode error: " ++ s
  | EncodeError s => "encode error: " ++ s
  | ClientDisconnected => "client disconnected"
  | StreamTimeout => "timeout"
  end.

(** ** Safety ratings: wire strings *)
Definition category_from_string (s : string) : SafetyCategory :=
  if bool_decide (s = "HARM_CATEGORY_HATE_SPEECH") then HateSpeech
  else if bool_decide (s = "HARM_CATEGORY_HARASSMENT") then Harassment
  else if bool_decide (s = "HARM_CATEGORY_DANGEROUS_CONTENT") then DangerousContent
  else if bool_decide (s = "HARM_CATEGORY_SEXUALLY_EXPLICIT") then SexuallyExplicit
  else OtherCategory s.

Definition category_to_string (c : SafetyCategory) : string :=
  match c with
  | HateSpeech => "HARM_CATEGORY_HATE_SPEECH"
  | Harassment => "HARM_CATEGORY_HARASSMENT"
  | DangerousContent => "HARM_CATEGORY_DANGEROUS_CONTENT"
  | SexuallyExplicit => "HARM_CATEGORY_SEXUALLY_EXPLICIT"
  | OtherCategory s => s
  end.

Definition level_from_string (s : string) : SafetyLevel :=
  if bool_decide (s = "NEGLIGIBLE") then Negligible
  else if bool_decide (s = "LOW") then Low
  else if bool_decide (s = "MEDIUM") then Medium
  else if bool_decide (s = "HIGH") then High
  else OtherLevel s.

Definition level_to_string (l : SafetyLevel) : string :=
  match l with
  | Negligible => "NEGLIGIBLE" | Low => "LOW" | Medium => "MEDIUM" | High => "HIGH"
  | OtherLevel s => s
  end.

(** Every wire string survives parsing and printing: the enums are open. *)
Lemma category_roundtrip s : category_to_string (category_from_string s) = s.
Proof. unfold category_from_string. repeat case_bool_decide; by subst. Qed.
Lemma level_roundtrip s : level_to_string (level_from_string s) = s.
Proof. unfold level_from_string. repeat case_bool_decide; by subst. Qed.

(** The OpenAI finish reason of a canonical reason, read back: the identity
    except where the dialect has no word of its own. *)
Definition chat_reason_image (r : StopReason) : StopReason :=
  match r with StopSequence | OtherReason _ => EndTurn | _ => r end.
