(* ===== verification/Emit.v ===== *)
(** * Emitter programs and their monitors

    The parsers are methods [fn f(&mut self, .., out: &mut Vec<Event>)]: they
    update a state and append events.  [emit S E A] is that shape as a monad
    (stdpp's [MRet]/[MBind]), with [push] for [out.push(..)], [gets]/[modify]
    for the fields and [for_each] for the loops.

    A monitor is a partial function on ghost states fed with the emitted
    events.  [wp chk m Q s g] says that [m], started in [s], emits only events
    the monitor accepts from [g], and ends in a state satisfying [Q].  The
    lifecycle validator, text accumulators and counters are all monitors, so
    one set of rules serves all the invariants of the parsers. *)
From S2P Require Import Prelude.

Definition emit (S E A : Type) : Type := S → A * S * list E.

#[export] Instance emit_ret {S E} : MRet (emit S E) := λ A a s, (a, s, []).
#[export] Instance emit_bind {S E} : MBind (emit S E) := λ A B f m s,
  let '(a, s1, l1) := m s in
  let '(b, s2, l2) := f a s1 in (b, s2, l1 ++ l2).

Section Operations.
Context {S E : Type}.

Definition push (e : E) : emit S E unit := λ s, (tt, s, [e]).
Definition gets {A} (f : S → A) : emit S E A := λ s, (f s, s, []).
Definition modify (f : S → S) : emit S E unit := λ s, (tt, f s, []).
Definition when (b : bool) (m : emit S E unit) : emit S E unit :=
  if b then m else mret tt.

Fixpoint for_each {A} (l : list A) (f : A → emit S E unit) : emit S E unit :=
  match l with
  | [] => mret tt
  | x :: l' => f x ;; for_each l' f
  end.

(** The three components of an execution. *)
Definition answer {A} (m : emit S E A) (s : S) : A := (m s).1.1.
Definition final {A} (m : emit S E A) (s : S) : S := (m s).1.2.
Definition emitted {A} (m : emit S E A) (s : S) : list E := (m s).2.
End Operations.

(** Run a method of a field: [self.field.method(out)]. *)
Definition zoom {S T E A} (proj : S → T) (upd : T → S → S) (m : emit T E A) : emit S E A :=
  λ s, let '(a, t, l) := m (proj s) in (a, upd t s, l).

(** Emissions compose by concatenation. *)
Lemma emitted_bind {S E A B} (m : emit S E A) (f : A → emit S E B) s :
  emitted (m ≫= f) s = emitted m s ++ emitted (f (answer m s)) (final m s).
Proof.
  unfold emitted, answer, final, mbind, emit_bind.
  destruct (m s) as [[a s1] l1]; simpl. by destruct (f a s1) as [[b s2] l2].
Qed.

Lemma answer_bind {S E A B} (m : emit S E A) (f : A → emit S E B) s :
  answer (m ≫= f) s = answer (f (answer m s)) (final m s).
Proof.
  unfold answer, final, mbind, emit_bind.
  destruct (m s) as [[a s1] l1]; simpl. by destruct (f a s1) as [[b s2] l2].
Qed.
Lemma final_bind {S E A B} (m : emit S E A) (f : A → emit S E B) s :
  final (m ≫= f) s = final (f (answer m s)) (final m s).
Proof.
  unfold answer, final, mbind, emit_bind.
  destruct (m s) as [[a s1] l1]; simpl. by destruct (f a s1) as [[b s2] l2].
Qed.

Lemma emitted_push_bind {S E B} (e : E) (m : emit S E B) s :
  emitted (push e;; m) s = e :: emitted m s.
Proof. unfold emitted, mbind, emit_bind; simpl. by destruct (m s) as [[b s2] l2]. Qed.
Lemma emitted_gets_bind {S E A B} (f : S → A) (m : A → emit S E B) s :
  emitted (gets f ≫= m) s = emitted (m (f s)) s.
Proof. unfold emitted, mbind, emit_bind; simpl. by destruct (m (f s) s) as [[b s2] l2]. Qed.

Lemma for_each_app {S E A} (l k : list A) (f : A → emit S E unit) s :
  emitted (for_each (l ++ k) f) s =
    emitted (for_each l f) s ++ emitted (for_each k f) (final (for_each l f) s) ∧
  final (for_each (l ++ k) f) s = final (for_each k f) (final (for_each l f) s).
Proof.
  revert s. induction l as [|x l IH]; intros s; [done|]. simpl.
  rewrite !emitted_bind, !final_bind. destruct (IH (final (f x) s)) as [-> ->].
  by rewrite app_assoc.
Qed.

(** ** Monitors *)
Section Monitor.
Context {G E : Type} (chk : G → E → option G).

Fixpoint monitor (g : G) (l : list E) : option G :=
  match l with
  | [] => Some g
  | e :: l' => chk g e ≫= λ g', monitor g' l'
  end.

Lemma monitor_app g l k : monitor g (l ++ k) = monitor g l ≫= λ g', monitor g' k.
Proof.
  revert g. induction l as [|e l IH]; intros g; simpl; [done|].
  destruct (chk g e); simpl; [apply IH|done].
Qed.

Lemma monitor_cons e g g' l : chk g e = Some g' → monitor g (e :: l) = monitor g' l.
Proof. simpl. by intros ->. Qed.

Definition wp {S A} (m : emit S E A) (Q : A → S → G → Prop) (s : S) (g : G) : Prop :=
  match monitor g (emitted m s) with
  | Some g' => Q (answer m s) (final m s) g'
  | None => False
  end.

Context {S : Type}.
Implicit Types (s : S) (g : G).

Lemma wp_ret {A} (a : A) Q s g : Q a s g → wp (mret a) Q s g.
Proof. done. Qed.

Lemma wp_bind {A B} (m : emit S E A) (f : A → emit S E B) Q s g :
  wp m (λ a, wp (f a) Q) s g → wp (m ≫= f) Q s g.
Proof.
  unfold wp, emitted, answer, final, mbind, emit_bind.
  destruct (m s) as [[a s1] l1]; simpl.
  destruct (f a s1) as [[b s2] l2]; simpl. rewrite monitor_app.
  by destruct (monitor g l1).
Qed.

Lemma wp_push e Q s g g' : chk g e = Some g' → Q tt s g' → wp (push e) Q s g.
Proof. intros H HQ. unfold wp, emitted; simpl. by rewrite H. Qed.

Lemma wp_gets {A} (f : S → A) Q s g : Q (f s) s g → wp (gets f) Q s g.
Proof. done. Qed.

Lemma wp_modify f Q s g : Q tt (f s) g → wp (modify f) Q s g.
Proof. done. Qed.

Lemma wp_mono {A} (m : emit S E A) (Q Q' : A → S → G → Prop) s g :
  wp m Q s g → (∀ a s' g', Q a s' g' → Q' a s' g') → wp m Q' s g.
Proof. unfold wp. destruct (monitor g (emitted m s)); auto. Qed.

Lemma wp_when (b : bool) m Q s g :
  (b = true → wp m Q s g) → (b = false → Q tt s g) → wp (when b m) Q s g.
Proof. destruct b; simpl; auto using wp_ret. Qed.

Lemma wp_for_each {A} (l : list A) (f : A → emit S E unit) (I : list A → S → G → Prop) s g :
  I l s g →
  (∀ x l' s g, I (x :: l') s g → wp (f x) (λ _, I l') s g) →
  wp (for_each l f) (λ _, I []) s g.
Proof.
  intros HI Hf. revert s g HI. induction l as [|x l IH]; intros s g HI; simpl.
  - by apply wp_ret.
  - apply wp_bind. eapply wp_mono; [by apply Hf|]. intros [] s' g' H. by apply IH.
Qed.

(** An execution judged by [wp] produces an accepted list. *)
Lemma wp_elim {A} (m : emit S E A) Q s g :
  wp m Q s g →
  ∃ g', monitor g (emitted m s) = Some g' ∧ Q (answer m s) (final m s) g'.
Proof. unfold wp. destruct (monitor g (emitted m s)); eauto. done. Qed.

Lemma wp_intro {A} (m : emit S E A) (Q : A → S → G → Prop) s g g' :
  monitor g (emitted m s) = Some g' → Q (answer m s) (final m s) g' → wp m Q s g.
Proof. unfold wp. by intros ->. Qed.
End Monitor.

Lemma wp_zoom {G E S T A} (chk : G → E → option G) (proj : S → T) (upd : T → S → S)
    (m : emit T E A) (Q : A → S → G → Prop) s g :
  wp chk m (λ a t, Q a (upd t s)) (proj s) g → wp chk (zoom proj upd m) Q s g.
Proof.
  unfold wp, zoom, emitted, answer, final. by destruct (m (proj s)) as [[a t] l].
Qed.

(** ** Grammars

    A protocol is a partial function on phases; a loop over the items of a
    message follows the grammar when its body does. *)
Fixpoint steps {P A} (step : P → A → option P) (p : P) (l : list A) : option P :=
  match l with [] => Some p | x :: l' => step p x ≫= λ p', steps step p' l' end.

Lemma steps_invariant {P A} (step : P → A → option P) (I : P → Prop) l p p' :
  (∀ x p p', I p → step p x = Some p' → I p') → I p → steps step p l = Some p' → I p'.
Proof.
  intros Hstep. revert p. induction l as [|x l IH]; intros p Hp; simpl; [congruence|].
  destruct (step p x) as [q|] eqn:Hq; [|done]. simpl. apply IH. by eapply Hstep.
Qed.

Lemma wp_for_each_steps {P A G E S} (chk : G → E → option G) (step : P → A → option P)
    (f : A → emit S E unit) (I : P → S → G → Prop) l p p' s g :
  (∀ x p p' s g, step p x = Some p' → I p s g → wp chk (f x) (λ _, I p') s g) →
  steps step p l = Some p' → I p s g → wp chk (for_each l f) (λ _, I p') s g.
Proof.
  intros Hf Hp Hi.
  apply (wp_mono _ _ (λ _ s' g', ∃ q, steps step q [] = Some p' ∧ I q s' g')).
  - apply (wp_for_each chk l f (λ l s' g', ∃ q, steps step q l = Some p' ∧ I q s' g')); [eauto|].
    intros x l' s' g' (q & Hq & Hi'). simpl in Hq.
    destruct (step q x) as [q'|] eqn:Hqx; [|done]. eapply wp_mono; [by eapply Hf|]. eauto.
  - intros [] s' g' (q & [= ->] & Hi'). done.
Qed.

(** A monitor of events, on streams of results: errors are ignored. *)
Definition on_ok {G E F} (chk : G → E → option G) (g : G) (i : result E F) : option G :=
  match i with Ok e => chk g e | Err _ => Some g end.

Lemma oks_Ok {E F} (l : list E) : oks (Ok (E := F) <$> l) = l.
Proof. induction l; csimpl; [done|]. unfold oks in *. simpl. by f_equal. Qed.
Lemma oks_app {E F} (l k : list (result E F)) : oks (l ++ k) = oks l ++ oks k.
Proof. apply omap_app. Qed.
Lemma monitor_on_ok {G E F} (chk : G → E → option G) g (l : list (result E F)) :
  monitor (on_ok chk) g l = monitor chk g (oks l).
Proof.
  revert g. induction l as [|[e|f] l IH]; intros g; simpl; [done| |apply IH].
  destruct (chk g e); simpl; [apply IH|done].
Qed.

(** One step of symbolic execution. *)
Ltac wp_step :=
  lazymatch goal with
  | |- wp _ (mbind _ _) _ _ _ => apply wp_bind
  | |- wp _ (mret _) _ _ _ => apply wp_ret
  | |- wp _ (gets _) _ _ _ => apply wp_gets
  | |- wp _ (modify _) _ _ _ => apply wp_modify
  | |- wp _ (zoom _ _ _) _ _ _ => apply wp_zoom
  | |- wp _ (when _ _) _ _ _ => apply wp_when; intros ?
  end.
Ltac wp_steps := repeat (wp_step; simpl).

(** ** What a program says

    [says h m x]: whatever the state, the contents [h] of the events emitted by
    [m] spell the string [x].  Used to prove that no content is lost. *)
Section Says.
Context {S E : Type} (h : E → string).

Definition says {A} (m : emit S E A) (x : string) : Prop :=
  ∀ s, concat_strings (h <$> emitted m s) = x.

Lemma says_ret {A} (a : A) : says (mret a) EmptyString.
Proof. done. Qed.
Lemma says_gets {A} (f : S → A) : says (gets f) EmptyString.
Proof. done. Qed.
Lemma says_modify f : says (modify f) EmptyString.
Proof. done. Qed.
Lemma says_push e : says (push e) (h e).
Proof. intros s. apply string_app_nil_r. Qed.
Lemma says_bind {A B} (m : emit S E A) (f : A → emit S E B) x y :
  says m x → (∀ a, says (f a) y) → says (m ≫= f) (x ++ y)%string.
Proof.
  intros Hm Hf s. rewrite emitted_bind, fmap_app, concat_strings_app, Hm. by rewrite Hf.
Qed.
Lemma says_when b m x : says m x → says (when b m) (if b then x else EmptyString).
Proof. by destruct b. Qed.
Lemma says_for_each {A} (l : list A) (f : A → emit S E unit) (x : A → string) :
  (∀ a, says (f a) (x a)) → says (for_each l f) (concat_strings (x <$> l)).
Proof.
  intros Hf. induction l as [|a l IH]; csimpl; [apply says_ret|].
  by apply says_bind; [apply Hf|].
Qed.
Lemma says_eq {A} (m : emit S E A) x y : says m x → x = y → says m y.
Proof. by intros ? ->. Qed.

(** One speaking part among silent ones. *)
Lemma says_bind_l {A B} (m : emit S E A) (f : A → emit S E B) x :
  says m x → (∀ a, says (f a) EmptyString) → says (m ≫= f) x.
Proof. intros. rewrite <- (string_app_nil_r x). by apply says_bind. Qed.
Lemma says_bind_r {A B} (m : emit S E A) (f : A → emit S E B) x :
  says m EmptyString → (∀ a, says (f a) x) → says (m ≫= f) x.
Proof. intros. by apply (says_bind m f EmptyString x). Qed.

(** Silent programs. *)
Lemma silent_bind {A B} (m : emit S E A) (f : A → emit S E B) :
  says m EmptyString → (∀ a, says (f a) EmptyString) → says (m ≫= f) EmptyString.
Proof. intros. by apply (says_bind m f EmptyString EmptyString). Qed.
Lemma silent_when b m : says m EmptyString → says (when b m) EmptyString.
Proof. by destruct b. Qed.
Lemma silent_for_each {A} (l : list A) (f : A → emit S E unit) :
  (∀ a, says (f a) EmptyString) → says (for_each l f) EmptyString.
Proof.
  intros Hf. induction l as [|a l IH]; simpl; [apply says_ret|]. by apply silent_bind.
Qed.
Lemma silent_push e : h e = EmptyString → says (push e) EmptyString.
Proof. intros <-. apply says_push. Qed.
Lemma says_zoom {T A} (proj : T → S) upd (m : emit S E A) x s :
  says m x → concat_strings (h <$> emitted (zoom proj upd m) s) = x.
Proof. intros Hm. rewrite <- (Hm (proj s)). unfold zoom, emitted. by destruct (m (proj s)) as [[a t] l]. Qed.
End Says.

(** Prove that a program whose control flow is visible says nothing. *)
Ltac silent :=
  repeat first
    [ apply says_ret | apply says_gets | apply says_modify
    | apply silent_push; done
    | apply silent_bind; [|intros ?]
    | apply silent_when
    | apply silent_for_each; intros ?
    | assumption
    | case_match ].

(** ** What a program may emit *)
Section Emits.
Context {S E : Type} (P : E → Prop).

Definition emits {A} (m : emit S E A) : Prop := ∀ s, Forall P (emitted m s).

Lemma emits_ret {A} (a : A) : emits (mret a).
Proof. intros s. constructor. Qed.
Lemma emits_gets {A} (f : S → A) : emits (gets f).
Proof. intros s. constructor. Qed.
Lemma emits_modify f : emits (modify f).
Proof. intros s. constructor. Qed.
Lemma emits_push e : P e → emits (push e).
Proof. intros He s. by repeat constructor. Qed.
Lemma emits_bind {A B} (m : emit S E A) (f : A → emit S E B) :
  emits m → (∀ a, emits (f a)) → emits (m ≫= f).
Proof. intros Hm Hf s. rewrite emitted_bind. apply Forall_app. split; [apply Hm|apply Hf]. Qed.
Lemma emits_when b m : emits m → emits (when b m).
Proof. destruct b; [done|]. intros _. apply emits_ret. Qed.
Lemma emits_for_each {A} (l : list A) (f : A → emit S E unit) :
  (∀ a, emits (f a)) → emits (for_each l f).
Proof.
  intros Hf. induction l as [|a l IH]; simpl; [apply emits_ret|]. by apply emits_bind.
Qed.
End Emits.

(** Prove that a program whose control flow is visible emits only good events. *)
Ltac emits :=
  repeat first
    [ apply emits_ret | apply emits_gets | apply emits_modify
    | apply emits_push; done
    | apply emits_bind; [|intros ?]
    | apply emits_when
    | apply emits_for_each; intros ?
    | assumption
    | case_match ].

(** ** What a program's events add up to

    As [says], in lists: whatever the state, the contents [h] of the events
    emitted by [m] are [x]. *)
Section Collects.
Context {S E B : Type} (h : E → list B).

Definition collects {A} (m : emit S E A) (x : list B) : Prop := ∀ s, emitted m s ≫= h = x.

Lemma collects_ret {A} (a : A) : collects (mret a) [].
Proof. done. Qed.
Lemma collects_gets {A} (f : S → A) : collects (gets f) [].
Proof. done. Qed.
Lemma collects_modify f : collects (modify f) [].
Proof. done. Qed.
Lemma collects_push e : collects (push e) (h e).
Proof. intros s. apply app_nil_r. Qed.
Lemma collects_push_nil e : h e = [] → collects (push e) [].
Proof. intros <-. apply collects_push. Qed.
Lemma collects_bind {A C} (m : emit S E A) (f : A → emit S E C) x y :
  collects m x → (∀ a, collects (f a) y) → collects (m ≫= f) (x ++ y).
Proof. intros Hm Hf s. by rewrite emitted_bind, bind_app, Hm, Hf. Qed.
Lemma collects_then {A C} (m : emit S E A) (f : A → emit S E C) y :
  collects m [] → (∀ a, collects (f a) y) → collects (m ≫= f) y.
Proof. apply (collects_bind m f [] y). Qed.
Lemma collects_and_nothing {A C} (m : emit S E A) (f : A → emit S E C) x :
  collects m x → (∀ a, collects (f a) []) → collects (m ≫= f) x.
Proof. intros. rewrite <- (app_nil_r x). by apply collects_bind. Qed.
Lemma collects_when_nil b m : collects m [] → collects (when b m) [].
Proof. by destruct b. Qed.
Lemma collects_for_each {A} (l : list A) (f : A → emit S E unit) (x : A → list B) :
  (∀ a, collects (f a) (x a)) → collects (for_each l f) (l ≫= x).
Proof. intros Hf. induction l as [|a l IH]; csimpl; [apply collects_ret|]. by apply collects_bind. Qed.
Lemma collects_for_each_nil {A} (l : list A) (f : A → emit S E unit) :
  (∀ a, collects (f a) []) → collects (for_each l f) [].
Proof. intros Hf. induction l as [|a l IH]; simpl; [apply collects_ret|]. by apply collects_then. Qed.
End Collects.

(** Prove that a program whose control flow is visible adds nothing. *)
Ltac collects_nothing :=
  repeat first
    [ apply collects_ret | apply collects_gets | apply collects_modify
    | apply collects_push_nil; done
    | apply collects_then; [|intros ?]
    | apply collects_when_nil
    | apply collects_for_each_nil; intros ?
    | assumption
    | case_match ].

(** ** Programs that speak when they act

    [quiet F m]: a run of [m] that emits nothing leaves the part [F] of the
    state alone. *)
Section Quiet.
Context {S E T : Type} (F : S → T).

Definition quiet {A} (m : emit S E A) : Prop := ∀ s, emitted m s = [] → F (final m s) = F s.

Lemma quiet_ret {A} (a : A) : quiet (mret a).
Proof. done. Qed.
Lemma quiet_gets {A} (f : S → A) : quiet (gets f).
Proof. done. Qed.
Lemma quiet_modify f : (∀ s, F (f s) = F s) → quiet (modify f).
Proof. intros Hf s _. apply Hf. Qed.
Lemma quiet_push e : quiet (push e).
Proof. intros s. done. Qed.
Lemma quiet_bind {A B} (m : emit S E A) (f : A → emit S E B) :
  quiet m → (∀ a, quiet (f a)) → quiet (m ≫= f).
Proof.
  intros Hm Hf s. rewrite emitted_bind, final_bind. intros [H1 H2]%app_eq_nil.
  by rewrite (Hf _ _ H2), (Hm _ H1).
Qed.
(** What precedes a push is never silent. *)
Lemma quiet_modify_push f e : quiet (modify f;; push e).
Proof. intros s. rewrite emitted_bind. done. Qed.
Lemma quiet_when b m : quiet m → quiet (when b m).
Proof. by destruct b. Qed.
Lemma quiet_for_each {A} (l : list A) (f : A → emit S E unit) :
  (∀ a, quiet (f a)) → quiet (for_each l f).
Proof. intros Hf. induction l as [|a l IH]; simpl; [apply quiet_ret|]. by apply quiet_bind. Qed.
Lemma quiet_zoom {T' A} (proj : S → T') upd (m : emit T' E A) :
  (∀ t s, F (upd t s) = F s) → quiet (zoom proj upd m).
Proof. intros Hu s _. unfold zoom, final. destruct (m (proj s)) as [[a t] l]. apply Hu. Qed.
End Quiet.

Ltac quiet :=
  repeat first
    [ apply quiet_ret | apply quiet_gets | apply quiet_push | apply quiet_modify_push
    | apply quiet_modify; done
    | apply quiet_zoom; done
    | apply quiet_bind; [|intros ?]
    | apply quiet_when
    | apply quiet_for_each; intros ?
    | assumption
    | case_match ].
