(* ===== verification/Envelope.v ===== *)
(** * The envelope of a stream

    The four events that frame a response, [ResponseStart], [MessageStart],
    [MessageStop] and [ResponseStop], are guarded by four booleans in every
    stateful parser.  [env_check] is the monitor of those guards, [keeps] the
    programs whose flags stay in step with what they emit, and
    [envelope_balanced] what an accepted stream looks like from outside. *)
From S2P Require Import Prelude Json CoreTypes Emit.

(** What has been emitted: response start, message start, message stop,
    response stop. *)
Record envelope := { rs : bool; ms : bool; mstop : bool; rstop : bool }.

Definition env0 : envelope := {| rs := false; ms := false; mstop := false; rstop := false |}.
Definition with_rs (g : envelope) := {| rs := true; ms := ms g; mstop := mstop g; rstop := rstop g |}.
Definition with_ms (g : envelope) := {| rs := rs g; ms := true; mstop := mstop g; rstop := rstop g |}.
Definition with_mstop (g : envelope) := {| rs := rs g; ms := ms g; mstop := true; rstop := rstop g |}.
Definition with_rstop (g : envelope) := {| rs := rs g; ms := ms g; mstop := mstop g; rstop := true |}.

Section Monitor.
Context `{J : JsonApi}.

(** Nothing twice, message events inside a response, and [ResponseStop] only
  once the message has both started and stopped. *)
Definition env_check (g : envelope) (e : StreamEvent) : option envelope :=
match e with
| ResponseStart _ _ _ => if rs g then None else Some (with_rs g)
| MessageStart _ => if negb (rs g) || ms g then None else Some (with_ms g)
| MessageStop _ _ => if negb (rs g) || mstop g then None else Some (with_mstop g)
| ResponseStop _ => if negb (ms g && mstop g) || rstop g then None else Some (with_rstop g)
| _ => Some g
end.

(** Nothing before the response start; a stopped response is complete. *)
Definition env_okb (g : envelope) : bool :=
(rs g || negb (ms g || mstop g || rstop g)) && (negb (rstop g) || (ms g && mstop g)).

Definition env_le (f g : envelope) : bool :=
implb (rs f) (rs g) && implb (ms f) (ms g) && implb (mstop f) (mstop g) &&
implb (rstop f) (rstop g).

Lemma env_le_refl f : env_le f f = true.
Proof. by destruct f as [[] [] [] []]. Qed.
Lemma env_le_trans f g h : env_le f g = true → env_le g h = true → env_le f h = true.
Proof. by destruct f as [[] [] [] []], g as [[] [] [] []], h as [[] [] [] []]. Qed.

(** ** Counting *)
Definition is_response_start e := match e with ResponseStart _ _ _ => true | _ => false end.
Definition is_message_start e := match e with MessageStart _ => true | _ => false end.
Definition is_message_stop e := match e with MessageStop _ _ => true | _ => false end.
Definition is_response_stop e := match e with ResponseStop _ => true | _ => false end.

Definition occurrences (p : StreamEvent → bool) (l : list StreamEvent) : nat :=
length (List.filter p l).

Lemma occurrences_app p l k : occurrences p (l ++ k) = occurrences p l + occurrences p k.
Proof. unfold occurrences. by rewrite List.filter_app, length_app. Qed.

Lemma env_counts l g g' :
monitor env_check g l = Some g' →
Nat.b2n (rs g) + occurrences is_response_start l = Nat.b2n (rs g') ∧
Nat.b2n (ms g) + occurrences is_message_start l = Nat.b2n (ms g') ∧
Nat.b2n (mstop g) + occurrences is_message_stop l = Nat.b2n (mstop g') ∧
Nat.b2n (rstop g) + occurrences is_response_stop l = Nat.b2n (rstop g').
Proof.
revert g. induction l as [|e l IH]; intros g; simpl.
- intros [= ->]. unfold occurrences; simpl. lia.
- destruct (env_check g e) as [g1|] eqn:He; [|done]. simpl. intros Hm.
  specialize (IH _ Hm). revert He IH. clear Hm.
  destruct g as [a b c d], e; simpl; intros He; try (injection He as <-; done);
    destruct a, b, c, d; simpl in He; try done; injection He as <-;
    unfold occurrences; simpl; lia.
Qed.

(** A balanced envelope: nothing of it, or each of its four events exactly once. *)
Definition envelope_balanced (l : list StreamEvent) : Prop :=
∃ n : nat, n ≤ 1 ∧ occurrences is_response_start l = n ∧ occurrences is_message_start l = n ∧
  occurrences is_message_stop l = n ∧ occurrences is_response_stop l = n.

(** A finished stream: nothing was started, or everything was stopped. *)
Definition env_final (g : envelope) : Prop := g = env0 ∨ rstop g = true ∧ env_okb g = true.

Lemma envelope_balanced_of_monitor l g :
monitor env_check env0 l = Some g → env_final g → envelope_balanced l.
Proof.
intros (H1 & H2 & H3 & H4)%env_counts Hf. simpl in *.
destruct Hf as [->|[Hs Hok]]; [exists 0; simpl in *; lia|exists 1].
destruct g as [[] [] [] []]; try done; simpl in *; lia.
Qed.

End Monitor.

(** ** Programs in step with their flags *)
Section Keeps.
Context `{J : JsonApi} {S : Type} (flags : S → envelope).
Implicit Types (s : S).

(** Inside a started response: the ghost envelope is the state's, and grows. *)
Definition keeps_to {A} (m : emit S StreamEvent A) (Q : envelope → Prop) : Prop :=
  ∀ s, rs (flags s) = true → env_okb (flags s) = true →
    wp env_check m
      (λ _ s' g', g' = flags s' ∧ env_okb (flags s') = true ∧
         env_le (flags s) (flags s') = true ∧ Q (flags s')) s (flags s).
Definition keeps {A} (m : emit S StreamEvent A) : Prop := keeps_to m (λ _, True).

(** Programs that touch neither the flags nor the envelope. *)
Definition frames {A} (m : emit S StreamEvent A) : Prop :=
  ∀ s g, wp env_check m (λ _ s' g', flags s' = flags s ∧ g' = g) s g.

Lemma keeps_weaken {A} (m : emit S StreamEvent A) Q : keeps_to m Q → keeps m.
Proof.
  intros Hm s Hs Hok. eapply wp_mono; [by apply Hm|]. intros a s' g'.
  naive_solver.
Qed.

Lemma keeps_frames {A} (m : emit S StreamEvent A) : frames m → keeps m.
Proof.
  intros Hm s Hs Hok. eapply wp_mono; [apply Hm|]. intros a s' g' [-> ->].
  split_and!; [done..|apply env_le_refl|done].
Qed.

Lemma rs_mono f g : env_le f g = true → rs f = true → rs g = true.
Proof. destruct f as [[] [] [] []], g as [[] [] [] []]; done. Qed.

Lemma keeps_to_bind {A B} (m : emit S StreamEvent A) (k : A → emit S StreamEvent B) Q :
  keeps m → (∀ a, keeps_to (k a) Q) → keeps_to (m ≫= k) Q.
Proof.
  intros Hm Hk s Hs Hok. apply wp_bind. eapply wp_mono; [by apply Hm|].
  intros a s' g' (-> & Hok' & Hle & _).
  eapply wp_mono; [apply Hk; [by eapply rs_mono|done]|].
  intros b s2 g2 (-> & ? & ? & ?). split_and!; [done..|by eapply env_le_trans|done].
Qed.
Lemma keeps_bind {A B} (m : emit S StreamEvent A) (k : A → emit S StreamEvent B) :
  keeps m → (∀ a, keeps (k a)) → keeps (m ≫= k).
Proof. apply keeps_to_bind. Qed.

(** Programs with a known effect on the flags of a started response. *)
Definition sets (f : envelope → envelope) {A} (m : emit S StreamEvent A) : Prop :=
  ∀ s, rs (flags s) = true →
    wp env_check m (λ _ s' g', g' = flags s' ∧ flags s' = f (flags s)) s (flags s).

Lemma sets_frames {A} (m : emit S StreamEvent A) : frames m → sets id m.
Proof. intros Hm s _. eapply wp_mono; [apply Hm|]. by intros a s' g' [-> ->]. Qed.

Lemma wp_sets {A B} f (m : emit S StreamEvent A) (k : A → emit S StreamEvent B) Q s :
  sets f m → rs (flags s) = true →
  (∀ a s', flags s' = f (flags s) → wp env_check (k a) Q s' (flags s')) →
  wp env_check (m ≫= k) Q s (flags s).
Proof.
  intros Hm Hs Hk. apply wp_bind. eapply wp_mono; [by apply Hm|].
  intros a s' g' [-> Hf]. by apply Hk.
Qed.

Lemma keeps_sets f {A} (m : emit S StreamEvent A) :
  sets f m →
  (∀ g, rs g = true → env_okb g = true → env_okb (f g) = true ∧ env_le g (f g) = true) →
  keeps m.
Proof.
  intros Hm Hf s Hs Hok. eapply wp_mono; [by apply Hm|].
  intros a s' g' [-> Hf']. rewrite Hf'. destruct (Hf (flags s)); done.
Qed.

Lemma keeps_when b m : keeps m → keeps (when b m).
Proof. destruct b; [done|]. intros _. by apply keeps_frames. Qed.
Lemma keeps_for_each {A} (l : list A) f : (∀ a, keeps (f a)) → keeps (for_each l f).
Proof.
  intros Hf. induction l as [|a l IH]; simpl; [by apply keeps_frames|]. by apply keeps_bind.
Qed.

(** Whole steps: from any consistent state, possibly before the response start. *)
Definition advances {A} (m : emit S StreamEvent A) : Prop :=
  ∀ s, env_okb (flags s) = true →
    wp env_check m (λ _ s' g', g' = flags s' ∧ env_okb (flags s') = true) s (flags s).

Lemma advances_frames {A} (m : emit S StreamEvent A) : frames m → advances m.
Proof.
  intros Hm s Hok. eapply wp_mono; [apply Hm|]. intros a s' g' [-> ->]. done.
Qed.
Lemma advances_bind {A B} (m : emit S StreamEvent A) (k : A → emit S StreamEvent B) :
  advances m → (∀ a, advances (k a)) → advances (m ≫= k).
Proof.
  intros Hm Hk s Hok. apply wp_bind. eapply wp_mono; [by apply Hm|].
  intros a s' g' (-> & Hok'). by apply Hk.
Qed.
(** The guarded start of the response, then a program of a started response. *)
Lemma wp_guarded {B} (p : S → bool) (m : emit S StreamEvent unit) (k : emit S StreamEvent B) Q s :
  (∀ s, p s = rs (flags s)) →
  (∀ s, rs (flags s) = false →
     wp env_check m (λ _ s' g', g' = flags s' ∧ flags s' = with_rs (flags s)) s (flags s)) →
  (∀ s', rs (flags s') = true → env_okb (flags s') = true → wp env_check k Q s' (flags s')) →
  env_okb (flags s) = true →
  wp env_check (started ← gets p; when (negb started) m;; k) Q s (flags s).
Proof.
  intros Hp Hm Hk Hok. apply wp_bind, wp_gets. rewrite Hp.
  destruct (rs (flags s)) eqn:Hs; apply wp_bind; simpl.
  - apply wp_ret. by apply Hk.
  - eapply wp_mono; [by apply Hm|]. intros [] s' g' [-> Hf].
    apply Hk; rewrite Hf; [done|]. by destruct (flags s) as [[] [] [] []].
Qed.
Lemma advances_guarded {B} (p : S → bool) (m : emit S StreamEvent unit) (k : emit S StreamEvent B) :
  (∀ s, p s = rs (flags s)) →
  (∀ s, rs (flags s) = false →
     wp env_check m (λ _ s' g', g' = flags s' ∧ flags s' = with_rs (flags s)) s (flags s)) →
  keeps k → advances (started ← gets p; when (negb started) m;; k).
Proof.
  intros Hp Hm Hk s Hok. apply wp_guarded; [done..| |done]. intros s' Hs' Hok'.
  eapply wp_mono; [by apply Hk|]. naive_solver.
Qed.

Lemma frames_ret {A} (a : A) : frames (mret a).
Proof. done. Qed.
Lemma frames_gets {A} (f : S → A) : frames (gets f).
Proof. done. Qed.
Lemma frames_modify f : (∀ s, flags (f s) = flags s) → frames (modify f).
Proof. intros Hf s g. by apply wp_modify. Qed.
Lemma frames_push e : (∀ g, env_check g e = Some g) → frames (push e).
Proof. intros He s g. by eapply wp_push. Qed.
Lemma frames_bind {A B} (m : emit S StreamEvent A) (k : A → emit S StreamEvent B) :
  frames m → (∀ a, frames (k a)) → frames (m ≫= k).
Proof.
  intros Hm Hk s g. apply wp_bind. eapply wp_mono; [apply Hm|]. intros a s' g' [Hs ->].
  eapply wp_mono; [apply Hk|]. intros b s2 g2 [-> ->]. by rewrite Hs.
Qed.
Lemma frames_when b m : frames m → frames (when b m).
Proof. by destruct b. Qed.
Lemma frames_for_each {A} (l : list A) f : (∀ a, frames (f a)) → frames (for_each l f).
Proof.
  intros Hf. induction l as [|a l IH]; simpl; [apply frames_ret|]. by apply frames_bind.
Qed.
End Keeps.

(** Prove that a program whose control flow is visible is a frame. *)
Ltac frames :=
  repeat first
    [ apply frames_ret | apply frames_gets
    | apply frames_modify; done
    | apply frames_push; done
    | apply frames_bind; [|intros ?]
    | apply frames_when
    | apply frames_for_each; intros ?
    | assumption
    | case_match ].

(** The same for [keeps], down to the programs of the context's hints. *)
Ltac keeps :=
  repeat first
    [ solve [auto]
    | apply keeps_frames; solve [frames; auto]
    | apply keeps_bind; [|intros ?]
    | apply keeps_when
    | apply keeps_for_each; intros ?
    | case_match ].
