(* ===== verification/Lifecycle.v ===== *)
(** * The canonical lifecycle contract (crates/protocol-tests/src/lifecycle.rs)

    The validator every producer and consumer of canonical streams is tested
    against, as an executable function: [step] is the body of the loop of
    [assert_canonical_lifecycle_strict] (a panic is [Err] with its rule), [run]
    the loop, [validate] the whole check including rule 1d at the end.  It is
    the abstract specification the provider parsers are proved to meet. *)
From S2P Require Import Prelude Json CoreTypes Emit.

Record StrictRules := {
  require_message_start_before_blocks : bool;
  require_single_start : bool;
  require_response_stop_last : bool;
}.

Definition default_strict : StrictRules := {|
  require_message_start_before_blocks := true;
  require_single_start := true;
  require_response_stop_last := true |}.

(** The rule a panic names. *)
Inductive Rule :=
| rule_1a | rule_1b | rule_1c | rule_1d | rule_2 | rule_3 | rule_4 | rule_5
| rule_6 | rule_7 | rule_8.

#[export] Instance Rule_eq_dec : EqDecision Rule.
Proof. solve_decision. Defined.

Record ValidatorState := {
  seen_response_start : bool;
  seen_message_start : bool;
  seen_message_stop : bool;
  seen_response_stop : bool;
  open_blocks : gmap Z ContentBlockKind;
  tool_stopped : gset Z;
  closed_indices : gset Z;
  terminated_by_error : bool;
}.

Definition default_state : ValidatorState := {|
  seen_response_start := false; seen_message_start := false;
  seen_message_stop := false; seen_response_stop := false;
  open_blocks := ∅; tool_stopped := ∅; closed_indices := ∅;
  terminated_by_error := false |}.

Definition check_post_message_stop (st : ValidatorState) : result unit Rule :=
  if seen_message_stop st then Err rule_3 else Ok tt.

Definition check_post_response_stop (strict : StrictRules) (st : ValidatorState) : result unit Rule :=
  if require_response_stop_last strict && seen_response_stop st then Err rule_8 else Ok tt.

Definition check_delta_kind (st : ValidatorState) (index : Z) (expected : ContentBlockKind)
    : result unit Rule :=
  match open_blocks st !! index with
  | Some kind => if bool_decide (kind = expected) then Ok tt else Err rule_5
  | None => Err rule_5
  end.

Definition set_blocks (st : ValidatorState) (o : gmap Z ContentBlockKind) (t c : gset Z)
    : ValidatorState := {|
  seen_response_start := seen_response_start st; seen_message_start := seen_message_start st;
  seen_message_stop := seen_message_stop st; seen_response_stop := seen_response_stop st;
  open_blocks := o; tool_stopped := t; closed_indices := c;
  terminated_by_error := terminated_by_error st |}.

Definition set_seen (st : ValidatorState) (rs ms mstop rstop : bool) : ValidatorState := {|
  seen_response_start := rs; seen_message_start := ms;
  seen_message_stop := mstop; seen_response_stop := rstop;
  open_blocks := open_blocks st; tool_stopped := tool_stopped st;
  closed_indices := closed_indices st;
  terminated_by_error := terminated_by_error st |}.

Definition set_terminated (st : ValidatorState) : ValidatorState := {|
  seen_response_start := seen_response_start st; seen_message_start := seen_message_start st;
  seen_message_stop := seen_message_stop st; seen_response_stop := seen_response_stop st;
  open_blocks := open_blocks st; tool_stopped := tool_stopped st;
  closed_indices := closed_indices st; terminated_by_error := true |}.

Section Validator.
Context `{J : JsonApi} (strict : StrictRules).

(** A delta or tool event on block [index]. *)
Definition step_delta (st : ValidatorState) (index : Z) (expected : ContentBlockKind)
    : result ValidatorState Rule :=
  let? _ := check_post_message_stop st in
  let? _ := check_post_response_stop strict st in
  let? _ := check_delta_kind st index expected in
  Ok st.

(** The match of the loop body. *)
Definition step_event (st : ValidatorState) (event : StreamEvent) : result ValidatorState Rule :=
  match event with
  | ErrorEvent _ => Ok (set_terminated st)
  | ResponseStart _ _ _ =>
      if seen_response_start st && require_single_start strict then Err rule_7
      else Ok (set_seen st true (seen_message_start st) (seen_message_stop st)
                 (seen_response_stop st))
  | MessageStart _ =>
      let? _ := check_post_message_stop st in
      let? _ := check_post_response_stop strict st in
      if seen_message_start st && require_single_start strict then Err rule_7
      else Ok (set_seen st (seen_response_start st) true (seen_message_stop st)
                 (seen_response_stop st))
  | ContentBlockStart index kind =>
      let? _ := check_post_message_stop st in
      let? _ := check_post_response_stop strict st in
      if require_message_start_before_blocks strict && negb (seen_message_start st)
      then Err rule_6
      else if bool_decide (is_Some (open_blocks st !! index)) then Err rule_1a
      else if bool_decide (index ∈ closed_indices st) then Err rule_1b
      else Ok (set_blocks st (<[index := kind]> (open_blocks st)) (tool_stopped st)
                 (closed_indices st))
  | ContentBlockStop index =>
      let? _ := check_post_message_stop st in
      let? _ := check_post_response_stop strict st in
      match open_blocks st !! index with
      | None => Err rule_1c
      | Some kind =>
          if bool_decide (kind = ToolCall) && negb (bool_decide (index ∈ tool_stopped st))
          then Err rule_4
          else Ok (set_blocks st (delete index (open_blocks st))
                     (if bool_decide (kind = ToolCall)
                      then tool_stopped st ∖ {[index]} else tool_stopped st)
                     ({[index]} ∪ closed_indices st))
      end
  | TextDelta index _ => step_delta st index Text
  | ReasoningDelta index _ => step_delta st index Reasoning
  | ToolCallStart index _ _ => step_delta st index ToolCall
  | ToolCallArgumentsDelta index _ => step_delta st index ToolCall
  | ToolCallStop index =>
      let? st := step_delta st index ToolCall in
      Ok (set_blocks st (open_blocks st) ({[index]} ∪ tool_stopped st) (closed_indices st))
  | MessageStop _ _ =>
      let? _ := check_post_response_stop strict st in
      if seen_message_stop st && require_single_start strict then Err rule_7
      else Ok (set_seen st (seen_response_start st) (seen_message_start st) true
                 (seen_response_stop st))
  | ResponseStop _ =>
      if negb (seen_message_stop st) then Err rule_2
      else if seen_response_stop st && require_single_start strict then Err rule_7
      else Ok (set_seen st (seen_response_start st) (seen_message_start st)
                 (seen_message_stop st) true)
  | UsageDelta _ | RawProviderEvent _ =>
      let? _ := check_post_response_stop strict st in Ok st
  end.

(** One loop iteration: after an [Error] event the function returns. *)
Definition step (st : ValidatorState) (event : StreamEvent) : result ValidatorState Rule :=
  if terminated_by_error st then Ok st else step_event st event.

Fixpoint run (st : ValidatorState) (events : list StreamEvent) : result ValidatorState Rule :=
  match events with
  | [] => Ok st
  | e :: es => let? st' := step st e in run st' es
  end.

(** The whole check.  An [Error] event that is followed by another event
    returns before rule 1d is evaluated; one that ends the sequence does not. *)
Fixpoint validate_from (st : ValidatorState) (events : list StreamEvent) : result unit Rule :=
  match events with
  | [] => if bool_decide (open_blocks st = ∅) then Ok tt else Err rule_1d
  | e :: es =>
      if terminated_by_error st then Ok tt
      else let? st' := step_event st e in validate_from st' es
  end.

Definition assert_canonical_lifecycle_strict (events : list StreamEvent) : result unit Rule :=
  validate_from default_state events.
End Validator.

Definition assert_canonical_lifecycle `{J : JsonApi} : list StreamEvent → result unit Rule :=
  assert_canonical_lifecycle_strict default_strict.

(** ** The validator as a monitor *)
Section Monitoring.
Context `{J : JsonApi}.

(** An event after an [Error] event makes the check succeed whatever blocks
    are open: the monitor forgets them. *)
Definition check (st : ValidatorState) (e : StreamEvent) : option ValidatorState :=
  if terminated_by_error st then Some (set_blocks st ∅ ∅ ∅)
  else result_ok (step_event default_strict st e).

(** The state of a validator that has not seen an [Error] event. *)
Definition vstate (rs ms mstop rstop : bool) (o : gmap Z ContentBlockKind) (t c : gset Z)
    : ValidatorState := {|
  seen_response_start := rs; seen_message_start := ms;
  seen_message_stop := mstop; seen_response_stop := rstop;
  open_blocks := o; tool_stopped := t; closed_indices := c;
  terminated_by_error := false |}.

Lemma validate_of_monitor l st st' :
  monitor check st l = Some st' → open_blocks st' = ∅ →
  validate_from default_strict st l = Ok tt.
Proof.
  revert st. induction l as [|e l IH]; intros st; simpl.
  - intros [= ->] ->. by rewrite bool_decide_eq_true_2.
  - unfold check. destruct (terminated_by_error st) eqn:Ht; [done|].
    destruct (step_event default_strict st e) as [st1|]; simpl; [|done].
    intros. by apply IH.
Qed.

Lemma monitor_terminated l st :
  terminated_by_error st = true →
  monitor check st l = Some (match l with [] => st | _ => set_blocks st ∅ ∅ ∅ end).
Proof.
  revert st. induction l as [|e l IH]; intros st Ht; [done|].
  rewrite (monitor_cons check e st (set_blocks st ∅ ∅ ∅)) by (unfold check; by rewrite Ht).
  rewrite IH by done. by destruct l.
Qed.

Lemma assert_of_monitor l st' :
  monitor check default_state l = Some st' → open_blocks st' = ∅ →
  assert_canonical_lifecycle l = Ok tt.
Proof. apply validate_of_monitor. Qed.

Ltac by_open_block :=
  intros H; unfold check, step_event, step_delta, check_delta_kind; simpl;
  rewrite H; by rewrite bool_decide_eq_true_2.

Section Rules.
Variables (rs ms : bool) (o : gmap Z ContentBlockKind) (t c : gset Z).

Lemma check_response_start id m n :
  check (vstate false ms false false o t c) (ResponseStart id m n) =
  Some (vstate true ms false false o t c).
Proof. done. Qed.
Lemma check_message_start r :
  check (vstate rs false false false o t c) (MessageStart r) =
  Some (vstate rs true false false o t c).
Proof. done. Qed.
Lemma check_block_start i k :
  o !! i = None → i ∉ c →
  check (vstate rs true false false o t c) (ContentBlockStart i k) =
  Some (vstate rs true false false (<[i := k]> o) t c).
Proof.
  intros Ho Hc. unfold check; simpl. rewrite Ho.
  rewrite bool_decide_eq_false_2 by (by intros []).
  by rewrite bool_decide_eq_false_2.
Qed.
Lemma check_text_delta i s :
  o !! i = Some Text →
  check (vstate rs true false false o t c) (TextDelta i s) =
  Some (vstate rs true false false o t c).
Proof. by_open_block. Qed.
Lemma check_reasoning_delta i s :
  o !! i = Some Reasoning →
  check (vstate rs true false false o t c) (ReasoningDelta i s) =
  Some (vstate rs true false false o t c).
Proof. by_open_block. Qed.
Lemma check_tool_start i id n :
  o !! i = Some ToolCall →
  check (vstate rs true false false o t c) (ToolCallStart i id n) =
  Some (vstate rs true false false o t c).
Proof. by_open_block. Qed.
Lemma check_tool_args i s :
  o !! i = Some ToolCall →
  check (vstate rs true false false o t c) (ToolCallArgumentsDelta i s) =
  Some (vstate rs true false false o t c).
Proof. by_open_block. Qed.
Lemma check_tool_stop i :
  o !! i = Some ToolCall →
  check (vstate rs true false false o t c) (ToolCallStop i) =
  Some (vstate rs true false false o ({[i]} ∪ t) c).
Proof. by_open_block. Qed.
Lemma check_block_stop i k :
  o !! i = Some k → k ≠ ToolCall →
  check (vstate rs true false false o t c) (ContentBlockStop i) =
  Some (vstate rs true false false (delete i o) t ({[i]} ∪ c)).
Proof.
  intros H Hk. unfold check; simpl. rewrite H.
  by rewrite bool_decide_eq_false_2.
Qed.
Lemma check_tool_block_stop i :
  o !! i = Some ToolCall → i ∈ t →
  check (vstate rs true false false o t c) (ContentBlockStop i) =
  Some (vstate rs true false false (delete i o) (t ∖ {[i]}) ({[i]} ∪ c)).
Proof.
  intros H Hk. unfold check; simpl. rewrite H.
  by rewrite bool_decide_eq_true_2, (bool_decide_eq_true_2 (i ∈ t)) by done.
Qed.
Lemma check_usage mstop u :
  check (vstate rs ms mstop false o t c) (UsageDelta u) =
  Some (vstate rs ms mstop false o t c).
Proof. done. Qed.
Lemma check_message_stop r s :
  check (vstate rs ms false false o t c) (MessageStop r s) =
  Some (vstate rs ms true false o t c).
Proof. done. Qed.
Lemma check_response_stop u :
  check (vstate rs ms true false o t c) (ResponseStop u) =
  Some (vstate rs ms true true o t c).
Proof. done. Qed.
End Rules.

(** A body that leaves no block open, inside the message envelope. *)
Lemma assert_envelope id m n role body reason seq usage c :
  monitor check (vstate true true false false ∅ ∅ ∅) body =
    Some (vstate true true false false ∅ ∅ c) →
  assert_canonical_lifecycle
    ([ResponseStart id m n; MessageStart role] ++ body ++
     [MessageStop reason seq; ResponseStop usage]) = Ok tt.
Proof.
  intros H. apply (assert_of_monitor _ (vstate true true true true ∅ ∅ c)); [|done].
  change default_state with (vstate false false false false ∅ ∅ ∅). cbn [app].
  erewrite monitor_cons by apply check_response_start.
  erewrite monitor_cons by apply check_message_start.
  by rewrite monitor_app, H.
Qed.

(** *** Streams without an [Error] event *)
Definition is_error (ev : StreamEvent) : bool :=
  match ev with ErrorEvent _ => true | _ => false end.
(** Once the message has stopped no block can be closed, so a stream that
    passes the check has none open. *)
Lemma stopped_no_open l v :
  seen_message_stop v = true → terminated_by_error v = false →
  Forall (λ e, is_error e = false) l → validate_from default_strict v l = Ok tt →
  open_blocks v = ∅.
Proof.
  revert v. induction l as [|e l IH]; intros v Hs Ht Hl Hv; simpl in Hv.
  - by case_bool_decide.
  - inversion_clear Hl as [|? ? He Hl']. rewrite Ht in Hv.
    destruct (step_event default_strict v e) as [v'|] eqn:Hstep; [|done]. simpl in Hv.
    assert (Hv' : open_blocks v' = open_blocks v ∧ seen_message_stop v' = true ∧ terminated_by_error v' = false).
    { destruct v as [rs ms mstop rstop o t c tb]; simpl in *; subst.
      destruct e; simpl in Hstep; unfold step_delta, check_post_message_stop, check_post_response_stop in Hstep;
        simpl in Hstep; repeat case_match; simplify_eq/=; done. }
    destruct Hv' as (<- & Hs' & Ht'). by apply IH.
Qed.
End Monitoring.

Create HintDb lifecycle discriminated.
#[export] Hint Resolve check_response_start check_message_start check_block_start
  check_text_delta check_reasoning_delta check_tool_start check_tool_args
  check_tool_stop check_block_stop check_tool_block_stop check_usage
  check_message_stop check_response_stop : lifecycle.
