(* ===== verification/Drain.v ===== *)
(** * Hand-rolled streams: poll loops over a pending queue

    The streaming parsers and encoders of the source are structs implementing
    [futures::Stream] with one loop: drain the [pending] queue, else pull the
    source, let the state machine append to the queue, and loop.  Parsers run a
    one-shot [finalize] when the source ends ([parser_poll]); encoders stop as
    soon as their state machine says the response is complete
    ([encoder_poll]).

    A source is the list of what its own [poll_next] returns: [SPending] is
    [Poll::Pending], [SItem i] is [Poll::Ready(Some(i))], and the end of the
    list is [Poll::Ready(None)], which it keeps returning. *)
From S2P Require Import Prelude Emit.

Inductive poll (A : Type) :=
| Pending
| Ready (a : A).
Arguments Pending {A}.
Arguments Ready {A} a.

Inductive source_poll (I : Type) :=
| SPending
| SItem (i : I).
Arguments SPending {I}.
Arguments SItem {I} i.

(** The fields of [eventsource_stream::Event] the parsers read. *)
Record SseEvent := { event : string; data : string }.

(** The items of a source, in order. *)
Definition items {I} (src : list (source_poll I)) : list I :=
  omap (λ p, match p with SPending => None | SItem i => Some i end) src.

Section Parser.
(** A parser's state machine: what it does with one item (an event or a
    transport error) and at the end of the source. *)
Context {I St O : Type}.
Variable on_item : I → St → St * list O.
Variable on_eof : St → St * list O.

Record parser := {
  source : list (source_poll I);
  pstate : St;
  pending : list O;
  finalized : bool;
}.

Definition init (st : St) (src : list (source_poll I)) : parser :=
  {| source := src; pstate := st; pending := []; finalized := false |}.

(** The loop of [poll_next], on the unpacked fields: each iteration consumes
    an element of the source, so the recursion is structural. *)
Fixpoint parser_loop (src : list (source_poll I)) (st : St) (pend : list O) (fin : bool)
    : poll (option O) * parser :=
  match pend with
  | ev :: rest =>
      (Ready (Some ev), {| source := src; pstate := st; pending := rest; finalized := fin |})
  | [] =>
      match src with
      | SItem i :: src' => let '(st', evs) := on_item i st in parser_loop src' st' evs fin
      | SPending :: src' =>
          (Pending, {| source := src'; pstate := st; pending := []; finalized := fin |})
      | [] =>
          if fin
          then (Ready None, {| source := []; pstate := st; pending := []; finalized := true |})
          else
            let '(st', evs) := on_eof st in
            match evs with
            | ev :: rest =>
                (Ready (Some ev),
                 {| source := []; pstate := st'; pending := rest; finalized := true |})
            | [] =>
                (Ready None, {| source := []; pstate := st'; pending := []; finalized := true |})
            end
      end
  end.

Definition parser_poll (p : parser) : poll (option O) * parser :=
  parser_loop (source p) (pstate p) (pending p) (finalized p).

(** The reference: feed every item, then finalize once. *)
Fixpoint feed (l : list I) (st : St) : St * list O :=
  match l with
  | [] => (st, [])
  | i :: l' =>
      let '(st1, evs) := on_item i st in
      let '(st2, evs') := feed l' st1 in (st2, evs ++ evs')
  end.
Definition feed_all (l : list I) (st : St) : list O :=
  let '(st', evs) := feed l st in evs ++ (on_eof st').2.

(** What is still to come out of a parser. *)
Definition remaining (p : parser) : list O :=
  pending p ++
  (if finalized p then (feed (items (source p)) (pstate p)).2
   else feed_all (items (source p)) (pstate p)).

(** Poll until the stream ends, at most [fuel] times. *)
Fixpoint collect (fuel : nat) (p : parser) : option (list O) :=
  match fuel with
  | 0 => None
  | S fuel' =>
      match parser_poll p with
      | (Ready None, _) => Some []
      | (Ready (Some o), p') => cons o <$> collect fuel' p'
      | (Pending, p') => collect fuel' p'
      end
  end.

Lemma feed_app l k st :
  feed (l ++ k) st =
  let '(st1, evs) := feed l st in let '(st2, evs') := feed k st1 in (st2, evs ++ evs').
Proof.
  revert st. induction l as [|i l IH]; intros st; simpl.
  - by destruct (feed k st).
  - destruct (on_item i st) as [st1 e1]. rewrite IH.
    destruct (feed l st1) as [st2 e2]. destruct (feed k st2) as [st3 e3].
    by rewrite app_assoc.
Qed.

(** One poll: a value is the next of the remaining outputs, the end means
    nothing remains, and [Pending] consumed one element of the source. *)
Lemma parser_loop_spec src st pend fin :
  (fin = true → items src = []) →
  let p := {| source := src; pstate := st; pending := pend; finalized := fin |} in
  match parser_loop src st pend fin with
  | (Ready (Some o), p') =>
      remaining p = o :: remaining p' ∧ (length (source p') ≤ length src) ∧
      (finalized p' = true → items (source p') = [])
  | (Ready None, p') => remaining p = [] ∧ remaining p' = [] ∧ finalized p' = true ∧ source p' = []
  | (Pending, p') =>
      remaining p = remaining p' ∧ (length (source p') < length src) ∧
      (finalized p' = true → items (source p') = [])
  end.
Proof.
  revert st pend. induction src as [|i src IH]; intros st pend Hfin; simpl.
  - destruct pend as [|o pend]; [|split_and!; done].
    unfold remaining, feed_all; simpl. destruct fin; [done|].
    destruct (on_eof st) as [st' [|o evs]] eqn:He; simpl; rewrite ?He; simpl;
      split_and!; try done. by rewrite app_nil_r.
  - destruct pend as [|o pend]; [|split_and!; done]. destruct i as [|i].
    + split_and!; [done|simpl; lia|done].
    + destruct fin; [by specialize (Hfin eq_refl)|].
      destruct (on_item i st) as [st' evs] eqn:Hi.
      specialize (IH st' evs (λ e, False_ind _ (Bool.diff_false_true e))).
      simpl in IH.
      assert (Hrem : remaining {| source := SItem i :: src; pstate := st; pending := [];
                  finalized := false |} =
                remaining {| source := src; pstate := st'; pending := evs;
                  finalized := false |}).
      { unfold remaining, feed_all; simpl. rewrite Hi.
        change (omap _ src) with (items src).
        destruct (feed (items src) st') as [st2 e2]. by rewrite app_assoc. }
      rewrite Hrem. destruct (parser_loop src st' evs false) as [[|[o|]] p'].
      * destruct IH as (?&?&?). split_and!; [done|simpl;lia|done].
      * destruct IH as (?&?&?). split_and!; [done|simpl;lia|done].
      * done.
Qed.

Lemma collect_spec fuel p :
  (finalized p = true → items (source p) = []) →
  length (source p) + length (remaining p) < fuel →
  collect fuel p = Some (remaining p).
Proof.
  revert p. induction fuel as [|fuel IH]; intros p Hfin Hfuel; [lia|]. simpl.
  destruct p as [src st pend fin]. simpl in *.
  pose proof (parser_loop_spec src st pend fin Hfin) as Hp. cbv zeta in Hp.
  unfold parser_poll; simpl.
  destruct (parser_loop src st pend fin) as [[|[o|]] p'].
  - destruct Hp as (Hr & Hl & Hf). rewrite Hr in *. apply IH; [done|lia].
  - destruct Hp as (Hr & Hl & Hf). rewrite Hr in *. simpl in Hfuel.
    rewrite IH; [done..|lia].
  - destruct Hp as (Hr & _). by rewrite Hr.
Qed.

(** Polling a fresh parser to its end, with fuel for every source element and
    every output, yields the reference. *)
Lemma collect_init fuel st src :
  length src + length (feed_all (items src) st) < fuel →
  collect fuel (init st src) = Some (feed_all (items src) st).
Proof. intros. by apply collect_spec. Qed.

(** What every step emits, the stream emits. *)
Lemma feed_Forall (P : O → Prop) l st :
  (∀ i st, i ∈ l → Forall P (on_item i st).2) → (∀ st, Forall P (on_eof st).2) →
  Forall P (feed_all l st).
Proof.
  intros Hi Heof. revert st. unfold feed_all.
  induction l as [|i l IH]; intros st; csimpl; [apply Heof|].
  pose proof (Hi i st (list_elem_of_here _ _)) as H1. destruct (on_item i st) as [st1 e1].
  specialize (IH (λ j s Hj, Hi j s (list_elem_of_further _ _ _ Hj)) st1).
  destruct (feed l st1) as [st2 e2]. rewrite <- app_assoc. by apply Forall_app.
Qed.

(** A content function that distributes over concatenation. *)
Lemma feed_says (h : list O → string) (x : I → string) l st :
  h [] = EmptyString → (∀ l k, h (l ++ k) = (h l ++ h k)%string) →
  (∀ i st, h (on_item i st).2 = x i) → (∀ st, h (on_eof st).2 = EmptyString) →
  h (feed_all l st) = concat_strings (x <$> l).
Proof.
  intros Hnil Happ Hi Heof. revert st. unfold feed_all.
  induction l as [|i l IH]; intros st; csimpl; [apply Heof|].
  rewrite <- (Hi i st). destruct (on_item i st) as [st1 e1]. specialize (IH st1).
  destruct (feed l st1) as [st2 e2]. simpl. by rewrite <- app_assoc, Happ, IH.
Qed.

Lemma feed_collects {B} (h : list O → list B) (x : I → list B) l st :
  h [] = [] → (∀ l k, h (l ++ k) = h l ++ h k) →
  (∀ i st, h (on_item i st).2 = x i) → (∀ st, h (on_eof st).2 = []) →
  h (feed_all l st) = l ≫= x.
Proof.
  intros Hnil Happ Hi Heof. revert st. unfold feed_all.
  induction l as [|i l IH]; intros st; csimpl; [apply Heof|].
  rewrite <- (Hi i st). destruct (on_item i st) as [st1 e1]. specialize (IH st1).
  destruct (feed l st1) as [st2 e2]. simpl. by rewrite <- app_assoc, Happ, IH.
Qed.

(** A monitor and an invariant indexed by the items still to come. *)
Lemma feed_monitor {G} (chk : G → O → option G) (P : list I → St → G → Prop) (R : G → Prop) l st g :
  (∀ i l st g, P (i :: l) st g →
     ∃ g', monitor chk g (on_item i st).2 = Some g' ∧ P l (on_item i st).1 g') →
  (∀ st g, P [] st g → ∃ g', monitor chk g (on_eof st).2 = Some g' ∧ R g') →
  P l st g → ∃ g', monitor chk g (feed_all l st) = Some g' ∧ R g'.
Proof.
  intros Hi Heof. revert st g. unfold feed_all.
  induction l as [|i l IH]; intros st g HP; simpl; [by apply Heof|].
  destruct (Hi _ _ _ _ HP) as (g1 & Hm & HP').
  destruct (on_item i st) as [st1 e1]; simpl in Hm, HP'.
  destruct (IH _ _ HP') as (g2 & Hm2 & HR).
  destruct (feed l st1) as [st2 e2]. exists g2. split; [|done].
  by rewrite <- app_assoc, monitor_app, Hm.
Qed.
End Parser.

Section Encoder.
Context {I St O : Type}.
(** [handle]: the outputs of one item, and whether the stream is complete. *)
Variable handle : I → St → St * list O * bool.

Record encoder := {
  esource : list (source_poll I);
  estate : St;
  epending : list O;
  edone : bool;
}.

Definition einit (st : St) (src : list (source_poll I)) : encoder :=
  {| esource := src; estate := st; epending := []; edone := false |}.

Fixpoint encoder_loop (src : list (source_poll I)) (st : St) (pend : list O) (done : bool)
    : poll (option O) * encoder :=
  match pend with
  | ev :: rest =>
      (Ready (Some ev), {| esource := src; estate := st; epending := rest; edone := done |})
  | [] =>
      if done
      then (Ready None, {| esource := src; estate := st; epending := []; edone := true |})
      else
        match src with
        | SItem i :: src' =>
            let '(st', evs, fin) := handle i st in encoder_loop src' st' evs fin
        | SPending :: src' =>
            (Pending, {| esource := src'; estate := st; epending := []; edone := false |})
        | [] => (Ready None, {| esource := []; estate := st; epending := []; edone := false |})
        end
  end.

Definition encoder_poll (p : encoder) : poll (option O) * encoder :=
  encoder_loop (esource p) (estate p) (epending p) (edone p).

(** The reference: handle items until one completes the response. *)
Fixpoint encode_items (l : list I) (st : St) : list O :=
  match l with
  | [] => []
  | i :: l' =>
      let '(st', evs, fin) := handle i st in
      evs ++ (if fin then [] else encode_items l' st')
  end.

Definition eremaining (p : encoder) : list O :=
  epending p ++ (if edone p then [] else encode_items (items (esource p)) (estate p)).

Fixpoint ecollect (fuel : nat) (p : encoder) : option (list O) :=
  match fuel with
  | 0 => None
  | S fuel' =>
      match encoder_poll p with
      | (Ready None, _) => Some []
      | (Ready (Some o), p') => cons o <$> ecollect fuel' p'
      | (Pending, p') => ecollect fuel' p'
      end
  end.

Lemma encoder_loop_spec src st pend done :
  let p := {| esource := src; estate := st; epending := pend; edone := done |} in
  match encoder_loop src st pend done with
  | (Ready (Some o), p') =>
      eremaining p = o :: eremaining p' ∧ (length (esource p') ≤ length src)
  | (Ready None, p') => eremaining p = [] ∧ eremaining p' = []
  | (Pending, p') => eremaining p = eremaining p' ∧ (length (esource p') < length src)
  end.
Proof.
  revert st pend done. induction src as [|i src IH]; intros st pend dn; simpl.
  - destruct pend, dn; done.
  - destruct pend as [|o pend]; [|split_and!; done]. destruct dn; [done|].
    destruct i as [|i]; [split; [done|simpl; lia]|].
    destruct (handle i st) as [[st' evs] fin] eqn:Hh.
    specialize (IH st' evs fin). cbv zeta in IH.
    assert (Hrem : eremaining {| esource := SItem i :: src; estate := st; epending := [];
                edone := false |} =
              eremaining {| esource := src; estate := st'; epending := evs; edone := fin |}).
    { unfold eremaining; simpl. by rewrite Hh. }
    rewrite Hrem. destruct (encoder_loop src st' evs fin) as [[|[o|]] p'];
      destruct IH; split; try done; simpl; lia.
Qed.

Lemma ecollect_spec fuel p :
  length (esource p) + length (eremaining p) < fuel →
  ecollect fuel p = Some (eremaining p).
Proof.
  revert p. induction fuel as [|fuel IH]; intros p Hfuel; [lia|]. simpl.
  destruct p as [src st pend dn]. simpl in *.
  pose proof (encoder_loop_spec src st pend dn) as Hp. cbv zeta in Hp.
  unfold encoder_poll; simpl.
  destruct (encoder_loop src st pend dn) as [[|[o|]] p']; destruct Hp as [Hr Hl].
  - rewrite Hr in *. apply IH. lia.
  - rewrite Hr in *. simpl in Hfuel. rewrite IH; [done|lia].
  - by rewrite Hr.
Qed.
End Encoder.

(** An encoder whose outputs are rendered, with some dropped. *)
Lemma encode_items_omap {I St O P : Type} (f : O → option P) (handle : I → St → St * list O * bool)
    (l : list I) (st : St) :
  encode_items (λ i s, let '(s', evs, c) := handle i s in (s', omap f evs, c)) l st =
  omap f (encode_items handle l st).
Proof.
  revert st. induction l as [|i l IH]; intros st; simpl; [done|].
  destruct (handle i st) as [[st' evs] c]. rewrite omap_app. f_equal.
  destruct c; [done|apply IH].
Qed.

Lemma encode_items_ext {I St O : Type} (h h' : I → St → St * list O * bool) l st :
  (∀ i s, h i s = h' i s) → encode_items h l st = encode_items h' l st.
Proof.
  intros Hh. revert st. induction l as [|i l IH]; intros st; simpl; [done|].
  rewrite Hh. destruct (h' i st) as [[st' evs] c]. by rewrite IH.
Qed.
