(* ===== verification/Interleaver.v ===== *)
(** * The text/reasoning interleaver
    (crates/providers/src/oai_chat_wire/interleaved_reasoning.rs) *)
From S2P Require Import Prelude Json CoreTypes Emit Lifecycle.

Inductive DeltaKind := DText | DReasoning.

Inductive State :=
| Idle
| InText (index : Z)
| InReasoning (index : Z).

Record ReasoningInterleaver := {
  state : State;
  next_index : Z;
}.

Definition new : ReasoningInterleaver := {| state := Idle; next_index := 0 |}.

Definition set_state (st : State) (r : ReasoningInterleaver) : ReasoningInterleaver :=
  {| state := st; next_index := next_index r |}.
(** [self.next_index += 1]. *)
Definition bump_next_index (r : ReasoningInterleaver) : ReasoningInterleaver :=
  {| state := state r; next_index := u32_add (next_index r) 1 |}.

Section Ops.
Context `{J : JsonApi}.
Let M := emit ReasoningInterleaver StreamEvent.

Definition open_new_block (kind : DeltaKind) (text : string) : M unit :=
  index ← gets next_index;
  modify bump_next_index;;
  match kind with
  | DText =>
      push (ContentBlockStart index Text);;
      push (TextDelta index text);;
      modify (set_state (InText index))
  | DReasoning =>
      push (ContentBlockStart index Reasoning);;
      push (ReasoningDelta index text);;
      modify (set_state (InReasoning index))
  end.

Definition push_delta (kind : DeltaKind) (text : string) : M unit :=
  if str_is_empty text then mret tt else
  st ← gets state;
  match st, kind with
  | InText index, DText => push (TextDelta index text)
  | InReasoning index, DReasoning => push (ReasoningDelta index text)
  | Idle, _ => open_new_block kind text
  | InText index, DReasoning | InReasoning index, DText =>
      push (ContentBlockStop index);;
      modify (set_state Idle);;
      open_new_block kind text
  end.

Definition flush : M unit :=
  st ← gets state;
  match st with
  | Idle => mret tt
  | InText index | InReasoning index =>
      push (ContentBlockStop index);;
      modify (set_state Idle)
  end.
End Ops.

(** ** Reference behaviour: group the deltas into maximal runs, render each *)
Fixpoint group (l : list (DeltaKind * string)) : list (DeltaKind * list string) :=
  match l with
  | [] => []
  | (k, t) :: l' =>
      if str_is_empty t then group l' else
      match k, group l' with
      | DText, (DText, ts) :: gs => (DText, t :: ts) :: gs
      | DReasoning, (DReasoning, ts) :: gs => (DReasoning, t :: ts) :: gs
      | _, gs => (k, [t]) :: gs
      end
  end.

Section Render.
Context `{J : JsonApi}.

Definition block_kind (k : DeltaKind) : ContentBlockKind :=
  match k with DText => Text | DReasoning => Reasoning end.
Definition delta (i : Z) (k : DeltaKind) (t : string) : StreamEvent :=
  match k with DText => TextDelta i t | DReasoning => ReasoningDelta i t end.
Definition render_run (i : Z) (g : DeltaKind * list string) : list StreamEvent :=
  ContentBlockStart i (block_kind g.1) :: (delta i g.1 <$> g.2) ++ [ContentBlockStop i].
Fixpoint render (i : Z) (gs : list (DeltaKind * list string)) : list StreamEvent :=
  match gs with
  | [] => []
  | g :: gs' => render_run i g ++ render (u32_add i 1) gs'
  end.

(** Push every delta, then flush: what a parser does over a whole stream. *)
Definition interleave (l : list (DeltaKind * string)) : emit ReasoningInterleaver StreamEvent unit :=
  for_each l (λ d, push_delta d.1 d.2);; flush.

(** What is still to be emitted from a given state. *)
Definition pending_render (r : ReasoningInterleaver) (gs : list (DeltaKind * list string))
    : list StreamEvent :=
  match state r, gs with
  | Idle, _ => render (next_index r) gs
  | InText i, (DText, ts) :: gs' =>
      (TextDelta i <$> ts) ++ ContentBlockStop i :: render (next_index r) gs'
  | InReasoning i, (DReasoning, ts) :: gs' =>
      (ReasoningDelta i <$> ts) ++ ContentBlockStop i :: render (next_index r) gs'
  | InText i, _ | InReasoning i, _ => ContentBlockStop i :: render (next_index r) gs
  end.

Lemma interleave_pending l r :
  emitted (interleave l) r = pending_render r (group l).
Proof.
  unfold interleave. revert r. induction l as [|[k t] l IH]; intros r.
  - destruct r as [[|i|i] n]; reflexivity.
  - assert (Hstep : ∀ r, emitted (for_each ((k, t) :: l) (λ d, push_delta d.1 d.2);; flush) r
      = emitted (push_delta k t) r ++
        emitted (for_each l (λ d, push_delta d.1 d.2);; flush) (final (push_delta k t) r)).
    { intros r0. rewrite !emitted_bind. simpl. rewrite emitted_bind.
      unfold final at 3. unfold mbind, emit_bind, final, answer, emitted.
      destruct (push_delta k t r0) as [[[] r1] l1]; simpl.
      destruct (for_each l _ r1) as [[[] r2] l2]; simpl. by rewrite app_assoc. }
    rewrite Hstep, IH. clear Hstep IH. simpl.
    unfold push_delta. destruct t as [|a t]; [reflexivity|]. simpl.
    destruct r as [[|i|i] n], k, (group l) as [|[[] ts] gs]; cbn;
      unfold pending_render, render_run; cbn; rewrite <-?app_assoc; reflexivity.
Qed.
End Render.

(** ** Lifecycle: what the interleaver keeps true of a validator *)
Section Conformance.
Context `{J : JsonApi}.

(** The block the interleaver has open. *)
Definition cur (r : ReasoningInterleaver) : gmap Z ContentBlockKind :=
  match state r with
  | Idle => ∅
  | InText i => {[ i := Text ]}
  | InReasoning i => {[ i := Reasoning ]}
  end.

(** Closed indices are below the next one, and the open one is not closed. *)
Definition coherent (r : ReasoningInterleaver) (c : gset Z) : Prop :=
  (0 ≤ next_index r)%Z ∧ (∀ i, i ∈ c → (i < next_index r)%Z) ∧
  match state r with
  | Idle => True
  | InText i | InReasoning i => (i < next_index r)%Z ∧ i ∉ c
  end.

Lemma wp_open_new_block kind text r rs c (Q : unit → _ → _ → Prop) :
  coherent r c → state r = Idle → (next_index r < u32_max)%Z →
  (∀ r', coherent r' c → next_index r' = (next_index r + 1)%Z → state r' ≠ Idle →
     Q tt r' (vstate rs true false false (cur r') ∅ c)) →
  wp check (open_new_block kind text) Q r (vstate rs true false false ∅ ∅ c).
Proof.
  intros (H0 & Hc & _) Hst Hn HQ. unfold open_new_block. wp_steps.
  assert (Hi : next_index r ∉ c) by (intros ?%Hc; lia).
  assert (Hadd : u32_add (next_index r) 1 = (next_index r + 1)%Z)
    by (apply u32_add_small; unfold is_u32, u32_max in *; lia).
  assert (Hcoh : ∀ st, st = InText (next_index r) ∨ st = InReasoning (next_index r) →
            coherent (set_state st (bump_next_index r)) c).
  { intros st Hs. unfold coherent; simpl. rewrite Hadd. split_and!; [lia| |].
    - intros i ?%Hc. lia.
    - destruct Hs as [-> | ->]; split; try done; lia. }
  destruct kind; wp_steps.
  all: eapply wp_push; [by apply check_block_start|]; wp_steps.
  all: (eapply wp_push; [apply check_text_delta || apply check_reasoning_delta; apply lookup_insert_eq|]).
  all: wp_steps; rewrite insert_empty; apply HQ; auto.
Qed.

Lemma wp_close_open i k c rs (Q : unit → _ → _ → Prop) (r : ReasoningInterleaver) :
  k ≠ ToolCall →
  Q tt r (vstate rs true false false ∅ ∅ ({[i]} ∪ c)) →
  wp check (push (ContentBlockStop i)) Q r (vstate rs true false false {[ i := k ]} ∅ c).
Proof.
  intros Hk HQ. eapply wp_push.
  - eapply check_block_stop; [apply lookup_singleton_eq|done].
  - by rewrite delete_singleton_eq.
Qed.

Lemma coherent_closed r i c :
  coherent r c → (i < next_index r)%Z → coherent (set_state Idle r) ({[i]} ∪ c).
Proof. intros (H0 & Hc & _) Hi. unfold coherent; simpl. set_solver. Qed.

Lemma wp_push_delta kind text r rs c (Q : unit → _ → _ → Prop) :
  coherent r c → (next_index r < u32_max)%Z →
  (∀ r' c', coherent r' c' → (next_index r ≤ next_index r' ≤ next_index r + 1)%Z →
     Q tt r' (vstate rs true false false (cur r') ∅ c')) →
  wp check (push_delta kind text) Q r (vstate rs true false false (cur r) ∅ c).
Proof.
  intros Hcoh Hn HQ. unfold push_delta.
  destruct (str_is_empty text). { wp_steps. apply HQ; [done|lia]. }
  wp_steps. destruct (state r) as [|i|i] eqn:Hst; unfold cur at 1; rewrite Hst.
  - apply wp_open_new_block; try done. intros. apply HQ; [done|lia].
  - destruct kind.
    + eapply wp_push; [apply check_text_delta, lookup_singleton_eq|].
      replace {[i := Text]} with (cur r) by (unfold cur; by rewrite Hst).
      apply HQ; [done|lia].
    + wp_steps. apply wp_close_open; [done|]. wp_steps.
      assert (i < next_index r)%Z by (destruct Hcoh as (?&?&H); rewrite Hst in H; tauto).
      apply wp_open_new_block; try done; [by apply coherent_closed|].
      intros. apply HQ; [done|simpl in *; lia].
  - destruct kind.
    + wp_steps. apply wp_close_open; [done|]. wp_steps.
      assert (i < next_index r)%Z by (destruct Hcoh as (?&?&H); rewrite Hst in H; tauto).
      apply wp_open_new_block; try done; [by apply coherent_closed|].
      intros. apply HQ; [done|simpl in *; lia].
    + eapply wp_push; [apply check_reasoning_delta, lookup_singleton_eq|].
      replace {[i := Reasoning]} with (cur r) by (unfold cur; by rewrite Hst).
      apply HQ; [done|lia].
Qed.

Lemma wp_flush r rs c (Q : unit → _ → _ → Prop) :
  coherent r c →
  (∀ c', coherent (set_state Idle r) c' →
     Q tt (set_state Idle r) (vstate rs true false false ∅ ∅ c')) →
  wp check flush Q r (vstate rs true false false (cur r) ∅ c).
Proof.
  intros Hcoh HQ. unfold flush. wp_steps.
  destruct r as [[|i|i] n]; unfold cur; simpl.
  - wp_steps. by apply (HQ c).
  - wp_steps. apply wp_close_open; [done|]. wp_steps. apply HQ.
    apply (coherent_closed _ _ _ Hcoh). apply Hcoh.
  - wp_steps. apply wp_close_open; [done|]. wp_steps. apply HQ.
    apply (coherent_closed _ _ _ Hcoh). apply Hcoh.
Qed.
End Conformance.

(** ** Properties *)
Section Properties.
Context `{J : JsonApi}.

(** The events of a whole stream of deltas inside a message envelope. *)
Definition enveloped (l : list (DeltaKind * string)) : list StreamEvent :=
  [ResponseStart EmptyString EmptyString 0; MessageStart Assistant] ++
  emitted (interleave l) new ++ [MessageStop EndTurn None; ResponseStop None].

(** The interleaver refines the reference that groups the non-empty deltas
    into maximal runs of one kind and renders run number [n] as
    [ContentBlockStart n], its deltas in order, [ContentBlockStop n]. *)
Theorem interleave_refines_render l :
  emitted (interleave l) new = render 0 (group l).
Proof. apply (interleave_pending l new). Qed.

(** Any sequence of deltas (fewer than 2^32 of them) yields a stream that
    meets the canonical lifecycle. *)
Theorem interleave_lifecycle l :
  (Z.of_nat (length l) ≤ u32_max)%Z →
  assert_canonical_lifecycle (enveloped l) = Ok tt.
Proof.
  intros Hlen.
  assert (H : wp check (interleave l)
    (λ _ r vs, ∃ c, vs = vstate true true false false ∅ ∅ c)
    new (vstate true true false false (cur new) ∅ ∅)).
  { unfold interleave. wp_steps. eapply wp_mono.
    - apply (wp_for_each check l _ (λ l' r vs, ∃ c,
        vs = vstate true true false false (cur r) ∅ c ∧ coherent r c ∧
        (next_index r + Z.of_nat (length l') ≤ u32_max)%Z)).
      + exists ∅. split_and!; [done|unfold coherent; set_solver by lia|simpl; lia].
      + intros [k t] l' r vs (c & -> & Hc & Hb). simpl in Hb.
        apply wp_push_delta; [done|lia|]. intros r' c' Hc' Hn. exists c'.
        split_and!; [done..|lia].
    - intros [] r vs (c & -> & Hc & _). simpl. apply wp_flush; [done|]. eauto. }
  apply wp_elim in H as (vs & Hm & c & ->).
  by eapply assert_envelope.
Qed.

Lemma all_text_render i gs :
  all_text (render i gs) =
  concat_strings (mjoin ((λ g, match g.1 with DText => g.2 | _ => [] end) <$> gs)) ∧
  all_reasoning (render i gs) =
  concat_strings (mjoin ((λ g, match g.1 with DReasoning => g.2 | _ => [] end) <$> gs)).
Proof.
  revert i. induction gs as [|[k ts] gs IH]; intros i; [done|].
  simpl. unfold render_run. simpl.
  destruct (IH (u32_add i 1)) as [IH1 IH2].
  assert (Ht : ∀ ts, concat_strings (text_of <$> (TextDelta i <$> ts)) = concat_strings ts).
  { clear. induction ts as [|x ts IH]; csimpl; [done|]. by rewrite IH. }
  assert (Hr : ∀ ts, concat_strings (reasoning_of <$> (ReasoningDelta i <$> ts)) = concat_strings ts).
  { clear. induction ts as [|x ts IH]; csimpl; [done|]. by rewrite IH. }
  assert (Ht' : ∀ ts, concat_strings (text_of <$> (ReasoningDelta i <$> ts)) = EmptyString).
  { clear. by induction ts. }
  assert (Hr' : ∀ ts, concat_strings (reasoning_of <$> (TextDelta i <$> ts)) = EmptyString).
  { clear. by induction ts. }
  change (ContentBlockStart i (block_kind k) :: ((delta i k <$> ts) ++ [ContentBlockStop i]) ++ render (u32_add i 1) gs)
    with ([ContentBlockStart i (block_kind k)] ++ ((delta i k <$> ts) ++ [ContentBlockStop i]) ++ render (u32_add i 1) gs).
  rewrite !all_text_app, !all_reasoning_app, IH1, IH2.
  rewrite !concat_strings_app. unfold all_text, all_reasoning.
  destruct k; unfold delta; rewrite ?Ht, ?Ht', ?Hr, ?Hr'; simpl;
    by rewrite ?string_app_nil_r.
Qed.

(** The texts of one kind, in push order. *)
Definition pushed (k : DeltaKind) (l : list (DeltaKind * string)) : string :=
  concat_strings ((λ d, match k, d.1 with
                        | DText, DText | DReasoning, DReasoning => d.2
                        | _, _ => EmptyString end) <$> l).

Lemma pushed_group l :
  concat_strings (mjoin ((λ g, match g.1 with DText => g.2 | _ => [] end) <$> group l))
    = pushed DText l ∧
  concat_strings (mjoin ((λ g, match g.1 with DReasoning => g.2 | _ => [] end) <$> group l))
    = pushed DReasoning l.
Proof.
  unfold pushed. induction l as [|[k t] l [IH1 IH2]]; [done|]. csimpl. rewrite <- IH1, <- IH2.
  destruct (str_is_empty t) eqn:Ht.
  { apply str_is_empty_spec in Ht as ->. by destruct k. }
  by destruct k, (group l) as [|[[] ts] gs].
Qed.

(** No content is lost, duplicated or reordered: the text deltas spell the
    pushed texts and the reasoning deltas the pushed reasoning. *)
Theorem interleave_preserves_content l :
  all_text (emitted (interleave l) new) = pushed DText l ∧
  all_reasoning (emitted (interleave l) new) = pushed DReasoning l.
Proof.
  rewrite (interleave_pending l new).
  change (pending_render new (group l)) with (render 0 (group l)).
  destruct (all_text_render 0 (group l)) as [-> ->]. apply pushed_group.
Qed.
End Properties.

(** ** A concrete sequence of deltas *)
Lemma interleave_lifecycle_witness :
  let l := [(DReasoning, "think"); (DText, ""); (DText, "answer"); (DReasoning, "more")]%string in
  (Z.of_nat (length l) ≤ u32_max)%Z ∧
  assert_canonical_lifecycle (J := TreeJson []) (enveloped (J := TreeJson []) l) = Ok tt.
Proof.
  intros l. assert (Hl : (Z.of_nat (length l) ≤ u32_max)%Z) by (vm_compute; discriminate).
  split; [exact Hl|]. exact (interleave_lifecycle (J := TreeJson []) l Hl).
Defined.
