(* ===== verification/ChatSse.v ===== *)
(** * The OpenAI Chat SSE parser
    (crates/providers/src/oai_chat_wire/chat_sse_parser.rs)

    Turns the SSE events of an OpenAI-compatible upstream into canonical
    events.  [ParserState] is the source's struct; [handle_event],
    [handle_transport_error], [handle_done], [finalize] and [parse_chunk] are
    its methods; [poll_next] is the hand-rolled stream around them. *)
From S2P Require Import Prelude Json CoreTypes Emit Envelope Lifecycle Drain.
#[local] Open Scope string_scope.

(** The items of a canonical stream. *)
Notation Item := (result StreamEvent StreamError).

(** The iteration order of a [HashSet<u32>] is unspecified: an arbitrary
    enumeration of the set. *)
Class HashOrder := {
  hash_elements : gset Z → list Z;
  hash_elements_perm : ∀ s, hash_elements s ≡ₚ elements s;
}.

(** One such order. *)
Definition elements_order : HashOrder := {|
  hash_elements := elements;
  hash_elements_perm := λ s, Permutation_refl (elements s) |}.

(** [ParserState], with one update function per field. *)
Record ParserState := {
  emitted_response_start : bool;
  emitted_message_start : bool;
  emitted_message_stop : bool;
  emitted_response_stop : bool;
  text_block_open : bool;
  open_tool_blocks : gset Z;
  response_id : string;
  response_model : string;
  stream_completed : bool;
  event_count : Z;
  total_data_bytes : Z;
  last_event_kind : string;
  last_finish_reason : option string;
}.

Definition set_emitted_response_start (x : bool) (s : ParserState) : ParserState :=
  {|
     emitted_response_start := x; emitted_message_start := emitted_message_start s;
     emitted_message_stop := emitted_message_stop s; emitted_response_stop :=
     emitted_response_stop s; text_block_open := text_block_open s; open_tool_blocks :=
     open_tool_blocks s; response_id := response_id s; response_model := response_model s;
     stream_completed := stream_completed s; event_count := event_count s; total_data_bytes
     := total_data_bytes s; last_event_kind := last_event_kind s; last_finish_reason :=
     last_finish_reason s |}.
Definition set_emitted_message_start (x : bool) (s : ParserState) : ParserState :=
  {|
     emitted_response_start := emitted_response_start s; emitted_message_start := x;
     emitted_message_stop := emitted_message_stop s; emitted_response_stop :=
     emitted_response_stop s; text_block_open := text_block_open s; open_tool_blocks :=
     open_tool_blocks s; response_id := response_id s; response_model := response_model s;
     stream_completed := stream_completed s; event_count := event_count s; total_data_bytes
     := total_data_bytes s; last_event_kind := last_event_kind s; last_finish_reason :=
     last_finish_reason s |}.
Definition set_emitted_message_stop (x : bool) (s : ParserState) : ParserState :=
  {|
     emitted_response_start := emitted_response_start s; emitted_message_start :=
     emitted_message_start s; emitted_message_stop := x; emitted_response_stop :=
     emitted_response_stop s; text_block_open := text_block_open s; open_tool_blocks :=
     open_tool_blocks s; response_id := response_id s; response_model := response_model s;
     stream_completed := stream_completed s; event_count := event_count s; total_data_bytes
     := total_data_bytes s; last_event_kind := last_event_kind s; last_finish_reason :=
     last_finish_reason s |}.
Definition set_emitted_response_stop (x : bool) (s : ParserState) : ParserState :=
  {|
     emitted_response_start := emitted_response_start s; emitted_message_start :=
     emitted_message_start s; emitted_message_stop := emitted_message_stop s;
     emitted_response_stop := x; text_block_open := text_block_open s; open_tool_blocks :=
     open_tool_blocks s; response_id := response_id s; response_model := response_model s;
     stream_completed := stream_completed s; event_count := event_count s; total_data_bytes
     := total_data_bytes s; last_event_kind := last_event_kind s; last_finish_reason :=
     last_finish_reason s |}.
Definition set_text_block_open (x : bool) (s : ParserState) : ParserState :=
  {|
     emitted_response_start := emitted_response_start s; emitted_message_start :=
     emitted_message_start s; emitted_message_stop := emitted_message_stop s;
     emitted_response_stop := emitted_response_stop s; text_block_open := x;
     open_tool_blocks := open_tool_blocks s; response_id := response_id s; response_model :=
     response_model s; stream_completed := stream_completed s; event_count := event_count s;
     total_data_bytes := total_data_bytes s; last_event_kind := last_event_kind s;
     last_finish_reason := last_finish_reason s |}.
Definition set_open_tool_blocks (x : gset Z) (s : ParserState) : ParserState :=
  {|
     emitted_response_start := emitted_response_start s; emitted_message_start :=
     emitted_message_start s; emitted_message_stop := emitted_message_stop s;
     emitted_response_stop := emitted_response_stop s; text_block_open := text_block_open s;
     open_tool_blocks := x; response_id := response_id s; response_model := response_model
     s; stream_completed := stream_completed s; event_count := event_count s;
     total_data_bytes := total_data_bytes s; last_event_kind := last_event_kind s;
     last_finish_reason := last_finish_reason s |}.
Definition set_response_id (x : string) (s : ParserState) : ParserState :=
  {|
     emitted_response_start := emitted_response_start s; emitted_message_start :=
     emitted_message_start s; emitted_message_stop := emitted_message_stop s;
     emitted_response_stop := emitted_response_stop s; text_block_open := text_block_open s;
     open_tool_blocks := open_tool_blocks s; response_id := x; response_model :=
     response_model s; stream_completed := stream_completed s; event_count := event_count s;
     total_data_bytes := total_data_bytes s; last_event_kind := last_event_kind s;
     last_finish_reason := last_finish_reason s |}.
Definition set_response_model (x : string) (s : ParserState) : ParserState :=
  {|
     emitted_response_start := emitted_response_start s; emitted_message_start :=
     emitted_message_start s; emitted_message_stop := emitted_message_stop s;
     emitted_response_stop := emitted_response_stop s; text_block_open := text_block_open s;
     open_tool_blocks := open_tool_blocks s; response_id := response_id s; response_model :=
     x; stream_completed := stream_completed s; event_count := event_count s;
     total_data_bytes := total_data_bytes s; last_event_kind := last_event_kind s;
     last_finish_reason := last_finish_reason s |}.
Definition set_stream_completed (x : bool) (s : ParserState) : ParserState :=
  {|
     emitted_response_start := emitted_response_start s; emitted_message_start :=
     emitted_message_start s; emitted_message_stop := emitted_message_stop s;
     emitted_response_stop := emitted_response_stop s; text_block_open := text_block_open s;
     open_tool_blocks := open_tool_blocks s; response_id := response_id s; response_model :=
     response_model s; stream_completed := x; event_count := event_count s; total_data_bytes
     := total_data_bytes s; last_event_kind := last_event_kind s; last_finish_reason :=
     last_finish_reason s |}.
Definition set_event_count (x : Z) (s : ParserState) : ParserState :=
  {|
     emitted_response_start := emitted_response_start s; emitted_message_start :=
     emitted_message_start s; emitted_message_stop := emitted_message_stop s;
     emitted_response_stop := emitted_response_stop s; text_block_open := text_block_open s;
     open_tool_blocks := open_tool_blocks s; response_id := response_id s; response_model :=
     response_model s; stream_completed := stream_completed s; event_count := x;
     total_data_bytes := total_data_bytes s; last_event_kind := last_event_kind s;
     last_finish_reason := last_finish_reason s |}.
Definition set_total_data_bytes (x : Z) (s : ParserState) : ParserState :=
  {|
     emitted_response_start := emitted_response_start s; emitted_message_start :=
     emitted_message_start s; emitted_message_stop := emitted_message_stop s;
     emitted_response_stop := emitted_response_stop s; text_block_open := text_block_open s;
     open_tool_blocks := open_tool_blocks s; response_id := response_id s; response_model :=
     response_model s; stream_completed := stream_completed s; event_count := event_count s;
     total_data_bytes := x; last_event_kind := last_event_kind s; last_finish_reason :=
     last_finish_reason s |}.
Definition set_last_event_kind (x : string) (s : ParserState) : ParserState :=
  {|
     emitted_response_start := emitted_response_start s; emitted_message_start :=
     emitted_message_start s; emitted_message_stop := emitted_message_stop s;
     emitted_response_stop := emitted_response_stop s; text_block_open := text_block_open s;
     open_tool_blocks := open_tool_blocks s; response_id := response_id s; response_model :=
     response_model s; stream_completed := stream_completed s; event_count := event_count s;
     total_data_bytes := total_data_bytes s; last_event_kind := x; last_finish_reason :=
     last_finish_reason s |}.
Definition set_last_finish_reason (x : option string) (s : ParserState) : ParserState :=
  {|
     emitted_response_start := emitted_response_start s; emitted_message_start :=
     emitted_message_start s; emitted_message_stop := emitted_message_stop s;
     emitted_response_stop := emitted_response_stop s; text_block_open := text_block_open s;
     open_tool_blocks := open_tool_blocks s; response_id := response_id s; response_model :=
     response_model s; stream_completed := stream_completed s; event_count := event_count s;
     total_data_bytes := total_data_bytes s; last_event_kind := last_event_kind s;
     last_finish_reason := x |}.

(** [ParserState::default()]. *)
Definition default_parser_state : ParserState := {|
  emitted_response_start := false; emitted_message_start := false;
  emitted_message_stop := false; emitted_response_stop := false;
  text_block_open := false; open_tool_blocks := ∅; response_id := ""; response_model := "";
  stream_completed := false; event_count := 0; total_data_bytes := 0;
  last_event_kind := ""; last_finish_reason := None |}.

Section ChatSse.
Context `{J : JsonApi} `{H : HashOrder}.
Let M := emit ParserState StreamEvent.

Definition parse_usage (v : value) : option Usage :=
  match get "usage" v with
  | None => None
  | Some u => Some {|
      input_tokens := as_u32 <$> get_u64 "prompt_tokens" u;
      output_tokens := as_u32 <$> get_u64 "completion_tokens" u;
      cache_creation_input_tokens := as_u32 <$> get_u64 "cache_creation_input_tokens" u;
      cache_read_input_tokens :=
        as_u32 <$>
          (match get "cache_read_input_tokens" u with
           | Some x => Some x
           | None => get2 "prompt_tokens_details" "cached_tokens" u
           end ≫= as_u64);
      reasoning_tokens := None; estimated := false;
      provider_raw := None; safety_ratings := None |}
  end.

(** [if !self.emitted_message_start { .. push(MessageStart) }]. *)
Definition message_start_once : M unit :=
  started ← gets emitted_message_start;
  when (negb started)
    (modify (set_emitted_message_start true);; push (MessageStart Assistant)).

(** [if self.text_block_open { .. push(ContentBlockStop {0}) }]. *)
Definition close_text_block : M unit :=
  open ← gets text_block_open;
  when open (modify (set_text_block_open false);; push (ContentBlockStop 0)).

(** [for idx in self.open_tool_blocks.drain() { .. }]. *)
Definition drain_tool_blocks : M unit :=
  blocks ← gets open_tool_blocks;
  modify (set_open_tool_blocks ∅);;
  for_each (hash_elements blocks) (λ idx,
    push (ToolCallStop idx);; push (ContentBlockStop idx)).

Definition message_stop_once (reason : StopReason) : M unit :=
  stopped ← gets emitted_message_stop;
  when (negb stopped)
    (modify (set_emitted_message_stop true);; push (MessageStop reason None)).

Definition handle_done : M unit :=
  modify (set_last_event_kind "done");;
  started ← gets emitted_response_start;
  when (negb started)
    (modify (set_emitted_response_start true);;
     id ← gets response_id;
     model ← gets response_model;
     push (ResponseStart id model 0));;
  message_start_once;;
  close_text_block;;
  drain_tool_blocks;;
  message_stop_once EndTurn;;
  stopped ← gets emitted_response_stop;
  when (negb stopped)
    (modify (set_emitted_response_stop true);; push (ResponseStop None));;
  modify (set_stream_completed true).

Definition finalize : M unit :=
  stopped ← gets emitted_response_stop;
  if (stopped : bool) then mret tt else
  started ← gets emitted_response_start;
  if negb started then mret tt else
  message_start_once;;
  close_text_block;;
  drain_tool_blocks;;
  message_stop_once EndTurn;;
  modify (set_emitted_response_stop true);;
  push (ResponseStop None).

(** The body of [for tc in tool_calls]. *)
Definition handle_tool_call (tc : value) : M unit :=
  let tc_index := as_u32 (default 0%Z (get_u64 "index" tc)) in
  let block_index := u32_add tc_index 1 in
  match get_str "id" tc with
  | Some id =>
      let name := default "" (get2 "function" "name" tc ≫= as_str) in
      blocks ← gets open_tool_blocks;
      when (negb (bool_decide (block_index ∈ blocks)))
        (modify (set_open_tool_blocks ({[block_index]} ∪ blocks));;
         push (ContentBlockStart block_index ToolCall));;
      push (ToolCallStart block_index id name)
  | None => mret tt
  end;;
  match get2 "function" "arguments" tc ≫= as_str with
  | Some args =>
      when (negb (str_is_empty args)) (push (ToolCallArgumentsDelta block_index args))
  | None => mret tt
  end.

(** The body of [if let Some(text) = delta.get("content")]. *)
Definition handle_content (text : string) : M unit :=
  when (negb (str_is_empty text))
    (message_start_once;;
     open ← gets text_block_open;
     when (negb open)
       (modify (set_text_block_open true);; push (ContentBlockStart 0 Text));;
     push (TextDelta 0 text)).

Definition handle_delta (delta : value) : M unit :=
  match get_str "role" delta with
  | Some _ => message_start_once
  | None => mret tt
  end;;
  match get_str "content" delta with
  | Some text => handle_content text
  | None => mret tt
  end;;
  match get_array "tool_calls" delta with
  | Some tool_calls =>
      message_start_once;;
      close_text_block;;
      for_each tool_calls handle_tool_call
  | None => mret tt
  end.

Definition handle_finish_reason (reason : string) : M unit :=
  when (negb (str_is_empty reason))
    (modify (set_last_finish_reason (Some reason));;
     modify (set_last_event_kind "finish");;
     close_text_block;;
     drain_tool_blocks;;
     message_stop_once (from_provider_string reason);;
     modify (set_stream_completed true)).

(** The body of [for choice in choices]. *)
Definition handle_choice (choice : value) : M unit :=
  match get "delta" choice with
  | Some delta => handle_delta delta
  | None => mret tt
  end;;
  match get_str "finish_reason" choice with
  | Some reason => handle_finish_reason reason
  | None => mret tt
  end.

(** [parse_chunk] after the JSON text has been parsed. *)
Definition parse_chunk_value (v : value) : M unit :=
  match get "error" v with
  | Some err =>
      let msg := default "upstream error" (get_str "message" err) in
      modify (set_last_event_kind "upstream_error");;
      push (ErrorEvent msg)
  | None =>
      modify (set_last_event_kind "delta");;
      let id := default "unknown" (get_str "id" v) in
      let model := default "unknown" (get_str "model" v) in
      let created := default 0%Z (get_u64 "created" v) in
      started ← gets emitted_response_start;
      when (negb started)
        (modify (set_emitted_response_start true);;
         modify (set_response_id id);;
         modify (set_response_model model);;
         push (ResponseStart id model created));;
      match get_array "choices" v with
      | None =>
          match parse_usage v with
          | Some usage => push (UsageDelta usage)
          | None => mret tt
          end
      | Some choices =>
          for_each choices handle_choice;;
          match get "usage" v with
          | Some u =>
              if is_null u then mret tt
              else match parse_usage v with
                   | Some usage => push (UsageDelta usage)
                   | None => mret tt
                   end
          | None => mret tt
          end
      end
  end.

Definition parse_chunk (text : string) (s : ParserState)
    : ParserState * result (list StreamEvent) string :=
  match from_str text with
  | Err e => (s, Err ("json parse: " ++ e))
  | Ok v => (final (parse_chunk_value v) s, Ok (emitted (parse_chunk_value v) s))
  end.

Definition handle_event (ev : SseEvent) (s : ParserState) : ParserState * list Item :=
  let s := set_event_count (u64_add (event_count s) 1) s in
  let s := set_total_data_bytes
             (u64_add (total_data_bytes s) (Z.of_nat (String.length (data ev)))) s in
  if bool_decide (data ev = "[DONE]")
  then (final handle_done s, Ok <$> emitted handle_done s)
  else
    match parse_chunk (data ev) s with
    | (s', Ok evts) => (s', Ok <$> evts)
    | (s', Err e) => (set_last_event_kind "decode_error" s', [Err (DecodeError e)])
    end.

(** The transport error is given by its text; the diagnostics it is logged
    with do not change the state. *)
Definition handle_transport_error (e : string) (s : ParserState) : list Item :=
  if stream_completed s then [] else [Err (UpstreamError e)].

(** ** The stream *)
Definition on_item (i : result SseEvent string) (s : ParserState) : ParserState * list Item :=
  match i with
  | Ok ev => handle_event ev s
  | Err e => (s, handle_transport_error e s)
  end.
Definition on_eof (s : ParserState) : ParserState * list Item :=
  (final finalize s, Ok <$> emitted finalize s).

Definition poll_next : parser → poll (option Item) * parser := parser_poll on_item on_eof.

(** [parse]: the stream over a source of SSE events and transport errors. *)
Definition parse (src : list (source_poll (result SseEvent string))) : parser :=
  init (O := Item) default_parser_state src.

(** Everything a stream over [l] yields. *)
Definition parse_all (l : list (result SseEvent string)) : list Item :=
  feed_all on_item on_eof l default_parser_state.
End ChatSse.

(** ** The text of a stream *)
Section Content.
Context `{J : JsonApi} `{H : HashOrder}.

(** The text a choice, a chunk, an SSE event carries. *)
Definition choice_text (choice : value) : string :=
  default "" (get "delta" choice ≫= get_str "content").
Definition chunk_text (v : value) : string :=
  match get "error" v, get_array "choices" v with
  | None, Some choices => concat_strings (choice_text <$> choices)
  | _, _ => ""
  end.
Definition event_text (i : result SseEvent string) : string :=
  match i with
  | Ok ev =>
      if bool_decide (data ev = "[DONE]") then ""
      else match from_str (data ev) with Ok v => chunk_text v | Err _ => "" end
  | Err _ => ""
  end.

Lemma text_message_start_once : says text_of message_start_once "".
Proof. unfold message_start_once. silent. Qed.
Lemma text_close_text_block : says text_of close_text_block "".
Proof. unfold close_text_block. silent. Qed.
Lemma text_drain_tool_blocks : says text_of drain_tool_blocks "".
Proof. unfold drain_tool_blocks. silent. Qed.
Lemma text_message_stop_once r : says text_of (message_stop_once r) "".
Proof. unfold message_stop_once. silent. Qed.
Hint Resolve text_message_start_once text_close_text_block text_drain_tool_blocks
  text_message_stop_once : core.
Lemma text_handle_done : says text_of handle_done "".
Proof. unfold handle_done. silent; auto. Qed.
Lemma text_finalize : says text_of finalize "".
Proof. unfold finalize. silent; auto. Qed.
Lemma text_handle_tool_call tc : says text_of (handle_tool_call tc) "".
Proof. unfold handle_tool_call. silent. Qed.
Lemma text_handle_finish_reason r : says text_of (handle_finish_reason r) "".
Proof. unfold handle_finish_reason. silent; auto. Qed.
Hint Resolve text_handle_done text_finalize text_handle_tool_call
  text_handle_finish_reason : core.

Lemma text_handle_content text : says text_of (handle_content text) text.
Proof.
  unfold handle_content. destruct (str_is_empty text) eqn:He.
  { apply str_is_empty_spec in He as ->. apply says_ret. }
  simpl. apply says_bind_r; [done|intros []].
  apply says_bind_r; [apply says_gets|intros ?].
  apply says_bind_r; [silent|intros []]. apply says_push.
Qed.

Lemma text_handle_choice choice : says text_of (handle_choice choice) (choice_text choice).
Proof.
  unfold handle_choice, choice_text. apply says_bind_l; [|intros []; silent; auto].
  destruct (get "delta" choice) as [delta|]; simpl; [|apply says_ret].
  unfold handle_delta. apply says_bind_r; [silent; auto|intros []].
  apply says_bind_l; [|intros []; silent; auto].
  destruct (get_str "content" delta); [apply text_handle_content|apply says_ret].
Qed.

Lemma text_parse_chunk_value v : says text_of (parse_chunk_value v) (chunk_text v).
Proof.
  unfold parse_chunk_value, chunk_text. destruct (get "error" v); [silent|].
  apply says_bind_r; [apply says_modify|intros []].
  apply says_bind_r; [apply says_gets|intros ?].
  apply says_bind_r; [silent|intros []].
  destruct (get_array "choices" v); [|silent].
  apply says_bind_l; [|intros []; silent].
  apply says_for_each, text_handle_choice.
Qed.

Lemma text_on_item i s : all_text (oks (on_item i s).2) = event_text i.
Proof.
  destruct i as [ev|e]; simpl; [|unfold handle_transport_error; by case_match].
  unfold handle_event, parse_chunk. case_bool_decide as Hd; simpl.
  - rewrite oks_Ok. apply text_handle_done.
  - destruct (from_str (data ev)) as [v|e]; [|done]. simpl. rewrite oks_Ok.
    apply text_parse_chunk_value.
Qed.
End Content.

(** ** The envelope *)
Section EnvelopeInvariant.
Context `{J : JsonApi} `{H : HashOrder}.

Definition flags (s : ParserState) : envelope := {|
  rs := emitted_response_start s; ms := emitted_message_start s;
  mstop := emitted_message_stop s; rstop := emitted_response_stop s |}.

Lemma sets_message_start_once : sets flags with_ms message_start_once.
Proof.
  intros s Hs. unfold message_start_once. destruct s as [a b c d]; simpl in *. subst a.
  wp_steps; [eapply wp_push|]; destruct b; done.
Qed.
Lemma sets_message_stop_once r : sets flags with_mstop (message_stop_once r).
Proof.
  intros s Hs. unfold message_stop_once. destruct s as [a b c d]; simpl in *. subst a.
  wp_steps; [eapply wp_push|]; destruct c; done.
Qed.
Lemma keeps_message_start_once : keeps flags message_start_once.
Proof. eapply keeps_sets; [apply sets_message_start_once|]. by intros [[] [] [] []]. Qed.
Lemma keeps_message_stop_once r : keeps flags (message_stop_once r).
Proof. eapply keeps_sets; [apply sets_message_stop_once|]. by intros [[] [] [] []]. Qed.
Lemma frame_close_text_block : frames flags close_text_block.
Proof. unfold close_text_block. frames. Qed.
Lemma frame_drain_tool_blocks : frames flags drain_tool_blocks.
Proof. unfold drain_tool_blocks. frames. Qed.
Lemma frame_handle_tool_call tc : frames flags (handle_tool_call tc).
Proof. unfold handle_tool_call. frames. Qed.
Hint Resolve frame_close_text_block frame_drain_tool_blocks frame_handle_tool_call : core.
Hint Resolve keeps_message_start_once keeps_message_stop_once : core.

Lemma keeps_handle_choice choice : keeps flags (handle_choice choice).
Proof.
  unfold handle_choice, handle_delta, handle_content, handle_finish_reason. keeps.
Qed.
Hint Resolve keeps_handle_choice : core.

(** [handle_done] and [finalize] complete whatever envelope they find. *)
Lemma wp_closing (k : emit ParserState StreamEvent unit) Q s :
  rs (flags s) = true →
  (∀ s', flags s' = with_mstop (with_ms (flags s)) → wp env_check k Q s' (flags s')) →
  wp env_check
    (message_start_once;; close_text_block;; drain_tool_blocks;; message_stop_once EndTurn;; k)
    Q s (flags s).
Proof.
  intros Hs Hk.
  eapply wp_sets; [apply sets_message_start_once|done|intros [] s1 H1].
  eapply wp_sets; [apply sets_frames; auto|by rewrite H1|intros [] s2 H2].
  eapply wp_sets; [apply sets_frames; auto|by rewrite H2, H1|intros [] s3 H3].
  eapply wp_sets; [apply sets_message_stop_once|by rewrite H3, H2, H1|intros [] s4 H4].
  apply Hk. by rewrite H4, H3, H2, H1.
Qed.

Lemma advances_handle_done : advances flags handle_done.
Proof.
  unfold handle_done. apply advances_bind; [apply advances_frames; frames|intros []].
  intros s Hok. apply wp_guarded; [done| | |done].
  { clear. intros s Hs. wp_steps. eapply wp_push; [|done]. simpl in *. by rewrite Hs. }
  clear. intros s Hs _. apply wp_closing; [done|]. intros s' Hs'.
  destruct s as [a b c d], s' as [a' b' c' d']; simpl in *. subst a.
  injection Hs' as -> -> -> ->. wp_steps; [eapply wp_push|]; by destruct d.
Qed.

Lemma finalize_final s :
  env_okb (flags s) = true →
  wp env_check finalize (λ _ s' g', env_final (flags s') ∧ g' = flags s') s (flags s).
Proof.
  intros Hok. unfold finalize. apply wp_bind, wp_gets. destruct (emitted_response_stop s) eqn:Hst.
  { apply wp_ret. split; [|done]. right. split; [done|done]. }
  apply wp_bind, wp_gets. destruct (emitted_response_start s) eqn:Hrs; simpl.
  - apply wp_closing; [done|]. intros s' Hs'. destruct s as [a b c d], s' as [a' b' c' d'].
    simpl in *. subst. injection Hs' as -> -> -> ->. wp_steps.
    eapply wp_push; [done|]. split; [by right|done].
  - apply wp_ret. split; [|done]. left. unfold flags, env_okb in *. simpl in *.
    rewrite Hrs, Hst in *. destruct (emitted_message_start s), (emitted_message_stop s); done.
Qed.

Lemma advances_parse_chunk_value v : advances flags (parse_chunk_value v).
Proof.
  unfold parse_chunk_value. destruct (get "error" v).
  { apply advances_frames. frames. }
  apply advances_bind; [apply advances_frames; frames|intros []].
  apply advances_guarded; [done| |keeps].
  intros s Hs. wp_steps. eapply wp_push; [|done]. simpl in *. by rewrite Hs.
Qed.

Lemma advances_on_item i s :
  env_okb (flags s) = true →
  monitor (on_ok env_check) (flags s) (on_item i s).2 = Some (flags (on_item i s).1) ∧
  env_okb (flags (on_item i s).1) = true.
Proof.
  intros Hok. destruct i as [ev|e]; simpl; [|unfold handle_transport_error; by case_match].
  unfold handle_event, parse_chunk.
  set (s1 := set_total_data_bytes _ _).
  change (flags s) with (flags s1) in *. clearbody s1.
  case_bool_decide as Hd; simpl.
  - destruct (wp_elim _ _ _ _ _ (advances_handle_done s1 Hok)) as (g' & Hm & -> & ?).
    by rewrite monitor_on_ok, oks_Ok.
  - destruct (from_str (data ev)) as [v|e]; simpl; [|done].
    destruct (wp_elim _ _ _ _ _ (advances_parse_chunk_value v s1 Hok)) as (g' & Hm & -> & ?).
    by rewrite monitor_on_ok, oks_Ok.
Qed.
End EnvelopeInvariant.

(** ** Whole streams *)
Section Streams.
Context `{J : JsonApi} `{H : HashOrder}.

Lemma parse_all_text l : all_text (oks (parse_all l)) = concat_strings (event_text <$> l).
Proof.
  apply (feed_says on_item on_eof (λ o, all_text (oks o))); [done|..].
  - intros. by rewrite oks_app, all_text_app.
  - apply text_on_item.
  - intros s. simpl. rewrite oks_Ok. apply text_finalize.
Qed.

Lemma parse_all_envelope l : envelope_balanced (oks (parse_all l)).
Proof.
  destruct (feed_monitor on_item on_eof (on_ok env_check)
    (λ _ s g, g = flags s ∧ env_okb (flags s) = true) env_final l default_parser_state env0)
    as (g & Hm & Hf); [..|done|].
  - intros i l' s g [-> Hok]. destruct (advances_on_item i s Hok); eauto.
  - intros s g [-> Hok]. destruct (wp_elim _ _ _ _ _ (finalize_final s Hok)) as (g' & Hm & Hf & ->).
    exists (flags (final finalize s)). simpl. by rewrite monitor_on_ok, oks_Ok.
  - rewrite monitor_on_ok in Hm. by eapply envelope_balanced_of_monitor.
Qed.
End Streams.

(** ** Properties *)
Section Properties.
Context `{J : JsonApi} `{H : HashOrder}.

(** For every sequence of upstream SSE events and transport errors, well
    formed or not, the text of the parsed stream is exactly the text the
    chunks carry, in order: no content is lost, duplicated or reordered. *)
Theorem chat_sse_preserves_text l :
  all_text (oks (parse_all l)) = concat_strings (event_text <$> l).
Proof. apply parse_all_text. Qed.

(** For every input, the envelope of the parsed stream is balanced: no
    [ResponseStart], [MessageStart], [MessageStop] or [ResponseStop] at all,
    or each of them exactly once. *)
Theorem chat_sse_envelope_balanced l : envelope_balanced (oks (parse_all l)).
Proof. apply parse_all_envelope. Qed.

(** C30: polling the stream until it ends, over any interleaving of [Pending]
    with the events, terminates and yields exactly the fold of the handlers
    over the events. *)
Theorem chat_sse_poll_refines_fold src fuel :
  length src + length (parse_all (items src)) < fuel →
  collect on_item on_eof fuel (parse src) = Some (parse_all (items src)).
Proof. apply collect_init. Qed.
End Properties.

(** ** A concrete poll *)
Module PollSample.
#[local] Instance poll_json : JsonApi := TreeJson
  [("hi", TObj [("choices", TArr [TObj [("delta", TObj [("content", TStr "hi")])]])])].
#[local] Instance poll_order : HashOrder := elements_order.
Definition sample_src : list (source_poll (result SseEvent string)) :=
  [SPending; SItem (Ok {| event := "message"; data := "hi" |}); SPending; SItem (Err "reset")].

Lemma chat_sse_poll_refines_fold_witness :
  length sample_src + length (parse_all (items sample_src)) < 20 ∧
  collect on_item on_eof 20 (parse sample_src) = Some (parse_all (items sample_src)).
Proof.
  assert (Hf : length sample_src + length (parse_all (items sample_src)) < 20)
    by (vm_compute; lia).
  split; [exact Hf|]. exact (chat_sse_poll_refines_fold sample_src 20 Hf).
Defined.
End PollSample.
