(* ===== verification/ChatSseLifecycle.v ===== *)
(** * The Chat SSE parser meets the canonical lifecycle

    For upstreams that follow the Chat Completions streaming protocol, stated
    as an executable grammar ([conforms]) over the chunks: a message is opened
    by a role, some text or a tool call; text comes before tool calls; argument
    fragments only for announced tool calls; nothing but usage after the finish
    reason, nothing but errors after [[DONE]].  The grammar's exclusions are
    necessary: see the counterexamples at the end. *)
From S2P Require Import Prelude Json CoreTypes Emit Lifecycle Drain Envelope ChatSse.
#[local] Open Scope string_scope.

(** ** The upstream's protocol *)
Inductive phase :=
| PStart
| PText
| PTools (announced : gset Z)
| PFinished
| PDone
| PError.

#[export] Instance phase_eq_dec : EqDecision phase.
Proof. solve_decision. Defined.

Section Protocol.
Context `{J : JsonApi}.

Definition tool_step (p : phase) (tc : value) : option phase :=
  let tc_index := as_u32 (default 0%Z (get_u64 "index" tc)) in
  match p with
  | PTools T =>
      if bool_decide (tc_index = u32_max) then None else
      let T' := match get_str "id" tc with
                | Some _ => {[tc_index + 1]} ∪ T
                | None => T
                end%Z in
      match get2 "function" "arguments" tc ≫= as_str with
      | Some args =>
          if str_is_empty args || bool_decide ((tc_index + 1)%Z ∈ T') then Some (PTools T') else None
      | None => Some (PTools T')
      end
  | _ => None
  end.

Definition role_step (p : phase) (delta : value) : option phase :=
  match get_str "role" delta, p with
  | Some _, PStart => Some PText
  | Some _, PError => None
  | _, _ => Some p
  end.
Definition content_step (p : phase) (delta : value) : option phase :=
  match get_str "content" delta with
  | Some text =>
      if str_is_empty text then Some p else
      match p with PStart | PText => Some PText | _ => None end
  | None => Some p
  end.
Definition tools_step (p : phase) (delta : value) : option phase :=
  match get_array "tool_calls" delta with
  | Some tcs =>
      match p with
      | PStart | PText => steps tool_step (PTools ∅) tcs
      | PTools T => steps tool_step (PTools T) tcs
      | _ => None
      end
  | None => Some p
  end.
Definition delta_step (p : phase) (delta : value) : option phase :=
  role_step p delta ≫= λ p, content_step p delta ≫= λ p, tools_step p delta.
Definition finish_step (p : phase) (reason : string) : option phase :=
  if str_is_empty reason then Some p else
  match p with PText | PTools _ | PFinished => Some PFinished | _ => None end.
Definition choice_step (p : phase) (choice : value) : option phase :=
  match get "delta" choice with Some delta => delta_step p delta | None => Some p end
  ≫= λ p, match get_str "finish_reason" choice with
          | Some reason => finish_step p reason
          | None => Some p
          end.

Definition chunk_step (p : phase) (v : value) : option phase :=
  match p with
  | PError => Some PError
  | _ =>
      match get "error" v with
      | Some _ => Some PError
      | None =>
          match p with
          | PDone => None
          | _ => match get_array "choices" v with
                 | Some choices => steps choice_step p choices
                 | None => Some p
                 end
          end
      end
  end.

Definition event_step (p : phase) (i : result SseEvent string) : option phase :=
  match i with
  | Err _ => Some p
  | Ok ev =>
      match p with
      | PError => Some PError
      | _ =>
          if bool_decide (data ev = "[DONE]") then Some PDone
          else match from_str (data ev) with
               | Ok v => chunk_step p v
               | Err _ => Some p
               end
      end
  end.

(** Phases of an unfinished response: chunks stay among them. *)
Definition live (p : phase) : bool := match p with PDone | PError => false | _ => true end.

Lemma tool_step_live x p p' : live p = true → tool_step p x = Some p' → live p' = true.
Proof. unfold tool_step. intros. destruct p; simplify_eq/=; by split_matches. Qed.
Lemma choice_step_live x p p' : live p = true → choice_step p x = Some p' → live p' = true.
Proof.
  intros Hp (p1 & Hd & Hf)%bind_Some.
  assert (Hp1 : live p1 = true).
  { destruct (get "delta" x); [|by simplify_eq].
    apply bind_Some in Hd as (p2 & Hr & (p3 & Hc & Ht)%bind_Some).
    assert (Hp2 : live p2 = true) by (unfold role_step in Hr; by split_matches).
    assert (Hp3 : live p3 = true) by (unfold content_step in Hc; by split_matches).
    unfold tools_step in Ht. destruct (get_array "tool_calls" v); [|by simplify_eq].
    destruct p3; try done; by eapply (steps_invariant _ (λ p, live p = true)) in Ht; [|apply tool_step_live|]. }
  destruct (get_str "finish_reason" x); [|by simplify_eq].
  unfold finish_step in Hf. by split_matches.
Qed.

(** The upstreams covered by the lifecycle theorem. *)
Definition conforms (l : list (result SseEvent string)) : bool :=
  bool_decide (is_Some (steps event_step PStart l)).
End Protocol.

(** ** The invariant *)
Section Invariant.
Context `{J : JsonApi} `{H : HashOrder}.
Implicit Types (s : ParserState) (v : ValidatorState).

Definition text_blocks (open : bool) : gmap Z ContentBlockKind :=
  if open then {[ 0%Z := Text ]} else ∅.

Definition inv (p : phase) s v : Prop :=
  match p with
  | PStart =>
      flags s = {| rs := emitted_response_start s; ms := false; mstop := false; rstop := false |} ∧
      text_block_open s = false ∧ open_tool_blocks s = ∅ ∧
      v = vstate (emitted_response_start s) false false false ∅ ∅ ∅
  | PText =>
      flags s = {| rs := true; ms := true; mstop := false; rstop := false |} ∧
      open_tool_blocks s = ∅ ∧
      v = vstate true true false false (text_blocks (text_block_open s)) ∅ ∅
  | PTools T =>
      flags s = {| rs := true; ms := true; mstop := false; rstop := false |} ∧
      text_block_open s = false ∧ open_tool_blocks s = T ∧ (0%Z ∉ T) ∧
      ∃ c, c ⊆ {[0%Z]} ∧ v = vstate true true false false (gset_to_gmap ToolCall T) ∅ c
  | PFinished =>
      flags s = {| rs := true; ms := true; mstop := true; rstop := false |} ∧
      text_block_open s = false ∧ open_tool_blocks s = ∅ ∧
      ∃ c, v = vstate true true true false ∅ ∅ c
  | PDone =>
      flags s = {| rs := true; ms := true; mstop := true; rstop := true |} ∧
      text_block_open s = false ∧ open_tool_blocks s = ∅ ∧
      ∃ c, v = vstate true true true true ∅ ∅ c
  | PError =>
      terminated_by_error v = true ∧ env_okb (flags s) = true ∧
      (open_blocks v = ∅ ∨ rs (flags s) = true ∧ rstop (flags s) = false)
  end.

(** Between the stop of the last block and the stop of the message. *)
Definition closed s v : Prop :=
  flags s = {| rs := true; ms := true; mstop := false; rstop := false |} ∧
  text_block_open s = false ∧ open_tool_blocks s = ∅ ∧
  ∃ c, v = vstate true true false false ∅ ∅ c.

Ltac open_state := intros; repeat match goal with s : ParserState |- _ => destruct s end;
  unfold closed, inv in *; unfold flags in *; simpl in *; destruct_and?; simplify_eq/=.

Lemma lc_message_start p s v :
  p = PStart ∨ p = PText → rs (flags s) = true → inv p s v →
  wp check message_start_once (λ _ s' v', inv PText s' v') s v.
Proof.
  intros Hp Hs Hi. unfold message_start_once. destruct Hp as [-> | ->]; open_state; wp_steps;
    try done; by eapply wp_push; [apply check_message_start|].
Qed.

Lemma lc_message_started s v (Q : unit → _ → _ → Prop) :
  ms (flags s) = true → Q tt s v → wp check message_start_once Q s v.
Proof.
  intros Hs HQ. unfold message_start_once. wp_steps; [|done].
  unfold flags in Hs; simpl in Hs. rewrite Hs in *. done.
Qed.

Lemma lc_close_text s v :
  inv PText s v → wp check close_text_block (λ _ s' v', inv (PTools ∅) s' v') s v.
Proof.
  intros Hi. unfold close_text_block. open_state. wp_steps; subst; unfold text_blocks; simpl.
  - eapply wp_push; [eapply check_block_stop; [apply lookup_singleton_eq|done]|].
    rewrite delete_singleton_eq. split_and!; try done.
    exists ({[0%Z]} ∪ ∅). split; [set_solver|]. by rewrite gset_to_gmap_empty.
  - split_and!; try done. exists ∅. split; [set_solver|].
    by rewrite gset_to_gmap_empty.
Qed.

Lemma lc_text_closed s v (Q : unit → _ → _ → Prop) :
  text_block_open s = false → Q tt s v → wp check close_text_block Q s v.
Proof. intros Hs HQ. unfold close_text_block. rewrite <- Hs in *. wp_steps; congruence. Qed.

Lemma lc_drained s v (Q : unit → _ → _ → Prop) :
  open_tool_blocks s = ∅ → Q tt (set_open_tool_blocks ∅ s) v → wp check drain_tool_blocks Q s v.
Proof.
  intros Hs HQ. unfold drain_tool_blocks. wp_steps. rewrite Hs.
  pose proof (hash_elements_perm ∅) as Hp. rewrite elements_empty in Hp.
  apply Permutation_nil_r in Hp. rewrite Hp. by apply wp_ret.
Qed.

Lemma lc_drain T s v :
  inv (PTools T) s v → wp check drain_tool_blocks (λ _ s' v', closed s' v') s v.
Proof.
  intros (Hf & Ht & Ho & H0 & c & Hc & ->). unfold drain_tool_blocks. wp_steps. rewrite Ho.
  eapply wp_mono.
  - apply (wp_for_each check _ _ (λ l s' v', s' = set_open_tool_blocks ∅ s ∧ NoDup l ∧
      ∃ c, v' = vstate true true false false (gset_to_gmap ToolCall (list_to_set l)) ∅ c)).
    + split_and!; [done| |exists c; f_equal].
      * rewrite hash_elements_perm. apply NoDup_elements.
      * f_equal. rewrite hash_elements_perm. symmetry. apply leibniz_equiv, list_to_set_elements.
    + intros i l s' v' (-> & [Hi Hl]%NoDup_cons & c' & ->). wp_steps.
      assert (Hlook : gset_to_gmap ToolCall (list_to_set (i :: l)) !! i = Some ToolCall).
      { apply lookup_gset_to_gmap_Some. set_solver. }
      eapply wp_push; [by apply check_tool_stop|]. simpl.
      eapply wp_push; [apply check_tool_block_stop; [done|set_solver]|].
      split_and!; [done..|]. exists ({[i]} ∪ c'). f_equal; [|set_solver].
      rewrite gset_to_gmap_union_singleton, delete_insert_id; [done|].
      apply lookup_gset_to_gmap_None. by rewrite elem_of_list_to_set.
  - intros [] s' v' (-> & _ & c' & ->). unfold closed. simpl. rewrite gset_to_gmap_empty.
    unfold flags in *. simpl. eauto 10.
Qed.

(** ** Chunks *)
Definition inv_in (p : phase) s v : Prop := inv p s v ∧ rs (flags s) = true.

Lemma lc_announce b id name T s v :
  b ≠ 0%Z → inv_in (PTools T) s v →
  wp check
    (blocks ← gets open_tool_blocks;
     when (negb (bool_decide (b ∈ blocks)))
       (modify (set_open_tool_blocks ({[b]} ∪ blocks));;
        push (ContentBlockStart b ToolCall));;
     push (ToolCallStart b id name))
    (λ _, inv_in (PTools ({[b]} ∪ T))) s v.
Proof.
  intros Hb [(Hf & Ht & Ho & H0 & c & Hc & ->) Hrs].
  assert (Hlook : gset_to_gmap ToolCall ({[b]} ∪ T) !! b = Some ToolCall)
    by (apply lookup_gset_to_gmap_Some; set_solver).
  wp_steps; rewrite Ho in *.
  - assert (Hin : b ∉ T) by (by case_bool_decide).
    eapply wp_push; [apply check_block_start; [|set_solver]|].
    { by apply lookup_gset_to_gmap_None. }
    rewrite <- gset_to_gmap_union_singleton. eapply wp_push; [by apply check_tool_start|].
    split; [|done]. split_and!; try done; [set_solver|]. eauto.
  - assert (Hin : b ∈ T) by (by case_bool_decide).
    replace ({[b]} ∪ T) with T in * by set_solver.
    eapply wp_push; [by apply check_tool_start|].
    split; [|done]. split_and!; try done. eauto.
Qed.

Lemma lc_tool_call p p' tc s v :
  tool_step p tc = Some p' → inv_in p s v → wp check (handle_tool_call tc) (λ _, inv_in p') s v.
Proof.
  intros Hp Hi. unfold handle_tool_call, tool_step in *.
  set (i := as_u32 _) in *. assert (Hiu : is_u32 i) by apply as_u32_range. clearbody i.
  destruct p as [| |T| | |]; simplify_eq/=. case_bool_decide as Hmax; [done|].
  unfold is_u32, u32_max in *. rewrite u32_add_small by (unfold is_u32, u32_max; lia).
  set (T' := match get_str "id" tc with Some _ => _ | None => _ end) in *.
  apply wp_bind. eapply (wp_mono _ _ (λ _, inv_in (PTools T'))).
  { unfold T'. destruct (get_str "id" tc); [|by apply wp_ret]. apply lc_announce; [lia|done]. }
  clearbody T'. clear Hi. intros [] s1 v1 Hi.
  destruct (get2 "function" "arguments" tc ≫= as_str) as [args|];
    [|simplify_eq; by apply wp_ret].
  apply wp_when; intros He; [|by destruct (str_is_empty args); simplify_eq/=].
  destruct (str_is_empty args); [done|]. case_bool_decide as Hin; [|done]. simplify_eq/=.
  destruct Hi as [(Hf & Ht & Ho & H0 & c & Hc & ->) Hrs].
  eapply wp_push; [apply check_tool_args, lookup_gset_to_gmap_Some; split; [done|done]|].
  split; [|done]. split_and!; try done. eauto.
Qed.

Lemma lc_start p s v :
  p = PStart ∨ p = PText → inv_in p s v → wp check message_start_once (λ _, inv_in PText) s v.
Proof.
  intros Hp [Hi Hs]. eapply wp_mono; [by eapply lc_message_start|].
  intros [] s' v' Hi'. split; [done|]. by destruct Hi' as [-> _].
Qed.

Lemma lc_content p p' delta s v :
  content_step p delta = Some p' → inv_in p s v →
  wp check (match get_str "content" delta with
            | Some text => handle_content text | None => mret tt end) (λ _, inv_in p') s v.
Proof.
  unfold content_step. destruct (get_str "content" delta) as [text|];
    [|by intros [= ->] ?; apply wp_ret].
  intros Hp Hi. unfold handle_content. destruct (str_is_empty text); simpl.
  { simplify_eq. by apply wp_ret. }
  assert (Hpp : (p = PStart ∨ p = PText) ∧ p' = PText) by (destruct p; naive_solver).
  destruct Hpp as [Hpp ->]. apply wp_bind. eapply wp_mono; [by eapply lc_start|].
  clear. intros [] s v [Hi Hs]. destruct Hi as (Hf & Ho & ->). wp_steps.
  - assert (Hto : text_block_open s = false) by (by destruct (text_block_open s)).
    rewrite Hto. eapply wp_push; [by apply check_block_start|]. simpl.
    eapply wp_push; [apply check_text_delta, lookup_insert_eq|]. rewrite insert_empty. done.
  - assert (Hto : text_block_open s = true) by (by destruct (text_block_open s)).
    rewrite Hto. eapply wp_push; [apply check_text_delta, lookup_singleton_eq|].
    split; [|done]. split_and!; try done. by rewrite Hto.
Qed.

Lemma lc_tools p p' delta s v :
  tools_step p delta = Some p' → inv_in p s v →
  wp check (match get_array "tool_calls" delta with
            | Some tcs => message_start_once;; close_text_block;; for_each tcs handle_tool_call
            | None => mret tt end) (λ _, inv_in p') s v.
Proof.
  unfold tools_step. destruct (get_array "tool_calls" delta) as [tcs|];
    [|by intros [= ->] ?; apply wp_ret].
  intros Hp Hi.
  assert (Hgo : ∀ T s v, steps tool_step (PTools T) tcs = Some p' → inv_in (PTools T) s v →
    wp check (for_each tcs handle_tool_call) (λ _, inv_in p') s v).
  { intros. eapply wp_for_each_steps; [|done..]. intros. by eapply lc_tool_call. }
  destruct (decide (p = PStart ∨ p = PText)) as [Hpp|Hnp].
  - apply wp_bind. eapply wp_mono; [by eapply lc_start|]. intros [] s1 v1 [Hi1 _].
    apply wp_bind. eapply wp_mono; [by apply lc_close_text|]. intros [] s2 v2 Hi2.
    apply (Hgo ∅); [by destruct Hpp as [-> | ->]|]. split; [done|]. by destruct Hi2 as [-> _].
  - destruct p as [| |T| | |]; try naive_solver.
    apply wp_bind, lc_message_started; [by destruct Hi as [(-> & _) _]|].
    apply wp_bind, lc_text_closed; [by destruct Hi as [(_ & ? & _) _]|]. by apply (Hgo T).
Qed.

Lemma lc_delta p p' delta s v :
  delta_step p delta = Some p' → inv_in p s v → wp check (handle_delta delta) (λ _, inv_in p') s v.
Proof.
  intros (p1 & Hr & (p2 & Hc & Ht)%bind_Some)%bind_Some Hi. unfold handle_delta.
  apply wp_bind. eapply (wp_mono _ _ (λ _, inv_in p1)).
  - unfold role_step in Hr. destruct (get_str "role" delta); [|simplify_eq; by apply wp_ret].
    destruct (decide (p = PStart)) as [->|Hp]; [simplify_eq; apply (lc_start PStart); auto|].
    assert (p1 = p) as -> by (by destruct p; simplify_eq).
    apply lc_message_started; [|done].
    by destruct p, Hi as [Hi _]; simpl in Hi; try (by destruct Hi as [-> _]).
  - intros [] s1 v1 Hi1. apply wp_bind. eapply wp_mono; [by eapply lc_content|].
    intros [] s2 v2 Hi2. by eapply lc_tools.
Qed.

(** Flags and blocks are all the invariant reads. *)
Lemma inv_frame p s s' v :
  flags s' = flags s → text_block_open s' = text_block_open s →
  open_tool_blocks s' = open_tool_blocks s → inv p s v → inv p s' v.
Proof.
  intros Hf Ht Ho Hi. pose proof Hf as [= Hrs _ _ Hst].
  destruct p; simpl in *; rewrite ?Hf, ?Ht, ?Ho, ?Hrs, ?Hst; done.
Qed.

Lemma lc_stop r s v :
  closed s v → wp check (message_stop_once r) (λ _, inv_in PFinished) s v.
Proof.
  intros (Hf & Ht & Ho & c & ->). unfold message_stop_once. open_state. wp_steps.
  eapply wp_push; [by apply check_message_stop|].
  split; [|done]. split_and!; eauto.
Qed.

Lemma lc_stopped r s v (Q : unit → _ → _ → Prop) :
  mstop (flags s) = true → Q tt s v → wp check (message_stop_once r) Q s v.
Proof.
  simpl. intros Hs HQ. unfold message_stop_once. wp_step. wp_step. by rewrite Hs.
Qed.

(** Close every block of an open message. *)
Lemma lc_close_all p (k : emit ParserState StreamEvent unit) Q s v :
  p = PText ∨ (∃ T, p = PTools T) → inv_in p s v →
  (∀ s' v', closed s' v' → wp check k Q s' v') →
  wp check (close_text_block;; drain_tool_blocks;; k) Q s v.
Proof.
  intros Hp [Hi _] Hk.
  assert (Hd : ∀ T s v, inv (PTools T) s v → wp check (drain_tool_blocks;; k) Q s v).
  { clear -Hk. intros T s v Hi. apply wp_bind. eapply wp_mono; [by eapply lc_drain|].
    intros []. apply Hk. }
  apply wp_bind. destruct Hp as [->|[T ->]].
  - eapply wp_mono; [by apply lc_close_text|]. intros []. apply Hd.
  - apply lc_text_closed; [apply Hi|]. by eapply Hd.
Qed.

Lemma lc_finish p p' reason s v :
  finish_step p reason = Some p' → inv_in p s v →
  wp check (handle_finish_reason reason) (λ _, inv_in p') s v.
Proof.
  unfold finish_step, handle_finish_reason. destruct (str_is_empty reason); simpl.
  { intros [= ->] ?. by apply wp_ret. }
  intros Hp Hi.
  assert (Hi2 : inv_in p (set_last_event_kind "finish" (set_last_finish_reason (Some reason) s)) v)
    by (by destruct p).
  wp_step. wp_step. simpl. wp_step. wp_step. simpl.
  revert Hi2. generalize (set_last_event_kind "finish" (set_last_finish_reason (Some reason) s)).
  clear s Hi. intros s Hi.
  assert (p' = PFinished ∧ ((p = PText ∨ ∃ T, p = PTools T) ∨ p = PFinished)) as [-> [Hpp| ->]]
    by (destruct p; naive_solver).
  - eapply lc_close_all; [done..|]. intros s' v' Hc. apply wp_bind.
    eapply wp_mono; [by apply lc_stop|]. intros [] s2 v2 [Hi2 Hr2]. wp_step.
    split; [by eapply inv_frame, Hi2|done].
  - destruct Hi as [(Hf & Ht & Ho & c & ->) Hs].
    apply wp_bind, lc_text_closed; [done|]. apply wp_bind, lc_drained; [done|].
    apply wp_bind, lc_stopped; [exact (f_equal mstop Hf)|]. wp_step.
    split; [|done]. split_and!; try done. eauto.
Qed.

Lemma lc_choice p p' choice s v :
  choice_step p choice = Some p' → inv_in p s v →
  wp check (handle_choice choice) (λ _, inv_in p') s v.
Proof.
  intros (p1 & Hd & Hf)%bind_Some Hi. unfold handle_choice.
  apply wp_bind. eapply (wp_mono _ _ (λ _, inv_in p1)).
  - destruct (get "delta" choice); [by eapply lc_delta|]. simplify_eq. by apply wp_ret.
  - intros [] s1 v1 Hi1. destruct (get_str "finish_reason" choice); [by eapply lc_finish|].
    simplify_eq. by apply wp_ret.
Qed.

(** ** Whole events *)
Lemma inv_usage p s v u (Q : unit → _ → _ → Prop) :
  p ≠ PDone → p ≠ PError → inv_in p s v → Q tt s v → wp check (push (UsageDelta u)) Q s v.
Proof.
  intros Hp Hp' [Hi _] HQ. eapply wp_push; [|exact HQ].
  destruct p; simpl in Hi; try done;
    repeat match goal with H : _ ∧ _ |- _ => destruct H | H : ∃ _, _ |- _ => destruct H end;
    subst; apply check_usage.
Qed.

Lemma lc_error p m s v :
  inv p s v → env_okb (flags s) = true →
  wp check (push (ErrorEvent m)) (λ _, inv PError) s v.
Proof.
  intros Hi Hok. eapply (wp_push _ _ _ _ _
    (if terminated_by_error v then set_blocks v ∅ ∅ ∅ else set_terminated v)).
  { unfold check. by destruct (terminated_by_error v). }
  destruct p; simpl in Hi.
  6: { destruct Hi as (Ht & _ & _). rewrite Ht. split_and!; [done..|by left]. }
  all: destruct Hi as [Hf Hi];
    repeat match goal with H : _ ∧ _ |- _ => destruct H | H : ∃ _, _ |- _ => destruct H end;
    subst; split_and!; [done..|first [by left | right; by rewrite Hf]].
Qed.

Lemma inv_okb p s v : inv p s v → env_okb (flags s) = true.
Proof.
  destruct p; simpl; try (by intros [-> _]); [|by intros (_ & ? & _)].
  intros [-> _]. by destruct (emitted_response_start s).
Qed.

(** Once the validator has seen an error, every further step is accepted. *)
Lemma inv_error (m : emit ParserState StreamEvent unit) s v :
  advances flags m → inv PError s v → wp check m (λ _, inv PError) s v.
Proof.
  intros Hm (Ht & Hok & Ho).
  destruct (wp_elim _ _ _ _ _ (Hm s Hok)) as (g & Hmon & -> & Hok').
  eapply wp_intro; [by apply monitor_terminated|].
  destruct (emitted m s) as [|e l] eqn:He.
  - assert (Hfl : flags (final m s) = flags s) by (simpl in Hmon; congruence).
    split_and!; [done..|]. by rewrite Hfl.
  - split_and!; try done. by left.
Qed.

Lemma lc_response_start p id model created (k : emit ParserState StreamEvent unit) s v Q :
  p ≠ PDone → p ≠ PError → inv p s v →
  (∀ s' v', inv_in p s' v' → wp check k Q s' v') →
  wp check
    (started ← gets emitted_response_start;
     when (negb started)
       (modify (set_emitted_response_start true);;
        modify (set_response_id id);; modify (set_response_model model);;
        push (ResponseStart id model created));;
     k) Q s v.
Proof.
  intros Hp Hp' Hi HQ. apply wp_bind, wp_gets.
  destruct (emitted_response_start s) eqn:Hrs; apply wp_bind; simpl.
  - apply wp_ret. by apply HQ.
  - destruct p; simpl in Hi; try done;
      try (exfalso; destruct Hi as [Hf _]; injection Hf; congruence).
    destruct Hi as (Hf & Ht & Ho & ->). wp_steps. rewrite Hrs.
    eapply wp_push; [by apply check_response_start|]. apply HQ.
    split; [|done]. split_and!; try done. unfold flags in *; simpl in *. congruence.
Qed.

Lemma lc_chunk p p' (w : value) s v :
  chunk_step p w = Some p' → inv p s v → wp check (parse_chunk_value w) (λ _, inv p') s v.
Proof.
  intros Hp Hi. destruct (decide (p = PError)) as [->|Hpe].
  { simplify_eq/=. by apply inv_error; [apply advances_parse_chunk_value|]. }
  assert (Hp2 : match get "error" w with
     | Some _ => p' = PError
     | None => p ≠ PDone ∧ match get_array "choices" w with
               | Some choices => steps choice_step p choices = Some p'
               | None => p' = p end end).
  { unfold chunk_step in Hp. destruct (get "error" w); [by destruct p; simplify_eq|].
    by destruct (get_array "choices" w), p; simplify_eq. }
  clear Hp. unfold parse_chunk_value. destruct (get "error" w).
  { subst. wp_step. wp_step. eapply lc_error; [by eapply inv_frame, Hi|].
    by eapply inv_okb, inv_frame, Hi. }
  destruct Hp2 as [Hpd Hp]. wp_step. wp_step.
  apply (lc_response_start p); [done|done|by eapply inv_frame, Hi|]. clear s v Hi. intros s v Hi.
  destruct (get_array "choices" w) as [choices|].
  - apply wp_bind. eapply wp_mono; [eapply wp_for_each_steps; [|done..]|].
    { intros. by eapply lc_choice. }
    intros [] s1 v1 Hi1.
    assert (Hl : live p' = true).
    { eapply (steps_invariant _ (λ p, live p = true)); [apply choice_step_live| |done]. by destruct p. }
    destruct (get "usage" w) as [u|]; [|apply wp_ret, Hi1].
    destruct (is_null u); [apply wp_ret, Hi1|].
    destruct (parse_usage w); [|apply wp_ret, Hi1].
    eapply inv_usage; [..|exact Hi1|apply Hi1]; by intros ->.
  - subst. destruct (parse_usage w); [|apply wp_ret, Hi].
    by eapply inv_usage; [..|exact Hi|apply Hi].
Qed.

(** [handle_done] and [finalize] close an unfinished response. *)
Lemma lc_closing p (k : emit ParserState StreamEvent unit) Q s v :
  live p = true → inv_in p s v →
  (∀ s' v', inv PFinished s' v' → wp check k Q s' v') →
  wp check
    (message_start_once;; close_text_block;; drain_tool_blocks;; message_stop_once EndTurn;; k)
    Q s v.
Proof.
  intros Hl Hi Hk.
  assert (Hc : ∀ p s v, p = PText ∨ (∃ T, p = PTools T) → inv_in p s v →
    wp check (close_text_block;; drain_tool_blocks;; message_stop_once EndTurn;; k) Q s v).
  { clear -Hk. intros p s v Hp Hi. eapply lc_close_all; [done..|]. intros s' v' Hc.
    apply wp_bind. eapply wp_mono; [by apply lc_stop|]. intros [] s2 v2 [Hi2 _]. by apply Hk. }
  apply wp_bind. destruct p as [| |T| | |]; try done.
  - eapply wp_mono; [by eapply lc_start; [left|]|]. intros [] s' v' Hi'. apply (Hc PText); auto.
  - eapply wp_mono; [by eapply lc_start; [right|]|]. intros [] s' v' Hi'. apply (Hc PText); auto.
  - apply lc_message_started; [by destruct Hi as [(-> & _) _]|]. apply (Hc (PTools T)); eauto.
  - destruct Hi as [Hi _]. assert (Hi' := Hi). destruct Hi as (Hf & Ht & Ho & _).
    apply lc_message_started; [by rewrite Hf|].
    apply wp_bind, lc_text_closed; [done|]. apply wp_bind, lc_drained; [done|].
    apply wp_bind, lc_stopped; [exact (f_equal mstop Hf)|]. apply Hk.
    by eapply inv_frame, Hi'.
Qed.

Lemma lc_done p s v :
  p ≠ PError → inv p s v → wp check handle_done (λ _, inv PDone) s v.
Proof.
  intros Hpe Hi. unfold handle_done. wp_step. wp_step.
  apply (inv_frame _ _ (set_last_event_kind "done" s)) in Hi; [|done..].
  revert Hi. generalize (set_last_event_kind "done" s). clear s. intros s Hi.
  destruct (decide (p = PDone)) as [->|Hpd].
  - destruct s, Hi as (Hf & Ht & Ho & c & ->). unfold flags in Hf. simplify_eq/=.
    wp_steps; try done. apply lc_message_started; [done|].
    apply wp_bind, lc_text_closed; [done|]. apply wp_bind, lc_drained; [done|].
    apply wp_bind, lc_stopped; [done|]. wp_steps. split_and!; try done. eauto.
  - apply wp_bind, wp_gets. destruct (emitted_response_start s) eqn:Hrs; apply wp_bind; simpl.
    + apply wp_ret. apply (lc_closing p); [by destruct p|split; [exact Hi|done]|].
      clear. intros s v (Hf & Ht & Ho & c & ->). unfold flags in Hf. destruct s; simplify_eq/=.
      wp_steps. eapply wp_push; [by apply check_response_stop|]. wp_steps.
      split_and!; try done. eauto.
    + destruct p; simpl in Hi; try done;
        try (exfalso; destruct Hi as [Hf _]; injection Hf; congruence).
      destruct s, Hi as (Hf & Ht & Ho & ->). unfold flags in Hf. simplify_eq/=. wp_steps.
      eapply wp_push; [by apply check_response_start|].
      apply (lc_closing PStart); [done| |].
      { split; [|done]. by split_and!. }
      clear. intros s v (Hf & Ht & Ho & c & ->). unfold flags in Hf. destruct s; simplify_eq/=.
      wp_steps. eapply wp_push; [by apply check_response_stop|]. wp_steps.
      split_and!; try done. eauto.
Qed.

Lemma lc_finalize p s v :
  p ≠ PError → inv p s v → wp check finalize (λ _ _ v', open_blocks v' = ∅) s v.
Proof.
  intros Hpe Hi. unfold finalize. destruct (decide (p = PDone)) as [->|Hpd].
  { destruct s, Hi as (Hf & Ht & Ho & c & ->). unfold flags in Hf. simplify_eq/=. by wp_steps. }
  apply wp_bind, wp_gets. destruct (emitted_response_stop s) eqn:Hst.
  { exfalso. destruct p; simpl in Hi; try done; destruct Hi as [Hf _];
      injection Hf; congruence. }
  apply wp_bind, wp_gets. destruct (emitted_response_start s) eqn:Hrs; simpl.
  - apply (lc_closing p); [by destruct p|split; [exact Hi|done]|].
    clear. intros s v (Hf & Ht & Ho & c & ->). wp_steps.
    eapply wp_push; [by apply check_response_stop|]. done.
  - apply wp_ret. destruct p; simpl in Hi; try done;
      try (exfalso; destruct Hi as [Hf _]; injection Hf; congruence).
    by destruct Hi as (_ & _ & _ & ->).
Qed.

Lemma advances_finalize : advances flags finalize.
Proof.
  intros s Hok. eapply wp_mono; [by apply finalize_final|].
  intros [] s' g' [[Hf|[_ Hf]] ->]; [by rewrite Hf|done].
Qed.

(** An error that is not the last word: [finalize] still speaks. *)
Lemma finalize_after_error s v :
  inv PError s v → wp check finalize (λ _ _ v', open_blocks v' = ∅) s v.
Proof.
  intros (Ht & Hok & Ho).
  destruct (wp_elim _ _ _ _ _ (finalize_final s Hok)) as (g & Hmon & Hfin & ->).
  eapply wp_intro; [by apply monitor_terminated|].
  destruct (emitted finalize s) as [|e l] eqn:He; [|done].
  assert (Hfl : flags s = flags (final finalize s)) by (simpl in Hmon; congruence).
  rewrite <- Hfl in Hfin. destruct Ho as [|[Hrs Hst]]; [done|].
  destruct Hfin as [Hfin|[Hfin _]]; rewrite Hfin in *; done.
Qed.

Lemma lc_on_item p p' i s v :
  event_step p i = Some p' → inv p s v →
  ∃ v', monitor (on_ok check) v (on_item i s).2 = Some v' ∧ inv p' (on_item i s).1 v'.
Proof.
  intros Hp Hi. destruct i as [ev|e]; simpl in *.
  2: { simplify_eq. exists v. unfold handle_transport_error. by case_match. }
  unfold handle_event, parse_chunk. set (s1 := set_total_data_bytes _ _).
  apply (inv_frame _ _ s1) in Hi; [|done..]. clearbody s1. clear s.
  destruct (decide (p = PError)) as [->|Hpe].
  { simplify_eq.
    assert (Hrun : ∀ m : emit ParserState StreamEvent unit, advances flags m →
      ∃ v', monitor (on_ok (F := StreamError) check) v (Ok <$> emitted m s1) = Some v' ∧
            inv PError (final m s1) v').
    { intros m Hm. destruct (wp_elim _ _ _ _ _ (inv_error m s1 v Hm Hi)) as (v' & ? & ?).
      exists v'. by rewrite monitor_on_ok, oks_Ok. }
    case_bool_decide; simpl; [|destruct (from_str (data ev)) as [w|e]; simpl].
    - apply Hrun, advances_handle_done.
    - apply Hrun, advances_parse_chunk_value.
    - by exists v. }
  assert (Hp2 : (if bool_decide (data ev = "[DONE]") then Some PDone
    else match from_str (data ev) with Ok v => chunk_step p v | Err _ => Some p end) = Some p')
    by (by destruct p).
  clear Hp. case_bool_decide; simpl; [|destruct (from_str (data ev)) as [w|e]; simpl].
  - simplify_eq. destruct (wp_elim _ _ _ _ _ (lc_done _ _ _ Hpe Hi)) as (v' & Hm & Hi').
    exists v'. by rewrite monitor_on_ok, oks_Ok.
  - destruct (wp_elim _ _ _ _ _ (lc_chunk _ _ _ _ _ Hp2 Hi)) as (v' & Hm & Hi').
    exists v'. by rewrite monitor_on_ok, oks_Ok.
  - simplify_eq. exists v. split; [done|]. by eapply inv_frame, Hi.
Qed.
End Invariant.

(** ** Whole streams *)
Section Streams.
Context `{J : JsonApi} `{H : HashOrder}.

Lemma parse_all_lifecycle l :
  conforms l = true → assert_canonical_lifecycle (oks (parse_all l)) = Ok tt.
Proof.
  intros [p' Hl]%bool_decide_eq_true.
  destruct (feed_monitor on_item on_eof (on_ok check)
    (λ l s v, ∃ p, steps event_step p l = Some p' ∧ inv p s v)
    (λ v, open_blocks v = ∅) l default_parser_state default_state) as (v & Hm & Hv).
  - intros i l' s v (p & Hp & Hi). simpl in Hp.
    destruct (event_step p i) as [q|] eqn:Hq; [|done].
    destruct (lc_on_item _ _ _ _ _ Hq Hi) as (v' & Hm & Hi'). eauto.
  - intros s v (p & [= ->] & Hi). simpl. rewrite monitor_on_ok, oks_Ok.
    destruct (decide (p' = PError)) as [->|Hp].
    + edestruct (wp_elim check finalize) as (v' & ? & ?); [by apply finalize_after_error|eauto].
    + edestruct (wp_elim check finalize) as (v' & ? & ?); [by eapply lc_finalize|eauto].
  - exists PStart. split; [done|]. by split_and!.
  - rewrite monitor_on_ok in Hm. by eapply assert_of_monitor.
Qed.
End Streams.

(** ** Properties *)
Section Properties.
Context `{J : JsonApi} `{H : HashOrder}.

(** C1: for every upstream that follows the protocol, with transport errors and
    undecodable events anywhere, the parsed stream meets the canonical
    lifecycle contract. *)
Theorem chat_sse_lifecycle l :
  conforms l = true → assert_canonical_lifecycle (oks (parse_all l)) = Ok tt.
Proof. apply parse_all_lifecycle. Qed.
End Properties.

(** ** Concrete upstreams *)
Module Samples.
Definition delta (fields : list (string * tree)) : tree := TObj
  [("id", TStr "chatcmpl-1"); ("model", TStr "m"); ("created", TNum 1);
   ("choices", TArr [TObj [("index", TNum 0); ("delta", TObj fields); ("finish_reason", TNull)]])].
Definition finish (reason : string) : tree := TObj
  [("id", TStr "chatcmpl-1"); ("model", TStr "m"); ("created", TNum 1);
   ("choices", TArr [TObj [("index", TNum 0); ("delta", TObj []); ("finish_reason", TStr reason)]])].
Definition tool_call (args : string) : tree := delta
  [("tool_calls", TArr [TObj [("index", TNum 0); ("id", TStr "call_1");
     ("function", TObj [("name", TStr "f"); ("arguments", TStr args)])]])].

(** Short names for the chunks' JSON texts. *)
Definition table : list (string * tree) :=
  [("role", delta [("role", TStr "assistant")]);
   ("hello", delta [("content", TStr "hello")]);
   ("tool", tool_call "{}"); ("stop", finish "stop")].

#[local] Instance sample_json : JsonApi := TreeJson table.
#[local] Instance sample_order : HashOrder := elements_order.
Definition sse (d : string) : result SseEvent string := Ok {| event := "message"; data := d |}.

(** The hypothesis of the lifecycle theorem holds of an ordinary stream, here
    interrupted by a transport error. *)
Lemma chat_sse_lifecycle_witness :
  let l := [sse "role"; sse "hello"; Err "reset"; sse "tool"; sse "stop"; sse "[DONE]"] in
  conforms l = true ∧ assert_canonical_lifecycle (oks (parse_all l)) = Ok tt.
Proof.
  intros l. assert (Hc : conforms l = true) by (vm_compute; reflexivity).
  split; [exact Hc|]. exact (chat_sse_lifecycle l Hc).
Defined.

(** The protocol's exclusions are necessary.  Text after a tool call reopens
    the closed block 0; a finish reason before any content makes
    [MessageStart] follow [MessageStop] when the stream is finalized. *)
Theorem text_after_tool_call_violates_lifecycle :
  assert_canonical_lifecycle
    (oks (parse_all [sse "hello"; sse "tool"; sse "hello"; sse "stop"; sse "[DONE]"]))
  = Err rule_1b.
Proof. vm_compute. reflexivity. Qed.

Theorem finish_without_content_violates_lifecycle :
  assert_canonical_lifecycle (oks (parse_all [sse "stop"; sse "[DONE]"])) = Err rule_3.
Proof. vm_compute. reflexivity. Qed.
End Samples.
