(* ===== verification/ChatUnary.v ===== *)
(** * Non-streaming Chat responses
    (crates/providers/src/oai_chat_wire/chat_unary_parser.rs and
    [parse_unary_inner] of crates/providers/src/deepseek/response.rs)

    The two parsers are clones that differ in how they read the token usage;
    the model has the usage as a parameter and both as instances. *)
From S2P Require Import Prelude Json CoreTypes Emit Lifecycle.
#[local] Open Scope string_scope.
#[local] Open Scope list_scope.
#[local] Open Scope nat_scope.

(** The local variables of the loop over the choices. *)
Record UnaryState := { stop_reason : StopReason; block_index : Z }.
Definition unary_start : UnaryState := {| stop_reason := EndTurn; block_index := 0 |}.
Definition set_stop_reason (r : StopReason) (s : UnaryState) : UnaryState :=
  {| stop_reason := r; block_index := block_index s |}.
(** [block_index += 1]. *)
Definition bump_block_index (s : UnaryState) : UnaryState :=
  {| stop_reason := stop_reason s; block_index := u32_add (block_index s) 1 |}.

Section Unary.
Context `{J : JsonApi} (usage_of : value → Usage).
#[local] Abbreviation M := (emit UnaryState StreamEvent).

Definition unary_text (text : string) : M unit :=
  when (negb (str_is_empty text))
    (index ← gets block_index;
     push (ContentBlockStart index Text);;
     push (TextDelta index text);;
     push (ContentBlockStop index);;
     modify bump_block_index).

(** The body of [for tc in tool_calls]. *)
Definition unary_tool_call (tc : value) : M unit :=
  let id := default "call_unknown" (get_str "id" tc) in
  let name := default "" (get2 "function" "name" tc ≫= as_str) in
  let args_str := default "{}" (get2 "function" "arguments" tc ≫= as_str) in
  index ← gets block_index;
  push (ContentBlockStart index ToolCall);;
  push (ToolCallStart index id name);;
  push (ToolCallArgumentsDelta index args_str);;
  push (ToolCallStop index);;
  push (ContentBlockStop index);;
  modify bump_block_index.

(** The body of [for choice in choices]. *)
Definition unary_choice (choice : value) : M unit :=
  match get_str "finish_reason" choice with
  | Some reason => modify (set_stop_reason (from_provider_string reason))
  | None => mret tt
  end;;
  match get "message" choice with
  | None => mret tt
  | Some message =>
      match get_str "content" message with Some text => unary_text text | None => mret tt end;;
      match get_array "tool_calls" message with
      | Some tool_calls => for_each tool_calls unary_tool_call
      | None => mret tt
      end
  end.

Definition unary_events (v : value) (choices : list value) : M unit :=
  push (ResponseStart (default "unknown" (get_str "id" v)) (default "unknown" (get_str "model" v))
          (default 0%Z (get_u64 "created" v)));;
  push (MessageStart Assistant);;
  for_each choices unary_choice;;
  reason ← gets stop_reason;
  push (MessageStop reason None);;
  push (ResponseStop (usage_of <$> get "usage" v)).

Definition parse_unary_with (body : string) : result (list StreamEvent) string :=
  match from_str body with
  | Err e => Err ("json parse: " ++ e)%string
  | Ok v =>
      match get "error" v with
      | Some err => Ok [ErrorEvent (default "upstream error" (get_str "message" err))]
      | None =>
          match get_array "choices" v with
          | None => Err "missing choices"
          | Some choices => Ok (emitted (unary_events v choices) unary_start)
          end
      end
  end.
(** [parse]: the stream over the events. *)
Definition parse_unary (body : string) : list (result StreamEvent StreamError) :=
  match parse_unary_with body with
  | Ok evts => Ok <$> evts
  | Err e => [Err (DecodeError e)]
  end.
End Unary.

Section Instances.
Context `{J : JsonApi}.
Definition chat_unary_usage (u : value) : Usage := {|
  input_tokens := as_u32 <$> get_u64 "prompt_tokens" u;
  output_tokens := as_u32 <$> get_u64 "completion_tokens" u;
  cache_creation_input_tokens := None; cache_read_input_tokens := None;
  reasoning_tokens := None; estimated := false; provider_raw := None; safety_ratings := None |}.
(** [chat_unary_parser::parse_inner] and [parse]. *)
Definition parse_inner : string → result (list StreamEvent) string := parse_unary_with chat_unary_usage.
Definition chat_parse : string → list (result StreamEvent StreamError) := parse_unary chat_unary_usage.

(** [deepseek::usage::map_usage]. *)
Definition map_usage (raw : value) : Usage := {|
  input_tokens :=
    match as_u32 <$> get_u64 "prompt_cache_miss_tokens" raw with
    | Some miss => Some miss
    | None => as_u32 <$> get_u64 "prompt_tokens" raw
    end;
  output_tokens := as_u32 <$> get_u64 "completion_tokens" raw;
  cache_creation_input_tokens := None;
  cache_read_input_tokens := as_u32 <$> get_u64 "prompt_cache_hit_tokens" raw;
  reasoning_tokens := None; estimated := false; provider_raw := Some raw; safety_ratings := None |}.
(** [deepseek::response::parse_unary_inner] and [parse_unary]. *)
Definition parse_unary_inner : string → result (list StreamEvent) string := parse_unary_with map_usage.
Definition deepseek_parse_unary : string → list (result StreamEvent StreamError) := parse_unary map_usage.
End Instances.

(** ** Reference: the blocks of a message, and their rendering *)
Inductive UnaryBlock :=
| UText (text : string)
| UTool (id name arguments : string).

Section Reference.
Context `{J : JsonApi}.

Definition text_block (text : string) : list UnaryBlock :=
  if str_is_empty text then [] else [UText text].
Definition tool_block (tc : value) : UnaryBlock :=
  UTool (default "call_unknown" (get_str "id" tc)) (default "" (get2 "function" "name" tc ≫= as_str))
    (default "{}" (get2 "function" "arguments" tc ≫= as_str)).
Definition choice_blocks (choice : value) : list UnaryBlock :=
  match get "message" choice with
  | None => []
  | Some message =>
      default [] (text_block <$> get_str "content" message) ++
      (tool_block <$> default [] (get_array "tool_calls" message))
  end.

Definition render_block (i : Z) (b : UnaryBlock) : list StreamEvent :=
  match b with
  | UText t => [ContentBlockStart i Text; TextDelta i t; ContentBlockStop i]
  | UTool id name args =>
      [ContentBlockStart i ToolCall; ToolCallStart i id name; ToolCallArgumentsDelta i args;
       ToolCallStop i; ContentBlockStop i]
  end.
Fixpoint render_blocks (i : Z) (bs : list UnaryBlock) : list StreamEvent :=
  match bs with [] => [] | b :: bs' => render_block i b ++ render_blocks (u32_add i 1) bs' end.

(** The last finish reason given by a choice. *)
Definition last_reason (choices : list value) (r : StopReason) : StopReason :=
  foldl (λ r c, default r (from_provider_string <$> get_str "finish_reason" c)) r choices.

Definition advance (i : Z) (n : nat) : Z := Nat.iter n (λ j, u32_add j 1) i.
Lemma advance_S i n : advance (u32_add i 1) n = advance i (S n).
Proof. induction n as [|n IH]; [done|]. unfold advance in *. simpl in *. by rewrite IH. Qed.
Lemma advance_add i n k : advance (advance i n) k = advance i (n + k).
Proof. unfold advance. by rewrite <- Nat.iter_add, Nat.add_comm. Qed.
Lemma render_blocks_app i bs cs :
  render_blocks i (bs ++ cs) = render_blocks i bs ++ render_blocks (advance i (length bs)) cs.
Proof.
  revert i. induction bs as [|b bs IH]; intros i; [done|]. simpl. by rewrite IH, advance_S, app_assoc.
Qed.

(** Programs that emit the rendering of given blocks. *)
Definition renders (m : emit UnaryState StreamEvent unit) (bs : list UnaryBlock) : Prop :=
  ∀ s, emitted m s = render_blocks (block_index s) bs ∧
       block_index (final m s) = advance (block_index s) (length bs).

Lemma renders_ret : renders (mret tt) [].
Proof. done. Qed.
Lemma renders_bind m k bs cs : renders m bs → renders k cs → renders (m;; k) (bs ++ cs).
Proof.
  intros Hm Hk s. rewrite emitted_bind, final_bind. destruct (Hm s) as [H1 H2].
  destruct (Hk (final m s)) as [H3 H4].
  by rewrite H1, H3, H4, H2, render_blocks_app, length_app, advance_add.
Qed.
Lemma renders_for_each {A} (f : A → emit UnaryState StreamEvent unit) g l :
  (∀ x, renders (f x) (g x)) → renders (for_each l f) (l ≫= g).
Proof. intros Hf. induction l; csimpl; [apply renders_ret|]. by apply renders_bind. Qed.

Lemma renders_text t : renders (unary_text t) (text_block t).
Proof. unfold unary_text, text_block. by destruct (str_is_empty t). Qed.
Lemma renders_tool_call tc : renders (unary_tool_call tc) [tool_block tc].
Proof. done. Qed.
Lemma renders_choice c : renders (unary_choice c) (choice_blocks c).
Proof.
  unfold unary_choice, choice_blocks. apply (renders_bind _ _ []).
  { by destruct (get_str "finish_reason" c). }
  destruct (get "message" c) as [m|]; [|done]. apply renders_bind.
  { destruct (get_str "content" m); [apply renders_text|done]. }
  destruct (get_array "tool_calls" m) as [l|]; [|done].
  replace (tool_block <$> default [] (Some l)) with (l ≫= λ tc, [tool_block tc]).
  { apply renders_for_each, renders_tool_call. }
  simpl. induction l; csimpl; [done|by f_equal].
Qed.

(** The stop reason is that of the last choice that gives one. *)
Lemma final_reason (m k : emit UnaryState StreamEvent unit) s :
  stop_reason (final (m;; k) s) = stop_reason (final k (final m s)).
Proof. by rewrite final_bind. Qed.
Definition keeps_reason (m : emit UnaryState StreamEvent unit) : Prop :=
  ∀ s, stop_reason (final m s) = stop_reason s.
Lemma keeps_reason_text t : keeps_reason (unary_text t).
Proof. intros s. unfold unary_text. by destruct (str_is_empty t). Qed.
Lemma keeps_reason_tool_calls l : keeps_reason (for_each l unary_tool_call).
Proof.
  induction l as [|tc l IH]; intros s; [done|]. cbn [for_each]. rewrite final_reason.
  rewrite IH. done.
Qed.
Lemma choice_reason c s :
  stop_reason (final (unary_choice c) s) =
  default (stop_reason s) (from_provider_string <$> get_str "finish_reason" c).
Proof.
  unfold unary_choice. rewrite final_reason.
  set (s1 := final _ s). assert (Hs : stop_reason s1 = default (stop_reason s)
    (from_provider_string <$> get_str "finish_reason" c)) by (unfold s1; by destruct (get_str _ c)).
  rewrite <- Hs. clearbody s1. destruct (get "message" c) as [m|]; [|done].
  assert (Ht : keeps_reason (match get_str "content" m with Some text => unary_text text | None => mret tt end))
    by (destruct (get_str "content" m); [apply keeps_reason_text|done]).
  assert (Hc : keeps_reason (match get_array "tool_calls" m with
                             | Some tool_calls => for_each tool_calls unary_tool_call
                             | None => mret tt end))
    by (destruct (get_array "tool_calls" m); [apply keeps_reason_tool_calls|done]).
  by rewrite final_reason, Hc, Ht.
Qed.
Lemma choices_reason l s :
  stop_reason (final (for_each l unary_choice) s) = last_reason l (stop_reason s).
Proof.
  revert s. induction l as [|c l IH]; intros s; [done|]. cbn [for_each].
  by rewrite final_reason, IH, choice_reason.
Qed.

(** A response around rendered blocks. *)
Definition unary_response (usage_of : value → Usage) (v : value) (choices : list value)
    : list StreamEvent :=
  [ResponseStart (default "unknown" (get_str "id" v)) (default "unknown" (get_str "model" v))
     (default 0%Z (get_u64 "created" v)); MessageStart Assistant] ++
  render_blocks 0 (choices ≫= choice_blocks) ++
  [MessageStop (last_reason choices EndTurn) None; ResponseStop (usage_of <$> get "usage" v)].

Lemma unary_events_response usage_of v choices :
  emitted (unary_events usage_of v choices) unary_start = unary_response usage_of v choices.
Proof.
  unfold unary_events, unary_response. rewrite !emitted_push_bind, emitted_bind.
  destruct (renders_for_each unary_choice choice_blocks choices renders_choice unary_start) as [-> _].
  by rewrite emitted_gets_bind, emitted_push_bind, choices_reason.
Qed.
End Reference.

(** ** Properties *)
Section Properties.
Context `{J : JsonApi}.

Lemma monitor_blocks bs i (c : gset Z) :
  (0 ≤ i)%Z → (∀ j, j ∈ c → (j < i)%Z) → (i + Z.of_nat (length bs) ≤ u32_max)%Z →
  ∃ c', monitor check (vstate true true false false ∅ ∅ c) (render_blocks i bs) =
        Some (vstate true true false false ∅ ∅ c').
Proof.
  revert i c. induction bs as [|b bs IH]; intros i c Hi Hc Hn; [by exists c|]. cbn [render_blocks length] in *.
  assert (Hfresh : i ∉ c) by (intros ?%Hc; lia).
  assert (Hb : monitor check (vstate true true false false ∅ ∅ c) (render_block i b) =
    Some (vstate true true false false ∅ ∅ ({[i]} ∪ c))).
  { destruct b; cbn [render_block].
    - erewrite monitor_cons by by apply check_block_start.
      erewrite monitor_cons by apply check_text_delta, lookup_insert_eq.
      erewrite monitor_cons by (eapply check_block_stop; [apply lookup_insert_eq|done]).
      by rewrite insert_empty, delete_singleton_eq.
    - erewrite monitor_cons by by apply check_block_start.
      erewrite monitor_cons by apply check_tool_start, lookup_insert_eq.
      erewrite monitor_cons by apply check_tool_args, lookup_insert_eq.
      erewrite monitor_cons by apply check_tool_stop, lookup_insert_eq.
      erewrite monitor_cons by (apply check_tool_block_stop; [apply lookup_insert_eq|set_solver]).
      rewrite insert_empty, delete_singleton_eq. simpl. by rewrite union_empty_r_L, difference_diag_L. }
  rewrite monitor_app, Hb. simpl. rewrite u32_add_small by (unfold is_u32; lia).
  apply IH; [lia| |lia]. intros j [->%elem_of_singleton|?%Hc]%elem_of_union; lia.
Qed.

Lemma unary_response_lifecycle usage_of v choices :
  (Z.of_nat (length (unary_response usage_of v choices)) ≤ u32_max)%Z →
  assert_canonical_lifecycle (unary_response usage_of v choices) = Ok tt.
Proof.
  intros Hn. set (bs := choices ≫= choice_blocks).
  assert (Hlen : length bs ≤ length (render_blocks 0 bs)).
  { generalize 0%Z. induction bs as [|[] bs IH]; intros i; simpl; [done|..];
      specialize (IH (u32_add i 1)); lia. }
  unfold unary_response in *. fold bs in Hn |- *. rewrite !length_app in Hn.
  destruct (monitor_blocks bs 0 ∅) as [c Hc]; [done|set_solver|lia|].
  by eapply assert_envelope.
Qed.

(** A non-streaming body is refused exactly when it is no JSON text or has
    neither an error nor choices; an error object becomes one error event, and
    choices become the response that renders their texts and tool calls as
    numbered blocks, in order, with the last finish reason.  Every such
    response of at most 2^32 - 1 events meets the canonical lifecycle. *)
Theorem unary_response_spec usage_of body :
  match parse_unary_with usage_of body with
  | Err e =>
      (∃ e', from_str body = Err e' ∧ e = "json parse: " ++ e')%string ∨
      (∃ v, from_str body = Ok v ∧ get "error" v = None ∧ get_array "choices" v = None ∧
            e = "missing choices"%string)
  | Ok events =>
      ∃ v, from_str body = Ok v ∧
      match get "error" v with
      | Some err => events = [ErrorEvent (default "upstream error"%string (get_str "message" err))]
      | None => ∃ choices, get_array "choices" v = Some choices ∧
                  events = unary_response usage_of v choices
      end ∧
      ((Z.of_nat (length events) ≤ u32_max)%Z → assert_canonical_lifecycle events = Ok tt)
  end.
Proof.
  unfold parse_unary_with. destruct (from_str body) as [v|e]; [|left; eauto].
  destruct (get "error" v) as [err|] eqn:Herr.
  { exists v. rewrite Herr. split_and!; done. }
  destruct (get_array "choices" v) as [choices|] eqn:Hch; [|right; eauto 6].
  rewrite unary_events_response. exists v. rewrite Herr.
  split_and!; [done|by exists choices|apply unary_response_lifecycle].
Qed.
End Properties.
