(* ===== verification/DeepSeek.v ===== *)
(** * The DeepSeek SSE parser (crates/providers/src/deepseek/response.rs)

    The streaming parser of DeepSeek's Chat dialect: text and reasoning deltas
    go through the interleaver, tool calls get the indices after its blocks.
    [parse_unary_inner] is in ChatUnary. *)
From S2P Require Import Prelude Json CoreTypes Emit Lifecycle Drain Interleaver ChatUnary.
#[local] Open Scope string_scope.
#[local] Open Scope list_scope.
#[local] Open Scope nat_scope.

Record StreamState := {
  emitted_response_start : bool;
  emitted_message_start : bool;
  emitted_message_stop : bool;
  emitted_response_stop : bool;
  interleaver : ReasoningInterleaver;
  (** From the upstream's index of a tool call to its canonical block. *)
  open_tool_blocks : gmap Z Z;
  response_id : string;
  response_model : string;
  completed : bool;
}.

(** [StreamState::default()]. *)
Definition default_stream_state : StreamState := {|
  emitted_response_start := false; emitted_message_start := false;
  emitted_message_stop := false; emitted_response_stop := false;
  interleaver := Interleaver.new; open_tool_blocks := ∅;
  response_id := ""; response_model := ""; completed := false |}.

Definition set_emitted (rs ms mstop rstop : bool) (s : StreamState) : StreamState := {|
  emitted_response_start := rs; emitted_message_start := ms;
  emitted_message_stop := mstop; emitted_response_stop := rstop;
  interleaver := interleaver s; open_tool_blocks := open_tool_blocks s;
  response_id := response_id s; response_model := response_model s; completed := completed s |}.
Definition set_emitted_response_start (s : StreamState) : StreamState :=
  set_emitted true (emitted_message_start s) (emitted_message_stop s) (emitted_response_stop s) s.
Definition set_emitted_message_start (s : StreamState) : StreamState :=
  set_emitted (emitted_response_start s) true (emitted_message_stop s) (emitted_response_stop s) s.
Definition set_emitted_message_stop (s : StreamState) : StreamState :=
  set_emitted (emitted_response_start s) (emitted_message_start s) true (emitted_response_stop s) s.
Definition set_emitted_response_stop (s : StreamState) : StreamState :=
  set_emitted (emitted_response_start s) (emitted_message_start s) (emitted_message_stop s) true s.
Definition set_fields (i : ReasoningInterleaver) (tools : gmap Z Z) (id model : string)
    (completed : bool) (s : StreamState) : StreamState := {|
  emitted_response_start := emitted_response_start s; emitted_message_start := emitted_message_start s;
  emitted_message_stop := emitted_message_stop s; emitted_response_stop := emitted_response_stop s;
  interleaver := i; open_tool_blocks := tools; response_id := id; response_model := model;
  completed := completed |}.
Definition set_interleaver (i : ReasoningInterleaver) (s : StreamState) : StreamState :=
  set_fields i (open_tool_blocks s) (response_id s) (response_model s) (completed s) s.
Definition set_open_tool_blocks (m : gmap Z Z) (s : StreamState) : StreamState :=
  set_fields (interleaver s) m (response_id s) (response_model s) (completed s) s.
Definition set_response (id model : string) (s : StreamState) : StreamState :=
  set_fields (interleaver s) (open_tool_blocks s) id model (completed s) s.
Definition set_completed (s : StreamState) : StreamState :=
  set_fields (interleaver s) (open_tool_blocks s) (response_id s) (response_model s) true s.

(** [open_tool_blocks.values().copied()], sorted by [sort_unstable]. *)
Definition sorted_values (m : gmap Z Z) : list Z :=
  sort_by Z.leb (map_to_list m).*2.

Section Ops.
Context `{J : JsonApi}.
#[local] Abbreviation M := (emit StreamState StreamEvent).

Definition interleaving (m : emit ReasoningInterleaver StreamEvent unit) : M unit :=
  zoom interleaver set_interleaver m.

Definition ensure_message_start : M unit :=
  started ← gets emitted_message_start;
  when (negb started) (modify set_emitted_message_start;; push (MessageStart Assistant)).

Definition drain_open_tool_blocks : M unit :=
  blocks ← gets open_tool_blocks;
  for_each (sorted_values blocks) (λ idx,
    push (ToolCallStop idx);; push (ContentBlockStop idx));;
  modify (set_open_tool_blocks ∅).

(** [if !self.emitted_message_stop { .. }] with the reason [EndTurn]. *)
Definition synthesise_message_stop : M unit :=
  stopped ← gets emitted_message_stop;
  when (negb stopped) (modify set_emitted_message_stop;; push (MessageStop EndTurn None)).

Definition handle_done : M unit :=
  started ← gets emitted_response_start;
  when (negb started)
    (modify set_emitted_response_start;;
     id ← gets response_id;
     model ← gets response_model;
     push (ResponseStart id model 0));;
  ensure_message_start;;
  interleaving flush;;
  drain_open_tool_blocks;;
  synthesise_message_stop;;
  stopped ← gets emitted_response_stop;
  when (negb stopped) (modify set_emitted_response_stop;; push (ResponseStop None));;
  modify set_completed.

Definition finalize : M unit :=
  stopped ← gets emitted_response_stop;
  if (stopped : bool) then mret tt else
  started ← gets emitted_response_start;
  if negb started then mret tt else
  ensure_message_start;;
  interleaving flush;;
  drain_open_tool_blocks;;
  synthesise_message_stop;;
  modify set_emitted_response_stop;;
  push (ResponseStop None).

(** A [reasoning_content] or [content] delta. *)
Definition handle_text (kind : DeltaKind) (text : string) : M unit :=
  when (negb (str_is_empty text))
    (ensure_message_start;; interleaving (push_delta kind text)).

(** The block of the upstream's tool call [provider_idx], opened if need be. *)
Definition tool_block_index (provider_idx : Z) : M Z :=
  blocks ← gets open_tool_blocks;
  match blocks !! provider_idx with
  | Some idx => mret idx
  | None =>
      next ← gets (λ s, next_index (interleaver s));
      let allocated := u32_add next (as_u32 (Z.of_nat (size blocks))) in
      modify (set_open_tool_blocks (<[provider_idx := allocated]> blocks));;
      push (ContentBlockStart allocated ToolCall);;
      mret allocated
  end.

(** The body of [for tc in tool_calls]. *)
Definition handle_tool_call (tc : value) : M unit :=
  let provider_idx := as_u32 (default 0%Z (get_u64 "index" tc)) in
  block_index ← tool_block_index provider_idx;
  match get_str "id" tc with
  | Some id =>
      push (ToolCallStart block_index id (default "" (get2 "function" "name" tc ≫= as_str)))
  | None => mret tt
  end;;
  match get2 "function" "arguments" tc ≫= as_str with
  | Some args => when (negb (str_is_empty args)) (push (ToolCallArgumentsDelta block_index args))
  | None => mret tt
  end.

Definition handle_delta (delta : value) : M unit :=
  match get_str "role" delta with Some _ => ensure_message_start | None => mret tt end;;
  match get_str "reasoning_content" delta with
  | Some text => handle_text DReasoning text | None => mret tt end;;
  match get_str "content" delta with
  | Some text => handle_text DText text | None => mret tt end;;
  match get_array "tool_calls" delta with
  | Some tool_calls =>
      ensure_message_start;;
      interleaving flush;;
      for_each tool_calls handle_tool_call
  | None => mret tt
  end.

Definition handle_finish_reason (reason : string) : M unit :=
  when (negb (str_is_empty reason))
    (interleaving flush;;
     drain_open_tool_blocks;;
     push (MessageStop (from_provider_string reason) None);;
     modify set_emitted_message_stop;;
     modify set_completed).

(** The body of [for choice in choices]. *)
Definition handle_choice (choice : value) : M unit :=
  match get "delta" choice with Some delta => handle_delta delta | None => mret tt end;;
  match get_str "finish_reason" choice with
  | Some reason => handle_finish_reason reason
  | None => mret tt
  end.

(** [v.get("usage").filter(|u| !u.is_null())]. *)
Definition push_usage (v : value) : M unit :=
  match get "usage" v with
  | Some usage_value => if is_null usage_value then mret tt else push (UsageDelta (map_usage usage_value))
  | None => mret tt
  end.

(** [parse_chunk] after the JSON text has been parsed. *)
Definition parse_chunk_value (v : value) : M unit :=
  match get "error" v with
  | Some err => push (ErrorEvent (default "upstream error" (get_str "message" err)))
  | None =>
      let id := default "unknown" (get_str "id" v) in
      let model := default "unknown" (get_str "model" v) in
      let created := default 0%Z (get_u64 "created" v) in
      started ← gets emitted_response_start;
      when (negb started)
        (modify set_emitted_response_start;;
         modify (set_response id model);;
         push (ResponseStart id model created));;
      match get_array "choices" v with
      | Some choices => for_each choices handle_choice;; push_usage v
      | None => push_usage v
      end
  end.

Definition parse_chunk (text : string) (s : StreamState) : StreamState * result (list StreamEvent) string :=
  match from_str text with
  | Err e => (s, Err ("json parse: " ++ e)%string)
  | Ok v => (final (parse_chunk_value v) s, Ok (emitted (parse_chunk_value v) s))
  end.

#[local] Abbreviation Item := (result StreamEvent StreamError).
(** One item of the SSE source, as in the loop of [poll_next]. *)
Definition on_item (i : result SseEvent string) (s : StreamState) : StreamState * list Item :=
  match i with
  | Ok ev =>
      if bool_decide (data ev = "[DONE]")
      then (final handle_done s, Ok <$> emitted handle_done s)
      else match parse_chunk (data ev) s with
           | (s', Ok evts) => (s', Ok <$> evts)
           | (s', Err e) => (s', [Err (DecodeError e)])
           end
  | Err e => (s, if completed s then [] else [Err (UpstreamError e)])
  end.
Definition on_eof (s : StreamState) : StreamState * list Item :=
  (final finalize s, Ok <$> emitted finalize s).

Definition poll_next : parser → poll (option Item) * parser := parser_poll on_item on_eof.
Definition parse_stream (src : list (source_poll (result SseEvent string))) : parser :=
  init (O := Item) default_stream_state src.
Definition parse_all (l : list (result SseEvent string)) : list Item :=
  feed_all on_item on_eof l default_stream_state.
End Ops.

(** ** The content of a stream *)
Section Silence.
Context `{J : JsonApi}.

(** The text or reasoning a choice, a chunk, an SSE event carries. *)
Definition field (kind : DeltaKind) : string :=
  match kind with DText => "content" | DReasoning => "reasoning_content" end.
Definition content_of (kind : DeltaKind) : StreamEvent → string :=
  match kind with DText => text_of | DReasoning => reasoning_of end.
Definition choice_content (kind : DeltaKind) (choice : value) : string :=
  default "" (get "delta" choice ≫= get_str (field kind)).
Definition chunk_content (kind : DeltaKind) (v : value) : string :=
  match get "error" v, get_array "choices" v with
  | None, Some choices => concat_strings (choice_content kind <$> choices)
  | _, _ => ""
  end.
Definition event_content (kind : DeltaKind) (i : result SseEvent string) : string :=
  match i with
  | Ok ev =>
      if bool_decide (data ev = "[DONE]") then ""
      else match from_str (data ev) with Ok v => chunk_content kind v | Err _ => "" end
  | Err _ => ""
  end.

(** What a delta of kind [k] adds to the content of [kind]. *)
Definition share (kind k : DeltaKind) (t : string) : string :=
  match k, kind with DText, DText | DReasoning, DReasoning => t | _, _ => "" end.
Lemma share_empty kind k : share kind k "" = "".
Proof. unfold share. by destruct k, kind. Qed.

Variable kind : DeltaKind.
#[local] Abbreviation says_content := (says (content_of kind)).

Lemma content_flush : says_content (interleaving flush) "".
Proof. intros s. apply says_zoom. unfold flush. destruct kind; silent. Qed.
Lemma content_ensure_message_start : says_content ensure_message_start "".
Proof. unfold ensure_message_start. destruct kind; silent. Qed.
Lemma content_drain : says_content drain_open_tool_blocks "".
Proof. unfold drain_open_tool_blocks. destruct kind; silent. Qed.
Lemma content_synthesise_message_stop : says_content synthesise_message_stop "".
Proof. unfold synthesise_message_stop. destruct kind; silent. Qed.
Hint Resolve content_flush content_ensure_message_start content_drain content_synthesise_message_stop : core.
Lemma content_handle_done : says_content handle_done "".
Proof. unfold handle_done. silent; auto; by destruct kind. Qed.
Lemma content_finalize : says_content finalize "".
Proof. unfold finalize. silent; auto; by destruct kind. Qed.
Lemma content_handle_tool_call tc : says_content (handle_tool_call tc) "".
Proof. unfold handle_tool_call, tool_block_index. destruct kind; silent. Qed.
Lemma content_handle_finish_reason r : says_content (handle_finish_reason r) "".
Proof. unfold handle_finish_reason. silent; auto; by destruct kind. Qed.
Lemma content_push_usage v : says_content (push_usage v) "".
Proof. unfold push_usage. destruct kind; silent. Qed.
Hint Resolve content_handle_tool_call content_handle_finish_reason content_push_usage : core.

End Silence.
#[local] Hint Resolve content_flush content_ensure_message_start content_drain content_synthesise_message_stop
  content_handle_tool_call content_handle_finish_reason content_push_usage : core.

Section Content.
Context `{J : JsonApi} (kind : DeltaKind).
#[local] Abbreviation says_content := (says (content_of kind)).

Lemma content_push_delta k t : says_content (push_delta k t) (share kind k t).
Proof.
  unfold push_delta. destruct (str_is_empty t) eqn:He.
  { apply str_is_empty_spec in He as ->. rewrite share_empty. apply says_ret. }
  intros [[] n]; destruct k, kind; first [done|exact (string_app_nil_r t)].
Qed.
Lemma content_handle_text k t : says_content (handle_text k t) (share kind k t).
Proof.
  unfold handle_text. destruct (str_is_empty t) eqn:He.
  { apply str_is_empty_spec in He as ->. rewrite share_empty. apply says_ret. }
  apply says_bind_r; [done|intros []]. intros s. apply says_zoom, content_push_delta.
Qed.
Lemma content_handle_choice choice : says_content (handle_choice choice) (choice_content kind choice).
Proof.
  unfold handle_choice, choice_content. apply says_bind_l; [|intros []; destruct kind; silent; auto].
  destruct (get "delta" choice) as [delta|]; simpl; [|apply says_ret].
  assert (Htext : ∀ k, says_content (match get_str (field k) delta with
      | Some text => handle_text k text | None => mret tt end)
      (share kind k (default "" (get_str (field k) delta)))).
  { intros k. destruct (get_str (field k) delta); [apply content_handle_text|].
    rewrite share_empty. apply says_ret. }
  unfold handle_delta. apply says_bind_r; [destruct kind; silent; auto|intros []].
  eapply says_eq.
  { apply says_bind; [apply (Htext DReasoning)|intros []].
    apply says_bind_l; [apply (Htext DText)|intros []; destruct kind; silent; auto]. }
  unfold share. destruct kind; simpl; [done|apply string_app_nil_r].
Qed.
Lemma content_parse_chunk_value v : says_content (parse_chunk_value v) (chunk_content kind v).
Proof.
  unfold parse_chunk_value, chunk_content. destruct (get "error" v); [destruct kind; silent|].
  apply says_bind_r; [apply says_gets|intros ?].
  apply says_bind_r; [destruct kind; silent|intros []].
  destruct (get_array "choices" v); [|done].
  apply says_bind_l; [|intros []; done]. apply says_for_each, content_handle_choice.
Qed.

Definition all_content (l : list StreamEvent) : string := concat_strings (content_of kind <$> l).

(** For every sequence of upstream events and transport errors, well formed
    or not, the text and the reasoning of the parsed stream are exactly those
    the chunks carry, each in order, whatever way the upstream mixes them. *)
Theorem deepseek_preserves_content l :
  all_content (oks (parse_all l)) = concat_strings (event_content kind <$> l).
Proof.
  apply (feed_says on_item on_eof (λ o, all_content (oks o))); [done|..].
  - intros. unfold all_content. by rewrite oks_app, fmap_app, concat_strings_app.
  - intros i s. destruct i as [ev|e]; simpl; [|by destruct (completed s)].
    unfold parse_chunk. case_bool_decide as Hd; simpl.
    + rewrite oks_Ok. apply content_handle_done.
    + destruct (from_str (data ev)) as [v|e]; [|done]. simpl. rewrite oks_Ok.
      apply content_parse_chunk_value.
  - intros s. simpl. rewrite oks_Ok. apply content_finalize.
Qed.
End Content.
