(* ===== verification/DeepSeekLifecycle.v ===== *)
(** * The DeepSeek parser meets the canonical lifecycle

    For upstreams that follow DeepSeek's dialect of the streaming protocol, an
    executable grammar ([conforms]) over the chunks: text and reasoning in any
    order, then tool calls, then one finish reason, then nothing but usage,
    nothing but errors after [[DONE]].  The grammar's exclusions are necessary:
    see the counterexamples at the end. *)
From S2P Require Import Prelude Json CoreTypes Emit Lifecycle Drain Envelope Interleaver.
From S2P Require Import ChatUnary DeepSeek.
#[local] Open Scope string_scope.
#[local] Open Scope list_scope.
#[local] Open Scope nat_scope.

(** ** The upstream's protocol

    [n] bounds the number of blocks opened so far; block indices are [u32]. *)
Inductive phase :=
| PStart
| PBody (n : Z)
| PTools (n : Z)
| PFinished
| PDone
| PError.

Section Protocol.
Context `{J : JsonApi}.

Definition one_more (n : Z) (p : Z → phase) : option phase :=
  if bool_decide (n < u32_max)%Z then Some (p (n + 1)%Z) else None.
Definition role_step (p : phase) (delta : value) : option phase :=
  match get_str "role" delta, p with
  | Some _, PStart => Some (PBody 0)
  | _, _ => Some p
  end.
Definition text_step (p : phase) (o : option string) : option phase :=
  match o with
  | Some text =>
      if str_is_empty text then Some p else
      match p with
      | PStart => one_more 0 PBody
      | PBody n => one_more n PBody
      | _ => None
      end
  | None => Some p
  end.
Definition tool_step (p : phase) (tc : value) : option phase :=
  match p with PTools n => one_more n PTools | _ => None end.
Definition tools_step (p : phase) (delta : value) : option phase :=
  match get_array "tool_calls" delta with
  | Some tcs =>
      match p with
      | PStart => steps tool_step (PTools 0) tcs
      | PBody n | PTools n => steps tool_step (PTools n) tcs
      | _ => None
      end
  | None => Some p
  end.
Definition delta_step (p : phase) (delta : value) : option phase :=
  role_step p delta ≫= λ p, text_step p (get_str "reasoning_content" delta) ≫= λ p,
  text_step p (get_str "content" delta) ≫= λ p, tools_step p delta.
Definition finish_step (p : phase) (reason : string) : option phase :=
  if str_is_empty reason then Some p else
  match p with PBody _ | PTools _ => Some PFinished | _ => None end.
Definition choice_step (p : phase) (choice : value) : option phase :=
  match get "delta" choice with Some delta => delta_step p delta | None => Some p end
  ≫= λ p, match get_str "finish_reason" choice with
          | Some reason => finish_step p reason
          | None => Some p
          end.

Definition chunk_step (p : phase) (v : value) : option phase :=
  match get "error" v, p with
  | Some _, _ => Some PError
  | None, PDone => None
  | None, _ => match get_array "choices" v with
               | Some choices => steps choice_step p choices
               | None => Some p
               end
  end.

Definition event_step (p : phase) (i : result SseEvent string) : option phase :=
  match i, p with
  | Err _, _ => Some p
  | Ok _, PError => Some PError
  | Ok ev, _ =>
      if bool_decide (data ev = "[DONE]") then Some PDone
      else match from_str (data ev) with
           | Ok v => chunk_step p v
           | Err _ => Some p
           end
  end.

(** Phases of an unfinished response: chunks stay among them. *)
Definition live (p : phase) : Prop := match p with PDone | PError => False | _ => True end.

#[export] Instance phase_eq_dec : EqDecision phase.
Proof. solve_decision. Defined.
#[export] Instance live_dec p : Decision (live p).
Proof. destruct p; apply _. Defined.

Lemma one_more_Some n k p : one_more n k = Some p → p = k (n + 1)%Z ∧ (n < u32_max)%Z.
Proof. unfold one_more. case_bool_decide; naive_solver. Qed.
Lemma ds_text_step_live p o p' : live p → text_step p o = Some p' → live p'.
Proof.
  unfold text_step. intros. destruct o as [t|]; [|by simplify_eq]. destruct (str_is_empty t); [by simplify_eq|].
  destruct p; try done; by apply one_more_Some in H0 as [-> _].
Qed.
Lemma ds_choice_step_live x p p' : live p → choice_step p x = Some p' → live p'.
Proof.
  intros Hp (p1 & Hd & Hf)%bind_Some.
  assert (Hp1 : live p1).
  { destruct (get "delta" x); [|by simplify_eq].
    apply bind_Some in Hd as (p2 & Hr & (p3 & Hx & (p4 & Hc & Ht)%bind_Some)%bind_Some).
    assert (Hp2 : live p2) by (unfold role_step in Hr; by split_matches).
    apply ds_text_step_live in Hx; [|done]. apply ds_text_step_live in Hc; [|done].
    unfold tools_step in Ht. destruct (get_array "tool_calls" v); [|by simplify_eq].
    destruct p4; try done; (eapply (steps_invariant _ live) in Ht; [done| |done]);
      intros y q q' Hq Hs; unfold tool_step in Hs; destruct q; try done;
      by apply one_more_Some in Hs as [-> _]. }
  destruct (get_str "finish_reason" x); [|by simplify_eq].
  unfold finish_step in Hf. by split_matches.
Qed.

(** The upstreams covered by the lifecycle theorem. *)
Definition conforms (l : list (result SseEvent string)) : bool :=
  bool_decide (is_Some (steps event_step PStart l)).
End Protocol.

(** ** The tool blocks *)
Definition values (m : gmap Z Z) : list Z := (map_to_list m).*2.

Lemma values_insert m k a : m !! k = None → values (<[k := a]> m) ≡ₚ a :: values m.
Proof. intros Hk. unfold values. by rewrite map_to_list_insert. Qed.
Lemma elem_of_values m k a : m !! k = Some a → a ∈ values m.
Proof. intros Hk. apply list_elem_of_fmap. exists (k, a). by rewrite elem_of_map_to_list. Qed.
Lemma sorted_values_perm m : sorted_values m ≡ₚ values m.
Proof. apply sort_by_perm. Qed.

(** The tool blocks opened after block [b], in a validator. *)
Definition tools_ok (b : Z) (m : gmap Z Z) : Prop :=
  NoDup (values m) ∧ ∀ a, a ∈ values m → (b ≤ a < b + Z.of_nat (size m))%Z.
Definition tool_blocks (l : list Z) : gmap Z ContentBlockKind := gset_to_gmap ToolCall (list_to_set l).

Lemma tool_blocks_perm l k : l ≡ₚ k → tool_blocks l = tool_blocks k.
Proof. intros Hp. unfold tool_blocks. f_equal. by apply leibniz_equiv, list_to_set_perm. Qed.
Lemma tool_blocks_cons a l : tool_blocks (a :: l) = <[a := ToolCall]> (tool_blocks l).
Proof. apply gset_to_gmap_union_singleton. Qed.
Lemma lookup_tool_blocks a l : a ∈ l → tool_blocks l !! a = Some ToolCall.
Proof. intros Ha. apply lookup_gset_to_gmap_Some. by rewrite elem_of_list_to_set. Qed.
Lemma lookup_tool_blocks_None a l : a ∉ l → tool_blocks l !! a = None.
Proof. intros Ha. apply lookup_gset_to_gmap_None. by rewrite elem_of_list_to_set. Qed.

Lemma tools_ok_empty b : tools_ok b ∅.
Proof. split; [constructor|]. by intros a ?%elem_of_nil. Qed.
Lemma tools_ok_fresh b m : tools_ok b m → (b + Z.of_nat (size m))%Z ∉ values m.
Proof. intros [_ Hm] Ha%Hm. lia. Qed.
Lemma tools_ok_insert b m k :
  m !! k = None → tools_ok b m → tools_ok b (<[k := (b + Z.of_nat (size m))%Z]> m).
Proof.
  intros Hk Hm. unfold tools_ok. rewrite map_size_insert_None by done. rewrite values_insert by done. split.
  - apply NoDup_cons. split; [by apply tools_ok_fresh|apply Hm].
  - intros a Ha. rewrite values_insert in Ha by done.
    apply elem_of_cons in Ha as [->|Ha%Hm]; lia.
Qed.

(** ** The invariant *)
Section Invariant.
Context `{J : JsonApi}.
Implicit Types (s : StreamState) (v : ValidatorState).

Definition flags s : envelope := {|
  rs := emitted_response_start s; ms := emitted_message_start s;
  mstop := emitted_message_stop s; rstop := emitted_response_stop s |}.

(** No block of the interleaver or of a tool call is open. *)
Definition idle s : Prop := Interleaver.state (interleaver s) = Idle ∧ open_tool_blocks s = ∅.
Definition closed (f : envelope) s v : Prop :=
  flags s = f ∧ idle s ∧ ∃ c, v = vstate (rs f) (ms f) (mstop f) (rstop f) ∅ ∅ c.

Definition in_message : envelope := {| rs := true; ms := true; mstop := false; rstop := false |}.
Definition after_message : envelope := with_mstop in_message.

Definition inv (p : phase) s v : Prop :=
  match p with
  | PStart =>
      flags s = {| rs := emitted_response_start s; ms := false; mstop := false; rstop := false |} ∧
      interleaver s = Interleaver.new ∧ open_tool_blocks s = ∅ ∧
      v = vstate (emitted_response_start s) false false false ∅ ∅ ∅
  | PBody n =>
      flags s = in_message ∧ open_tool_blocks s = ∅ ∧ (next_index (interleaver s) ≤ n ≤ u32_max)%Z ∧
      ∃ c, coherent (interleaver s) c ∧ v = vstate true true false false (cur (interleaver s)) ∅ c
  | PTools n =>
      let b := next_index (interleaver s) in let m := open_tool_blocks s in
      flags s = in_message ∧ Interleaver.state (interleaver s) = Idle ∧ tools_ok b m ∧
      (b + Z.of_nat (size m) ≤ n ≤ u32_max)%Z ∧
      ∃ c, coherent (interleaver s) c ∧ v = vstate true true false false (tool_blocks (values m)) ∅ c
  | PFinished => closed after_message s v
  | PDone => closed (with_rstop after_message) s v
  | PError =>
      terminated_by_error v = true ∧
      (open_blocks v = ∅ ∨ emitted_response_start s = true ∧ emitted_response_stop s = false)
  end.
Definition inv_in (p : phase) s v : Prop := inv p s v ∧ emitted_response_start s = true.

Ltac open_flags := repeat match goal with
  | H : flags _ = _ |- _ => unfold flags, after_message, in_message, with_mstop, with_rstop in H; simpl in H; injection H; clear H; intros end.

(** Everything but the response's name and [completed] is read. *)
Lemma ds_inv_frame p s s' v :
  flags s' = flags s → interleaver s' = interleaver s → open_tool_blocks s' = open_tool_blocks s →
  inv p s v → inv p s' v.
Proof.
  intros Hf Hi Ho. pose proof Hf as [= Hrs _ _ Hst].
  destruct p; simpl; unfold closed, idle; rewrite ?Hf, ?Hi, ?Ho, ?Hrs, ?Hst; done.
Qed.

Lemma ds_lc_start p s v :
  (p = PStart ∨ ∃ n, p = PBody n) → inv_in p s v →
  wp check ensure_message_start (λ _, inv_in (match p with PStart => PBody 0 | _ => p end)) s v.
Proof.
  unfold ensure_message_start. intros [->|[n ->]] [Hi Hrs]; destruct s; simpl in *.
  - destruct Hi as (Hf & -> & -> & ->). open_flags. subst. wp_steps.
    eapply wp_push; [apply check_message_start|].
    split; [|done]. split_and!; try done. exists ∅. split; [|done].
    split_and!; try done.
  - destruct Hi as (Hf & ?). open_flags. subst. wp_steps. split; [|done]. by split.
Qed.
Lemma ds_lc_started s v (Q : unit → _ → _ → Prop) :
  emitted_message_start s = true → Q tt s v → wp check ensure_message_start Q s v.
Proof. intros Hs HQ. unfold ensure_message_start. wp_step. wp_step. by rewrite Hs. Qed.

Lemma ds_lc_handle_text kind p o p' s v :
  text_step p o = Some p' → inv_in p s v →
  wp check (match o with Some text => handle_text kind text | None => mret tt end)
    (λ _, inv_in p') s v.
Proof.
  unfold text_step. destruct o as [text|]; [|by intros [= ->] ?; apply wp_ret].
  intros Hp Hi. unfold handle_text. destruct (str_is_empty text); simpl.
  { simplify_eq. by apply wp_ret. }
  assert (Hbody : ∃ n, p' = PBody (n + 1) ∧ (n < u32_max)%Z ∧
    wp check ensure_message_start (λ _, inv_in (PBody n)) s v).
  { destruct p as [|n| | | |]; try done; apply one_more_Some in Hp as [-> ?].
    - exists 0%Z. split_and!; [done..|]. by apply (ds_lc_start PStart); [left|].
    - exists n. split_and!; [done..|]. by apply (ds_lc_start (PBody n)); eauto. }
  destruct Hbody as (n & -> & Hn & Hstart). apply wp_bind. eapply wp_mono; [exact Hstart|].
  clear -Hn. intros [] s v [(Hf & Ho & Hle & c & Hc & ->) Hrs]. unfold interleaving. apply wp_zoom.
  apply wp_push_delta; [done|lia|]. intros r' c' Hc' Hn'.
  split; [|done]. simpl. split_and!; [done..|lia|lia|]. by exists c'.
Qed.

Lemma ds_lc_flush_body n s v :
  inv_in (PBody n) s v → wp check (interleaving flush) (λ _, inv_in (PTools n)) s v.
Proof.
  intros [(Hf & Ho & Hle & c & Hc & ->) Hrs]. unfold interleaving. apply wp_zoom.
  apply wp_flush; [done|]. intros c' Hc'. split; [|done]. simpl. rewrite Ho, map_size_empty.
  split_and!; [done..|apply tools_ok_empty|lia|lia|]. by exists c'.
Qed.
Lemma ds_lc_flush_idle s v (Q : unit → _ → _ → Prop) :
  Interleaver.state (interleaver s) = Idle → Q tt s v → wp check (interleaving flush) Q s v.
Proof.
  intros Hs HQ. unfold interleaving. apply wp_zoom. unfold flush. wp_step. wp_step. rewrite Hs.
  apply wp_ret. by destruct s as [? ? ? ? []].
Qed.

Lemma ds_lc_drain n s v :
  inv (PTools n) s v → wp check drain_open_tool_blocks (λ _, closed in_message) s v.
Proof.
  intros (Hf & Hi & [Hnd _] & _ & c & _ & ->). unfold drain_open_tool_blocks. wp_steps.
  assert (Hnd' : NoDup (sorted_values (open_tool_blocks s))) by by rewrite sorted_values_perm.
  rewrite <- (tool_blocks_perm _ _ (sorted_values_perm _)).
  generalize (sorted_values (open_tool_blocks s)) Hnd'. intros l Hl. eapply wp_mono.
  - apply (wp_for_each check _ _ (λ l s' v', s' = s ∧ NoDup l ∧
      ∃ c, v' = vstate true true false false (tool_blocks l) ∅ c)); [by split_and!; eauto|].
    clear. intros a l s' v' (-> & [Ha Hl]%NoDup_cons & c & ->). wp_steps.
    eapply wp_push; [apply check_tool_stop, lookup_tool_blocks, list_elem_of_here|]. simpl.
    eapply wp_push; [apply check_tool_block_stop; [apply lookup_tool_blocks, list_elem_of_here|set_solver]|].
    split_and!; [done..|]. exists ({[a]} ∪ c). f_equal; [|by rewrite union_empty_r_L, difference_diag_L].
    rewrite tool_blocks_cons, delete_insert_id; [done|]. by apply lookup_tool_blocks_None.
  - intros [] s' v' (-> & _ & c' & ->). apply wp_modify. split_and!; [done|by split|by exists c'].
Qed.
Lemma ds_lc_drained s v (Q : unit → _ → _ → Prop) :
  open_tool_blocks s = ∅ → Q tt s v → wp check drain_open_tool_blocks Q s v.
Proof.
  intros Hs HQ. unfold drain_open_tool_blocks. wp_step. wp_step. rewrite Hs. apply wp_bind.
  unfold sorted_values. rewrite map_to_list_empty. simpl. wp_steps.
  destruct s; simpl in *; by subst.
Qed.

(** Close every block of an open message. *)
Lemma ds_lc_close p (k : emit StreamState StreamEvent unit) Q s v :
  match p with PBody _ | PTools _ => True | _ => False end → inv_in p s v →
  (∀ s' v', closed in_message s' v' → wp check k Q s' v') →
  wp check (interleaving flush;; drain_open_tool_blocks;; k) Q s v.
Proof.
  intros Hp Hi Hk. apply wp_bind.
  assert (H : ∃ n, wp check (interleaving flush) (λ _, inv_in (PTools n)) s v).
  { destruct p as [|n|n| | |]; try done; exists n; [by apply ds_lc_flush_body|].
    apply ds_lc_flush_idle; [apply Hi|done]. }
  destruct H as [n H]. eapply wp_mono; [exact H|]. intros [] s1 v1 [Hi1 _].
  apply wp_bind. eapply wp_mono; [by eapply ds_lc_drain|]. intros [] s2 v2. apply Hk.
Qed.

Lemma ds_lc_synthesise_stop s v :
  closed in_message s v → wp check synthesise_message_stop (λ _, inv_in PFinished) s v.
Proof.
  intros (Hf & [Hi Ho] & c & ->). unfold synthesise_message_stop. destruct s; open_flags; simpl in *; subst.
  wp_steps. eapply wp_push; [by apply check_message_stop|].
  split; [|done]. split_and!; [done|done|by exists c].
Qed.
Lemma ds_lc_stopped s v (Q : unit → _ → _ → Prop) :
  emitted_message_stop s = true → Q tt s v → wp check synthesise_message_stop Q s v.
Proof. intros Hs HQ. unfold synthesise_message_stop. wp_step. wp_step. by rewrite Hs. Qed.

(** ** Chunks *)
Lemma ds_lc_tool_block_index k n s v :
  (n < u32_max)%Z → inv_in (PTools n) s v →
  wp check (tool_block_index k)
    (λ b s' v', inv_in (PTools (n + 1)) s' v' ∧ b ∈ values (open_tool_blocks s')) s v.
Proof.
  intros Hn [(Hf & Hi & Hok & Hle & c & Hc & ->) Hrs]. unfold tool_block_index. wp_step. wp_step.
  destruct (open_tool_blocks s !! k) as [idx|] eqn:Hk.
  { apply wp_ret. split; [|by eapply elem_of_values]. split; [|done].
    split_and!; try done; try lia. by exists c. }
  wp_step. wp_step. pose proof Hc as (H0 & Hc1 & _).
  assert (Hsz : as_u32 (Z.of_nat (size (open_tool_blocks s))) = Z.of_nat (size (open_tool_blocks s)))
    by (apply wrap32_small; unfold is_u32; lia).
  rewrite Hsz, u32_add_small by (unfold is_u32; lia). wp_steps.
  set (b := (next_index (interleaver s) + Z.of_nat (size (open_tool_blocks s)))%Z).
  eapply wp_push.
  { apply check_block_start; [apply lookup_tool_blocks_None; by apply tools_ok_fresh|].
    intros Hb%Hc1. lia. }
  wp_steps. split; [|apply elem_of_values with k, lookup_insert_eq]. split; [|done]. simpl.
  rewrite map_size_insert_None by done.
  split_and!; [done|done|by apply tools_ok_insert|lia|lia|]. exists c. split; [done|].
  by rewrite (tool_blocks_perm _ _ (values_insert _ _ b Hk)), tool_blocks_cons.
Qed.

Lemma ds_lc_tool_call p p' tc s v :
  tool_step p tc = Some p' → inv_in p s v → wp check (handle_tool_call tc) (λ _, inv_in p') s v.
Proof.
  intros Hp Hi. destruct p as [| |n| | |]; try done. apply one_more_Some in Hp as [-> Hn].
  unfold handle_tool_call. apply wp_bind. eapply wp_mono; [by apply ds_lc_tool_block_index|].
  clear -Hn. intros b s v [[(Hf & Hi & Hok & Hle & c & Hc & ->) Hrs] Hb].
  assert (Hinv : inv_in (PTools (n + 1)) s
    (vstate true true false false (tool_blocks (values (open_tool_blocks s))) ∅ c)).
  { split; [|done]. split_and!; try done; try lia. by exists c. }
  apply lookup_tool_blocks in Hb. apply wp_bind.
  assert (Hargs : wp check (match get2 "function" "arguments" tc ≫= as_str with
      | Some args => when (negb (str_is_empty args)) (push (ToolCallArgumentsDelta b args))
      | None => mret tt end) (λ _, inv_in (PTools (n + 1))) s
      (vstate true true false false (tool_blocks (values (open_tool_blocks s))) ∅ c)).
  { destruct (get2 _ _ tc ≫= as_str) as [args|]; [|by apply wp_ret]. wp_steps; [|done].
    by eapply wp_push; [apply check_tool_args|]. }
  destruct (get_str "id" tc); [|by apply wp_ret].
  by eapply wp_push; [apply check_tool_start|].
Qed.

Lemma ds_lc_tools p p' delta s v :
  tools_step p delta = Some p' → inv_in p s v →
  wp check (match get_array "tool_calls" delta with
            | Some tcs => ensure_message_start;; interleaving flush;; for_each tcs handle_tool_call
            | None => mret tt end) (λ _, inv_in p') s v.
Proof.
  unfold tools_step. destruct (get_array "tool_calls" delta) as [tcs|];
    [|by intros [= ->] ?; apply wp_ret].
  intros Hp Hi.
  assert (Hgo : ∀ n s v, steps tool_step (PTools n) tcs = Some p' → inv_in (PTools n) s v →
    wp check (for_each tcs handle_tool_call) (λ _, inv_in p') s v).
  { intros. eapply wp_for_each_steps; [|done..]. intros. by eapply ds_lc_tool_call. }
  assert (Hbody : ∀ n s v, steps tool_step (PTools n) tcs = Some p' → inv_in (PBody n) s v →
    wp check (interleaving flush;; for_each tcs handle_tool_call) (λ _, inv_in p') s v).
  { intros n s0 v0 Hn Hi0. apply wp_bind. eapply wp_mono; [by apply ds_lc_flush_body|].
    intros [] s1 v1. by apply Hgo. }
  apply wp_bind. destruct p as [|n|n| | |]; try done.
  - eapply wp_mono; [apply (ds_lc_start PStart); auto|]. intros [] s1 v1. by apply Hbody.
  - eapply wp_mono; [apply (ds_lc_start (PBody n)); eauto|]. intros [] s1 v1. by apply Hbody.
  - destruct Hi as [Hi Hrs]. pose proof Hi as (Hf & Hidle & _).
    apply ds_lc_started; [by injection Hf|]. apply wp_bind, ds_lc_flush_idle; [done|]. by apply (Hgo n).
Qed.

Lemma ds_lc_delta p p' delta s v :
  live p → delta_step p delta = Some p' → inv_in p s v →
  wp check (handle_delta delta) (λ _, inv_in p') s v.
Proof.
  intros Hl (p1 & Hr & (p2 & Hx & (p3 & Hc & Ht)%bind_Some)%bind_Some)%bind_Some Hi.
  unfold handle_delta. apply wp_bind. eapply (wp_mono _ _ (λ _, inv_in p1)).
  { unfold role_step in Hr. destruct (get_str "role" delta); [|simplify_eq; by apply wp_ret].
    destruct p as [|n|n| | |]; try done; simplify_eq; [by apply (ds_lc_start PStart); auto| | |];
      apply ds_lc_started; try done; destruct Hi as [(Hf & _) _]; by injection Hf. }
  intros [] s1 v1 Hi1. apply wp_bind. eapply wp_mono; [by eapply ds_lc_handle_text|].
  intros [] s2 v2 Hi2. apply wp_bind. eapply wp_mono; [by eapply ds_lc_handle_text|].
  intros [] s3 v3 Hi3. by eapply ds_lc_tools.
Qed.

Lemma ds_lc_finish p p' reason s v :
  finish_step p reason = Some p' → inv_in p s v →
  wp check (handle_finish_reason reason) (λ _, inv_in p') s v.
Proof.
  unfold finish_step, handle_finish_reason. destruct (str_is_empty reason); simpl.
  { intros [= ->] Hi. by apply wp_ret. }
  intros Hp Hi. assert (p' = PFinished) as -> by (destruct p; naive_solver).
  apply (ds_lc_close p); [by destruct p|done|]. clear. intros s v (Hf & [Hi Ho] & c & ->).
  apply wp_bind. eapply wp_push; [by apply check_message_stop|]. wp_steps.
  destruct s; simpl in *. open_flags. subst.
  split; [|done]. split_and!; [done|by split|by exists c].
Qed.

Lemma ds_lc_choice p p' choice s v :
  live p → choice_step p choice = Some p' → inv_in p s v →
  wp check (handle_choice choice) (λ _, inv_in p') s v.
Proof.
  intros Hl (p1 & Hd & Hf)%bind_Some Hi. unfold handle_choice.
  apply wp_bind. eapply (wp_mono _ _ (λ _, inv_in p1)).
  - destruct (get "delta" choice); [by eapply ds_lc_delta|]. simplify_eq. by apply wp_ret.
  - intros [] s1 v1 Hi1. destruct (get_str "finish_reason" choice); [by eapply ds_lc_finish|].
    simplify_eq. by apply wp_ret.
Qed.

Lemma ds_lc_push_usage p (w : value) s v :
  live p → inv_in p s v → wp check (push_usage w) (λ _, inv_in p) s v.
Proof.
  intros Hl Hi. unfold push_usage. destruct (get "usage" w) as [u|]; [|by apply wp_ret].
  destruct (is_null u); [by apply wp_ret|].
  eapply wp_push; [|exact Hi]. destruct Hi as [Hi _].
  destruct p; try done; simpl in Hi; unfold closed in Hi; destruct_and!;
    repeat match goal with H : ∃ _, _ |- _ => destruct H end; destruct_and?; subst; apply check_usage.
Qed.

Lemma ds_lc_response_start p id model created (k : emit StreamState StreamEvent unit) s v Q :
  p ≠ PDone → p ≠ PError → inv p s v →
  (∀ s' v', inv_in p s' v' → wp check k Q s' v') →
  wp check
    (started ← gets emitted_response_start;
     when (negb started)
       (modify set_emitted_response_start;; modify (set_response id model);;
        push (ResponseStart id model created));;
     k) Q s v.
Proof.
  intros Hp Hp' Hi HQ. apply wp_bind, wp_gets.
  destruct (emitted_response_start s) eqn:Hrs; apply wp_bind; simpl.
  - apply wp_ret. by apply HQ.
  - destruct p; simpl in Hi; try done;
      try (exfalso; destruct Hi as [Hf _]; injection Hf; congruence).
    destruct s, Hi as (Hf & Hil & Ho & ->). simpl in *. open_flags. subst. wp_steps.
    eapply wp_push; [by apply check_response_start|]. apply HQ. split; [|done]. by split_and!.
Qed.

Lemma ds_lc_error p m s v : inv p s v → wp check (push (ErrorEvent m)) (λ _, inv PError) s v.
Proof.
  intros Hi. eapply (wp_push _ _ _ _ _
    (if terminated_by_error v then set_blocks v ∅ ∅ ∅ else set_terminated v)).
  { unfold check. by destruct (terminated_by_error v). }
  destruct p; simpl in Hi; [..|destruct Hi as [Ht _]; rewrite Ht; split; [exact Ht|by left]].
  all: unfold closed in Hi; destruct_and?;
    repeat match goal with H : ∃ _, _ |- _ => destruct H; destruct_and? end; open_flags; subst; simpl.
  all: split; [done|first [by left | right; split; congruence]].
Qed.

Lemma ds_lc_chunk p p' (w : value) s v :
  p ≠ PError → chunk_step p w = Some p' → inv p s v →
  wp check (parse_chunk_value w) (λ _, inv p') s v.
Proof.
  intros Hpe Hp Hi. unfold chunk_step in Hp. unfold parse_chunk_value. destruct (get "error" w).
  { simplify_eq. by eapply ds_lc_error. }
  assert (Hpd : p ≠ PDone) by (by intros ->). assert (Hl : live p) by by destruct p.
  assert (Hp2 : match get_array "choices" w with
     | Some choices => steps choice_step p choices = Some p' | None => p' = p end)
    by (destruct p, (get_array "choices" w); simplify_eq; done). clear Hp.
  apply (ds_lc_response_start p); [done|done|done|]. clear s v Hi. intros s v Hi.
  destruct (get_array "choices" w) as [choices|].
  - apply wp_bind. eapply wp_mono.
    { apply (wp_for_each_steps check choice_step handle_choice (λ p s v, live p ∧ inv_in p s v)
        choices p p'); [|done|done].
      clear. intros x p p' s v Hx [Hl Hi].
      eapply wp_mono; [by eapply ds_lc_choice|]. intros [] s1 v1 Hi1. split; [|done].
      by eapply ds_choice_step_live. }
    intros [] s1 v1 [Hl1 Hi1]. eapply wp_mono; [by apply ds_lc_push_usage|]. by intros [] s2 v2 [? _].
  - subst. eapply wp_mono; [by apply ds_lc_push_usage|]. by intros [] s2 v2 [? _].
Qed.

(** [handle_done] and [finalize] close an unfinished response. *)
Lemma ds_lc_closing p (k : emit StreamState StreamEvent unit) Q s v :
  live p → inv_in p s v →
  (∀ s' v', inv PFinished s' v' → wp check k Q s' v') →
  wp check
    (ensure_message_start;; interleaving flush;; drain_open_tool_blocks;; synthesise_message_stop;; k)
    Q s v.
Proof.
  intros Hl Hi Hk.
  assert (Hc : ∀ p s v, match p with PBody _ | PTools _ => True | _ => False end → inv_in p s v →
    wp check (interleaving flush;; drain_open_tool_blocks;; synthesise_message_stop;; k) Q s v).
  { clear -Hk. intros p s v Hp Hi. apply (ds_lc_close p); [done..|]. intros s' v' Hc.
    apply wp_bind. eapply wp_mono; [by apply ds_lc_synthesise_stop|]. intros [] s2 v2 [Hi2 _]. by apply Hk. }
  apply wp_bind. destruct p as [|n|n| | |]; try done.
  - eapply wp_mono; [by apply (ds_lc_start PStart); auto|]. intros [] s' v'. by apply (Hc (PBody 0)).
  - eapply wp_mono; [by apply (ds_lc_start (PBody n)); eauto|]. intros [] s' v'. by apply (Hc (PBody n)).
  - apply ds_lc_started; [by destruct Hi as [(Hf & _) _]; injection Hf|]. by apply (Hc (PTools n)).
  - destruct Hi as [Hi _]. pose proof Hi as (Hf & [Hs Ho] & _). injection Hf as Hrs Hms Hmst Hrst.
    apply ds_lc_started; [done|]. apply wp_bind, ds_lc_flush_idle; [done|].
    apply wp_bind, ds_lc_drained; [done|]. apply wp_bind, ds_lc_stopped; [done|]. by apply Hk.
Qed.

Lemma ds_lc_response_stop s v :
  inv PFinished s v →
  wp check
    (stopped ← gets emitted_response_stop;
     when (negb stopped) (modify set_emitted_response_stop;; push (ResponseStop None));;
     modify set_completed) (λ _, inv PDone) s v.
Proof.
  intros (Hf & [Hi Ho] & c & ->). destruct s; simpl in *. open_flags. subst. wp_steps.
  eapply wp_push; [by apply check_response_stop|]. wp_steps.
  split_and!; [done|by split|by exists c].
Qed.

Lemma ds_lc_done p s v : p ≠ PError → inv p s v → wp check handle_done (λ _, inv PDone) s v.
Proof.
  intros Hpe Hi. unfold handle_done. destruct (decide (live p)) as [Hl|Hl].
  - apply wp_bind, wp_gets. destruct (emitted_response_start s) eqn:Hrs; apply wp_bind; simpl.
    + apply wp_ret. apply (ds_lc_closing p); [done|by split|]. apply ds_lc_response_stop.
    + destruct p; simpl in Hi; try done;
        try (exfalso; destruct Hi as [Hf _]; injection Hf; congruence).
      destruct s, Hi as (Hf & Hil & Ho & ->). simpl in *. open_flags. subst. wp_steps.
      eapply wp_push; [by apply check_response_start|].
      apply (ds_lc_closing PStart); [done| |apply ds_lc_response_stop]. split; [|done]. by split_and!.
  - assert (p = PDone) as -> by (by destruct p).
    destruct Hi as (Hf & [Hi Ho] & c & ->). injection Hf as Hrs Hms Hmst Hrst.
    apply wp_bind, wp_gets. rewrite Hrs. apply wp_bind, wp_ret.
    apply wp_bind, ds_lc_started; [done|]. apply wp_bind, ds_lc_flush_idle; [done|].
    apply wp_bind, ds_lc_drained; [done|]. apply wp_bind, ds_lc_stopped; [done|].
    destruct s; simpl in *; subst. wp_steps. split_and!; [done|by split|by exists c].
Qed.

Lemma ds_lc_finalize p s v :
  p ≠ PError → inv p s v → wp check finalize (λ _ _ v', open_blocks v' = ∅) s v.
Proof.
  intros Hpe Hi. unfold finalize. apply wp_bind, wp_gets.
  destruct (decide (live p)) as [Hl|Hl].
  - assert (Hst : emitted_response_stop s = false).
    { destruct p; simpl in Hi; try done; destruct Hi as [Hf _]; by injection Hf. }
    rewrite Hst. apply wp_bind, wp_gets. destruct (emitted_response_start s) eqn:Hrs; simpl.
    + apply (ds_lc_closing p); [done|by split|]. clear. intros s v (Hf & _ & c & ->). wp_steps.
      by eapply wp_push; [by apply check_response_stop|].
    + apply wp_ret. destruct p; simpl in Hi; try done;
        try (exfalso; destruct Hi as [Hf _]; injection Hf; congruence).
      by destruct Hi as (_ & _ & _ & ->).
  - assert (p = PDone) as -> by (by destruct p).
    destruct Hi as (Hf & _ & c & ->). injection Hf as _ _ _ Hst. rewrite Hst. by apply wp_ret.
Qed.

(** ** After an error *)
Definition ends s : bool * bool := (emitted_response_start s, emitted_response_stop s).

Lemma quiet_drain : quiet ends drain_open_tool_blocks.
Proof. unfold drain_open_tool_blocks. quiet. Qed.
Lemma quiet_chunk (w : value) : quiet ends (parse_chunk_value w).
Proof.
  pose proof quiet_drain.
  unfold parse_chunk_value, push_usage, handle_choice, handle_delta, handle_finish_reason, handle_text,
    handle_tool_call, tool_block_index, ensure_message_start, interleaving.
  quiet.
Qed.
Lemma quiet_done : quiet ends handle_done.
Proof.
  pose proof quiet_drain. unfold handle_done. apply quiet_bind; [apply quiet_gets|intros started].
  apply quiet_bind; [apply quiet_when; by intros s|intros []].
  unfold ensure_message_start, synthesise_message_stop, interleaving. quiet.
Qed.

(** Once the validator has seen an error, every further step is accepted. *)
Lemma ds_inv_error (m : emit StreamState StreamEvent unit) s v :
  quiet ends m → inv PError s v → wp check m (λ _, inv PError) s v.
Proof.
  intros Hm [Ht Ho]. eapply wp_intro; [by apply monitor_terminated|].
  destruct (emitted m s) as [|e l] eqn:He; [|by split; [|left]].
  split; [done|]. destruct Ho as [|[Hrs Hst]]; [by left|right].
  pose proof (Hm s He) as [= Hr1 Hr2]. by rewrite Hr1, Hr2.
Qed.
Lemma ds_finalize_after_error s v :
  inv PError s v → wp check finalize (λ _ _ v', open_blocks v' = ∅) s v.
Proof.
  intros [Ht Ho]. eapply wp_intro; [by apply monitor_terminated|].
  destruct (emitted finalize s) as [|e l] eqn:He; [|done].
  destruct Ho as [|[Hrs Hst]]; [done|]. exfalso. revert He. unfold finalize.
  rewrite emitted_gets_bind, Hst, emitted_gets_bind, Hrs. simpl. rewrite !emitted_bind.
  intros H. repeat apply app_eq_nil in H as [_ H]. done.
Qed.

Lemma ds_lc_run p' (m : emit StreamState StreamEvent unit) s v :
  wp check m (λ _, inv p') s v →
  ∃ v', monitor (on_ok (F := StreamError) check) v (Ok <$> emitted m s) = Some v' ∧ inv p' (final m s) v'.
Proof. intros (v' & Hm & Hi)%wp_elim. exists v'. by rewrite monitor_on_ok, oks_Ok. Qed.

Lemma ds_lc_on_item p p' i s v :
  event_step p i = Some p' → inv p s v →
  ∃ v', monitor (on_ok check) v (on_item i s).2 = Some v' ∧ inv p' (on_item i s).1 v'.
Proof.
  intros Hp Hi. destruct i as [ev|e]; cbn [on_item event_step] in *.
  2: { simplify_eq. exists v. by destruct (completed s). }
  unfold parse_chunk. destruct (decide (p = PError)) as [->|Hpe].
  { simplify_eq. case_bool_decide; [by apply ds_lc_run, ds_inv_error; [apply quiet_done|]|].
    destruct (from_str (data ev)) as [w|e]; [by apply ds_lc_run, ds_inv_error; [apply quiet_chunk|]|].
    by exists v. }
  assert (Hp2 : (if bool_decide (data ev = "[DONE]") then Some PDone
    else match from_str (data ev) with Ok v => chunk_step p v | Err _ => Some p end) = Some p')
    by (by destruct p).
  clear Hp. case_bool_decide; [simplify_eq; by eapply ds_lc_run, ds_lc_done|].
  destruct (from_str (data ev)) as [w|e]; [by eapply ds_lc_run, ds_lc_chunk|].
  simplify_eq. by exists v.
Qed.
End Invariant.

(** ** Properties *)
Section Properties.
Context `{J : JsonApi}.

Lemma parse_all_accepted l :
  conforms l = true → assert_canonical_lifecycle (oks (parse_all l)) = Ok tt.
Proof.
  intros [p' Hl]%bool_decide_eq_true.
  destruct (feed_monitor on_item on_eof (on_ok check)
    (λ l s v, ∃ p, steps event_step p l = Some p' ∧ inv p s v)
    (λ v, open_blocks v = ∅) l default_stream_state default_state) as (v & Hm & Hv).
  - intros i l' s v (p & Hp & Hi). simpl in Hp.
    destruct (event_step p i) as [q|] eqn:Hq; [|done].
    destruct (ds_lc_on_item _ _ _ _ _ Hq Hi) as (v' & Hm & Hi'). eauto.
  - intros s v (p & [= ->] & Hi). simpl. rewrite monitor_on_ok, oks_Ok.
    assert (Hf : wp check finalize (λ _ _ v', open_blocks v' = ∅) s v).
    { destruct p'; try (by eapply ds_lc_finalize; [|exact Hi]). by apply ds_finalize_after_error. }
    apply wp_elim in Hf as (v' & ? & ?). eauto.
  - exists PStart. split; [done|]. by split_and!.
  - rewrite monitor_on_ok in Hm. by eapply assert_of_monitor.
Qed.

(** C12: for every upstream that follows DeepSeek's protocol, with transport
    errors and undecodable events anywhere, the parsed stream meets the
    canonical lifecycle contract. *)
Theorem deepseek_lifecycle l :
  conforms l = true → assert_canonical_lifecycle (oks (parse_all l)) = Ok tt.
Proof. apply parse_all_accepted. Qed.
End Properties.

(** ** Concrete upstreams *)
Module Samples.
Definition delta (fields : list (string * tree)) : tree := TObj
  [("id", TStr "ds-1"); ("choices", TArr [TObj [("delta", TObj fields); ("finish_reason", TNull)]])].
Definition finish : tree := TObj [("choices", TArr [TObj [("finish_reason", TStr "stop")]])].
Definition tool (i : N) : tree := delta
  [("tool_calls", TArr [TObj [("index", TNum i); ("id", TStr "call");
     ("function", TObj [("name", TStr "f"); ("arguments", TStr "{}")])]])].
Definition table : list (string * tree) :=
  [("think", delta [("reasoning_content", TStr "hm"); ("content", TNull)]);
   ("say", delta [("content", TStr "hello")]);
   ("tool0", tool 0); ("tool1", tool 1); ("stop", finish)].
#[local] Instance sample_json : JsonApi := TreeJson table.
Definition sse (d : string) : result SseEvent string := Ok {| event := "message"; data := d |}.

Lemma deepseek_lifecycle_witness :
  let l := [sse "think"; sse "say"; Err "reset"; sse "think"; sse "tool0"; sse "tool1"; sse "stop"; sse "[DONE]"] in
  conforms l = true ∧ assert_canonical_lifecycle (oks (parse_all l)) = Ok tt.
Proof.
  intros l. assert (Hc : conforms l = true) by (vm_compute; reflexivity).
  split; [exact Hc|]. exact (deepseek_lifecycle l Hc).
Defined.

(** The protocol's exclusions are necessary.  Text after a tool call is given
    the index of the tool call's open block; a second finish reason stops the
    message twice. *)
Theorem text_after_tool_call_reuses_index :
  assert_canonical_lifecycle (oks (parse_all [sse "think"; sse "tool0"; sse "say"; sse "stop"]))
  = Err rule_1a.
Proof. vm_compute. reflexivity. Qed.
Theorem second_finish_stops_twice :
  assert_canonical_lifecycle (oks (parse_all [sse "say"; sse "stop"; sse "stop"])) = Err rule_7.
Proof. vm_compute. reflexivity. Qed.
End Samples.
