(* ===== verification/Breaker.v ===== *)
(** * The circuit breaker (crates/router/src/circuit_breaker.rs)

    [BreakerState] is the state of one breaker, with its two operations
    [record] and [decision]; [BreakerRegistry] the map of breakers with its
    clock; [BreakerHold] the permission the chain walker holds.  The emitted
    events are the [breaker.state_change] records of [emit_state_change].

    Instants and durations are nanoseconds in [Z], instants counted from the
    earliest one the clock can represent. *)
From Stdlib Require Import Sorted.
From S2P Require Import Prelude Emit.
#[local] Open Scope string_scope.
#[local] Open Scope Z_scope.
#[local] Open Scope list_scope.

(** ** Policy and state *)
Record BreakerPolicy := {
  enabled : bool;
  failure_threshold_pct : Z;
  min_requests : Z;
  window : Z;
  open_cooldown : Z;
}.

(** The configuration's breaker section, and its conversion. *)
Record BreakerConfig := {
  cfg_enabled : bool;
  cfg_failure_threshold_pct : Z;
  cfg_min_requests : Z;
  cfg_window_secs : Z;
  cfg_open_cooldown_secs : Z;
}.
(** [BreakerConfig::default()]. *)
Definition default_breaker_config : BreakerConfig := {|
  cfg_enabled := true; cfg_failure_threshold_pct := 50; cfg_min_requests := 20;
  cfg_window_secs := 60; cfg_open_cooldown_secs := 30 |}.
Definition from_secs (s : Z) : Z := s * 1000000000.
Definition policy_from (c : BreakerConfig) : BreakerPolicy := {|
  enabled := cfg_enabled c;
  failure_threshold_pct := cfg_failure_threshold_pct c;
  min_requests := cfg_min_requests c;
  window := from_secs (cfg_window_secs c);
  open_cooldown := from_secs (cfg_open_cooldown_secs c) |}.

Inductive BreakerDecision := Allow | Skip | Probe.
#[export] Instance BreakerDecision_eq_dec : EqDecision BreakerDecision.
Proof. solve_decision. Defined.

Record BreakerState := {
  upstream : string;
  model : string;
  samples : list (Z * bool);
  open_since : option Z;
  probe_in_flight : bool;
}.

Definition set_samples (l : list (Z * bool)) (s : BreakerState) : BreakerState := {|
  upstream := upstream s; model := model s; samples := l;
  open_since := open_since s; probe_in_flight := probe_in_flight s |}.
Definition set_open_since (o : option Z) (s : BreakerState) : BreakerState := {|
  upstream := upstream s; model := model s; samples := samples s;
  open_since := o; probe_in_flight := probe_in_flight s |}.
Definition set_probe_in_flight (b : bool) (s : BreakerState) : BreakerState := {|
  upstream := upstream s; model := model s; samples := samples s;
  open_since := open_since s; probe_in_flight := b |}.

(** A [breaker.state_change] event. *)
Record StateChange := {
  sc_upstream : string; sc_model : string;
  from_state : string; to_state : string; reason : string;
}.

Definition new_breaker (upstream model : string) : BreakerState := {|
  upstream := upstream; model := model; samples := [];
  open_since := None; probe_in_flight := false |}.

Notation M := (emit BreakerState StateChange).

Definition emit_state_change (from to reason : string) : M unit :=
  up ← gets upstream; md ← gets model;
  push {| sc_upstream := up; sc_model := md;
          from_state := from; to_state := to; reason := reason |}.

(** The [while] loop that pops samples older than the cutoff. *)
Fixpoint evict (cutoff : Z) (l : list (Z * bool)) : list (Z * bool) :=
  match l with
  | (t, ok) :: l' => if t <? cutoff then evict cutoff l' else l
  | [] => []
  end.

(** The failure percentage, in the code's [u32] arithmetic. *)
Definition failure_count (l : list (Z * bool)) : Z :=
  as_u32 (Z.of_nat (length (List.filter (λ p, negb p.2) l))).
Definition failure_pct (l : list (Z * bool)) : Z :=
  u32_mul (failure_count l) 100 / as_u32 (Z.of_nat (length l)).

Definition record (succeeded : bool) (now : Z) (policy : BreakerPolicy) : M unit :=
  match checked_sub now (window policy) with
  | Some cutoff => modify (λ s, set_samples (evict cutoff (samples s)) s)
  | None => mret tt
  end;;
  modify (λ s, set_samples (samples s ++ [(now, succeeded)]) s);;
  open ← gets open_since;
  match open with
  | Some opened =>
      (if succeeded : bool then
         emit_state_change "half_open" "closed" "probe_succeeded";;
         modify (set_open_since None);;
         modify (set_samples []);;
         modify (set_samples [(now, true)])
       else if open_cooldown policy <=? saturating_sub now opened then
         emit_state_change "half_open" "open" "probe_failed";;
         modify (set_open_since (Some now))
       else mret tt);;
      modify (set_probe_in_flight false)
  | None =>
      l ← gets samples;
      if as_u32 (Z.of_nat (length l)) <? min_requests policy then mret tt
      else when (failure_threshold_pct policy <=? failure_pct l)
             (emit_state_change "closed" "open" "failure_threshold_exceeded";;
              modify (set_open_since (Some now)))
  end.

Definition decision (now : Z) (policy : BreakerPolicy) : M BreakerDecision :=
  if negb (enabled policy) then mret Allow else
  open ← gets open_since;
  match open with
  | None => mret Allow
  | Some opened =>
      if open_cooldown policy <=? saturating_sub now opened then
        in_flight ← gets probe_in_flight;
        if (in_flight : bool) then mret Skip
        else
          modify (set_probe_in_flight true);;
          emit_state_change "open" "half_open" "cooldown_elapsed";;
          mret Probe
      else mret Skip
  end.

(** ** Shapes of the two operations *)
(** The samples [record] evaluates. *)
Definition recorded (succeeded : bool) (now : Z) (policy : BreakerPolicy) (s : BreakerState)
    : list (Z * bool) :=
  match checked_sub now (window policy) with
  | Some cutoff => evict cutoff (samples s)
  | None => samples s
  end ++ [(now, succeeded)].

(** The trip condition of a closed breaker. *)
Definition trips (policy : BreakerPolicy) (l : list (Z * bool)) : bool :=
  negb (as_u32 (Z.of_nat (length l)) <? min_requests policy) &&
  (failure_threshold_pct policy <=? failure_pct l).

(** Run a program, keeping the arithmetic folded. *)
Ltac run_record :=
  cbn -[Z.ltb Z.leb Z.of_nat as_u32 failure_pct saturating_sub checked_sub evict].

Lemma final_record b now policy s :
  final (record b now policy) s =
  let l := recorded b now policy s in
  match open_since s with
  | None => set_open_since (if trips policy l then Some now else None) (set_samples l s)
  | Some opened =>
      set_probe_in_flight false
        (if b then set_samples [(now, true)] (set_open_since None s)
         else if open_cooldown policy <=? saturating_sub now opened
              then set_open_since (Some now) (set_samples l s)
              else set_samples l s)
  end.
Proof.
  destruct s as [u m l o p]. unfold record, recorded, trips, final.
  unfold emit_state_change, mbind, emit_bind, mret, emit_ret, modify, gets, push, when.
  run_record. destruct (checked_sub now (window policy)), o as [opened|]; run_record.
  all: try (destruct b; run_record; [reflexivity|]; destruct (_ <=? _); reflexivity).
  all: destruct (_ <? _); run_record; [reflexivity|]; destruct (_ <=? _); reflexivity.
Qed.

(** ** Samples: sorted, in the window *)
Definition sorted_to (now : Z) (l : list (Z * bool)) : Prop :=
  StronglySorted Z.le (l.*1) ∧ Forall (λ t, t ≤ now) (l.*1).

Lemma evict_suffix c l : ∃ k, l = k ++ evict c l ∧ Forall (λ p, p.1 < c) k.
Proof.
  induction l as [|[t ok] l (k & Hk & Hf)]; [by exists []|]. simpl.
  destruct (Z.ltb_spec t c); [|by exists []].
  exists ((t, ok) :: k). split; [simpl; congruence|by constructor].
Qed.

Lemma filter_all {A} (P : A → Prop) `{∀ x, Decision (P x)} l : Forall P l → filter P l = l.
Proof.
  induction 1 as [|x l Hx Hl IH]; [done|]. rewrite filter_cons_True by done. by rewrite IH.
Qed.

(** On a sorted deque popping the front is filtering. *)
Lemma evict_filter c l :
  StronglySorted Z.le (l.*1) → evict c l = filter (λ p, c ≤ p.1) l.
Proof.
  induction l as [|[t ok] l IH]; [done|]. csimpl. intros Hs. inv Hs.
  rewrite filter_cons. simpl. destruct (Z.ltb_spec t c).
  - rewrite decide_False by lia. by apply IH.
  - rewrite decide_True by lia. f_equal. symmetry. apply filter_all.
    rewrite Forall_fmap in H2. eapply Forall_impl; [exact H2|]. simpl. lia.
Qed.

Lemma sorted_app_l (l k : list Z) : StronglySorted Z.le (k ++ l) → StronglySorted Z.le l.
Proof. induction k; [done|]. simpl. intros Hs. inv Hs. auto. Qed.

Lemma sorted_snoc (l : list Z) x :
  StronglySorted Z.le l → Forall (λ t, t ≤ x) l → StronglySorted Z.le (l ++ [x]).
Proof.
  induction l as [|y l IH]; intros Hs Hf; simpl; [by repeat constructor|].
  inv Hs. inv Hf. constructor; [by apply IH|]. rewrite Forall_app. auto.
Qed.

Lemma sorted_evict now c l : sorted_to now l → sorted_to now (evict c l).
Proof.
  intros [Hs Hf]. destruct (evict_suffix c l) as (k & Hk & _). rewrite Hk, fmap_app in Hs, Hf.
  split; [by eapply sorted_app_l|]. by apply Forall_app in Hf as [_ ?].
Qed.

Lemma sorted_mono now now' l : now ≤ now' → sorted_to now l → sorted_to now' l.
Proof. intros ? [? Hf]. split; [done|]. eapply Forall_impl; [exact Hf|]. simpl. lia. Qed.

Lemma sorted_recorded b t now policy s :
  t ≤ now → sorted_to t (samples s) → sorted_to now (recorded b now policy s).
Proof.
  intros Ht Hs. assert (Hl : sorted_to now (match checked_sub now (window policy) with
    | Some cutoff => evict cutoff (samples s) | None => samples s end)).
  { case_match; [apply sorted_evict|]; by eapply sorted_mono. }
  destruct Hl as [Hl Hf]. unfold recorded. split; rewrite fmap_app; simpl.
  - by apply sorted_snoc.
  - apply Forall_app. split; [done|]. by constructor.
Qed.

(** ** One breaker over time *)
(** The breaker after a sequence of recorded outcomes. *)
Fixpoint run_records (policy : BreakerPolicy) (h : list (Z * bool)) (s : BreakerState) : BreakerState :=
  match h with
  | [] => s
  | (now, b) :: h' => run_records policy h' (final (record b now policy) s)
  end.

Lemma run_records_snoc policy h now b s :
  run_records policy (h ++ [(now, b)]) s =
  final (record b now policy) (run_records policy h s).
Proof. revert s. induction h as [|[t ok] h IH]; intros s; [done|]. simpl. apply IH. Qed.

(** The reference: the outcomes of a history within the window that ends at
    its last one, and the trip condition on exact percentages. *)
Definition last_time (h : list (Z * bool)) : Z := default 0 (fst <$> last h).
Definition windowed (policy : BreakerPolicy) (h : list (Z * bool)) : list (Z * bool) :=
  filter (λ p, last_time h - window policy ≤ p.1) h.
Definition failures (l : list (Z * bool)) : Z :=
  Z.of_nat (length (List.filter (λ p, negb p.2) l)).
Definition should_trip (policy : BreakerPolicy) (h : list (Z * bool)) : bool :=
  let w := windowed policy h in
  let total := Z.of_nat (length w) in
  negb (bool_decide (h = [])) && (min_requests policy <=? total) &&
  (failure_threshold_pct policy * total <=? failures w * 100).

Lemma failures_le l : 0 ≤ failures l ≤ Z.of_nat (length l).
Proof.
  unfold failures. induction l as [|[t ok] l IH]; simpl; [lia|]. destruct ok; simpl; lia.
Qed.

(** The machine arithmetic of the trip condition is exact on windows that fit. *)
Lemma trips_exact policy l :
  l ≠ [] → Z.of_nat (length l) * 100 ≤ u32_max →
  trips policy l =
  (min_requests policy <=? Z.of_nat (length l)) &&
  (failure_threshold_pct policy * Z.of_nat (length l) <=? failures l * 100).
Proof.
  intros Hne Hlen. pose proof (failures_le l) as Hf.
  assert (0 < Z.of_nat (length l)) by (destruct l; simpl; [done|lia]).
  unfold trips, failure_pct, failure_count, u32_mul, as_u32. change (Z.of_nat _) with (failures l) at 2.
  rewrite !wrap32_small by (unfold is_u32; rewrite ?wrap32_small by (unfold is_u32; lia); lia).
  f_equal; [by rewrite Z.leb_antisym|].
  apply Bool.eq_true_iff_eq. rewrite !Z.leb_le. split.
  - intros Hd. etransitivity; [|apply Z.mul_div_le; eassumption]. nia.
  - intros. apply Z.div_le_lower_bound; lia.
Qed.

Lemma recorded_windowed policy h now b s :
  StronglySorted Z.le ((h ++ [(now, b)]).*1) → Forall (λ t, 0 ≤ t) ((h ++ [(now, b)]).*1) →
  samples s = windowed policy h → 0 ≤ window policy →
  recorded b now policy s = windowed policy (h ++ [(now, b)]).
Proof.
  intros Hs Hpos Hw Hwin. unfold recorded, windowed, last_time. rewrite last_snoc. simpl.
  rewrite filter_app, filter_cons_True, filter_nil by (simpl; lia). f_equal.
  rewrite Hw. unfold windowed.
  assert (Hle : ∀ p, p ∈ h → last_time h ≤ now).
  { intros p Hp. destruct h as [|q h] using rev_ind; [by apply not_elem_of_nil in Hp|].
    unfold last_time. rewrite last_snoc. simpl. rewrite !fmap_app in Hs. simpl in Hs.
    rewrite <- app_assoc in Hs. apply sorted_app_l in Hs. inv Hs. inv H2. simpl in *. lia. }
  assert (Hsw : ∀ c, StronglySorted Z.le ((filter (λ p, c ≤ p.1) h).*1)).
  { rewrite fmap_app in Hs. intros c. revert Hs. clear. induction h as [|[t ok] h IH]; [constructor|].
    csimpl. intros Hs. inv Hs. rewrite filter_cons. case_decide; [|by apply IH].
    csimpl. constructor; [by apply IH|]. apply Forall_app in H2 as [Hf _].
    rewrite Forall_fmap in *. apply Forall_forall. intros x [_ Hx]%list_elem_of_filter.
    rewrite Forall_forall in Hf. by apply Hf. }
  unfold checked_sub. destruct (Z.leb_spec (window policy) now).
  - rewrite evict_filter by apply Hsw. destruct h as [|q h]; [done|].
    apply list_filter_filter_l. intros x. specialize (Hle q (list_elem_of_here _ _)). lia.
  - destruct h as [|q h]; [done|]. specialize (Hle q (list_elem_of_here _ _)).
    rewrite fmap_app in Hpos. apply Forall_app in Hpos as [Hpos _]. rewrite Forall_fmap in Hpos.
    rewrite !filter_all; [done|..]; (eapply Forall_impl; [exact Hpos|]); simpl; lia.
Qed.

Lemma length_windowed policy h : (length (windowed policy h) ≤ length h)%nat.
Proof. apply length_filter. Qed.

(** A history recorded while the breaker was closed. *)
Record closed_history (policy : BreakerPolicy) (h : list (Z * bool)) : Prop := {
  ch_sorted : StronglySorted Z.le (h.*1);
  ch_pos : Forall (λ t, 0 ≤ t) (h.*1);
  ch_small : Z.of_nat (length h) * 100 ≤ u32_max;
  ch_closed : ∀ p, p `prefix_of` h → p ≠ h → should_trip policy p = false;
}.

Lemma closed_history_snoc policy h x :
  closed_history policy (h ++ [x]) → closed_history policy h ∧ should_trip policy h = false.
Proof.
  intros [Hs Hp Hl Hc]. rewrite fmap_app in *. rewrite length_app in Hl. simpl in *. split.
  - split; [|by apply Forall_app in Hp as [? _]|lia|].
    + clear -Hs. revert Hs. induction (h.*1) as [|y l IH]; simpl; [constructor|].
      intros Hs. inv Hs. constructor; [by apply IH|]. by apply Forall_app in H2 as [? _].
    + intros p Hpre Hne. apply Hc; [by apply prefix_app_r|]. intros ->.
      apply prefix_length in Hpre. rewrite length_app in Hpre. simpl in Hpre. lia.
  - apply Hc; [by apply prefix_app_r|]. intros Heq. apply (f_equal length) in Heq.
    rewrite length_app in Heq. simpl in Heq. lia.
Qed.

(** C25: a closed breaker keeps exactly the samples of its window, and opens at
    the first outcome after which the window holds at least [min_requests]
    samples of which at least [failure_threshold_pct] percent are failures, so
    also when the rate equals the threshold and does not exceed it, on exact, not
    truncated, percentages; the deque, its eviction loop and the
    [u32] arithmetic of the code compute this reference. *)
Theorem breaker_trips_iff policy u m h :
  0 ≤ window policy → closed_history policy h →
  let s := run_records policy h (new_breaker u m) in
  samples s = windowed policy h ∧
  open_since s = if should_trip policy h then Some (last_time h) else None.
Proof.
  intros Hw. induction h as [|[now b] h IH] using rev_ind; intros Hch; [done|].
  destruct (closed_history_snoc _ _ _ Hch) as [Hch' Hno]. destruct (IH Hch') as [IHs IHo].
  rewrite Hno in IHo. cbv zeta. rewrite run_records_snoc, final_record, IHo. cbn [set_open_since samples set_samples open_since].
  rewrite (recorded_windowed policy h) by (done || apply Hch). split; [done|].
  assert (Hne : windowed policy (h ++ [(now, b)]) ≠ []).
  { unfold windowed, last_time. rewrite last_snoc, filter_app, filter_cons_True by (simpl; lia).
    by destruct (filter _ h). }
  rewrite trips_exact; [|done|].
  - unfold should_trip, last_time. rewrite last_snoc.
    rewrite bool_decide_eq_false_2 by (by destruct h). done.
  - pose proof (length_windowed policy (h ++ [(now, b)])). pose proof (ch_small _ _ Hch). lia.
Qed.

Definition sample_policy : BreakerPolicy := {|
  enabled := true; failure_threshold_pct := 50; min_requests := 2;
  window := 10; open_cooldown := 5 |}.
Definition sample_history : list (Z * bool) := [(0, false); (20, true); (21, false)].

Lemma breaker_trips_iff_witness :
  closed_history sample_policy sample_history ∧
  open_since (run_records sample_policy sample_history (new_breaker "p" "m")) = Some 21.
Proof.
  assert (Hc : closed_history sample_policy sample_history).
  { split.
    - repeat constructor; simpl; lia.
    - repeat constructor; simpl; lia.
    - vm_compute. discriminate.
    - intros p Hp Hne. destruct Hp as [k Hk].
      destruct p as [|x1 [|x2 [|x3 p]]]; [reflexivity|..]; injection Hk as Hk; subst;
        [reflexivity|reflexivity|].
      destruct p, k; try discriminate. by destruct Hne. }
  split; [exact Hc|].
  destruct (breaker_trips_iff sample_policy "p" "m" sample_history ltac:(vm_compute; discriminate) Hc)
    as [_ Ho]. exact Ho.
Defined.

(** ** Probes *)
Inductive op := Decide | Record_ (succeeded : bool).

(** What a run of one breaker's operations answers: decisions and records. *)
Fixpoint log (policy : BreakerPolicy) (ops : list (Z * op)) (s : BreakerState)
    : BreakerState * list (BreakerDecision + bool) :=
  match ops with
  | [] => (s, [])
  | (now, Decide) :: ops' =>
      let '(s', l) := log policy ops' (final (decision now policy) s) in
      (s', inl (answer (decision now policy) s) :: l)
  | (now, Record_ b) :: ops' =>
      let '(s', l) := log policy ops' (final (record b now policy) s) in (s', inr b :: l)
  end.

(** Is a probe outstanding?  [None]: a second one was authorized. *)
Definition probe_check (outstanding : bool) (e : BreakerDecision + bool) : option bool :=
  match e with
  | inl Probe => if outstanding then None else Some true
  | inl _ => Some outstanding
  | inr _ => Some false
  end.

Lemma decision_spec now policy s :
  (answer (decision now policy) s, final (decision now policy) s) =
  if negb (enabled policy) then (Allow, s) else
  match open_since s with
  | None => (Allow, s)
  | Some opened =>
      if open_cooldown policy <=? saturating_sub now opened then
        if probe_in_flight s then (Skip, s) else (Probe, set_probe_in_flight true s)
      else (Skip, s)
  end.
Proof.
  destruct s as [u m l o p]. unfold decision, answer, final.
  unfold emit_state_change, mbind, emit_bind, mret, emit_ret, modify, gets, push.
  destruct (enabled policy); [|done]. cbn -[Z.leb saturating_sub].
  destruct o as [opened|]; cbn -[Z.leb saturating_sub]; [|done].
  destruct (_ <=? _); [|done]. by destruct p.
Qed.

(** The probe flag is set exactly while a probe is outstanding, and only on an
    open breaker. *)
Definition probe_inv (s : BreakerState) (outstanding : bool) : Prop :=
  probe_in_flight s = outstanding ∧ (outstanding = true → open_since s ≠ None).

Lemma probe_inv_log policy ops s g :
  probe_inv s g →
  ∃ g', monitor probe_check g (log policy ops s).2 = Some g' ∧ probe_inv (log policy ops s).1 g'.
Proof.
  revert s g. induction ops as [|[now [|b]] ops IH]; intros s g Hi; [by exists g| |].
  - cbn [log]. pose proof (decision_spec now policy s) as Hd.
    assert (Hi' := Hi). destruct Hi' as [Hp Ho].
    assert (Hstep : ∃ g', probe_check g (inl (answer (decision now policy) s)) = Some g' ∧
              probe_inv (final (decision now policy) s) g').
    { destruct (enabled policy); simpl in Hd; [|by injection Hd as -> ->; exists g].
      destruct (open_since s) as [opened|] eqn:Hos; [|injection Hd as -> ->; by exists g].
      destruct (_ <=? _); [|injection Hd as -> ->; by exists g].
      destruct (probe_in_flight s) eqn:Hpf; injection Hd as -> ->; simplify_eq.
      - exists true. split; [done|]. split; [done|by rewrite Hos].
      - exists true. split; [done|]. split; [done|simpl; by rewrite Hos]. }
    destruct Hstep as (g1 & Hc & Hi1). destruct (IH _ _ Hi1) as (g2 & Hm & Hi2).
    destruct (log policy ops _) as [s' l]. exists g2. split; [|done].
    cbn [snd]. by rewrite (monitor_cons probe_check _ _ _ _ Hc).
  - cbn [log]. assert (Hi1 : probe_inv (final (record b now policy) s) false).
    { rewrite final_record. destruct Hi as [Hp Ho].
      destruct (open_since s) as [opened|] eqn:Hos; split; try done.
      simpl. destruct g; [by destruct Ho|done]. }
    destruct (IH _ _ Hi1) as (g2 & Hm & Hi2).
    destruct (log policy ops _) as [s' l]. exists g2. by split.
Qed.

(** In any sequence of decisions and records, at any times, a second probe
    is never authorized before an outcome has been recorded. *)
Theorem probes_are_exclusive policy u m ops :
  is_Some (monitor probe_check false (log policy ops (new_breaker u m)).2).
Proof.
  destruct (probe_inv_log policy ops (new_breaker u m) false) as (g & Hm & _); [done|eauto].
Qed.

(** A breaker is never wedged: when every authorized probe has been
    answered by a record and the cooldown has elapsed, the next decision lets
    the request through. *)
Theorem answered_probes_never_wedge policy u m ops now :
  monitor probe_check false (log policy ops (new_breaker u m)).2 = Some false →
  let s := (log policy ops (new_breaker u m)).1 in
  (∀ opened, open_since s = Some opened → open_cooldown policy ≤ now - opened) →
  answer (decision now policy) s ≠ Skip.
Proof.
  intros Hm s Hc. destruct (probe_inv_log policy ops (new_breaker u m) false) as (g & Hm' & [Hp _]); [done|].
  rewrite Hm in Hm'. injection Hm' as <-. fold s in Hp.
  pose proof (decision_spec now policy s) as Hd.
  destruct (enabled policy); simpl in Hd; [|by injection Hd as -> _].
  destruct (open_since s) as [opened|]; [|by injection Hd as -> _].
  specialize (Hc _ eq_refl).
  destruct (Z.leb_spec (open_cooldown policy) (saturating_sub now opened)).
  - rewrite Hp in Hd. by injection Hd as -> _.
  - unfold saturating_sub in *. lia.
Qed.

(** Two failures open the breaker at 1; the probe of time 10 fails at 11. *)
Definition sample_ops : list (Z * op) :=
  [(0, Record_ false); (1, Record_ false); (10, Decide); (11, Record_ false)].

Lemma answered_probes_never_wedge_witness :
  monitor probe_check false (log sample_policy sample_ops (new_breaker "p" "m")).2 = Some false ∧
  answer (decision 20 sample_policy) (log sample_policy sample_ops (new_breaker "p" "m")).1 ≠ Skip.
Proof.
  assert (Hm : monitor probe_check false (log sample_policy sample_ops (new_breaker "p" "m")).2
    = Some false) by (vm_compute; reflexivity).
  split; [exact Hm|]. apply (answered_probes_never_wedge sample_policy "p" "m" sample_ops 20 Hm).
  intros opened Ho. vm_compute in Ho. injection Ho as <-. vm_compute. discriminate.
Defined.

(** Times of a run never go back. *)
Fixpoint monotone (t : Z) (ops : list (Z * op)) : Prop :=
  match ops with [] => True | (now, _) :: ops' => t ≤ now ∧ monotone now ops' end.
Definition end_time (t : Z) (ops : list (Z * op)) : Z := default t (fst <$> last ops).

(** An outstanding probe was authorized after the cooldown. *)
Definition half_open_inv (policy : BreakerPolicy) (t : Z) (s : BreakerState) : Prop :=
  probe_in_flight s = true →
  ∃ opened, open_since s = Some opened ∧ open_cooldown policy ≤ saturating_sub t opened.

Lemma end_time_cons t now o ops : end_time t ((now, o) :: ops) = end_time now ops.
Proof. unfold end_time. destruct ops as [|x ops]; [done|]. rewrite last_cons_cons. by destruct (last (x :: ops)) eqn:E; [|apply last_None in E]. Qed.

Lemma half_open_log policy t ops s :
  monotone t ops → half_open_inv policy t s → probe_inv s (probe_in_flight s) →
  half_open_inv policy (end_time t ops) (log policy ops s).1.
Proof.
  revert t s. induction ops as [|[now o] ops IH]; intros t s Hmon Hi Hp; [done|].
  destruct Hmon as [Ht Hmon]. rewrite end_time_cons.
  assert (Hlater : half_open_inv policy now s).
  { intros Hf. destruct (Hi Hf) as (opened & ? & ?). exists opened. split; [done|].
    unfold saturating_sub in *. lia. }
  destruct o as [|b]; cbn [log].
  - pose proof (decision_spec now policy s) as Hd.
    assert (Hi' : half_open_inv policy now (final (decision now policy) s) ∧
                  probe_inv (final (decision now policy) s)
                    (probe_in_flight (final (decision now policy) s))).
    { destruct (enabled policy); simpl in Hd; [|by injection Hd as _ ->].
      destruct (open_since s) as [opened|] eqn:Hos; [|by injection Hd as _ ->].
      destruct (Z.leb_spec (open_cooldown policy) (saturating_sub now opened));
        [|by injection Hd as _ ->].
      destruct (probe_in_flight s) eqn:Hpf; injection Hd as _ ->; [by rewrite Hpf|].
      split.
      - intros _. by exists opened.
      - split; [done|]. simpl. by rewrite Hos. }
    destruct Hi' as [Hi1 Hp1]. specialize (IH now _ Hmon Hi1 Hp1). by destruct (log policy ops _).
  - assert (Hf : probe_in_flight (final (record b now policy) s) = false).
    { rewrite final_record. destruct (open_since s) as [opened|] eqn:Hos; [done|].
      simpl. destruct (probe_in_flight s); [by destruct Hp as [_ []]|done]. }
    assert (Hi1 : half_open_inv policy now (final (record b now policy) s)) by (intros ?; congruence).
    specialize (IH now _ Hmon Hi1). rewrite Hf in IH. specialize (IH ltac:(split; [done|discriminate])).
    by destruct (log policy ops _).
Qed.

(** The outcome of a probe decides the breaker.  Whenever a probe is
    outstanding after a run with a clock that does not go back, a recorded
    success closes the breaker with a window of that one sample, and a recorded
    failure re-opens it with a fresh cooldown: every decision before the end of
    that cooldown is a skip. *)
Theorem probe_outcome_decides policy u m ops now :
  enabled policy = true → monotone 0 ops → end_time 0 ops ≤ now →
  monitor probe_check false (log policy ops (new_breaker u m)).2 = Some true →
  let s := (log policy ops (new_breaker u m)).1 in
  (let s1 := final (record true now policy) s in
   open_since s1 = None ∧ samples s1 = [(now, true)] ∧ probe_in_flight s1 = false) ∧
  (let s1 := final (record false now policy) s in
   open_since s1 = Some now ∧ probe_in_flight s1 = false ∧
   ∀ later, later - now < open_cooldown policy → 0 < open_cooldown policy →
     answer (decision later policy) s1 = Skip).
Proof.
  intros He Hmon Hnow Hm s.
  destruct (probe_inv_log policy ops (new_breaker u m) false) as (g & Hm' & [Hp Ho]); [done|].
  rewrite Hm in Hm'. injection Hm' as <-. fold s in Hp, Ho.
  destruct (half_open_log policy 0 ops (new_breaker u m) Hmon) as (opened & Hos & Hcd);
    [done|by split|done|]. fold s in Hos.
  assert (Hcd' : (open_cooldown policy <=? saturating_sub now opened) = true).
  { apply Z.leb_le. unfold saturating_sub in *. lia. }
  rewrite !final_record, Hos, Hcd'. split; [done|]. split; [done|]. split; [done|].
  intros later Hl Hpos.
  match goal with |- answer _ ?s1 = _ => pose proof (decision_spec later policy s1) as Hd end.
  rewrite He in Hd. simpl in Hd. destruct (Z.leb_spec (open_cooldown policy) (saturating_sub later now)).
  - unfold saturating_sub in *. lia.
  - injection Hd as Hd1 _. exact Hd1.
Qed.

Lemma probe_outcome_decides_witness :
  let ops := [(0, Record_ false); (1, Record_ false); (10, Decide)] in
  monitor probe_check false (log sample_policy ops (new_breaker "p" "m")).2 = Some true ∧
  open_since (final (record false 12 sample_policy) (log sample_policy ops (new_breaker "p" "m")).1) = Some 12.
Proof.
  intros ops. assert (Hm : monitor probe_check false (log sample_policy ops (new_breaker "p" "m")).2
    = Some true) by (vm_compute; reflexivity).
  split; [exact Hm|].
  assert (Hmon : monotone 0 ops) by (repeat split; vm_compute; discriminate).
  destruct (probe_outcome_decides sample_policy "p" "m" ops 12 eq_refl Hmon
    ltac:(vm_compute; discriminate) Hm) as [_ [Ho _]]. exact Ho.
Defined.

(** A success recorded while the breaker is open and cooling down, by a call
    that started before the trip, closes it without a probe. *)
Theorem late_success_closes_open_breaker :
  let s := (log sample_policy [(0, Record_ false); (1, Record_ false); (2, Record_ true)]
    (new_breaker "p" "m")).1 in
  open_since s = None ∧ answer (decision 2 sample_policy) s = Allow.
Proof. vm_compute. split; reflexivity. Qed.

(** ** The registry and its holds *)
Record BreakerRegistry := {
  breakers : gmap (string * string) BreakerState;
  (** how many times the clock has been read *)
  ticks : nat;
}.

Record BreakerHold := {
  hold_provider : string;
  hold_model : string;
  hold_policy : BreakerPolicy;
  consumed : bool;
}.

Section Registry.
(** The injected clock: its successive readings. *)
Context (clock : nat → Z).

Definition get_or_create (provider model : string) (r : BreakerRegistry) : BreakerState :=
  default (new_breaker provider model) (breakers r !! (provider, model)).
Definition put (provider model : string) (s : BreakerState) (r : BreakerRegistry) : BreakerRegistry :=
  {| breakers := <[(provider, model) := s]> (breakers r); ticks := ticks r |}.
Definition tick (r : BreakerRegistry) : BreakerRegistry :=
  {| breakers := breakers r; ticks := S (ticks r) |}.

Definition registry_decision (provider model : string) (policy : BreakerPolicy)
    : emit BreakerRegistry StateChange BreakerDecision :=
  now ← gets (λ r, clock (ticks r));
  modify tick;;
  zoom (get_or_create provider model) (put provider model) (decision now policy).

Definition registry_record (provider model : string) (succeeded : bool) (policy : BreakerPolicy)
    : emit BreakerRegistry StateChange unit :=
  now ← gets (λ r, clock (ticks r));
  modify tick;;
  zoom (get_or_create provider model) (put provider model) (record succeeded now policy).

Definition try_hold (provider model : string) (policy : BreakerPolicy)
    : emit BreakerRegistry StateChange (option BreakerHold) :=
  d ← registry_decision provider model policy;
  match d with
  | Skip => mret None
  | Allow | Probe =>
      mret (Some {| hold_provider := provider; hold_model := model;
                    hold_policy := policy; consumed := false |})
  end.

(** [Drop for BreakerHold]. *)
Definition hold_drop (h : BreakerHold) : emit BreakerRegistry StateChange unit :=
  when (negb (consumed h)) (registry_record (hold_provider h) (hold_model h) false (hold_policy h)).

(** [BreakerHold::consume] takes the hold, which is dropped when it returns. *)
Definition hold_consume (h : BreakerHold) (succeeded : bool) : emit BreakerRegistry StateChange unit :=
  when (negb (consumed h))
    (registry_record (hold_provider h) (hold_model h) succeeded (hold_policy h));;
  hold_drop {| hold_provider := hold_provider h; hold_model := hold_model h;
               hold_policy := hold_policy h; consumed := true |}.
End Registry.
