(* ===== verification/Float64.v ===== *)
(** * 64-bit floating point

    Rust's [f64] as the IEEE-754 binary64 values of the Standard Library's
    [SpecFloat], with the conversions and operations the source uses:
    [u64 as f64], [*], [/], [+], comparisons, [powi], [round], [max(0.0)] and
    the saturating cast [f64 as u64]. *)
From Stdlib Require Import SpecFloat.
From S2P Require Import Prelude.
#[local] Open Scope Z_scope.

Notation f64 := spec_float.

Definition f64_of_Z (z : Z) : f64 := binary_normalize 53 1024 z 0 false.
Definition f64_mul : f64 → f64 → f64 := SFmul 53 1024.
Definition f64_div : f64 → f64 → f64 := SFdiv 53 1024.
Definition f64_add : f64 → f64 → f64 := SFadd 53 1024.
Definition f64_sub : f64 → f64 → f64 := SFsub 53 1024.
Definition f64_neg : f64 → f64 := SFopp.
Definition f64_eq (x y : f64) : bool := SFeqb x y.
Definition f64_lt (x y : f64) : bool := SFltb x y.
Definition f64_le (x y : f64) : bool := SFleb x y.
Definition f64_zero : f64 := S754_zero false.
Definition f64_one : f64 := f64_of_Z 1.

Definition is_finite (x : f64) : bool :=
  match x with S754_zero _ | S754_finite _ _ _ => true | _ => false end.

(** [powi]: the square-and-multiply loop of the compiler's runtime, for an
    exponent in the range of [i32]. *)
Fixpoint powi_loop (fuel : nat) (a r : f64) (b : Z) : f64 :=
  match fuel with
  | O => r
  | S fuel' =>
      let r := if Z.odd b then f64_mul r a else r in
      let b := Z.quot b 2 in
      if b =? 0 then r else powi_loop fuel' (f64_mul a a) r b
  end.
Definition powi (a : f64) (b : Z) : f64 :=
  let r := powi_loop 33 a f64_one b in
  if b <? 0 then f64_div f64_one r else r.

(** [x.round().max(0.0) as u64]: half away from zero; [max] ignores a NaN; the
    cast saturates. *)
Definition round_to_u64 (x : f64) : Z :=
  match x with
  | S754_finite false m e =>
      Z.min u64_max
        (if 0 <=? e then Z.shiftl (Zpos m) e
         else Z.shiftr (Zpos m + Z.shiftl 1 (- e - 1)) (- e))
  | S754_infinity false => u64_max
  | _ => 0
  end.

Lemma round_to_u64_range x : is_u64 (round_to_u64 x).
Proof.
  unfold is_u64, round_to_u64. destruct x as [s|s| |s m e]; try (unfold u64_max; lia).
  - destruct s; unfold u64_max; lia.
  - destruct s; [unfold u64_max; lia|].
    assert (0 ≤ (if 0 <=? e then Z.shiftl (Zpos m) e
         else Z.shiftr (Zpos m + Z.shiftl 1 (- e - 1)) (- e))); [|unfold u64_max in *; lia].
    destruct (0 <=? e); [by apply Z.shiftl_nonneg|]. apply Z.shiftr_nonneg.
    pose proof (proj2 (Z.shiftl_nonneg 1 (- e - 1))). lia.
Qed.
#[export] Hint Resolve round_to_u64_range : width.

(** ** Dividing a percentage

    A binary64 between 0 and 100, divided by 100, is neither negative nor large:
    enough to say that a range around zero of that width can be sampled. *)
Definition binary64 (x : f64) : bool := valid_binary 53 1024 x.

(** [p] has at least [n] binary digits when it is at least [2 ^ (n - 1)], and not more. *)
Lemma digits_bounds (p : positive) :
  2 ^ (Z.pos (digits2_pos p) - 1) ≤ Z.pos p < 2 ^ Z.pos (digits2_pos p).
Proof.
  induction p as [p IH|p IH|]; simpl; [| |done]; rewrite Pos2Z.inj_succ;
    replace (Z.succ (Z.pos (digits2_pos p)) - 1) with (Z.succ (Z.pos (digits2_pos p) - 1)) by lia;
    rewrite !Z.pow_succ_r by lia; lia.
Qed.
Lemma digits_small (z n : Z) : 0 ≤ z < 2 ^ n → 0 ≤ n → 0 ≤ Zdigits2 z ≤ n.
Proof.
  intros [H0 Hn] Hn0. destruct z as [|p|p]; simpl; [lia| |lia]. split; [lia|].
  pose proof (digits_bounds p) as [Hl _]. destruct (Z.le_gt_cases (Z.pos (digits2_pos p)) n) as [|Hgt]; [done|exfalso].
  pose proof (Z.pow_le_mono_r 2 n (Z.pos (digits2_pos p) - 1) ltac:(lia) ltac:(lia)). lia.
Qed.

(** Shifting right leaves a mantissa between 0 and what it was. *)
Lemma shr_1_shrinks r : 0 ≤ shr_m r → 0 ≤ shr_m (shr_1 r) ≤ shr_m r.
Proof. destruct r as [[|[p|p|]|[p|p|]] b c]; simpl; lia. Qed.
Lemma iter_shrinks n r : 0 ≤ shr_m r → 0 ≤ shr_m (SpecFloat.iter_pos shr_1 n r) ≤ shr_m r.
Proof.
  revert r. induction n as [n IH|n IH|]; intros r H; simpl.
  - pose proof (shr_1_shrinks r H). pose proof (IH (shr_1 r) ltac:(lia)).
    pose proof (IH (SpecFloat.iter_pos shr_1 n (shr_1 r)) ltac:(lia)). lia.
  - pose proof (IH r H). pose proof (IH (SpecFloat.iter_pos shr_1 n r) ltac:(lia)). lia.
  - by apply shr_1_shrinks.
Qed.
Lemma shr_fexp_shrinks m e l :
  0 ≤ m → let '(r, e') := shr_fexp 53 1024 m e l in
  0 ≤ shr_m r ≤ m ∧ e' = Z.max e (fexp 53 1024 (Zdigits2 m + e)).
Proof.
  intros Hm. unfold shr_fexp, shr. set (r0 := shr_record_of_loc m l).
  assert (Hr : shr_m r0 = m) by by destruct l as [|[]].
  destruct (fexp 53 1024 (Zdigits2 m + e) - e) as [|n|n] eqn:Hn; simpl; rewrite ?Hr; [lia| |lia].
  pose proof (iter_shrinks n r0). lia.
Qed.
Lemma rounded_up m l : 0 ≤ m → 0 ≤ round_nearest_even m l ≤ m + 1.
Proof. intros. destruct l as [|[]]; simpl; [lia| |lia..]. destruct (Z.even m); lia. Qed.

(** Rounding a value below [2 ^ (d + e)] keeps its sign and its magnitude. *)
Lemma rounds_small m e l d :
  0 ≤ m < 2 ^ d → 0 ≤ d ≤ 110 → -1200 ≤ e ≤ 0 → d + e ≤ 1 →
  f64_le f64_zero (binary_round_aux 53 1024 false m e l) = true ∧
  f64_lt (binary_round_aux 53 1024 false m e l) (f64_of_Z (2 ^ 128)) = true.
Proof.
  intros Hm Hd He Hde. unfold binary_round_aux.
  pose proof (shr_fexp_shrinks m e l ltac:(lia)) as H1. destruct (shr_fexp 53 1024 m e l) as [r1 e1]. destruct H1 as [Hr1 He1].
  pose proof (rounded_up (shr_m r1) (loc_of_shr_record r1) ltac:(lia)) as Hup. set (m1 := round_nearest_even _ _) in *. clearbody m1.
  pose proof (shr_fexp_shrinks m1 e1 loc_Exact ltac:(lia)) as H2. destruct (shr_fexp 53 1024 m1 e1 loc_Exact) as [r2 e2].
  destruct H2 as [Hr2 He2].
  pose proof (digits_small m d Hm ltac:(lia)) as Hd0.
  assert (Hm1 : 0 ≤ m1 < 2 ^ (d + 1)) by (rewrite Z.pow_add_r by lia; pose proof (Z.pow_pos_nonneg 2 d); lia).
  pose proof (digits_small m1 (d + 1) Hm1 ltac:(lia)) as Hd1.
  unfold fexp, emin in *.
  assert (He2' : e2 ≤ 60) by lia.
  destruct (shr_m r2) as [|p|p]; [done| |lia].
  replace (e2 <=? 1024 - 53) with true by (symmetry; apply Z.leb_le; lia). split; [done|].
  unfold f64_lt, SFltb. change (f64_of_Z (2 ^ 128)) with (S754_finite false 4503599627370496 76). unfold SFcompare.
  destruct (Z.compare_spec e2 76); [lia|done|lia].
Qed.

Lemma percentage_small x :
  binary64 x = true → is_finite x = true → f64_lt x f64_zero = false → f64_lt (f64_of_Z 100) x = false →
  f64_le f64_zero (f64_div x (f64_of_Z 100)) = true ∧
  f64_lt (f64_div x (f64_of_Z 100)) (f64_of_Z (2 ^ 128)) = true.
Proof.
  change (f64_of_Z 100) with (S754_finite false 7036874417766400 (-46)).
  destruct x as [s|s| |s m e]; [by destruct s|done|done|].
  unfold binary64, valid_binary, bounded, canonical_mantissa. rewrite andb_true_iff. intros [Hc%Z.eqb_eq _] _.
  destruct s; [done|]. intros _ Hle. unfold f64_lt, SFltb, SFcompare in Hle.
  assert (He : e ≤ -46) by (destruct (Z.compare_spec (-46) e); [lia|done|lia]). clear Hle.
  assert (Hdig : Z.pos (digits2_pos m) ≤ 53) by (unfold fexp in Hc; lia).
  assert (Hmin : -1074 ≤ e) by (unfold fexp, emin in Hc; lia).
  unfold f64_div, SFdiv. cbn [xorb]. unfold SFdiv_core_binary. cbn [Zdigits2].
  change (Z.pos (digits2_pos 7036874417766400)) with 53.
  set (e' := Z.min _ (e - -46)).
  assert (He' : e - 59 ≤ e' ≤ e + 46) by (unfold e', fexp, emin; lia).
  set (s := e - -46 - e'). assert (Hs : 0 ≤ s ≤ 105) by (unfold s; lia).
  assert (Hm' : (match s with 0 => Z.pos m | Z.pos _ => Z.shiftl (Z.pos m) s | Z.neg _ => 0 end) = Z.pos m * 2 ^ s).
  { rewrite <- Z.shiftl_mul_pow2 by lia. destruct s; [|done|lia]. by rewrite Z.shiftl_0_r. }
  rewrite Hm'. pose proof (Z_div_mod (Z.pos m * 2 ^ s) 7036874417766400 ltac:(lia)) as Hq.
  destruct (Z.div_eucl _ _) as [q r]. destruct Hq as [Hq Hr].
  pose proof (digits_bounds m) as [_ Hm].
  pose proof (Z.pow_le_mono_r 2 (Z.pos (digits2_pos m)) 53 ltac:(lia) Hdig) as H53.
  pose proof (Z.pow_pos_nonneg 2 s ltac:(lia) ltac:(lia)) as Hpos.
  assert (Hq0 : 0 ≤ q) by nia.
  assert (Hq1 : q < 2 ^ (s + 1)).
  { rewrite Z.pow_add_r by lia. change (2 ^ 1) with 2. change (2 ^ 53) with 9007199254740992 in H53. nia. }
  apply (rounds_small q e' _ (s + 1)); lia.
Qed.

(** ** The order of the comparisons

    NaN compares with nothing; the other values are ordered by class, exponent
    and mantissa, which for the values the operations build is the numeric
    order. *)
Definition f64_rank (x : f64) : option (Z * Z * Z) :=
  match x with
  | S754_nan => None
  | S754_zero _ => Some (0, 0, 0)
  | S754_infinity s => Some (if s then -2 else 2, 0, 0)
  | S754_finite true m e => Some (-1, - e, - Zpos m)
  | S754_finite false m e => Some (1, e, Zpos m)
  end.
Definition rank_lt (p q : Z * Z * Z) : Prop :=
  let '(a, b, c) := p in let '(a', b', c') := q in
  a < a' ∨ a = a' ∧ (b < b' ∨ b = b' ∧ c < c').

Definition compared (x y : f64) : comparison → Prop := λ c,
  match f64_rank x, f64_rank y with
  | Some p, Some q => match c with Lt => rank_lt p q | Eq => p = q | Gt => rank_lt q p end
  | _, _ => False
  end.
Lemma SFcompare_spec x y :
  match SFcompare x y with
  | Some c => compared x y c
  | None => f64_rank x = None ∨ f64_rank y = None
  end.
Proof.
  unfold compared. destruct x as [s|s| |s m e], y as [s'|s'| |s' m' e']; simpl; auto;
    try (destruct s; simpl; auto; lia); try (destruct s'; simpl; auto; lia);
    try (destruct s, s'; simpl; auto; lia).
  change (PosDef.Pos.compare_cont Eq m m') with (m ?= m')%positive.
  destruct s, s'; simpl; try lia;
    (destruct (Z.compare_spec e e') as [->|He|He]; simpl; try lia);
    destruct (Pos.compare_spec m m') as [->|Hm|Hm]; simpl; try lia; repeat f_equal; done.
Qed.

Lemma f64_lt_spec x y :
  f64_lt x y = true ↔ ∃ p q, f64_rank x = Some p ∧ f64_rank y = Some q ∧ rank_lt p q.
Proof.
  unfold f64_lt, SFltb. pose proof (SFcompare_spec x y) as H. unfold compared in H.
  destruct (SFcompare x y) as [c|].
  - destruct (f64_rank x) as [[[a b] d]|], (f64_rank y) as [[[a' b'] d']|]; try done.
    destruct c; split; try done; simpl in *; intros; simplify_eq; destruct_and?; simplify_eq; eauto;
      destruct H0 as (? & ? & ? & ? & ?); simplify_eq; simpl in *; lia.
  - split; [done|]. intros (p & q & Hp & Hq & _). destruct H; congruence.
Qed.
Lemma f64_eq_spec x y : f64_eq x y = true ↔ ∃ p, f64_rank x = Some p ∧ f64_rank y = Some p.
Proof.
  unfold f64_eq, SFeqb. pose proof (SFcompare_spec x y) as H. unfold compared in H.
  destruct (SFcompare x y) as [c|].
  - destruct (f64_rank x) as [[[a b] d]|], (f64_rank y) as [[[a' b'] d']|]; try done.
    destruct c; split; try done; simpl in *; intros; simplify_eq; eauto;
      destruct H0 as (? & ? & ?); simplify_eq; lia.
  - split; [done|]. intros (p & Hp & Hq). destruct H; congruence.
Qed.
Lemma f64_le_spec x y : f64_le x y = f64_lt x y || f64_eq x y.
Proof. unfold f64_le, f64_lt, f64_eq, SFleb, SFltb, SFeqb. by destruct (SFcompare x y) as [[]|]. Qed.
