(* ===== verification/Fallback.v ===== *)
(** * Error classification (crates/providers/src/lib.rs, crates/router/src/fallback.rs)

    Which provider errors are worth a retry or another upstream, by default and
    under a route's [retry_on] list. *)
From S2P Require Import Prelude.
#[local] Open Scope string_scope.

Inductive ProviderError :=
| UnknownProvider (name : string)
| Upstream (status : Z) (body : string)
| Network (msg : string)
| Decode (msg : string)
| Encode (msg : string)
| CapabilityMismatch (msg : string).

Inductive FallbackEligibility := Eligible | Terminal.
#[export] Instance FallbackEligibility_eq_dec : EqDecision FallbackEligibility.
Proof. solve_decision. Defined.

Definition fallback_eligibility (e : ProviderError) : FallbackEligibility :=
  match e with
  | Network _ => Eligible
  | Upstream status _ =>
      if (500 <=? status)%Z then Eligible
      else if (status =? 429)%Z then Eligible
      else Terminal
  | Decode _ | Encode _ | CapabilityMismatch _ | UnknownProvider _ => Terminal
  end.

Definition error_tag (e : ProviderError) : string :=
  match e with
  | Network _ => "network"
  | Upstream status _ =>
      if (500 <=? status)%Z then "upstream_5xx"
      else if (status =? 429)%Z then "upstream_429"
      else "upstream_4xx"
  | Decode _ => "decode"
  | Encode _ => "encode"
  | CapabilityMismatch _ => "capability_mismatch"
  | UnknownProvider _ => "unknown_provider"
  end.

Definition error_class_label (e : ProviderError) : string :=
  match e with
  | Network _ => "network"
  | Upstream status _ =>
      if (status =? 429)%Z then "upstream_429"
      else if (500 <=? status)%Z then "upstream_5xx"
      else "upstream_4xx"
  | Decode _ => "decode"
  | Encode _ => "encode"
  | CapabilityMismatch _ => "capability_mismatch"
  | UnknownProvider _ => "unknown_provider"
  end.

Definition fallback_eligibility_with_overrides (e : ProviderError) (retry_on : list string)
    : FallbackEligibility :=
  if existsb (λ t, bool_decide (t = error_tag e)) retry_on then Eligible else Terminal.

(** [Display for ProviderError]; numbers are printed by a parameter. *)
Definition show_error (show_u16 : Z → string) (e : ProviderError) : string :=
  match e with
  | UnknownProvider n => "unknown provider: " ++ n
  | Upstream status body => "upstream error (status=" ++ show_u16 status ++ "): " ++ body
  | Network m => "network error: " ++ m
  | Decode m => "decode error: " ++ m
  | Encode m => "encode error: " ++ m
  | CapabilityMismatch m => "capability mismatch: " ++ m
  end.

(** The configuration's default list, [default_retry_on]. *)
Definition default_retry_on : list string := ["network"; "upstream_5xx"; "upstream_429"].

(** The tracing label and the configuration tag agree on every error. *)
Lemma error_class_label_tag e : error_class_label e = error_tag e.
Proof.
  destruct e as [|status body| | | |]; try done. simpl.
  destruct (Z.eqb_spec status 429) as [->|]; [done|]. done.
Qed.

(** The override list decides alone: an error is worth another try exactly
    when its tag is listed, and the default list is the default classifier. *)
Theorem overrides_replace_defaults e retry_on :
  (fallback_eligibility_with_overrides e retry_on = Eligible ↔ error_tag e ∈ retry_on) ∧
  fallback_eligibility_with_overrides e default_retry_on = fallback_eligibility e.
Proof.
  unfold fallback_eligibility_with_overrides. split.
  - destruct (existsb _ retry_on) eqn:He.
    + split; [|done]. intros _. apply existsb_exists in He as (t & Hin & Ht).
      apply bool_decide_eq_true in Ht as <-. by apply list_elem_of_In.
    + split; [done|]. intros Hin. exfalso.
      assert (existsb (λ t, bool_decide (t = error_tag e)) retry_on = true); [|congruence].
      apply existsb_exists. exists (error_tag e). split; [by apply list_elem_of_In|].
      by apply bool_decide_eq_true.
  - destruct e as [|status body| | | |]; try done. simpl.
    destruct (500 <=? status)%Z; [done|]. by destruct (status =? 429)%Z.
Qed.
