(* ===== verification/Retry.v ===== *)
(** * Retries (crates/router/src/retry.rs)

    [compute_backoff] on binary64 values and [retry_with_policy], the loop
    around one provider's [complete].  The provider, the entropy of the
    generator and [Rng::gen_range] are parameters acting on a world [W];
    [gen_range] panics on a range it cannot sample, which is [None]; the
    log of an execution lists provider calls, sleeps and the two tracing
    events, in order. *)
From Stdlib Require Import SpecFloat.
From S2P Require Import Prelude Emit Float64 Fallback.
#[local] Open Scope Z_scope.
#[local] Open Scope list_scope.

Record RetryPolicy := {
  max_attempts : Z;
  initial_backoff_ms : Z;
  multiplier : f64;
  jitter_pct : f64;
  total_budget_ms : Z;
  retry_on : list string;
}.

(** The configuration's retry section, and its conversion. *)
Record RetryConfig := {
  cfg_max_attempts : Z;
  cfg_initial_backoff_ms : Z;
  cfg_multiplier : f64;
  cfg_jitter_pct : f64;
  cfg_total_budget_ms : Z;
  cfg_retry_on : list string;
}.
Definition retry_policy_from (c : RetryConfig) : RetryPolicy := {|
  max_attempts := cfg_max_attempts c;
  initial_backoff_ms := cfg_initial_backoff_ms c;
  multiplier := cfg_multiplier c;
  jitter_pct := cfg_jitter_pct c;
  total_budget_ms := cfg_total_budget_ms c;
  retry_on := cfg_retry_on c |}.

(** [RetryConfig::default()]. *)
Definition default_retry_config : RetryConfig := {|
  cfg_max_attempts := 2; cfg_initial_backoff_ms := 100; cfg_multiplier := f64_of_Z 2;
  cfg_jitter_pct := f64_of_Z 25; cfg_total_budget_ms := 5000; cfg_retry_on := default_retry_on |}.

(** [validation.rs], rules 4 and 5 for the retry section of a route. *)
Definition valid_retry (p : RetryPolicy) : bool :=
  negb (max_attempts p =? 0) &&
  negb (total_budget_ms p <? initial_backoff_ms p) &&
  (is_finite (multiplier p) && negb (f64_le (multiplier p) f64_one)) &&
  (is_finite (jitter_pct p) && negb (f64_lt (jitter_pct p) f64_zero) &&
   negb (f64_lt (f64_of_Z 100) (jitter_pct p))).

(** The spans of the ranges rand samples: [gen_range(-span..=span)] panics when
    the range is empty or not finite, and this bound leaves room for neither. *)
Definition samplable_span (span : f64) : bool :=
  f64_le f64_zero span && f64_lt span (f64_of_Z (2 ^ 128)).
(** A policy whose jitter can be drawn: there is none, or its range is sampled. *)
Definition samplable (p : RetryPolicy) : bool :=
  f64_eq (jitter_pct p) f64_zero || samplable_span (f64_div (jitter_pct p) (f64_of_Z 100)).
Lemma valid_retry_samplable p : valid_retry p = true → binary64 (jitter_pct p) = true → samplable p = true.
Proof.
  unfold valid_retry, samplable, samplable_span. rewrite !andb_true_iff, !negb_true_iff.
  intros (_ & ((Hf & Hl) & Hh)) Hb. destruct (percentage_small _ Hb Hf Hl Hh) as [-> ->]. apply orb_true_r.
Qed.

Record RetryOutcome (Stream : Type) := {
  outcome_result : result Stream ProviderError;
  attempts : Z;
}.
Arguments outcome_result {Stream}.
Arguments attempts {Stream}.

Inductive RetryEvent (Stream : Type) :=
| Called (r : result Stream ProviderError)
| Retrying (attempt : Z) (error_class : string) (backoff_ms total_elapsed_ms : Z)
| Slept (ms : Z)
| Exhausted (attempts : Z) (last_error : ProviderError).
Arguments Called {Stream}.
Arguments Retrying {Stream}.
Arguments Slept {Stream}.
Arguments Exhausted {Stream}.

(** [x as i32] of a [u32]. *)
Definition as_i32 (z : Z) : Z := if z <=? 2147483647 then z else z - 4294967296.

Section Retry.
Context {W Rng Stream : Type}.
(** [SmallRng::from_entropy], [gen_range(-span..=span)], which may panic, and
    [provider.complete(req.clone(), target.clone())]. *)
Context (from_entropy : W → Rng * W).
Context (gen_range : f64 → Rng → option (f64 * Rng)).
Context (complete : W → result Stream ProviderError * W).

(** The jitter factor, and the generator after it. *)
Definition jitter (policy : RetryPolicy) (rng : Rng) : option (f64 * Rng) :=
  if f64_eq (jitter_pct policy) f64_zero then Some (f64_one, rng)
  else
    let span := f64_div (jitter_pct policy) (f64_of_Z 100) in
    '(x, rng') ← gen_range span rng; Some (f64_add f64_one x, rng').
Definition compute_backoff (attempt : Z) (policy : RetryPolicy) (rng : Rng) : option (Z * Rng) :=
  let exponent := as_i32 (attempt - 1) in
  let base_ms := f64_mul (f64_of_Z (initial_backoff_ms policy)) (powi (multiplier policy) exponent) in
  '(jitter_factor, rng') ← jitter policy rng;
  Some (round_to_u64 (f64_mul base_ms jitter_factor), rng').

Notation M := (emit W (RetryEvent Stream)).

Definition call : M (result Stream ProviderError) :=
  r ← (λ w, let '(r, w') := complete w in (r, w', []));
  push (Called r);;
  mret r.

(** What follows the loop's [break]. *)
Definition exhausted (attempt : Z) (e : ProviderError) : M (option (RetryOutcome Stream)) :=
  push (Exhausted attempt e);;
  mret (Some {| outcome_result := Err e; attempts := attempt |}).

(** The loop; [None] when the jitter cannot be drawn, or the fuel runs out. *)
Fixpoint retry_loop (fuel : nat) (policy : RetryPolicy) (rng : Rng) (attempt total_elapsed_ms : Z)
    : M (option (RetryOutcome Stream)) :=
  match fuel with
  | O => mret None
  | S fuel' =>
      r ← call;
      match r with
      | Ok stream => mret (Some {| outcome_result := Ok stream; attempts := attempt |})
      | Err e =>
          if bool_decide (fallback_eligibility_with_overrides e (retry_on policy) = Terminal)
          then mret (Some {| outcome_result := Err e; attempts := attempt |})
          else if max_attempts policy <=? attempt then exhausted attempt e
          else
            match compute_backoff attempt policy rng with
            | None => mret None
            | Some (backoff_ms, rng') =>
                if total_budget_ms policy <? u64_add total_elapsed_ms backoff_ms
                then exhausted attempt e
                else
                  push (Retrying attempt (error_class_label e) backoff_ms total_elapsed_ms);;
                  push (Slept backoff_ms);;
                  retry_loop fuel' policy rng' (u32_add attempt 1) (u64_add total_elapsed_ms backoff_ms)
            end
      end
  end.

Definition retry_with_policy (policy : RetryPolicy) : M (option (RetryOutcome Stream)) :=
  rng ← (λ w, let '(r, w') := from_entropy w in (r, w', []));
  retry_loop (S (Z.to_nat (max_attempts policy))) policy rng 1 0.

(** ** What a log says *)
Definition calls (l : list (RetryEvent Stream)) : list (result Stream ProviderError) :=
  omap (λ e, match e with Called r => Some r | _ => None end) l.
Definition slept (l : list (RetryEvent Stream)) : list Z :=
  omap (λ e, match e with Slept ms => Some ms | _ => None end) l.
Definition sum (l : list Z) : Z := foldr Z.add 0 l.

Definition eligible (policy : RetryPolicy) (r : result Stream ProviderError) : Prop :=
  ∃ e, r = Err e ∧ fallback_eligibility_with_overrides e (retry_on policy) = Eligible.

(** A backoff the attempt may come to. *)
Definition backoff_of (n : Z) (policy : RetryPolicy) (b : Z) : Prop :=
  ∃ rng rng', compute_backoff n policy rng = Some (b, rng').
(** No backoff of an attempt that can sleep, added to the budget, exceeds a [u64]. *)
Definition no_wrap (policy : RetryPolicy) : Prop :=
  ∀ n b, 1 ≤ n < max_attempts policy → backoff_of n policy b → total_budget_ms policy + b ≤ u64_max.

(** What the loop promises from attempt [k] with [t] milliseconds slept. *)
Record loop_spec (policy : RetryPolicy) (k t : Z) (o : RetryOutcome Stream)
    (l : list (RetryEvent Stream)) : Prop := {
  (* one call per attempt: eligible errors, then the result *)
  spec_calls : ∃ errs, calls l = errs ++ [outcome_result o] ∧ Forall (eligible policy) errs ∧
    attempts o = k + Z.of_nat (length errs);
  (* a sleep between two calls *)
  spec_sleeps : k + Z.of_nat (length (slept l)) = attempts o;
  (* never beyond the last attempt *)
  spec_attempts : attempts o ≤ Z.max k (max_attempts policy);
  (* the sleeps stay within the budget *)
  spec_budget : no_wrap policy → t ≤ total_budget_ms policy →
    t + sum (slept l) ≤ total_budget_ms policy;
  (* giving up on an eligible error: attempts or budget exhausted *)
  spec_gave_up : no_wrap policy → t ≤ total_budget_ms policy →
    eligible policy (outcome_result o) →
    max_attempts policy ≤ attempts o ∨
    ∃ b, backoff_of (attempts o) policy b ∧ total_budget_ms policy < t + sum (slept l) + b;
}.

Lemma compute_backoff_range n policy b : backoff_of n policy b → is_u64 b.
Proof.
  intros (rng & rng' & Hb). unfold compute_backoff in Hb. destruct (jitter policy rng) as [[x r]|]; [|done].
  injection Hb as <- <-. apply round_to_u64_range.
Qed.

(** The two ways an execution of the loop body stops at once. *)
Lemma spec_stop policy k t r l :
  calls l = [r] → slept l = [] →
  (eligible policy r → max_attempts policy ≤ k ∨
     (no_wrap policy → t ≤ total_budget_ms policy →
      ∃ b, backoff_of k policy b ∧ total_budget_ms policy < t + b)) →
  loop_spec policy k t {| outcome_result := r; attempts := k |} l.
Proof.
  intros Hc Hs Hg. split; rewrite ?Hc, ?Hs; simpl; try lia.
  - exists []. split_and!; [done|constructor|simpl; lia].
  - intros Hw Ht Hel. destruct (Hg Hel) as [|Hb]; [by left|right].
    destruct (Hb Hw Ht) as (b & ? & ?). exists b. split; [done|lia].
Qed.

(** One more attempt before a run of the loop. *)
Lemma spec_retry policy k t e b o l pre :
  calls pre = [Err e] → slept pre = [b] →
  fallback_eligibility_with_overrides e (retry_on policy) = Eligible →
  k < max_attempts policy →
  (no_wrap policy → t ≤ total_budget_ms policy → t + b ≤ total_budget_ms policy) →
  (no_wrap policy → t ≤ total_budget_ms policy → wrap64 (t + b) = t + b) →
  loop_spec policy (k + 1) (wrap64 (t + b)) o l → loop_spec policy k t o (pre ++ l).
Proof.
  intros Hc Hs He Hk Hb Hw [(errs & Hcl & Hf & Ha) Hsl Hat Hbu Hg].
  assert (Hcalls : calls (pre ++ l) = Err e :: calls l) by (unfold calls in *; by rewrite omap_app, Hc).
  assert (Hslept : slept (pre ++ l) = b :: slept l) by (unfold slept in *; by rewrite omap_app, Hs).
  split; rewrite ?Hcalls, ?Hslept; simpl.
  - exists (Err e :: errs). split_and!; [by rewrite Hcl| |simpl; lia].
    constructor; [by exists e|done].
  - lia.
  - lia.
  - intros Hnw Ht. specialize (Hb Hnw Ht). rewrite (Hw Hnw Ht) in Hbu. specialize (Hbu Hnw Hb). lia.
  - intros Hnw Ht Hel. specialize (Hb Hnw Ht). rewrite (Hw Hnw Ht) in Hg.
    destruct (Hg Hnw Hb Hel) as [|(b' & ? & ?)]; [by left|right]. exists b'. split; [done|lia].
Qed.

(** The jitter can be drawn, whatever the generator. *)
Definition draws (policy : RetryPolicy) : Prop := ∀ rng, is_Some (jitter policy rng).
Lemma compute_backoff_draws n policy rng : draws policy → is_Some (compute_backoff n policy rng).
Proof. intros Hd. unfold compute_backoff. destruct (Hd rng) as [[x r] ->]. by eexists. Qed.

Lemma retry_loop_spec policy fuel rng k t w :
  draws policy → is_u32 (max_attempts policy) → 0 ≤ total_budget_ms policy → 1 ≤ k → 0 ≤ t →
  (Z.to_nat (max_attempts policy - k) < fuel)%nat →
  ∃ o, answer (retry_loop fuel policy rng k t) w = Some o ∧
       loop_spec policy k t o (emitted (retry_loop fuel policy rng k t) w).
Proof.
  intros Hjit Hmax Hbud. revert rng k t w. induction fuel as [|fuel IH]; intros rng k t w Hk Ht Hfuel; [lia|].
  simpl. unfold call, exhausted, mbind, emit_bind, mret, emit_ret, push, answer, emitted.
  destruct (complete w) as [[stream|e] w1] eqn:Hcw; simpl.
  { eexists. split; [done|]. apply spec_stop; try done. intros (e & ? & ?). done. }
  case_bool_decide as Hel; simpl.
  { eexists. split; [done|]. apply spec_stop; try done. intros (e' & [= <-] & ?). congruence. }
  assert (Hel' : fallback_eligibility_with_overrides e (retry_on policy) = Eligible)
    by (by destruct (fallback_eligibility_with_overrides e (retry_on policy))).
  destruct (Z.leb_spec (max_attempts policy) k); simpl.
  { eexists. split; [done|]. apply spec_stop; try done. by left. }
  destruct (compute_backoff_draws k policy rng Hjit) as [[b rng'] Hcb]. rewrite Hcb.
  assert (Hbo : backoff_of k policy b) by by eexists _, _.
  pose proof (compute_backoff_range k policy b Hbo) as Hr.
  assert (Hnw : no_wrap policy → t ≤ total_budget_ms policy → wrap64 (t + b) = t + b).
  { intros Hw Htb. specialize (Hw k b ltac:(lia) Hbo).
    apply wrap64_small. unfold is_u64 in *. lia. }
  destruct (Z.ltb_spec (total_budget_ms policy) (u64_add t b)); simpl.
  { eexists. split; [done|]. apply spec_stop; try done. right. intros Hw Htb. exists b. split; [done|].
    unfold u64_add in *. by rewrite Hnw in * by done. }
  rewrite u32_add_small by (unfold is_u32 in *; lia).
  assert (Hfu : (Z.to_nat (max_attempts policy - (k + 1)) < fuel)%nat) by lia.
  assert (Ht' : 0 ≤ u64_add t b) by (pose proof (wrap64_range (t + b)) as []; done).
  destruct (IH rng' (k + 1) (u64_add t b) w1 ltac:(lia) Ht' Hfu) as (o & Ho & Hspec).
  unfold answer, emitted in Ho, Hspec.
  destruct (retry_loop fuel policy rng' (k + 1) (u64_add t b) w1) as [[ans w2] l]. simpl in *.
  exists o. split; [done|].
  eapply (spec_retry _ _ _ _ b _ _ [Called (Err e); Retrying _ _ _ _; Slept b]); try done.
  intros Hw Htb. unfold u64_add in *. by rewrite Hnw in * by done.
Qed.

Lemma retry_with_policy_loop policy w :
  draws policy → is_u32 (max_attempts policy) → 0 ≤ total_budget_ms policy →
  ∃ o, answer (retry_with_policy policy) w = Some o ∧
       loop_spec policy 1 0 o (emitted (retry_with_policy policy) w).
Proof.
  intros Hjit Hmax Hbud. unfold retry_with_policy.
  unfold answer, emitted, mbind, emit_bind. destruct (from_entropy w) as [rng w1].
  destruct (retry_loop_spec policy (S (Z.to_nat (max_attempts policy))) rng 1 0 w1)
    as (o & Ho & Hspec); [done..|lia|lia|lia|].
  unfold answer, emitted in *.
  destruct (retry_loop _ policy rng 1 0 w1) as [[ans w2] l]. simpl in *. by exists o.
Qed.

(** rand samples the ranges it can. *)
Context (gen_range_samples : ∀ span rng, samplable_span span = true → is_Some (gen_range span rng)).
Lemma samplable_draws policy : samplable policy = true → draws policy.
Proof.
  unfold samplable, draws, jitter. intros Hs rng. destruct (f64_eq _ _); [by eexists|].
  destruct (gen_range_samples _ rng Hs) as [[x r] ->]. by eexists.
Qed.

(** C28: under a policy whose jitter can be drawn (validation keeps it between 0
    and 100, see [valid_retry_samplable]; rand panics on others),
    [retry_with_policy] always returns.  It calls the provider once per attempt,
    between 1 and [max_attempts] times; every call but the last failed with an
    error the [retry_on] list makes eligible; the last call's result is the
    result; there is exactly one sleep between two calls; the sleeps, not the
    time the calls take, add up to at most [total_budget_ms]; and an eligible
    error is only returned once the attempts or that budget are exhausted.  The
    last two presume that no backoff added to the budget exceeds a [u64]. *)
Theorem retry_with_policy_spec policy w :
  samplable policy = true →
  is_u32 (max_attempts policy) → 1 ≤ max_attempts policy → 0 ≤ total_budget_ms policy →
  ∃ o, answer (retry_with_policy policy) w = Some o ∧
    let l := emitted (retry_with_policy policy) w in
    1 ≤ attempts o ≤ max_attempts policy ∧
    (∃ errs, calls l = errs ++ [outcome_result o] ∧ Forall (eligible policy) errs ∧
       attempts o = Z.of_nat (length (calls l))) ∧
    Z.of_nat (length (slept l)) = attempts o - 1 ∧
    (no_wrap policy → sum (slept l) ≤ total_budget_ms policy) ∧
    (no_wrap policy → eligible policy (outcome_result o) →
       attempts o = max_attempts policy ∨
       ∃ b, backoff_of (attempts o) policy b ∧ total_budget_ms policy < sum (slept l) + b).
Proof.
  intros Hjit Hmax H1 Hbud.
  destruct (retry_with_policy_loop policy w (samplable_draws _ Hjit) Hmax Hbud) as (o & Ho & [(errs & Hc & Hf & Ha) Hs Hat Hb Hg]).
  exists o. split; [done|]. cbv zeta. split_and!; [lia..| |lia| |].
  - exists errs. split_and!; [done..|]. rewrite Hc, length_app. simpl. lia.
  - intros Hw. specialize (Hb Hw Hbud). lia.
  - intros Hw Hel. destruct (Hg Hw Hbud Hel) as [|(b & ? & ?)]; [left; lia|right; by exists b].
Qed.
End Retry.

(** ** Concrete runs: a scripted provider and no jitter *)
Module Samples.
Definition script := list (result nat ProviderError).
Definition entropy (w : script) : unit * script := (tt, w).
(** A generator that draws the middle of the ranges that can be sampled. *)
Definition no_jitter (span : f64) (r : unit) : option (f64 * unit) :=
  if samplable_span span then Some (f64_zero, r) else None.
Lemma no_jitter_samples span r : samplable_span span = true → is_Some (no_jitter span r).
Proof. unfold no_jitter. intros ->. by eexists. Qed.
Definition complete (w : script) : result nat ProviderError * script :=
  match w with r :: w' => (r, w') | [] => (Err (Network ""), []) end.

Definition doubling : RetryPolicy := {|
  max_attempts := 3; initial_backoff_ms := 100; multiplier := f64_of_Z 2;
  jitter_pct := f64_zero; total_budget_ms := 1000; retry_on := default_retry_on |}.

Definition run (p : RetryPolicy) (w : script) := retry_with_policy entropy no_jitter complete p w.

Example doubling_log :
  emitted (run doubling) [Err (Network "reset"); Err (Upstream 503 ""); Ok 7%nat] =
  [Called (Err (Network "reset")); Retrying 1 "network" 100 0; Slept 100;
   Called (Err (Upstream 503 "")); Retrying 2 "upstream_5xx" 200 100; Slept 200; Called (Ok 7%nat)].
Proof. vm_compute. reflexivity. Qed.

Lemma retry_with_policy_spec_witness :
  no_wrap no_jitter doubling ∧
  ∃ o, answer (run doubling) [Err (Network "reset"); Ok 7%nat] = Some o ∧
    sum (slept (emitted (run doubling) [Err (Network "reset"); Ok 7%nat])) ≤ 1000.
Proof.
  assert (Hw : no_wrap no_jitter doubling).
  { intros n b Hn (r & r' & Hb). assert (n = 1 ∨ n = 2) as [-> | ->] by (simpl in Hn; lia);
      vm_compute in Hb; injection Hb as <- _; vm_compute; discriminate. }
  split; [exact Hw|].
  destruct (retry_with_policy_spec entropy no_jitter complete no_jitter_samples doubling
    [Err (Network "reset"); Ok 7%nat]) as (o & Ho & _ & _ & _ & Hb & _);
    [reflexivity|split; vm_compute; discriminate|vm_compute; discriminate|vm_compute; discriminate|].
  exists o. split; [exact Ho|]. exact (Hb Hw).
Defined.

(** A policy that validation refuses, with a jitter below zero: the first
    backoff panics. *)
Definition negative : RetryPolicy := {|
  max_attempts := 3; initial_backoff_ms := 100; multiplier := f64_of_Z 2;
  jitter_pct := f64_of_Z (-1); total_budget_ms := 1000; retry_on := default_retry_on |}.
Lemma negative_jitter_panics :
  valid_retry negative = false ∧ samplable negative = false ∧ answer (run negative) [Err (Network "")] = None.
Proof. vm_compute. split_and!; reflexivity. Qed.

(** A configuration that passes validation and whose second backoff saturates:
    the budget check [total_elapsed_ms + backoff_ms > total_budget_ms] wraps to
    0 and the loop sleeps 2^64 - 1 milliseconds under a budget of 100. *)
Definition steep : RetryPolicy := {|
  max_attempts := 3; initial_backoff_ms := 1; multiplier := f64_of_Z (10 ^ 20);
  jitter_pct := f64_zero; total_budget_ms := 100; retry_on := default_retry_on |}.

Theorem budget_check_wraps :
  valid_retry steep = true ∧
  slept (emitted (run steep) [Err (Network ""); Err (Network ""); Ok 7%nat]) = [1; u64_max].
Proof. vm_compute. split; reflexivity. Qed.
End Samples.
