(* ===== verification/Request.v ===== *)
(** * The canonical request (crates/core)

    Content blocks, messages, tools and generation options; the reasoning
    effort vocabulary of [request.rs]; the route policy of [policy.rs] and its
    merge with a request. *)
From S2P Require Import Prelude Float64 Json CoreTypes.
#[local] Open Scope string_scope.
#[local] Open Scope list_scope.
#[local] Open Scope nat_scope.

(** ** Reasoning effort *)
Inductive ReasoningEffort := Minimal | Low | Medium | High | Xhigh | Max.
#[export] Instance ReasoningEffort_eq_dec : EqDecision ReasoningEffort.
Proof. solve_decision. Defined.

(** The derived order is the declaration order. *)
Definition intensity (e : ReasoningEffort) : nat :=
  match e with Minimal => 0 | Low => 1 | Medium => 2 | High => 3 | Xhigh => 4 | Max => 5 end.

Definition as_str (e : ReasoningEffort) : string :=
  match e with
  | Minimal => "minimal" | Low => "low" | Medium => "medium"
  | High => "high" | Xhigh => "xhigh" | Max => "max"
  end.

Definition parse_effort (s : string) : option ReasoningEffort :=
  let s := to_ascii_lowercase s in
  if bool_decide (s = "minimal" ∨ s = "none") then Some Minimal
  else if bool_decide (s = "low") then Some Low
  else if bool_decide (s = "medium" ∨ s = "default") then Some Medium
  else if bool_decide (s = "high") then Some High
  else if bool_decide (s = "xhigh" ∨ s = "x-high" ∨ s = "extra_high") then Some Xhigh
  else if bool_decide (s = "max") then Some Max
  else None.

(** [ReasoningEffort::clamp_to_advertised]. *)
Definition clamp_to_advertised (self : ReasoningEffort) (advertised : list string) : option string :=
  let parsed := omap (λ s, (λ e, (e, s)) <$> parse_effort s) advertised in
  match parsed with
  | [] => None
  | _ =>
      let parsed := sort_by_key (λ p, intensity p.1) parsed in
      match list_find (λ p, intensity p.1 ≤ intensity self) (rev parsed) with
      | Some (_, (_, raw)) => Some raw
      | None => snd <$> head parsed
      end
  end.

(** ** Content *)
Section Content.
Context `{J : JsonApi}.

Definition ExtensionMap := gmap string value.

Inductive BinarySource :=
| Url (url : string)
| Base64 (media_type data : string)
| Bytes (media_type data : string)
| ProviderFileId (file_id : string).

Inductive ToolCallArguments :=
| Complete (v : value)
| Streaming (data : string).

Record ToolCallBlock := {
  tc_id : string; tc_name : string; arguments : ToolCallArguments; tc_extensions : ExtensionMap }.
Record ToolResultBlock := {
  tool_call_id : string; tr_content : value; is_error : bool; tr_extensions : ExtensionMap }.

Inductive ContentBlock :=
| TextBlock (text : string) (extensions : ExtensionMap)
| ImageBlock (source : BinarySource) (extensions : ExtensionMap)
| AudioBlock (source : BinarySource) (extensions : ExtensionMap)
| FileBlock (source : BinarySource) (extensions : ExtensionMap)
| ToolCallB (b : ToolCallBlock)
| ToolResultB (b : ToolResultBlock)
| ReasoningBlock (text : string) (extensions : ExtensionMap)
| RedactedReasoningBlock (data : string) (extensions : ExtensionMap)
| UnsupportedBlock (origin : string) (raw : value).

Inductive SystemSource := AnthropicSystem | OpenAiSystem | OpenAiDeveloper.
Record SystemInstruction := { si_source : SystemSource; si_content : list ContentBlock }.
Record Message := {
  role : MessageRole; content : list ContentBlock; msg_name : option string;
  msg_source : option SystemSource; msg_extensions : ExtensionMap }.

Record ToolDefinition := {
  tool_name : string; description : option string; input_schema : value;
  tool_extensions : ExtensionMap }.
Inductive ToolChoice := ChoiceAuto | ChoiceNone | ChoiceRequired | ChoiceSpecific (name : string).

(** ** The request *)
Record ReasoningOptions := { effort : option ReasoningEffort; budget_tokens : option Z }.
Record GenerationOptions := {
  max_tokens : option Z;
  temperature : option f64;
  top_p : option f64;
  top_k : option Z;
  presence_penalty : option f64;
  frequency_penalty : option f64;
  stop_sequences : list string;
  seed : option Z;
  reasoning : option ReasoningOptions;
}.
Inductive ResponseFormat :=
| FormatText | FormatJsonObject | FormatJsonSchema (name : string) (schema : value) (strict : bool).
Inductive FrontendKind := AnthropicMessages | OpenAiChat | OpenAiResponses.
Record RequestMetadata := { user_id : option string; agent : option string }.

Record ResolvedPolicy := {
  reasoning_effort : option ReasoningEffort;
  reasoning_budget_tokens : option Z;
  supported_efforts : option (list string);
  supported_endpoints : option (list string);
  anthropic_headers : list (string * string);
}.

Record CanonicalRequest := {
  id : string;
  frontend_kind : FrontendKind;
  requested_model : string;
  req_model : string;
  system : list SystemInstruction;
  messages : list Message;
  tools : list ToolDefinition;
  tool_choice : ToolChoice;
  generation : GenerationOptions;
  response_format : option ResponseFormat;
  stream : bool;
  metadata : RequestMetadata;
  inbound_anthropic_headers : list (string * string);
  resolved_policy : ResolvedPolicy;
  extensions : ExtensionMap;
}.
End Content.

(** ** Route policy *)
Record MappingRule := { rule_match : ReasoningEffort; rule_set : ReasoningEffort }.
Record RoutePolicy := {
  default_reasoning_effort : option ReasoningEffort;
  default_anthropic_beta : option string;
  reasoning_mapping : list MappingRule;
}.
Record BackendTarget := { provider : string; model : string; policy : RoutePolicy }.

Definition anthropic_header (p : ResolvedPolicy) (name : string) : option string :=
  (λ h, h.2.2) <$> list_find (λ h, eq_ignore_ascii_case h.1 name) (anthropic_headers p).

(** [RoutePolicy::resolve]. *)
Definition resolve `{J : JsonApi} (self : RoutePolicy) (req : CanonicalRequest) : ResolvedPolicy :=
  let inbound_effort := reasoning (generation req) ≫= effort in
  let inbound_budget := reasoning (generation req) ≫= budget_tokens in
  let post_default :=
    match inbound_effort with Some e => Some e | None => default_reasoning_effort self end in
  let final_effort :=
    match post_default with
    | Some e =>
        match list_find (λ r, rule_match r = e) (reasoning_mapping self) with
        | Some (_, rule) => Some (rule_set rule)
        | None => Some e
        end
    | None => None
    end in
  let headers := inbound_anthropic_headers req in
  let inbound_has_beta := existsb (λ h, eq_ignore_ascii_case h.1 "anthropic-beta") headers in
  let anthropic_headers :=
    if inbound_has_beta then headers
    else match default_anthropic_beta self with
         | Some beta => headers ++ [("anthropic-beta", beta)]
         | None => headers
         end in
  {| reasoning_effort := final_effort;
     reasoning_budget_tokens := inbound_budget;
     supported_efforts := None;
     supported_endpoints := None;
     anthropic_headers := anthropic_headers |}.

(** ** Properties *)
Lemma parse_effort_as_str e : parse_effort (as_str e) = Some e.
Proof. by destruct e; vm_compute. Qed.

(** Searching a sorted list from its end finds the greatest key in range. *)
Lemma find_rev_ascending {A} (key : A → nat) n (l : list A) :
  ascending (λ x y, key x <=? key y) l →
  match list_find (λ y, key y ≤ n) (rev l) with
  | Some (_, x) => key x ≤ n ∧ x ∈ l ∧ ∀ y, y ∈ l → key y ≤ n → key y ≤ key x
  | None => ∀ y, y ∈ l → n < key y
  end.
Proof.
  induction l as [|x l IH]; [by intros _ y ?%not_elem_of_nil|].
  intros [Hx Hl]. specialize (IH Hl). simpl. rewrite Forall_forall in Hx.
  assert (Hx' : ∀ y, y ∈ l → key x ≤ key y) by (intros; by apply Nat.leb_le, Hx). clear Hx.
  destruct (list_find _ (rev l)) as [[i z]|] eqn:Hf.
  - rewrite list_find_app_l with (i := i) (x := z) by done.
    destruct IH as (Hz & Hin & Hmax). split_and!; [done|by right|].
    intros y [->|Hy]%elem_of_cons Hn; [by apply Hx'|by apply Hmax].
  - rewrite list_find_app_r by done. simpl. case_decide as Hn; simpl.
    + split_and!; [done|by left|]. intros y [->|Hy]%elem_of_cons Hyn; [done|].
      specialize (IH y Hy). lia.
    + intros y [->|Hy]%elem_of_cons; [lia|by apply IH].
Qed.

Lemma ascending_head {A} (key : A → nat) x l y :
  ascending (λ x y, key x <=? key y) (x :: l) → y ∈ x :: l → key x ≤ key y.
Proof.
  intros [Hx _] [->|Hy]%elem_of_cons; [done|]. rewrite Forall_forall in Hx. by apply Nat.leb_le, Hx.
Qed.

(** The effort sent to a model is one of the spellings it advertises,
    verbatim: the strongest advertised tier not above the request or, when all
    are stronger, the weakest one; [None] exactly when no advertised entry is a
    known tier. *)
Theorem clamp_to_advertised_spec self advertised :
  match clamp_to_advertised self advertised with
  | Some raw =>
      raw ∈ advertised ∧ ∃ e, parse_effort raw = Some e ∧
        ((intensity e ≤ intensity self ∧
          ∀ s e', s ∈ advertised → parse_effort s = Some e' →
            intensity e' ≤ intensity self → intensity e' ≤ intensity e) ∨
         (∀ s e', s ∈ advertised → parse_effort s = Some e' →
            intensity self < intensity e' ∧ intensity e ≤ intensity e'))
  | None => ∀ s, s ∈ advertised → parse_effort s = None
  end.
Proof.
  unfold clamp_to_advertised.
  set (parsed := omap _ advertised). set (sorted := sort_by_key _ parsed).
  assert (Hin : ∀ e s, (e, s) ∈ sorted ↔ s ∈ advertised ∧ parse_effort s = Some e).
  { intros e s. unfold sorted. rewrite sort_by_key_perm. unfold parsed. rewrite list_elem_of_omap.
    split.
    - intros (s' & Hs & (e' & He & [= -> ->])%fmap_Some). done.
    - intros [Hs He]. exists s. by rewrite He. }
  pose proof (sort_by_key_ascending (λ p, intensity p.1) parsed) as Hasc. fold sorted in Hasc.
  pose proof (find_rev_ascending _ (intensity self) sorted Hasc) as Hfind.
  destruct parsed as [|p ps] eqn:Hp.
  { intros s Hs. destruct (parse_effort s) as [e|] eqn:He; [|done].
    exfalso. exact (not_elem_of_nil (e, s) (proj2 (Hin e s) (conj Hs He))). }
  destruct (list_find _ (rev sorted)) as [[i [e raw]]|].
  - destruct Hfind as (Hle & Hel & Hmax). apply Hin in Hel as [Hadv Hpe].
    split; [done|]. exists e. split; [done|]. left. split; [done|].
    intros s e' Hs He'. apply (Hmax (e', s)), Hin. done.
  - assert (Hne : sorted ≠ []).
    { intros Hs. pose proof (sort_by_key_perm (λ p, intensity p.1) (p :: ps)) as Hperm.
      fold sorted in Hperm. rewrite Hs in Hperm. by apply Permutation_nil_cons in Hperm. }
    destruct sorted as [|[e raw] rest]; [done|]. simpl.
    destruct (proj1 (Hin e raw) (list_elem_of_here _ _)) as [Hadv Hpe].
    split; [done|]. exists e. split; [done|]. right. intros s e' Hs He'.
    assert (Hel : (e', s) ∈ (e, raw) :: rest) by by apply Hin.
    split; [by apply (Hfind _ Hel)|]. by apply (ascending_head (λ p, intensity p.1) _ _ _ Hasc Hel).
Qed.

(** Searching headers by name. *)
Lemma header_found (hs : list (string * string)) n :
  existsb (λ h, eq_ignore_ascii_case h.1 n) hs = true ↔
  is_Some (list_find (λ h, eq_ignore_ascii_case h.1 n) hs).
Proof.
  rewrite existsb_exists. split.
  - intros (h & Hin%list_elem_of_In & Hh). eapply list_find_elem_of; [done|]. by rewrite Hh.
  - intros [[i h] (Hi & Hh & _)%list_find_Some]. exists h. split; [|by apply Is_true_true].
    apply list_elem_of_In. by eapply list_elem_of_lookup_2.
Qed.

(** The merged policy: an effort the request asked for beats the route's
    default, the first matching rewrite rule applies and otherwise the effort
    passes through; every inbound [anthropic-*] header is kept, in order, and
    the route's default beta is what the upstream sees exactly when the request
    carries no beta header of its own, in any letter case. *)
Theorem resolve_merges `{J : JsonApi} self req :
  let p := resolve self req in
  let asked := match reasoning (generation req) ≫= effort with
               | Some e => Some e | None => default_reasoning_effort self end in
  (∀ e, asked = Some e →
     (∀ i r, list_find (λ r, rule_match r = e) (reasoning_mapping self) = Some (i, r) →
        reasoning_effort p = Some (rule_set r)) ∧
     (Forall (λ r, rule_match r ≠ e) (reasoning_mapping self) → reasoning_effort p = Some e)) ∧
  (asked = None → reasoning_effort p = None) ∧
  inbound_anthropic_headers req `prefix_of` anthropic_headers p ∧
  anthropic_header p "anthropic-beta" =
    match list_find (λ h, eq_ignore_ascii_case h.1 "anthropic-beta") (inbound_anthropic_headers req) with
    | Some (_, h) => Some h.2
    | None => default_anthropic_beta self
    end.
Proof.
  intros p asked. subst p. unfold resolve, anthropic_header. fold asked. cbv zeta.
  cbn [reasoning_effort anthropic_headers]. split_and!.
  - intros e ->. split; [by intros i r ->|]. intros Hf.
    destruct (list_find _ _) as [[i r]|] eqn:Hr; [|done].
    apply list_find_Some in Hr as (Hi & Hm & _). apply list_elem_of_lookup_2 in Hi.
    rewrite Forall_forall in Hf. by destruct (Hf _ Hi).
  - by intros ->.
  - case_match; [done|]. case_match; [by apply prefix_app_r|done].
  - set (hs := inbound_anthropic_headers req). destruct (existsb _ hs) eqn:Hb.
    + apply header_found in Hb as [[i h] ->]. done.
    + assert (Hnone : list_find (λ h, eq_ignore_ascii_case h.1 "anthropic-beta") hs = None).
      { apply eq_None_not_Some. intros Hs%header_found. congruence. }
      rewrite Hnone. destruct (default_anthropic_beta self) as [b|]; [|by rewrite Hnone].
      by rewrite list_find_app_r.
Qed.
