(* ===== verification/Config.v ===== *)
(** * The gateway's configuration (crates/config/src/schema.rs, plugins.rs)

    The sections the router, the validators and the plugin registry read, and
    the accessors of [upstream_accessors.rs]; logging and metrics are left out.
    A [BTreeMap] is a finite map iterated in key order ([entries]).  [Secret] is
    its exposed text; the settings the upstream kinds share are factored into
    [UpstreamCommon] and [HttpUpstream]. *)
From S2P Require Import Prelude Float64 Json CoreTypes Request Breaker Retry.
#[local] Open Scope string_scope.
#[local] Open Scope Z_scope.

Inductive Tier := Economy | Standard | Premium.
Definition tier_rank (t : Tier) : nat :=
  match t with Economy => 0 | Standard => 1 | Premium => 2 end%nat.

Record UpstreamCost := { input_per_million_usd : f64; output_per_million_usd : f64 }.

(** The settings the six upstream kinds share, and those of the five reached by
    URL and key. *)
Record UpstreamCommon := {
  tier : Tier;
  cost : option UpstreamCost;
  p95_latency_budget_ms : option Z;
}.
Record HttpUpstream := {
  base_url : string;
  api_key : string;
  default_headers : gmap string string;
  request_timeout_secs : Z;
  http_common : UpstreamCommon;
}.
Inductive UpstreamConfig :=
| OpenAiCompatible (h : HttpUpstream)
| GithubCopilot (c : UpstreamCommon)
| Anthropic (h : HttpUpstream) (anthropic_version : string)
| Deepseek (h : HttpUpstream)
| Gemini (h : HttpUpstream)
| Glm (h : HttpUpstream).

Definition upstream_common (u : UpstreamConfig) : UpstreamCommon :=
  match u with
  | GithubCopilot c => c
  | OpenAiCompatible h | Anthropic h _ | Deepseek h | Gemini h | Glm h => http_common h
  end.
Definition upstream_tier (u : UpstreamConfig) : Tier := tier (upstream_common u).
Definition upstream_cost (u : UpstreamConfig) : option UpstreamCost := cost (upstream_common u).
Definition upstream_latency_budget (u : UpstreamConfig) : option Z :=
  p95_latency_budget_ms (upstream_common u).

(** ** Plugins *)
Inductive OnErrorYaml := OnSkip | OnFail.
Inductive TimeoutMs :=
| Uniform (ms : Z)
| PerHook (dflt on_decoded_request on_resolved on_stream_event on_response_complete : option Z).
(** The factory's own [config] blob is opaque here. *)
Record PluginEntry := {
  kind : string;
  on_error : OnErrorYaml;
  timeout_ms : option TimeoutMs;
  plugin_enabled : bool;
}.
Record RoutePluginsBlock := {
  rp_on_decoded_request : list string;
  rp_on_resolved : list string;
  rp_on_stream_event : list string;
  rp_on_response_complete : list string;
}.
(** All the (hook, plugin) references of a route. *)
Definition iter_references (b : RoutePluginsBlock) : list (string * string) :=
  (pair "on_decoded_request" <$> rp_on_decoded_request b) ++
  (pair "on_resolved" <$> rp_on_resolved b) ++
  (pair "on_stream_event" <$> rp_on_stream_event b) ++
  (pair "on_response_complete" <$> rp_on_response_complete b).

(** ** Routes *)
Record UpstreamRef := { ref_name : string; ref_model : string }.
Record ReasoningMappingRule := { match_str : string; set_str : string }.

Record RouteEntry := {
  re_frontend : string;
  re_model : string;
  re_upstream : option string;
  re_upstream_model : option string;
  re_upstreams : list UpstreamRef;
  re_reasoning_effort : option string;
  re_anthropic_beta : option string;
  re_retry : RetryConfig;
  re_breaker : BreakerConfig;
  re_min_tier : option Tier;
  re_max_cost_usd : option f64;
  re_plugins : option RoutePluginsBlock;
  re_reasoning_mapping : list ReasoningMappingRule;
}.

(** [RouteEntry::singular]. *)
Definition singular (frontend model upstream upstream_model : string) : RouteEntry := {|
  re_frontend := frontend; re_model := model; re_upstream := Some upstream;
  re_upstream_model := Some upstream_model; re_upstreams := []; re_reasoning_effort := None;
  re_anthropic_beta := None; re_retry := default_retry_config; re_breaker := default_breaker_config;
  re_min_tier := None; re_max_cost_usd := None; re_plugins := None; re_reasoning_mapping := [] |}.

(** ** Listeners, telemetry, authentication, rate limits *)
Record ServerConfig := { server_bind : string; server_port : Z; keepalive_secs : Z }.
Record AdminConfig := { admin_bind : string; admin_port : Z }.
Record OtelConfig := {
  endpoint : option string;
  service_name : string;
  service_version : option string;
  sample_ratio : f64;
  resource_attrs : gmap string string;
}.
Record ShutdownConfig := { plugin_flush_secs : Z }.
Record ValidationConfig := { strict_upstream_models : bool }.

(** The labels of the keys, by hash. *)
Record AuthConfig := {
  auth_enabled : bool;
  auth_required : bool;
  auth_keys : gmap string string;
}.

Record BucketConfigYaml := { yaml_rate_per_sec : Z; yaml_burst : Z }.
Record PerKeyConfig := {
  pk_default : option BucketConfigYaml;
  pk_anonymous : option BucketConfigYaml;
  pk_overrides : gmap string BucketConfigYaml;
}.
Record PerIpConfig := { ip_enabled : bool; ip_rate_per_sec : Z; ip_burst : Z }.
Record RateLimitConfig := {
  rl_enabled : bool;
  rl_per_key : PerKeyConfig;
  rl_per_route : gmap string BucketConfigYaml;
  rl_per_upstream : gmap string BucketConfigYaml;
  rl_per_ip : PerIpConfig;
}.

Record GatewayConfig := {
  gw_server : ServerConfig;
  upstreams : gmap string UpstreamConfig;
  routes : list RouteEntry;
  gw_plugins : gmap string PluginEntry;
  gw_auth : AuthConfig;
  gw_rate_limit : RateLimitConfig;
  gw_admin : option AdminConfig;
  gw_otel : option OtelConfig;
  gw_shutdown : ShutdownConfig;
  gw_validation : ValidationConfig;
}.

(** The defaults: what an empty file is read as. *)
Definition default_server : ServerConfig :=
  {| server_bind := "127.0.0.1"; server_port := 8787; keepalive_secs := 15 |}.
Definition default_admin : AdminConfig := {| admin_bind := "127.0.0.1"; admin_port := 9100 |}.
Definition default_shutdown : ShutdownConfig := {| plugin_flush_secs := 5 |}.
Definition default_auth : AuthConfig :=
  {| auth_enabled := false; auth_required := false; auth_keys := ∅ |}.
Definition default_per_ip : PerIpConfig :=
  {| ip_enabled := false; ip_rate_per_sec := 5; ip_burst := 20 |}.
Definition default_rate_limit : RateLimitConfig := {|
  rl_enabled := false;
  rl_per_key := {| pk_default := None; pk_anonymous := None; pk_overrides := ∅ |};
  rl_per_route := ∅; rl_per_upstream := ∅; rl_per_ip := default_per_ip |}.
(** The configuration with the given upstreams and routes, and defaults. *)
Definition gateway_config (us : gmap string UpstreamConfig) (rs : list RouteEntry) : GatewayConfig := {|
  gw_server := default_server; upstreams := us; routes := rs; gw_plugins := ∅;
  gw_auth := default_auth; gw_rate_limit := default_rate_limit; gw_admin := None;
  gw_otel := None; gw_shutdown := default_shutdown;
  gw_validation := {| strict_upstream_models := false |} |}.

(** ** Validation of the routes (crates/config/src/validation.rs)

    [validate_routes], with the position of the offending route and the rule it
    breaks in place of the message. *)
#[local] Open Scope nat_scope.

Inductive RouteFault :=
| BothForms | NoUpstream | SingularIncomplete | UnknownUpstream (name : string)
| MaxAttemptsZero | BudgetBelowBackoff | BadMultiplier | BadJitter
| BadThreshold | MinRequestsZero
| UnknownMatchEffort (idx : nat) | UnknownSetEffort (idx : nat)
| BadPattern.

Definition star : Ascii.ascii := Ascii.ascii_of_nat 42.

Definition upstream_is_configured (cfg : GatewayConfig) (name : string) : bool :=
  bool_decide (is_Some (upstreams cfg !! name)) ||
  (bool_decide (name = "copilot") &&
   existsb (λ p, match p.2 with GithubCopilot _ => true | _ => false end) (map_to_list (upstreams cfg))).

(** The first fault of a list of checks. *)
Fixpoint first_fault {A} (f : nat → A → option RouteFault) (i : nat) (l : list A) : result unit RouteFault :=
  match l with
  | [] => Ok tt
  | x :: l' => match f i x with Some e => Err e | None => first_fault f (S i) l' end
  end.

Lemma first_fault_ok {A} (f : nat → A → option RouteFault) i l :
  first_fault f i l = Ok tt ↔ ∀ j x, l !! j = Some x → f (i + j) x = None.
Proof.
  revert i. induction l as [|y l IH]; intros i; simpl; [by split|].
  destruct (f i y) eqn:Hy.
  - split; [done|]. intros H. specialize (H 0 y eq_refl). rewrite Nat.add_0_r in H. congruence.
  - rewrite IH. split; intros H.
    + intros [|j] x Hj; [simplify_eq/=; by rewrite Nat.add_0_r|].
      rewrite <- Nat.add_succ_comm. by apply H.
    + intros j x Hj. rewrite Nat.add_succ_comm. by apply H.
Qed.
Lemma first_fault_err {A} (f : nat → A → option RouteFault) i l e :
  first_fault f i l = Err e → ∃ j x, l !! j = Some x ∧ f (i + j) x = Some e.
Proof.
  revert i. induction l as [|y l IH]; intros i; simpl; [done|].
  destruct (f i y) eqn:Hy.
  - intros [= <-]. exists 0, y. by rewrite Nat.add_0_r.
  - intros (j & x & Hj & Hx)%IH. exists (S j), x. by rewrite <- Nat.add_succ_comm.
Qed.

Definition validate_pattern (model : string) : result unit RouteFault :=
  if bool_decide (model = "*") then Ok tt else
  let star_count := count_char star model in
  let star_at_end := bool_decide (is_Some (strip_last star model)) in
  let prefix_non_empty := 1 <? String.length model in
  let valid_no_star := star_count =? 0 in
  let valid_prefix := (star_count =? 1) && star_at_end && prefix_non_empty in
  ensure (valid_no_star || valid_prefix) BadPattern.

(** Rules 1 and 2: one upstream shape, complete. *)
Definition check_shape (route : RouteEntry) : result unit RouteFault :=
  let has_singular := bool_decide (is_Some (re_upstream route)) ||
                      bool_decide (is_Some (re_upstream_model route)) in
  let has_array := negb (bool_decide (re_upstreams route = [])) in
  match has_singular, has_array with
  | true, true => Err BothForms
  | false, false => Err NoUpstream
  | true, false =>
      if bool_decide (re_upstream route = None) || bool_decide (re_upstream_model route = None)
      then Err SingularIncomplete else Ok tt
  | false, true => Ok tt
  end.

(** The upstream names a route references. *)
Definition referenced (route : RouteEntry) : list string :=
  if bool_decide (re_upstreams route = []) then option_list (re_upstream route)
  else ref_name <$> re_upstreams route.

(** Rules 4 and 5. *)
Definition check_retry (retry : RetryConfig) : result unit RouteFault :=
  let? _ := ensure (negb (cfg_max_attempts retry =? 0)%Z) MaxAttemptsZero in
  let? _ := ensure (negb (cfg_total_budget_ms retry <? cfg_initial_backoff_ms retry)%Z) BudgetBelowBackoff in
  let? _ := ensure (is_finite (cfg_multiplier retry) && negb (f64_le (cfg_multiplier retry) f64_one))
              BadMultiplier in
  ensure (is_finite (cfg_jitter_pct retry) && negb (f64_lt (cfg_jitter_pct retry) f64_zero) &&
          negb (f64_lt (f64_of_Z 100) (cfg_jitter_pct retry))) BadJitter.

(** Rule 6. *)
Definition check_breaker (breaker : BreakerConfig) : result unit RouteFault :=
  let? _ := ensure ((1 <=? cfg_failure_threshold_pct breaker)%Z &&
                    (cfg_failure_threshold_pct breaker <=? 100)%Z) BadThreshold in
  ensure (negb (cfg_min_requests breaker =? 0)%Z) MinRequestsZero.

(** Rule 7. *)
Definition check_mapping (rules : list ReasoningMappingRule) : result unit RouteFault :=
  first_fault (λ idx rule,
    if bool_decide (parse_effort (match_str rule) = None) then Some (UnknownMatchEffort idx)
    else if bool_decide (parse_effort (set_str rule) = None) then Some (UnknownSetEffort idx)
    else None) 0 rules.

Definition validate_route (cfg : GatewayConfig) (route : RouteEntry) : result unit RouteFault :=
  let? _ := check_shape route in
  let? _ := try_each (λ name, ensure (upstream_is_configured cfg name) (UnknownUpstream name))
              (referenced route) in
  let? _ := check_retry (re_retry route) in
  let? _ := check_breaker (re_breaker route) in
  let? _ := check_mapping (re_reasoning_mapping route) in
  validate_pattern (re_model route).

Fixpoint validate_from_index (cfg : GatewayConfig) (i : nat) (l : list RouteEntry)
    : result unit (nat * RouteFault) :=
  match l with
  | [] => Ok tt
  | r :: l' =>
      match validate_route cfg r with
      | Err e => Err (i, e)
      | Ok _ => validate_from_index cfg (S i) l'
      end
  end.
Definition validate_routes (cfg : GatewayConfig) : result unit (nat * RouteFault) :=
  validate_from_index cfg 0 (routes cfg).

(** A route's upstreams as the validated configuration names them: the array
    form, or both halves of the singular form. *)
Lemma validate_route_upstreams cfg r :
  validate_route cfg r = Ok tt →
  (re_upstreams r ≠ [] ∧ re_upstream r = None ∧ re_upstream_model r = None) ∨
  (re_upstreams r = [] ∧ ∃ u m, re_upstream r = Some u ∧ re_upstream_model r = Some m).
Proof.
  unfold validate_route, check_shape. intros H.
  destruct (re_upstream r) as [u|], (re_upstream_model r) as [m|], (re_upstreams r) as [|x l];
    simpl in H; try discriminate; eauto 10.
Qed.
Lemma validate_from_index_forall cfg i l :
  validate_from_index cfg i l = Ok tt → Forall (λ r, validate_route cfg r = Ok tt) l.
Proof.
  revert i. induction l as [|r l IH]; intros i; simpl; [constructor|].
  destruct (validate_route cfg r) as [[]|e] eqn:Hr; [|done]. intros H. constructor; eauto.
Qed.
