(* ===== verification/Validation.v ===== *)
(** * Configuration validation (crates/config/src/validation.rs)

    The checks a configuration passes before the gateway starts or reloads;
    [validate_routes] is in [Config.v].  Errors are values of the source's
    enums; where the source formats a message into [InvalidRoute], the model
    keeps the rule that was broken ([ShapeFault]). *)
From S2P Require Import Prelude Float64 Json CoreTypes Request Breaker Retry Config.
#[local] Open Scope string_scope.
#[local] Open Scope list_scope.
#[local] Open Scope nat_scope.

(** ** Errors *)
Inductive HashFault := NotAHash | MalformedHash.
Inductive RateLimitFault :=
| BadRouteKey (key : string)
| NoSuchRoute (key : string)
| NoSuchUpstream (key : string)
| BadOverrideKey (key : string) (f : HashFault)
| ZeroRate (b : BucketConfigYaml)
| ZeroBurst (b : BucketConfigYaml)
| PerIpZeroRate
| PerIpZeroBurst.
Inductive AuthFault := RequiredNotEnabled | BadAuthKey (key : string) (f : HashFault).
Inductive UpstreamFault := EmptyApiKey | EmptyBaseUrl | BadScheme | ZeroTimeout | EmptyVersion.
#[export] Instance UpstreamFault_eq_dec : EqDecision UpstreamFault.
Proof. solve_decision. Defined.
Inductive ShapeFault :=
| SampleRatioOutOfRange
| FlushSecsTooLarge
| BadRoute (i : nat) (f : RouteFault)
| BadRateLimit (f : RateLimitFault)
| BadAuth (f : AuthFault).

Inductive ValidationError :=
| ZeroPort
| UnknownUpstream (name : string)
| DuplicateAlias (frontend model : string)
| UnknownFrontend (frontend : string)
| InvalidUpstream (name : string) (f : UpstreamFault)
| InvalidRoute (f : ShapeFault)
| PortCollision (admin server : Z) (bind : string)
| IncompleteCost (upstream : string)
| NegativeCost (upstream field : string)
| InvalidTier (upstream value : string)
| ImpossibleMinTier (route : string) (min_tier : Tier) (chain_tiers : list (string * Tier))
| UndeclaredPlugin (route plugin hook : string)
| ZeroTimeoutMs (plugin slot : string)
| DuplicatePluginName (name : string)
| UnknownUpstreamModel (route_id upstream model : string).

(** ** Routes and upstreams *)
Definition VALID_FRONTENDS : list string :=
  ["anthropic_messages"; "anthropic"; "openai_chat"; "openai"; "openai_responses"; "responses"].

Definition route_name (route : RouteEntry) : string := re_frontend route ++ "/" ++ re_model route.

(** The first loop of [validate], with the set [seen]. *)
Fixpoint check_routes (cfg : GatewayConfig) (seen : gset (string * string)) (l : list RouteEntry)
    : result unit ValidationError :=
  match l with
  | [] => Ok tt
  | route :: l' =>
      let? _ := ensure (bool_decide (re_frontend route ∈ VALID_FRONTENDS))
                  (UnknownFrontend (re_frontend route)) in
      let? _ := try_each (λ name, ensure (upstream_is_configured cfg name) (UnknownUpstream name))
                  (referenced route) in
      let key := (re_frontend route, re_model route) in
      let? _ := ensure (negb (bool_decide (key ∈ seen))) (DuplicateAlias key.1 key.2) in
      check_routes cfg ({[key]} ∪ seen) l'
  end.

Definition validate_oai_style_upstream (name : string) (h : HttpUpstream) : result unit ValidationError :=
  let? _ := ensure (negb (str_is_empty (api_key h))) (InvalidUpstream name EmptyApiKey) in
  let? _ := ensure (negb (str_is_empty (base_url h))) (InvalidUpstream name EmptyBaseUrl) in
  let? _ := ensure (starts_with (base_url h) "http://" || starts_with (base_url h) "https://")
              (InvalidUpstream name BadScheme) in
  ensure (negb (request_timeout_secs h =? 0)%Z) (InvalidUpstream name ZeroTimeout).

Definition check_upstream (p : string * UpstreamConfig) : result unit ValidationError :=
  let '(name, upstream) := p in
  match upstream with
  | Anthropic a version =>
      let? _ := validate_oai_style_upstream name a in
      ensure (negb (str_is_empty version)) (InvalidUpstream name EmptyVersion)
  | Deepseek h | Gemini h | Glm h => validate_oai_style_upstream name h
  | OpenAiCompatible _ | GithubCopilot _ => Ok tt
  end.

Definition check_cost (p : string * UpstreamConfig) : result unit ValidationError :=
  let '(name, upstream) := p in
  match upstream_cost upstream with
  | Some cost =>
      let? _ := ensure (negb (f64_lt (input_per_million_usd cost) f64_zero))
                  (NegativeCost name "input_per_million_usd") in
      ensure (negb (f64_lt (output_per_million_usd cost) f64_zero))
        (NegativeCost name "output_per_million_usd")
  | None => Ok tt
  end.

(** A name resolved to its block; [copilot] falls back to the first Copilot
    block. *)
Definition lookup_upstream (cfg : GatewayConfig) (n : string) : option UpstreamConfig :=
  match upstreams cfg !! n with
  | Some u => Some u
  | None =>
      if bool_decide (n = "copilot")
      then snd <$> List.find (λ p, match p.2 with GithubCopilot _ => true | _ => false end)
                     (entries (upstreams cfg))
      else None
  end.

Definition check_min_tier (cfg : GatewayConfig) (route : RouteEntry) : result unit ValidationError :=
  match re_min_tier route with
  | None => Ok tt
  | Some min_tier =>
      let chain_tiers := omap (λ n, (λ u, (n, upstream_tier u)) <$> lookup_upstream cfg n)
                           (referenced route) in
      if bool_decide (chain_tiers = []) then Ok tt else
      ensure (existsb (λ p, tier_rank min_tier <=? tier_rank p.2) chain_tiers)
        (ImpossibleMinTier (route_name route) min_tier chain_tiers)
  end.

(** ** Rate limits and authentication *)
Definition is_ascii_hexdigit (c : Ascii.ascii) : bool :=
  let n := Ascii.nat_of_ascii c in
  ((48 <=? n) && (n <=? 57)) || ((65 <=? n) && (n <=? 70)) || ((97 <=? n) && (n <=? 102)).

Definition check_sha256_key (key : string) : result unit HashFault :=
  match strip_prefix "sha256:" key with
  | None => Err NotAHash
  | Some hex =>
      ensure ((String.length hex =? 64) && all_chars is_ascii_hexdigit hex) MalformedHash
  end.

Definition slash : Ascii.ascii := Ascii.ascii_of_nat 47.

Definition check_route_key (cfg : GatewayConfig) (key : string) : result unit RateLimitFault :=
  match split_once slash key with
  | None => Err (BadRouteKey key)
  | Some (frontend, model) =>
      ensure (existsb (λ r, bool_decide (re_frontend r = frontend) && bool_decide (re_model r = model))
                (routes cfg)) (NoSuchRoute key)
  end.

Definition validate_bucket (b : BucketConfigYaml) : result unit RateLimitFault :=
  let? _ := ensure (negb (yaml_rate_per_sec b =? 0)%Z) (ZeroRate b) in
  ensure (negb (yaml_burst b =? 0)%Z) (ZeroBurst b).
Definition check_buckets (m : gmap string BucketConfigYaml) : result unit RateLimitFault :=
  try_each (λ p, validate_bucket p.2) (entries m).

Definition validate_rate_limit (cfg : GatewayConfig) : result unit RateLimitFault :=
  let rl := gw_rate_limit cfg in
  if negb (rl_enabled rl) then Ok tt else
  let per_key := rl_per_key rl in
  let? _ := try_each (check_route_key cfg) (keys (rl_per_route rl)) in
  let? _ := try_each (λ key, ensure (bool_decide (is_Some (upstreams cfg !! key))) (NoSuchUpstream key))
              (keys (rl_per_upstream rl)) in
  let? _ := try_each (λ key, map_err (BadOverrideKey key) (check_sha256_key key))
              (keys (pk_overrides per_key)) in
  let? _ := try_each validate_bucket (option_list (pk_default per_key)) in
  let? _ := try_each validate_bucket (option_list (pk_anonymous per_key)) in
  let? _ := check_buckets (pk_overrides per_key) in
  let? _ := check_buckets (rl_per_route rl) in
  let? _ := check_buckets (rl_per_upstream rl) in
  if ip_enabled (rl_per_ip rl) then
    let? _ := ensure (negb (ip_rate_per_sec (rl_per_ip rl) =? 0)%Z) PerIpZeroRate in
    ensure (negb (ip_burst (rl_per_ip rl) =? 0)%Z) PerIpZeroBurst
  else Ok tt.

Definition validate_auth (cfg : GatewayConfig) : result unit AuthFault :=
  let auth := gw_auth cfg in
  let? _ := ensure (negb (auth_required auth && negb (auth_enabled auth))) RequiredNotEnabled in
  try_each (λ key, map_err (BadAuthKey key) (check_sha256_key key)) (keys (auth_keys auth)).

(** ** Plugins *)
Fixpoint check_duplicates (seen : gset string) (l : list string) : result unit ValidationError :=
  match l with
  | [] => Ok tt
  | name :: l' =>
      let? _ := ensure (negb (bool_decide (name ∈ seen))) (DuplicatePluginName name) in
      check_duplicates ({[name]} ∪ seen) l'
  end.

(** The populated slots of a timeout section. *)
Definition timeout_slots (t : TimeoutMs) : list (string * option Z) :=
  match t with
  | Uniform ms => [("uniform", Some ms)]
  | PerHook dflt on_decoded_request on_resolved on_stream_event on_response_complete =>
      [("default", dflt); ("on_decoded_request", on_decoded_request); ("on_resolved", on_resolved);
       ("on_stream_event", on_stream_event); ("on_response_complete", on_response_complete)]
  end.
Definition check_timeouts (p : string * PluginEntry) : result unit ValidationError :=
  match timeout_ms p.2 with
  | Some t => try_each (λ slot, ensure (negb (bool_decide (slot.2 = Some 0%Z))) (ZeroTimeoutMs p.1 slot.1))
                (timeout_slots t)
  | None => Ok tt
  end.

Definition check_references (cfg : GatewayConfig) (route : RouteEntry) : result unit ValidationError :=
  match re_plugins route with
  | None => Ok tt
  | Some block =>
      try_each (λ ref, ensure (bool_decide (is_Some (gw_plugins cfg !! ref.2)))
                         (UndeclaredPlugin (route_name route) ref.2 ref.1)) (iter_references block)
  end.

Definition validate_plugins (cfg : GatewayConfig) : result unit ValidationError :=
  let? _ := check_duplicates ∅ (keys (gw_plugins cfg)) in
  let? _ := try_each check_timeouts (entries (gw_plugins cfg)) in
  try_each (check_references cfg) (routes cfg).

(** ** The whole check *)
Definition check_listeners (cfg : GatewayConfig) : result unit ValidationError :=
  let server := gw_server cfg in
  let? _ := ensure (negb (server_port server =? 0)%Z) ZeroPort in
  let? _ := match gw_admin cfg with
            | Some admin =>
                let? _ := ensure (negb (admin_port admin =? 0)%Z) ZeroPort in
                ensure (negb ((admin_port admin =? server_port server)%Z &&
                              bool_decide (admin_bind admin = server_bind server)))
                  (PortCollision (admin_port admin) (server_port server) (admin_bind admin))
            | None => Ok tt
            end in
  let? _ := match gw_otel cfg with
            | Some otel =>
                ensure (f64_le f64_zero (sample_ratio otel) && f64_le (sample_ratio otel) f64_one)
                  (InvalidRoute SampleRatioOutOfRange)
            | None => Ok tt
            end in
  ensure (negb (300 <? plugin_flush_secs (gw_shutdown cfg))%Z) (InvalidRoute FlushSecsTooLarge).

Definition validate (cfg : GatewayConfig) : result unit ValidationError :=
  let? _ := check_listeners cfg in
  let? _ := check_routes cfg ∅ (routes cfg) in
  let? _ := try_each check_upstream (entries (upstreams cfg)) in
  let? _ := map_err (λ p, InvalidRoute (BadRoute p.1 p.2)) (validate_routes cfg) in
  let? _ := map_err (λ f, InvalidRoute (BadRateLimit f)) (validate_rate_limit cfg) in
  let? _ := map_err (λ f, InvalidRoute (BadAuth f)) (validate_auth cfg) in
  let? _ := try_each check_cost (entries (upstreams cfg)) in
  let? _ := try_each (check_min_tier cfg) (routes cfg) in
  validate_plugins cfg.

(** ** Reload *)
Record ReloadBaseline := {
  base_upstream_names : gset string;
  base_server : ServerConfig;
  base_admin : option AdminConfig;
  base_otel_endpoint : option string;
}.
Record ReloadDiff := {
  routes_total : nat; routes_added : nat; routes_removed : nat; routes_modified : nat;
  policies_changed : list string; auth_keys_added : nat; auth_keys_removed : nat;
  warnings : list string;
}.
(** The added and removed names as sets; the formatted values of an immutable
    field are left out. *)
Inductive ReloadValidationError :=
| UpstreamSetChanged (added removed : gset string)
| ImmutableFieldChanged (field : string)
| StartupError (e : ValidationError).

Definition check_immutable (candidate : GatewayConfig) (baseline : ReloadBaseline)
    : result unit ReloadValidationError :=
  let server := gw_server candidate in
  let? _ := ensure (bool_decide (server_bind server = server_bind (base_server baseline)))
              (ImmutableFieldChanged "server.bind") in
  let? _ := ensure (server_port server =? server_port (base_server baseline))%Z
              (ImmutableFieldChanged "server.port") in
  let? _ := match base_admin baseline, gw_admin candidate with
            | Some b, Some c =>
                let? _ := ensure (bool_decide (admin_bind b = admin_bind c))
                            (ImmutableFieldChanged "admin.bind") in
                ensure (admin_port b =? admin_port c)%Z (ImmutableFieldChanged "admin.port")
            | None, Some _ | Some _, None => Err (ImmutableFieldChanged "admin")
            | None, None => Ok tt
            end in
  ensure (bool_decide ((gw_otel candidate ≫= endpoint) = base_otel_endpoint baseline))
    (ImmutableFieldChanged "otel.endpoint").

Definition validate_for_reload (candidate : GatewayConfig) (baseline : ReloadBaseline)
    : result ReloadDiff ReloadValidationError :=
  let? _ := check_immutable candidate baseline in
  let candidate_names : gset string := dom (upstreams candidate) in
  let added := candidate_names ∖ base_upstream_names baseline in
  let removed := base_upstream_names baseline ∖ candidate_names in
  let? _ := ensure (bool_decide (added = ∅) && bool_decide (removed = ∅))
              (UpstreamSetChanged added removed) in
  let? _ := map_err StartupError (validate candidate) in
  Ok {| routes_total := length (routes candidate); routes_added := 0; routes_removed := 0;
        routes_modified := 0; policies_changed := []; auth_keys_added := 0; auth_keys_removed := 0;
        warnings := [] |}.

(** ** The catalog check *)
Definition model_pairs (entry : RouteEntry) : list (string * string) :=
  if bool_decide (re_upstreams entry = []) then
    match re_upstream entry, re_upstream_model entry with
    | Some u, Some m => if bool_decide (m = "*") then [] else [(u, m)]
    | _, _ => []
    end
  else (λ u, (ref_name u, ref_model u)) <$>
         filter (λ u, ref_model u ≠ "*") (re_upstreams entry).

Definition validate_with_index (cfg : GatewayConfig) (discovered : list (string * list string))
    : result unit ValidationError :=
  if negb (strict_upstream_models (gw_validation cfg)) then Ok tt else
  try_each (λ entry,
    try_each (λ p,
      ensure (existsb (λ d, bool_decide (d.1 = p.1) && bool_decide (p.2 ∈ d.2)) discovered)
        (UnknownUpstreamModel (route_name entry) p.1 p.2)) (model_pairs entry)) (routes cfg).

(** ** What the checks mean *)
Section Spec.
Implicit Types (cfg : GatewayConfig) (r : RouteEntry).

Lemma configured_lookup cfg n : upstream_is_configured cfg n = true ↔ is_Some (lookup_upstream cfg n).
Proof.
  unfold upstream_is_configured, lookup_upstream.
  destruct (upstreams cfg !! n) as [u|]; simpl; [by split; eauto|].
  destruct (decide (n = "copilot")) as [Hn|Hn];
    [rewrite !bool_decide_eq_true_2 by done|rewrite !bool_decide_eq_false_2 by done; simpl];
    [|by split; [|intros []]]. simpl.
  set (f := λ p : string * UpstreamConfig, match p.2 with GithubCopilot _ => true | _ => false end).
  assert (Hp : existsb f (map_to_list (upstreams cfg)) = true ↔ ∃ p, p ∈ entries (upstreams cfg) ∧ f p = true).
  { rewrite existsb_exists. split; intros ([k u] & Hin & Hf); exists (k, u); (split; [|done]).
    - apply list_elem_of_In in Hin. by apply elem_of_entries, elem_of_map_to_list.
    - apply list_elem_of_In. by apply elem_of_map_to_list, elem_of_entries. }
  rewrite Hp. destruct (List.find f (entries (upstreams cfg))) as [p|] eqn:Hf; simpl.
  - apply find_some in Hf as [Hin Hf]. split; [eauto|]. intros _. exists p. by rewrite list_elem_of_In.
  - split; [|by intros []]. intros (p & Hin & Hfp). rewrite list_elem_of_In in Hin.
    by rewrite (find_none _ _ Hf p Hin) in Hfp.
Qed.

(** A route the router can serve. *)
Record route_ok cfg r : Prop := {
  ro_shape :
    (re_upstreams r ≠ [] ∧ re_upstream r = None ∧ re_upstream_model r = None) ∨
    (re_upstreams r = [] ∧ is_Some (re_upstream r) ∧ is_Some (re_upstream_model r));
  ro_upstreams : ∀ n, n ∈ referenced r → is_Some (lookup_upstream cfg n);
  ro_retry : valid_retry (retry_policy_from (re_retry r)) = true;
  ro_breaker : (1 ≤ cfg_failure_threshold_pct (re_breaker r) ≤ 100)%Z ∧
               cfg_min_requests (re_breaker r) ≠ 0%Z;
  ro_mapping : ∀ rule, rule ∈ re_reasoning_mapping r →
    is_Some (parse_effort (match_str rule)) ∧ is_Some (parse_effort (set_str rule));
  ro_pattern : re_model r = "*" ∨ count_char star (re_model r) = 0 ∨
    ∃ p, p ≠ "" ∧ count_char star p = 0 ∧ re_model r = (p ++ "*")%string;
}.

(** What each fault of a route says. *)
Definition route_fault cfg r (f : RouteFault) : Prop :=
  match f with
  | BothForms => re_upstreams r ≠ [] ∧ (is_Some (re_upstream r) ∨ is_Some (re_upstream_model r))
  | NoUpstream => re_upstreams r = [] ∧ re_upstream r = None ∧ re_upstream_model r = None
  | SingularIncomplete =>
      re_upstreams r = [] ∧ (re_upstream r = None ∧ is_Some (re_upstream_model r) ∨
                             is_Some (re_upstream r) ∧ re_upstream_model r = None)
  | Config.UnknownUpstream n => n ∈ referenced r ∧ lookup_upstream cfg n = None
  | MaxAttemptsZero => cfg_max_attempts (re_retry r) = 0%Z
  | BudgetBelowBackoff => (cfg_total_budget_ms (re_retry r) < cfg_initial_backoff_ms (re_retry r))%Z
  | BadMultiplier => is_finite (cfg_multiplier (re_retry r)) = false ∨
                     f64_le (cfg_multiplier (re_retry r)) f64_one = true
  | BadJitter => is_finite (cfg_jitter_pct (re_retry r)) = false ∨
                 f64_lt (cfg_jitter_pct (re_retry r)) f64_zero = true ∨
                 f64_lt (f64_of_Z 100) (cfg_jitter_pct (re_retry r)) = true
  | BadThreshold => ¬ (1 ≤ cfg_failure_threshold_pct (re_breaker r) ≤ 100)%Z
  | MinRequestsZero => cfg_min_requests (re_breaker r) = 0%Z
  | UnknownMatchEffort i => ∃ rule, re_reasoning_mapping r !! i = Some rule ∧ parse_effort (match_str rule) = None
  | UnknownSetEffort i => ∃ rule, re_reasoning_mapping r !! i = Some rule ∧ parse_effort (set_str rule) = None
  | BadPattern => re_model r ≠ "*" ∧ count_char star (re_model r) ≠ 0 ∧
                  ∀ p, p ≠ "" → count_char star p = 0 → re_model r ≠ (p ++ "*")%string
  end.

Lemma validate_pattern_ok m :
  validate_pattern m = Ok tt ↔
  m = "*" ∨ count_char star m = 0 ∨ ∃ p, p ≠ "" ∧ count_char star p = 0 ∧ m = (p ++ "*")%string.
Proof.
  unfold validate_pattern. case_bool_decide as Hm; [by split; [left|]|].
  rewrite ensure_ok, orb_true_iff, !andb_true_iff, !Nat.eqb_eq, bool_decide_eq_true, Nat.ltb_lt.
  split.
  - intros [?|[[H1 [p Hp%strip_last_spec]] Hl]]; [auto|]. right; right. exists p. subst m.
    rewrite count_char_app in H1. simpl in H1. split_and!; [|lia|done].
    intros ->. simpl in Hl. lia.
  - intros [?|[?|(p & Hp & H0 & ->)]]; [done|auto|]. right. rewrite count_char_app, H0.
    split_and!; [done|exists p; by apply strip_last_spec|].
    destruct p as [|c p]; [done|]. change (String c p ++ "*")%string with (String c (p ++ "*")).
    simpl. destruct p; simpl; lia.
Qed.

Lemma check_shape_spec r :
  match check_shape r with
  | Ok _ => (re_upstreams r ≠ [] ∧ re_upstream r = None ∧ re_upstream_model r = None) ∨
            (re_upstreams r = [] ∧ is_Some (re_upstream r) ∧ is_Some (re_upstream_model r))
  | Err f => ∀ cfg, route_fault cfg r f
  end.
Proof.
  unfold check_shape, route_fault.
  destruct (re_upstream r), (re_upstream_model r), (re_upstreams r); simpl; naive_solver.
Qed.
Lemma check_retry_spec cfg r :
  match check_retry (re_retry r) with
  | Ok _ => valid_retry (retry_policy_from (re_retry r)) = true
  | Err f => route_fault cfg r f
  end.
Proof.
  unfold check_retry, valid_retry, route_fault.
  generalize f64_one f64_zero (f64_of_Z 100). intros one zero hundred. simpl.
  set (x := re_retry r). clearbody x.
  destruct (Z.eqb_spec (cfg_max_attempts x) 0); [done|]. simpl.
  destruct (Z.ltb_spec (cfg_total_budget_ms x) (cfg_initial_backoff_ms x)); [done|]. simpl.
  destruct (is_finite (cfg_multiplier x)), (f64_le (cfg_multiplier x) one); simpl; auto.
  destruct (is_finite (cfg_jitter_pct x)), (f64_lt (cfg_jitter_pct x) zero),
    (f64_lt hundred (cfg_jitter_pct x)); simpl; auto.
Qed.
Lemma check_breaker_spec cfg r :
  match check_breaker (re_breaker r) with
  | Ok _ => (1 ≤ cfg_failure_threshold_pct (re_breaker r) ≤ 100)%Z ∧ cfg_min_requests (re_breaker r) ≠ 0%Z
  | Err f => route_fault cfg r f
  end.
Proof.
  unfold check_breaker, route_fault.
  destruct (Z.leb_spec 1 (cfg_failure_threshold_pct (re_breaker r))), 
    (Z.leb_spec (cfg_failure_threshold_pct (re_breaker r)) 100); simpl; try lia.
  destruct (Z.eqb_spec (cfg_min_requests (re_breaker r)) 0); simpl; [done|]. lia.
Qed.
Lemma check_mapping_spec cfg r :
  match check_mapping (re_reasoning_mapping r) with
  | Ok _ => ∀ rule, rule ∈ re_reasoning_mapping r →
      is_Some (parse_effort (match_str rule)) ∧ is_Some (parse_effort (set_str rule))
  | Err f => route_fault cfg r f
  end.
Proof.
  unfold check_mapping. case_match eqn:Hm.
  - intros rule [j Hj]%list_elem_of_lookup. destruct a. rewrite first_fault_ok in Hm.
    specialize (Hm j rule Hj). simpl in Hm. repeat case_bool_decide; try done.
    by rewrite <- !not_eq_None_Some.
  - apply first_fault_err in Hm as (j & rule & Hj & Hf). simpl in Hf.
    repeat case_bool_decide; simplify_eq; simpl; eauto.
Qed.

Lemma validate_route_spec cfg r :
  match validate_route cfg r with Ok _ => route_ok cfg r | Err f => route_fault cfg r f end.
Proof.
  unfold validate_route.
  pose proof (check_shape_spec r) as Hs. destruct (check_shape r) as [[]|f]; [|done].
  destruct (try_each _ (referenced r)) as [[]|f] eqn:Hu.
  2: { apply try_each_err in Hu as (n & Hn & [Hc <-]%ensure_err). split; [done|].
       apply eq_None_not_Some. rewrite <- configured_lookup. congruence. }
  pose proof (check_retry_spec cfg r) as Hr. destruct (check_retry _) as [[]|f]; [|done].
  pose proof (check_breaker_spec cfg r) as Hb. destruct (check_breaker _) as [[]|f]; [|done].
  pose proof (check_mapping_spec cfg r) as Hm. destruct (check_mapping _) as [[]|f]; [|done].
  destruct (validate_pattern (re_model r)) as [[]|f] eqn:Hp.
  - split; try done; [|by apply validate_pattern_ok]. rewrite try_each_ok in Hu. intros n Hn.
    by apply configured_lookup, (ensure_ok _ (Config.UnknownUpstream n)), Hu.
  - assert (Hno : ¬ (re_model r = "*" ∨ count_char star (re_model r) = 0 ∨
      ∃ p, p ≠ "" ∧ count_char star p = 0 ∧ re_model r = (p ++ "*")%string))
      by (rewrite <- validate_pattern_ok; congruence).
    assert (f = BadPattern) as ->.
    { unfold validate_pattern in Hp. case_bool_decide; [done|]. by apply ensure_err in Hp as [_ <-]. }
    simpl. split_and!; [tauto|tauto|]. intros p H1 H2 H3. apply Hno. eauto 10.
Qed.

(** ** Upstreams *)
Definition upstream_fault (u : UpstreamConfig) (f : UpstreamFault) : Prop :=
  match u with
  | Anthropic h v =>
      match f with
      | EmptyApiKey => api_key h = "" | EmptyBaseUrl => base_url h = ""
      | BadScheme => starts_with (base_url h) "http://" = false ∧ starts_with (base_url h) "https://" = false
      | ZeroTimeout => request_timeout_secs h = 0%Z | EmptyVersion => v = ""
      end
  | Deepseek h | Gemini h | Glm h =>
      match f with
      | EmptyApiKey => api_key h = "" | EmptyBaseUrl => base_url h = ""
      | BadScheme => starts_with (base_url h) "http://" = false ∧ starts_with (base_url h) "https://" = false
      | ZeroTimeout => request_timeout_secs h = 0%Z | EmptyVersion => False
      end
  | OpenAiCompatible _ | GithubCopilot _ => False
  end.

Lemma not_empty_false s : negb (str_is_empty s) = false → s = "".
Proof. intros ?%negb_false_iff. by apply str_is_empty_spec. Qed.

Lemma oai_style_spec name h :
  match validate_oai_style_upstream name h with
  | Ok _ => ∀ f, f ≠ EmptyVersion → ¬ upstream_fault (Deepseek h) f
  | Err e => ∃ f, e = InvalidUpstream name f ∧ f ≠ EmptyVersion ∧ upstream_fault (Deepseek h) f
  end.
Proof.
  unfold validate_oai_style_upstream.
  destruct (str_is_empty (api_key h)) eqn:Ha; simpl.
  { exists EmptyApiKey. by apply str_is_empty_spec in Ha. }
  destruct (str_is_empty (base_url h)) eqn:Hb; simpl.
  { exists EmptyBaseUrl. by apply str_is_empty_spec in Hb. }
  destruct (starts_with (base_url h) "http://" || starts_with (base_url h) "https://") eqn:Hs; simpl.
  2: { exists BadScheme. by apply orb_false_iff in Hs. }
  destruct (Z.eqb_spec (request_timeout_secs h) 0); simpl; [by exists ZeroTimeout|].
  intros [] ?; simpl; try done; [intros Heq; by rewrite Heq in Ha|intros Heq; by rewrite Heq in Hb|].
  intros [H1 H2]. by rewrite H1, H2 in Hs.
Qed.

Lemma check_upstream_spec n u :
  match check_upstream (n, u) with
  | Ok _ => ∀ f, ¬ upstream_fault u f
  | Err e => ∃ f, e = InvalidUpstream n f ∧ upstream_fault u f
  end.
Proof.
  assert (Hplain : ∀ h, match validate_oai_style_upstream n h with
    | Ok _ => ∀ f, ¬ upstream_fault (Deepseek h) f
    | Err e => ∃ f, e = InvalidUpstream n f ∧ upstream_fault (Deepseek h) f end).
  { intros h. pose proof (oai_style_spec n h) as H. destruct (validate_oai_style_upstream n h); [|naive_solver].
    intros f. destruct (decide (f = EmptyVersion)) as [->|]; [intros []|auto]. }
  destruct u as [h|c|h v|h|h|h]; [simpl; by intros ? []|simpl; by intros ? []| |apply Hplain..].
  unfold check_upstream.
  pose proof (oai_style_spec n h) as H. destruct (validate_oai_style_upstream n h) as [[]|e].
  - destruct (str_is_empty v) eqn:Hv; simpl.
    + exists EmptyVersion. by apply str_is_empty_spec in Hv.
    + intros f Hf. destruct (decide (f = EmptyVersion)) as [->|Hne].
      * simpl in Hf. by rewrite Hf in Hv.
      * apply (H f Hne). by destruct f.
  - destruct H as (f & -> & Hne & Hf). exists f. split; [done|]. by destruct f.
Qed.

(** ** Keys and buckets *)
(** [sha256:] and 64 hexadecimal digits. *)
Definition is_hash (key : string) : Prop :=
  ∃ hex, key = ("sha256:" ++ hex)%string ∧ String.length hex = 64 ∧ all_chars is_ascii_hexdigit hex = true.

Lemma check_sha256_key_spec key :
  match check_sha256_key key with Ok _ => is_hash key | Err _ => ¬ is_hash key end.
Proof.
  unfold check_sha256_key, is_hash. destruct (strip_prefix "sha256:" key) as [hex|] eqn:Hp.
  - apply strip_prefix_spec in Hp as ->.
    destruct ((String.length hex =? 64) && all_chars is_ascii_hexdigit hex) eqn:Hh; simpl.
    + apply andb_true_iff in Hh as [?%Nat.eqb_eq ?]. eauto.
    + intros (hex' & Heq & Hl & Ha). assert (Hhex : Some hex = Some hex').
      { rewrite <- (proj2 (strip_prefix_spec "sha256:" _ hex) eq_refl). by apply strip_prefix_spec. }
      injection Hhex as ->. by rewrite Hl, Ha in Hh.
  - intros (hex & Heq & _). apply strip_prefix_spec in Heq. congruence.
Qed.

Definition positive_bucket (b : BucketConfigYaml) : Prop := yaml_rate_per_sec b ≠ 0%Z ∧ yaml_burst b ≠ 0%Z.

Lemma validate_bucket_spec b :
  match validate_bucket b with
  | Ok _ => positive_bucket b
  | Err f => f = ZeroRate b ∧ yaml_rate_per_sec b = 0%Z ∨ f = ZeroBurst b ∧ yaml_burst b = 0%Z
  end.
Proof.
  unfold validate_bucket, positive_bucket.
  destruct (Z.eqb_spec (yaml_rate_per_sec b) 0); simpl; [by left|].
  destruct (Z.eqb_spec (yaml_burst b) 0); simpl; [by right|]. done.
Qed.

(** The buckets of the map sections and the optional ones. *)
Definition yaml_buckets cfg (b : BucketConfigYaml) : Prop :=
  let rl := gw_rate_limit cfg in
  pk_default (rl_per_key rl) = Some b ∨ pk_anonymous (rl_per_key rl) = Some b ∨
  (∃ k, pk_overrides (rl_per_key rl) !! k = Some b) ∨ (∃ k, rl_per_route rl !! k = Some b) ∨
  (∃ k, rl_per_upstream rl !! k = Some b).

Record rate_limit_ok cfg : Prop := {
  rl_routes : ∀ k, is_Some (rl_per_route (gw_rate_limit cfg) !! k) →
    ∃ r, r ∈ routes cfg ∧ k = route_name r ∧ count_char slash (re_frontend r) = 0;
  rl_upstreams : ∀ k, is_Some (rl_per_upstream (gw_rate_limit cfg) !! k) → is_Some (upstreams cfg !! k);
  rl_overrides : ∀ k, is_Some (pk_overrides (rl_per_key (gw_rate_limit cfg)) !! k) → is_hash k;
  rl_buckets : ∀ b, yaml_buckets cfg b → positive_bucket b;
  rl_ip : ip_enabled (rl_per_ip (gw_rate_limit cfg)) = true →
    ip_rate_per_sec (rl_per_ip (gw_rate_limit cfg)) ≠ 0%Z ∧ ip_burst (rl_per_ip (gw_rate_limit cfg)) ≠ 0%Z;
}.
Definition rate_limit_fault cfg (f : RateLimitFault) : Prop :=
  let rl := gw_rate_limit cfg in
  match f with
  | BadRouteKey k => is_Some (rl_per_route rl !! k) ∧ count_char slash k = 0
  | NoSuchRoute k => is_Some (rl_per_route rl !! k) ∧
      ∀ r, r ∈ routes cfg → count_char slash (re_frontend r) = 0 → k ≠ route_name r
  | NoSuchUpstream k => is_Some (rl_per_upstream rl !! k) ∧ upstreams cfg !! k = None
  | BadOverrideKey k _ => is_Some (pk_overrides (rl_per_key rl) !! k) ∧ ¬ is_hash k
  | ZeroRate b => yaml_buckets cfg b ∧ yaml_rate_per_sec b = 0%Z
  | ZeroBurst b => yaml_buckets cfg b ∧ yaml_burst b = 0%Z
  | PerIpZeroRate => ip_enabled (rl_per_ip rl) = true ∧ ip_rate_per_sec (rl_per_ip rl) = 0%Z
  | PerIpZeroBurst => ip_enabled (rl_per_ip rl) = true ∧ ip_burst (rl_per_ip rl) = 0%Z
  end.

Lemma check_route_key_spec cfg k :
  match check_route_key cfg k with
  | Ok _ => ∃ r, r ∈ routes cfg ∧ k = route_name r ∧ count_char slash (re_frontend r) = 0
  | Err f => f = BadRouteKey k ∧ count_char slash k = 0 ∨
      f = NoSuchRoute k ∧ ∀ r, r ∈ routes cfg → count_char slash (re_frontend r) = 0 → k ≠ route_name r
  end.
Proof.
  unfold check_route_key. destruct (split_once slash k) as [[f m]|] eqn:Hs.
  2: { left. by apply split_once_none in Hs. }
  apply split_once_some in Hs as [-> H0].
  destruct (existsb _ _) eqn:He; simpl.
  - apply existsb_exists in He as (r & Hin%list_elem_of_In & [Hf Hm]%andb_true_iff).
    apply bool_decide_eq_true in Hf as <-. apply bool_decide_eq_true in Hm as <-. exists r. done.
  - right. split; [done|]. intros r Hin Hr Heq.
    assert (Hsp : split_once slash (f ++ String slash m)%string = Some (re_frontend r, re_model r))
      by (by apply split_once_some).
    rewrite (proj2 (split_once_some slash _ f m) (conj eq_refl H0)) in Hsp. injection Hsp as -> ->.
    assert (Htrue : existsb (λ r', bool_decide (re_frontend r' = re_frontend r) &&
      bool_decide (re_model r' = re_model r)) (routes cfg) = true); [|congruence].
    apply existsb_exists. exists r. rewrite list_elem_of_In in Hin. by rewrite !bool_decide_eq_true_2.
Qed.

Lemma check_buckets_spec m :
  match check_buckets m with
  | Ok _ => ∀ k b, m !! k = Some b → positive_bucket b
  | Err f => ∃ k b, m !! k = Some b ∧
      (f = ZeroRate b ∧ yaml_rate_per_sec b = 0%Z ∨ f = ZeroBurst b ∧ yaml_burst b = 0%Z)
  end.
Proof.
  unfold check_buckets. destruct (try_each _ _) as [[]|f] eqn:H.
  - intros k b Hk%elem_of_entries. rewrite try_each_ok in H. specialize (H _ Hk). simpl in H.
    pose proof (validate_bucket_spec b) as Hb. by rewrite H in Hb.
  - apply try_each_err in H as ([k b] & Hk%elem_of_entries & Hf). simpl in Hf.
    pose proof (validate_bucket_spec b) as Hb. rewrite Hf in Hb. eauto.
Qed.
Lemma check_optional_bucket_spec o :
  match try_each validate_bucket (option_list o) with
  | Ok _ => ∀ b, o = Some b → positive_bucket b
  | Err f => ∃ b, o = Some b ∧
      (f = ZeroRate b ∧ yaml_rate_per_sec b = 0%Z ∨ f = ZeroBurst b ∧ yaml_burst b = 0%Z)
  end.
Proof.
  destruct o as [b|]; simpl; [|done]. pose proof (validate_bucket_spec b) as Hb.
  destruct (validate_bucket b) as [[]|f]; [by intros ? [= <-]|eauto].
Qed.

Lemma validate_rate_limit_spec cfg :
  match validate_rate_limit cfg with
  | Ok _ => rl_enabled (gw_rate_limit cfg) = true → rate_limit_ok cfg
  | Err f => rl_enabled (gw_rate_limit cfg) = true ∧ rate_limit_fault cfg f
  end.
Proof.
  unfold validate_rate_limit, rate_limit_fault.
  destruct (rl_enabled (gw_rate_limit cfg)); simpl; [|done].
  set (rl := gw_rate_limit cfg).
  destruct (try_each (check_route_key cfg) _) as [[]|f] eqn:H1.
  2: { apply try_each_err in H1 as (k & Hk%elem_of_keys & Hf).
       pose proof (check_route_key_spec cfg k) as Hs. rewrite Hf in Hs. split; [done|].
       by destruct Hs as [[-> ?]|[-> ?]]. }
  rewrite try_each_ok in H1.
  destruct (try_each _ (keys (rl_per_upstream rl))) as [[]|f] eqn:H2.
  2: { apply try_each_err in H2 as (k & Hk%elem_of_keys & [Hf <-]%ensure_err). split; [done|].
       split; [done|]. by apply bool_decide_eq_false, eq_None_not_Some in Hf. }
  rewrite try_each_ok in H2.
  destruct (try_each _ (keys (pk_overrides _))) as [[]|f] eqn:H3.
  2: { apply try_each_err in H3 as (k & Hk%elem_of_keys & (e & He & <-)%map_err_err). split; [done|].
       split; [done|]. pose proof (check_sha256_key_spec k) as Hs. by rewrite He in Hs. }
  rewrite try_each_ok in H3.
  pose proof (check_optional_bucket_spec (pk_default (rl_per_key rl))) as H4.
  destruct (try_each validate_bucket (option_list (pk_default _))) as [[]|f].
  2: { destruct H4 as (b & Hb & [[-> ?]|[-> ?]]); unfold yaml_buckets; eauto 10. }
  pose proof (check_optional_bucket_spec (pk_anonymous (rl_per_key rl))) as H5.
  destruct (try_each validate_bucket (option_list (pk_anonymous _))) as [[]|f].
  2: { destruct H5 as (b & Hb & [[-> ?]|[-> ?]]); unfold yaml_buckets; eauto 10. }
  pose proof (check_buckets_spec (pk_overrides (rl_per_key rl))) as H6.
  destruct (check_buckets (pk_overrides _)) as [[]|f].
  2: { destruct H6 as (k & b & Hb & [[-> ?]|[-> ?]]); unfold yaml_buckets; eauto 10. }
  pose proof (check_buckets_spec (rl_per_route rl)) as H7.
  destruct (check_buckets (rl_per_route _)) as [[]|f].
  2: { destruct H7 as (k & b & Hb & [[-> ?]|[-> ?]]); unfold yaml_buckets; eauto 10. }
  pose proof (check_buckets_spec (rl_per_upstream rl)) as H8.
  destruct (check_buckets (rl_per_upstream _)) as [[]|f].
  2: { destruct H8 as (k & b & Hb & [[-> ?]|[-> ?]]); unfold yaml_buckets; eauto 10. }
  assert (Hok : (ip_enabled (rl_per_ip rl) = true →
      ip_rate_per_sec (rl_per_ip rl) ≠ 0%Z ∧ ip_burst (rl_per_ip rl) ≠ 0%Z) → rate_limit_ok cfg).
  { intros Hip. split; try done.
    - intros k Hk%elem_of_keys%H1. pose proof (check_route_key_spec cfg k) as Hs. by rewrite Hk in Hs.
    - intros k Hk%elem_of_keys%H2. apply ensure_ok in Hk. by apply bool_decide_eq_true in Hk.
    - intros k Hk%elem_of_keys%H3. apply map_err_ok in Hk.
      pose proof (check_sha256_key_spec k) as Hs. by rewrite Hk in Hs.
    - intros b [?|[?|[[k ?]|[[k ?]|[k ?]]]]]; eauto. }
  destruct (ip_enabled (rl_per_ip rl)) eqn:Hen; [|intros _; by apply Hok].
  destruct (Z.eqb_spec (ip_rate_per_sec (rl_per_ip rl)) 0); simpl; [done|].
  destruct (Z.eqb_spec (ip_burst (rl_per_ip rl)) 0); simpl; [done|]. intros _. by apply Hok.
Qed.

(** ** Routes *)
Definition alias r : string * string := (re_frontend r, re_model r).

Lemma check_routes_spec cfg seen l :
  match check_routes cfg seen l with
  | Ok _ => (∀ r, r ∈ l → re_frontend r ∈ VALID_FRONTENDS) ∧ NoDup (alias <$> l) ∧
            (∀ r, r ∈ l → alias r ∉ seen)
  | Err (UnknownFrontend f) => ∃ r, r ∈ l ∧ re_frontend r = f ∧ f ∉ VALID_FRONTENDS
  | Err (UnknownUpstream n) => ∃ r, r ∈ l ∧ n ∈ referenced r ∧ lookup_upstream cfg n = None
  | Err (DuplicateAlias f m) =>
      ∃ j r, l !! j = Some r ∧ alias r = (f, m) ∧
        ((f, m) ∈ seen ∨ ∃ i r', i < j ∧ l !! i = Some r' ∧ alias r' = (f, m))
  | Err _ => False
  end.
Proof.
  revert seen. induction l as [|r l IH]; intros seen; simpl.
  { split; [|split; [constructor|]]; intros ? []%not_elem_of_nil. }
  case_bool_decide as Hf; [|exists r; by split; [left|]].
  cbn [ensure]. destruct (try_each _ (referenced r)) as [[]|e] eqn:Hu.
  2: { apply try_each_err in Hu as (n & Hn & [Hc <-]%ensure_err). exists r. split; [by left|].
       split; [done|]. apply eq_None_not_Some. rewrite <- configured_lookup. congruence. }
  case_bool_decide as Hs; cbn [negb ensure].
  { exists 0, r. split_and!; [done..|by left]. }
  specialize (IH ({[(re_frontend r, re_model r)]} ∪ seen)).
  destruct (check_routes cfg _ l) as [[]|e].
  - destruct IH as (IH1 & IH2 & IH3). split_and!.
    + intros r' [->|?]%elem_of_cons; auto.
    + csimpl. constructor; [|done]. intros (r' & Heq & Hin)%list_elem_of_fmap.
      apply (IH3 r' Hin), elem_of_union_l, elem_of_singleton. exact (eq_sym Heq).
    + intros r' [->|Hin]%elem_of_cons; [done|].
      intros Hs'. by apply (IH3 r' Hin), elem_of_union_r.
  - destruct e; try done.
    + destruct IH as (r' & ? & ?). exists r'. split; [by right|done].
    + destruct IH as (j & r' & Hj & Ha & Hcase). exists (S j), r'. split_and!; [done..|].
      destruct Hcase as [[Hx|Hx]%elem_of_union|(i & r2 & Hi & Hl & Ha2)]; [|by left|].
      * apply elem_of_singleton in Hx. right. exists 0, r. split_and!; [lia|done|]. unfold alias. done.
      * right. exists (S i), r2. split_and!; [lia|done..].
    + destruct IH as (r' & ? & ?). exists r'. split; [by right|done].
Qed.

Lemma validate_routes_spec cfg :
  match validate_routes cfg with
  | Ok _ => ∀ r, r ∈ routes cfg → route_ok cfg r
  | Err (i, f) => ∃ r, routes cfg !! i = Some r ∧ route_fault cfg r f ∧
      ∀ j r', j < i → routes cfg !! j = Some r' → route_ok cfg r'
  end.
Proof.
  unfold validate_routes.
  assert (H : ∀ l k, match validate_from_index cfg k l with
    | Ok _ => ∀ r, r ∈ l → route_ok cfg r
    | Err (i, f) => ∃ n r, i = k + n ∧ l !! n = Some r ∧ route_fault cfg r f ∧
        ∀ j r', j < n → l !! j = Some r' → route_ok cfg r'
    end).
  { induction l as [|r l IH]; intros k; simpl; [by intros ? []%not_elem_of_nil|].
    pose proof (validate_route_spec cfg r) as Hr. destruct (validate_route cfg r) as [[]|f].
    - specialize (IH (S k)). destruct (validate_from_index cfg (S k) l) as [[]|[i f]].
      + intros r' [->|?]%elem_of_cons; auto.
      + destruct IH as (n & r' & -> & Hn & Hf & Hall). exists (S n), r'. split_and!; [lia|done..|].
        intros [|j] r2 Hj Hl; [by simplify_eq/=|]. apply (Hall j); [lia|done].
    - exists 0, r. split_and!; [lia|done..|]. intros j ? ?. lia. }
  specialize (H (routes cfg) 0). destruct (validate_from_index cfg 0 _) as [[]|[i f]]; [done|].
  destruct H as (n & r & -> & ? & ? & ?). eauto.
Qed.

Definition tier_ok cfg r : Prop :=
  ∀ min, re_min_tier r = Some min → (∃ n, n ∈ referenced r ∧ is_Some (lookup_upstream cfg n)) →
    ∃ n u, n ∈ referenced r ∧ lookup_upstream cfg n = Some u ∧ tier_rank min ≤ tier_rank (upstream_tier u).

Lemma check_min_tier_spec cfg r :
  match check_min_tier cfg r with
  | Ok _ => tier_ok cfg r
  | Err e => ∃ min tiers, e = ImpossibleMinTier (route_name r) min tiers ∧ re_min_tier r = Some min ∧
      tiers ≠ [] ∧
      (∀ n t, (n, t) ∈ tiers ↔ n ∈ referenced r ∧ upstream_tier <$> lookup_upstream cfg n = Some t) ∧
      ∀ n t, (n, t) ∈ tiers → tier_rank t < tier_rank min
  end.
Proof.
  unfold check_min_tier, tier_ok. destruct (re_min_tier r) as [min|]; [|done].
  set (tiers := omap _ (referenced r)).
  assert (Htiers : ∀ n t, (n, t) ∈ tiers ↔ n ∈ referenced r ∧ upstream_tier <$> lookup_upstream cfg n = Some t).
  { intros n t. unfold tiers. rewrite list_elem_of_omap. split.
    - intros (n' & Hn & Heq). destruct (lookup_upstream cfg n') eqn:Hl; simplify_eq/=. by rewrite Hl.
    - intros [Hn Heq]. exists n. split; [done|]. destruct (lookup_upstream cfg n); by simplify_eq/=. }
  case_bool_decide as Hnil.
  { intros min' _ (n & Hn & [u Hu]). exfalso. apply (not_elem_of_nil (n, upstream_tier u)).
    rewrite <- Hnil. apply Htiers. by rewrite Hu. }
  destruct (existsb _ tiers) eqn:He; cbn [ensure].
  - apply existsb_exists in He as ([n t] & Hin%list_elem_of_In%Htiers & Ht%Nat.leb_le).
    destruct Hin as [Hn Ht']. destruct (lookup_upstream cfg n) as [u|] eqn:Hu; simplify_eq/=.
    intros ? [= <-] _. eauto.
  - exists min, tiers. split_and!; [done..|]. intros n t Hin.
    apply Nat.lt_nge. intros Hle. apply not_true_iff_false in He. apply He, existsb_exists.
    exists (n, t). rewrite <- list_elem_of_In. split; [done|]. by apply Nat.leb_le.
Qed.

(** ** The rest *)
Definition nonnegative_cost (c : UpstreamCost) : Prop :=
  f64_lt (input_per_million_usd c) f64_zero = false ∧ f64_lt (output_per_million_usd c) f64_zero = false.
Lemma check_cost_spec n u :
  match check_cost (n, u) with
  | Ok _ => ∀ c, upstream_cost u = Some c → nonnegative_cost c
  | Err e => ∃ c, upstream_cost u = Some c ∧
      (e = NegativeCost n "input_per_million_usd" ∧ f64_lt (input_per_million_usd c) f64_zero = true ∨
       e = NegativeCost n "output_per_million_usd" ∧ f64_lt (output_per_million_usd c) f64_zero = true)
  end.
Proof.
  unfold check_cost, nonnegative_cost. destruct (upstream_cost u) as [c|]; [|done].
  destruct (f64_lt (input_per_million_usd c) f64_zero) eqn:H1; cbn [negb ensure]; [eauto|].
  destruct (f64_lt (output_per_million_usd c) f64_zero) eqn:H2; cbn [negb ensure]; [eauto|].
  by intros ? [= <-].
Qed.

Record auth_ok cfg : Prop := {
  auth_required_enabled : auth_required (gw_auth cfg) = true → auth_enabled (gw_auth cfg) = true;
  auth_hashes : ∀ k, is_Some (auth_keys (gw_auth cfg) !! k) → is_hash k;
}.
Lemma validate_auth_spec cfg :
  match validate_auth cfg with
  | Ok _ => auth_ok cfg
  | Err RequiredNotEnabled => auth_required (gw_auth cfg) = true ∧ auth_enabled (gw_auth cfg) = false
  | Err (BadAuthKey k _) => is_Some (auth_keys (gw_auth cfg) !! k) ∧ ¬ is_hash k
  end.
Proof.
  unfold validate_auth.
  destruct (auth_required (gw_auth cfg) && negb (auth_enabled (gw_auth cfg))) eqn:Hr; cbn [negb ensure].
  { by apply andb_true_iff in Hr as [? ?%negb_true_iff]. }
  destruct (try_each _ _) as [[]|f] eqn:Hk.
  - split.
    + intros Hreq. rewrite Hreq in Hr. by apply negb_false_iff in Hr.
    + intros k Hin%elem_of_keys. rewrite try_each_ok in Hk. apply Hk, map_err_ok in Hin.
      pose proof (check_sha256_key_spec k) as Hs. by rewrite Hin in Hs.
  - apply try_each_err in Hk as (k & Hin%elem_of_keys & (e & He & <-)%map_err_err).
    pose proof (check_sha256_key_spec k) as Hs. by rewrite He in Hs.
Qed.

(** Map keys are never duplicated. *)
Lemma check_duplicates_ok seen l : NoDup l → (∀ x, x ∈ l → x ∉ seen) → check_duplicates seen l = Ok tt.
Proof.
  revert seen. induction l as [|x l IH]; intros seen Hnd Hs; [done|].
  apply NoDup_cons in Hnd as [Hx Hnd]. simpl.
  rewrite bool_decide_eq_false_2 by (apply Hs; by left). apply IH; [done|].
  intros y Hy. assert (y ∉ seen) by (apply Hs; by right). set_solver.
Qed.

Record plugins_ok cfg : Prop := {
  pl_timeouts : ∀ p e t slot ms, gw_plugins cfg !! p = Some e → timeout_ms e = Some t →
    (slot, Some ms) ∈ timeout_slots t → ms ≠ 0%Z;
  pl_declared : ∀ r b h p, r ∈ routes cfg → re_plugins r = Some b → (h, p) ∈ iter_references b →
    is_Some (gw_plugins cfg !! p);
}.
Definition plugin_fault cfg (e : ValidationError) : Prop :=
  match e with
  | ZeroTimeoutMs p slot => ∃ e t, gw_plugins cfg !! p = Some e ∧ timeout_ms e = Some t ∧
      (slot, Some 0%Z) ∈ timeout_slots t
  | UndeclaredPlugin name p h => ∃ r b, r ∈ routes cfg ∧ name = route_name r ∧ re_plugins r = Some b ∧
      (h, p) ∈ iter_references b ∧ gw_plugins cfg !! p = None
  | _ => False
  end.
Lemma validate_plugins_spec cfg :
  match validate_plugins cfg with Ok _ => plugins_ok cfg | Err e => plugin_fault cfg e end.
Proof.
  unfold validate_plugins. rewrite check_duplicates_ok by (apply NoDup_keys || set_solver).
  destruct (try_each check_timeouts _) as [[]|e] eqn:Ht.
  2: { apply try_each_err in Ht as ([p en] & Hin%elem_of_entries & He). unfold check_timeouts in He.
       destruct (timeout_ms _) as [t|] eqn:Htm; [|done].
       apply try_each_err in He as ([slot v] & Hs & [Hv%negb_false_iff <-]%ensure_err).
       apply bool_decide_eq_true in Hv. simpl in *. subst. eauto. }
  destruct (try_each (check_references cfg) _) as [[]|e] eqn:Hr.
  2: { apply try_each_err in Hr as (r & Hin & He). unfold check_references in He.
       destruct (re_plugins r) as [b|] eqn:Hb; [|done].
       apply try_each_err in He as ([h p] & Hs & [Hv%bool_decide_eq_false <-]%ensure_err).
       simpl in *. apply eq_None_not_Some in Hv. eauto 10. }
  rewrite try_each_ok in Ht. rewrite try_each_ok in Hr. split.
  - intros p e t slot ms Hp He Hs ->. apply elem_of_entries, Ht in Hp. unfold check_timeouts in Hp.
    simpl in Hp. rewrite He, try_each_ok in Hp. apply Hp in Hs. done.
  - intros r b h p Hin Hb Href. apply Hr in Hin. unfold check_references in Hin.
    rewrite Hb, try_each_ok in Hin. apply Hin, ensure_ok in Href. by apply bool_decide_eq_true in Href.
Qed.

(** ** Valid configurations *)
Record listeners_ok cfg : Prop := {
  ls_port : server_port (gw_server cfg) ≠ 0%Z;
  ls_admin : ∀ a, gw_admin cfg = Some a → admin_port a ≠ 0%Z ∧
    ¬ (admin_port a = server_port (gw_server cfg) ∧ admin_bind a = server_bind (gw_server cfg));
  ls_otel : ∀ o, gw_otel cfg = Some o →
    f64_le f64_zero (sample_ratio o) = true ∧ f64_le (sample_ratio o) f64_one = true;
  ls_flush : (plugin_flush_secs (gw_shutdown cfg) ≤ 300)%Z;
}.
Definition listeners_fault cfg (e : ValidationError) : Prop :=
  match e with
  | ZeroPort => server_port (gw_server cfg) = 0%Z ∨ ∃ a, gw_admin cfg = Some a ∧ admin_port a = 0%Z
  | PortCollision p s b => p = s ∧ s = server_port (gw_server cfg) ∧ b = server_bind (gw_server cfg) ∧
      ∃ a, gw_admin cfg = Some a ∧ admin_port a = p ∧ admin_bind a = b
  | InvalidRoute SampleRatioOutOfRange => ∃ o, gw_otel cfg = Some o ∧
      (f64_le f64_zero (sample_ratio o) = false ∨ f64_le (sample_ratio o) f64_one = false)
  | InvalidRoute FlushSecsTooLarge => (300 < plugin_flush_secs (gw_shutdown cfg))%Z
  | _ => False
  end.
Lemma check_listeners_spec cfg :
  match check_listeners cfg with Ok _ => listeners_ok cfg | Err e => listeners_fault cfg e end.
Proof.
  unfold check_listeners. set (port := server_port (gw_server cfg)).
  destruct (Z.eqb_spec port 0) as [|Hp]; cbn [negb ensure]; [by left|].
  assert (Hadmin : match (match gw_admin cfg with
      | Some admin =>
          let? _ := ensure (negb (admin_port admin =? 0)%Z) ZeroPort in
          ensure (negb ((admin_port admin =? port)%Z &&
                        bool_decide (admin_bind admin = server_bind (gw_server cfg))))
            (PortCollision (admin_port admin) port (admin_bind admin))
      | None => Ok tt end) with
    | Ok _ => ∀ a, gw_admin cfg = Some a → admin_port a ≠ 0%Z ∧
        ¬ (admin_port a = port ∧ admin_bind a = server_bind (gw_server cfg))
    | Err e => listeners_fault cfg e end).
  { destruct (gw_admin cfg) as [a|] eqn:Ha; [|done].
    destruct (Z.eqb_spec (admin_port a) 0); cbn [negb ensure]; [simpl; right; eauto|].
    destruct (Z.eqb_spec (admin_port a) port); case_bool_decide; cbn [negb andb ensure];
      try (intros ? [= <-]; tauto). simpl. eauto 10. }
  destruct (match gw_admin cfg with Some _ => _ | None => _ end) as [[]|e]; [|done].
  destruct (match gw_otel cfg with Some _ => _ | None => _ end) as [[]|e] eqn:Ho.
  2: { destruct (gw_otel cfg) as [o|] eqn:Hg; [|done]. apply ensure_err in Ho as [Ho <-].
       exists o. split; [done|]. by apply andb_false_iff. }
  destruct (Z.ltb_spec 300 (plugin_flush_secs (gw_shutdown cfg))); cbn [negb ensure]; [done|].
  split; try done. intros o Hg. rewrite Hg in Ho. by apply ensure_ok, andb_true_iff in Ho.
Qed.

Record valid_config cfg : Prop := {
  vc_listeners : listeners_ok cfg;
  vc_frontends : ∀ r, r ∈ routes cfg → re_frontend r ∈ VALID_FRONTENDS;
  vc_aliases : NoDup (alias <$> routes cfg);
  vc_upstreams : ∀ n u f, upstreams cfg !! n = Some u → ¬ upstream_fault u f;
  vc_routes : ∀ r, r ∈ routes cfg → route_ok cfg r;
  vc_rate_limit : rl_enabled (gw_rate_limit cfg) = true → rate_limit_ok cfg;
  vc_auth : auth_ok cfg;
  vc_costs : ∀ n u c, upstreams cfg !! n = Some u → upstream_cost u = Some c → nonnegative_cost c;
  vc_tiers : ∀ r, r ∈ routes cfg → tier_ok cfg r;
  vc_plugins : plugins_ok cfg;
}.

(** What each error says of the configuration. *)
Definition error_holds cfg (e : ValidationError) : Prop :=
  match e with
  | ZeroPort | PortCollision _ _ _ | InvalidRoute SampleRatioOutOfRange
  | InvalidRoute FlushSecsTooLarge => listeners_fault cfg e
  | UnknownFrontend f => ∃ r, r ∈ routes cfg ∧ re_frontend r = f ∧ f ∉ VALID_FRONTENDS
  | UnknownUpstream n => ∃ r, r ∈ routes cfg ∧ n ∈ referenced r ∧ lookup_upstream cfg n = None
  | DuplicateAlias f m => ∃ i j r r', i < j ∧ routes cfg !! i = Some r ∧ routes cfg !! j = Some r' ∧
      alias r = (f, m) ∧ alias r' = (f, m)
  | InvalidUpstream n f => ∃ u, upstreams cfg !! n = Some u ∧ upstream_fault u f
  | InvalidRoute (BadRoute i f) => ∃ r, routes cfg !! i = Some r ∧ route_fault cfg r f ∧
      ∀ j r', j < i → routes cfg !! j = Some r' → route_ok cfg r'
  | InvalidRoute (BadRateLimit f) => rl_enabled (gw_rate_limit cfg) = true ∧ rate_limit_fault cfg f
  | InvalidRoute (BadAuth RequiredNotEnabled) =>
      auth_required (gw_auth cfg) = true ∧ auth_enabled (gw_auth cfg) = false
  | InvalidRoute (BadAuth (BadAuthKey k _)) => is_Some (auth_keys (gw_auth cfg) !! k) ∧ ¬ is_hash k
  | NegativeCost n field => ∃ u c, upstreams cfg !! n = Some u ∧ upstream_cost u = Some c ∧
      (field = "input_per_million_usd" ∧ f64_lt (input_per_million_usd c) f64_zero = true ∨
       field = "output_per_million_usd" ∧ f64_lt (output_per_million_usd c) f64_zero = true)
  | ImpossibleMinTier name min tiers => ∃ r, r ∈ routes cfg ∧ name = route_name r ∧
      re_min_tier r = Some min ∧ tiers ≠ [] ∧
      (∀ n t, (n, t) ∈ tiers ↔ n ∈ referenced r ∧ upstream_tier <$> lookup_upstream cfg n = Some t) ∧
      ∀ n t, (n, t) ∈ tiers → tier_rank t < tier_rank min
  | ZeroTimeoutMs _ _ | UndeclaredPlugin _ _ _ => plugin_fault cfg e
  (* the schema excludes these two, map keys the third; the catalog check has the last *)
  | IncompleteCost _ | InvalidTier _ _ | DuplicatePluginName _ | UnknownUpstreamModel _ _ _ => False
  end.

Lemma validate_sound_and_truthful cfg :
  match validate cfg with Ok _ => valid_config cfg | Err e => error_holds cfg e end.
Proof.
  unfold validate.
  pose proof (check_listeners_spec cfg) as H1. destruct (check_listeners cfg) as [[]|e].
  2: { destruct e as [| | | | |[]| | | | | | | | |]; done. }
  pose proof (check_routes_spec cfg ∅ (routes cfg)) as H2. destruct (check_routes _ _ _) as [[]|e].
  2: { destruct e; try done. destruct H2 as (j & r & Hj & Ha & [Hx|(i & r' & ? & ? & ?)]); [set_solver|].
       simpl. eauto 10. }
  destruct (try_each check_upstream _) as [[]|e] eqn:H3.
  2: { apply try_each_err in H3 as ([n u] & Hin%elem_of_entries & He).
       pose proof (check_upstream_spec n u) as Hs. rewrite He in Hs. destruct Hs as (f & -> & ?). simpl. eauto. }
  pose proof (validate_routes_spec cfg) as H4. destruct (validate_routes cfg) as [[]|[i f]]; [|done].
  pose proof (validate_rate_limit_spec cfg) as H5. destruct (validate_rate_limit cfg) as [[]|f]; [|done].
  pose proof (validate_auth_spec cfg) as H6. destruct (validate_auth cfg) as [[]|[]]; [|exact H6|exact H6].
  cbn [map_err].
  destruct (try_each check_cost _) as [[]|e] eqn:H7.
  2: { apply try_each_err in H7 as ([n u] & Hin%elem_of_entries & He).
       pose proof (check_cost_spec n u) as Hs. rewrite He in Hs.
       destruct Hs as (c & Hc & [[-> ?]|[-> ?]]); simpl; eauto 10. }
  destruct (try_each (check_min_tier cfg) _) as [[]|e] eqn:H8.
  2: { apply try_each_err in H8 as (r & Hin & He). pose proof (check_min_tier_spec cfg r) as Hs.
       rewrite He in Hs. destruct Hs as (min & tiers & -> & Hs). exists r. split; [done|]. split; [done|exact Hs]. }
  pose proof (validate_plugins_spec cfg) as H9. destruct (validate_plugins cfg) as [[]|e].
  2: { by destruct e. }
  destruct H2 as (? & ? & _). rewrite try_each_ok in H3. rewrite try_each_ok in H7. rewrite try_each_ok in H8.
  split; try done.
  - intros n u f Hu%elem_of_entries%H3. pose proof (check_upstream_spec n u) as Hs.
    rewrite Hu in Hs. apply Hs.
  - intros n u c Hu%elem_of_entries%H7. pose proof (check_cost_spec n u) as Hs.
    rewrite Hu in Hs. apply Hs.
  - intros r Hr%H8. pose proof (check_min_tier_spec cfg r) as Hs. by rewrite Hr in Hs.
Qed.

(** An error condemns the configuration. *)
Lemma route_fault_not_ok cfg r f : route_fault cfg r f → ¬ route_ok cfg r.
Proof.
  intros Hf [Hs Hu Hr [Hb Hb'] Hm Hp]. unfold valid_retry in Hr. simpl in Hr.
  rewrite !andb_true_iff, !negb_true_iff in Hr. destruct Hr as [[[Hr1 Hr2] [Hr3 Hr4]] [[Hr5 Hr6] Hr7]].
  destruct f; simpl in Hf.
  - destruct Hf as [Hne [[? Heq]|[? Heq]]], Hs as [(_ & H1 & H2)|[? _]]; congruence.
  - destruct Hf as (Hne & H1 & H2), Hs as [[? _]|(_ & [? ?] & _)]; congruence.
  - destruct Hf as [Hne Hf], Hs as [[? _]|(_ & [? H1] & [? H2])]; [done|].
    destruct Hf as [[? _]|[_ ?]]; congruence.
  - destruct Hf as [Hn Hl]. destruct (Hu _ Hn). congruence.
  - by rewrite Hf in Hr1.
  - apply Z.ltb_ge in Hr2. lia.
  - destruct Hf; congruence.
  - destruct Hf as [|[|]]; congruence.
  - done.
  - done.
  - destruct Hf as (rule & Hin%list_elem_of_lookup_2 & Hn). destruct (Hm _ Hin) as [[? ?] _]. congruence.
  - destruct Hf as (rule & Hin%list_elem_of_lookup_2 & Hn). destruct (Hm _ Hin) as [_ [? ?]]. congruence.
  - destruct Hf as (H1 & H2 & H3), Hp as [?|[?|(p & ? & ? & ?)]]; [done..|by eapply H3].
Qed.

Lemma rate_limit_fault_not_ok cfg f : rate_limit_fault cfg f → ¬ rate_limit_ok cfg.
Proof.
  intros Hf [Hr Hu Ho Hb Hi]. destruct f; simpl in Hf.
  - destruct Hf as [(r & _ & -> & H0)%Hr Hk]. unfold route_name in Hk.
    rewrite !count_char_app in Hk. simpl in Hk. lia.
  - destruct Hf as [(r & Hin & -> & H0)%Hr Hk]. by eapply Hk.
  - destruct Hf as [[? ?]%Hu Hk]. congruence.
  - destruct Hf as [Hk%Ho Hn]. done.
  - destruct Hf as [[]%Hb ?]. done.
  - destruct Hf as [[]%Hb ?]. done.
  - destruct Hf as [[]%Hi ?]. done.
  - destruct Hf as [[]%Hi ?]. done.
Qed.

Lemma listeners_fault_not_ok cfg e : listeners_fault cfg e → ¬ listeners_ok cfg.
Proof.
  intros Hf [Hp Ha Ho Hl]. destruct e as [| | | | |[]| | | | | | | | |]; simpl in Hf; try done.
  - destruct Hf as [Hf|(a & Hg & ?)]; [done|]. by destruct (Ha a Hg).
  - destruct Hf as (o & Hg & H). destruct (Ho o Hg). destruct H; congruence.
  - lia.
  - destruct Hf as (-> & -> & -> & a & Hg & ? & ?). by destruct (Ha a Hg) as [_ []].
Qed.

Lemma error_not_valid cfg e : error_holds cfg e → ¬ valid_config cfg.
Proof.
  intros He [Hl Hf Hal Hu Hr Hrl Hau Hc Ht Hp].
  destruct e as [|n|f m|f|n f|[| |i f|f|[|k h]]|p q b|n|n fd|n v|n t ts|n p h|p s|n|i u m];
    try exact (listeners_fault_not_ok cfg _ He Hl); simpl in He; try done.
  - destruct He as (r & Hin & Hn & Hno). destruct (ro_upstreams _ _ (Hr r Hin) n Hn). congruence.
  - destruct He as (i & j & r & r' & Hij & Hi & Hj & Ha & Ha').
    assert (i = j); [|lia]. eapply (NoDup_lookup (alias <$> routes cfg)); [done|..];
      rewrite list_lookup_fmap; [by rewrite Hi; simpl; rewrite Ha|by rewrite Hj; simpl; rewrite Ha'].
  - destruct He as (r & Hin & <- & Hno). by destruct Hno; apply Hf.
  - destruct He as (u & Hn & Hfu). by eapply Hu.
  - destruct He as (r & Hin%list_elem_of_lookup_2 & Hfr & _). by eapply route_fault_not_ok, Hr.
  - destruct He as [Hen Hfr]. by eapply rate_limit_fault_not_ok, Hrl.
  - destruct He as [Hreq Hen]. pose proof (auth_required_enabled _ Hau Hreq). congruence.
  - destruct He as [Hk Hno]. by apply Hno, (auth_hashes _ Hau).
  - destruct He as (u & c & Hn & Hcu & H). destruct (Hc _ _ _ Hn Hcu).
    destruct H as [[_ ?]|[_ ?]]; congruence.
  - destruct He as (r & Hin & -> & Hm & Hne & Hts & Hlow). destruct ts as [|[n0 t0] ts]; [done|].
    destruct (proj1 (Hts n0 t0) (list_elem_of_here _ _)) as [Hn0 Ht0].
    destruct (Ht r Hin t Hm) as (n & u & Hn & Hlk & Hle).
    { exists n0. split; [done|]. destruct (lookup_upstream cfg n0); [eauto|done]. }
    assert (Hin2 : (n, upstream_tier u) ∈ (n0, t0) :: ts) by (apply Hts; by rewrite Hlk).
    apply Hlow in Hin2. lia.
  - destruct He as (r & b & Hin & -> & Hb & Href & Hno).
    destruct (pl_declared _ Hp r b h p Hin Hb Href). congruence.
  - destruct He as (en & t & He & Htm & Hs). by apply (pl_timeouts _ Hp p en t s 0%Z).
Qed.
End Spec.

(** ** Properties *)
Section Properties.
Implicit Types (cfg : GatewayConfig).

(** C21: validation accepts exactly the well-formed configurations (listeners,
    routes, upstreams, rate limits, keys, costs, tiers and plugins), and every
    error it reports is true of the configuration.  A pair of frontend and model
    that is listed twice, exact, prefix or catch-all, is refused, although
    docs/configuration.md says that duplicates are not flagged. *)
Theorem validate_spec cfg :
  match validate cfg with
  | Ok _ => valid_config cfg
  | Err e => error_holds cfg e ∧ ¬ valid_config cfg
  end.
Proof.
  pose proof (validate_sound_and_truthful cfg) as H. destruct (validate cfg); [done|].
  split; [done|]. by eapply error_not_valid.
Qed.

Lemma check_immutable_spec candidate baseline :
  match check_immutable candidate baseline with
  | Ok _ => server_bind (gw_server candidate) = server_bind (base_server baseline) ∧
      server_port (gw_server candidate) = server_port (base_server baseline) ∧
      ((λ a, (admin_bind a, admin_port a)) <$> gw_admin candidate) =
        ((λ a, (admin_bind a, admin_port a)) <$> base_admin baseline) ∧
      gw_otel candidate ≫= endpoint = base_otel_endpoint baseline
  | Err (ImmutableFieldChanged _) =>
      server_bind (gw_server candidate) ≠ server_bind (base_server baseline) ∨
      server_port (gw_server candidate) ≠ server_port (base_server baseline) ∨
      ((λ a, (admin_bind a, admin_port a)) <$> gw_admin candidate) ≠
        ((λ a, (admin_bind a, admin_port a)) <$> base_admin baseline) ∨
      gw_otel candidate ≫= endpoint ≠ base_otel_endpoint baseline
  | Err _ => False end.
Proof.
  unfold check_immutable. case_bool_decide; cbn [ensure]; [|by left].
    destruct (Z.eqb_spec (server_port (gw_server candidate)) (server_port (base_server baseline)));
      cbn [ensure]; [|by right; left].
    destruct (base_admin baseline) as [[b p]|], (gw_admin candidate) as [[b' p']|]; simpl;
      [|right; right; by left..|].
    - case_bool_decide; cbn [ensure]; [|right; right; left; congruence].
      destruct (Z.eqb_spec p p'); cbn [ensure]; [|right; right; left; congruence]. subst.
      case_bool_decide; cbn [ensure]; [done|by right; right; right].
    - case_bool_decide; cbn [ensure]; [done|by right; right; right].
Qed.
Lemma reload_accepted candidate baseline diff :
  validate_for_reload candidate baseline = Ok diff →
  valid_config candidate ∧ dom (upstreams candidate) = base_upstream_names baseline ∧
  check_immutable candidate baseline = Ok tt ∧ routes_total diff = length (routes candidate).
Proof.
  unfold validate_for_reload. intros [? H]%then_ok. apply then_ok in H as [Hd%ensure_ok H].
  apply then_ok in H as [Hv%map_err_ok [= <-]]. pose proof (validate_sound_and_truthful candidate) as Hc.
  rewrite Hv in Hc. split_and!; [done| |done|done].
  apply andb_prop in Hd as [H1%bool_decide_eq_true H2%bool_decide_eq_true].
  apply (anti_symm (⊆)); by apply empty_difference_subseteq_L.
Qed.

(** A reload goes through exactly when the candidate is well formed and
    keeps the upstream names, the listeners and the telemetry endpoint; each
    refusal names what changed. *)
Theorem validate_for_reload_spec candidate baseline :
  match validate_for_reload candidate baseline with
  | Ok diff =>
      valid_config candidate ∧ dom (upstreams candidate) = base_upstream_names baseline ∧
      server_bind (gw_server candidate) = server_bind (base_server baseline) ∧
      server_port (gw_server candidate) = server_port (base_server baseline) ∧
      ((λ a, (admin_bind a, admin_port a)) <$> gw_admin candidate) =
        ((λ a, (admin_bind a, admin_port a)) <$> base_admin baseline) ∧
      gw_otel candidate ≫= endpoint = base_otel_endpoint baseline ∧
      routes_total diff = length (routes candidate)
  | Err (UpstreamSetChanged added removed) =>
      (∀ n, n ∈ added ↔ is_Some (upstreams candidate !! n) ∧ n ∉ base_upstream_names baseline) ∧
      (∀ n, n ∈ removed ↔ n ∈ base_upstream_names baseline ∧ upstreams candidate !! n = None) ∧
      (added ≠ ∅ ∨ removed ≠ ∅)
  | Err (ImmutableFieldChanged _) =>
      server_bind (gw_server candidate) ≠ server_bind (base_server baseline) ∨
      server_port (gw_server candidate) ≠ server_port (base_server baseline) ∨
      ((λ a, (admin_bind a, admin_port a)) <$> gw_admin candidate) ≠
        ((λ a, (admin_bind a, admin_port a)) <$> base_admin baseline) ∨
      gw_otel candidate ≫= endpoint ≠ base_otel_endpoint baseline
  | Err (StartupError e) => error_holds candidate e
  end.
Proof.
  unfold validate_for_reload. pose proof (check_immutable_spec candidate baseline) as Him.
  destruct (check_immutable candidate baseline) as [[]|[]]; [|done..].
  destruct (decide (dom (upstreams candidate) = base_upstream_names baseline)) as [Heq|Hne].
  - rewrite Heq, difference_diag_L, !bool_decide_eq_true_2 by done. cbn [andb ensure].
    pose proof (validate_sound_and_truthful candidate) as Hv. destruct (validate candidate); naive_solver.
  - assert (Hdiff : dom (upstreams candidate) ∖ base_upstream_names baseline ≠ ∅ ∨
      base_upstream_names baseline ∖ dom (upstreams candidate) ≠ ∅).
    { destruct (decide (dom (upstreams candidate) ∖ base_upstream_names baseline = ∅)); [|by left].
      right. intros ?. apply Hne, (anti_symm (⊆)); by apply empty_difference_subseteq_L. }
    assert (Hens : bool_decide (dom (upstreams candidate) ∖ base_upstream_names baseline = ∅) &&
      bool_decide (base_upstream_names baseline ∖ dom (upstreams candidate) = ∅) = false).
    { destruct Hdiff; [rewrite bool_decide_eq_false_2 by done|]; [done|].
      rewrite andb_comm, bool_decide_eq_false_2 by done. done. }
    rewrite Hens. cbn [ensure]. split_and!; [| |done]; intros n; rewrite elem_of_difference, elem_of_dom;
      [done|]. by rewrite eq_None_not_Some.
Qed.
End Properties.
