(* ===== verification/RateLimit.v ===== *)
(** * Identities and rate limits (crates/router/src/auth.rs, rate_limit.rs)

    Which token buckets a request is charged to, and in which order.  The
    buckets themselves are [governor]'s, a third-party crate: [Limiter] with
    [direct] and [check] are parameters. *)
From S2P Require Import Prelude Text Config.
#[local] Open Scope string_scope.
#[local] Open Scope list_scope.

(** ** Identities *)
Inductive AgentIdentity := Anonymous | KeyHash (h : string).

Definition log_id (i : AgentIdentity) : string :=
  match i with Anonymous => "anonymous" | KeyHash h => h end.

Section Auth.
(** SHA-256 as lower-case hex. *)
Context (sha256_hex : string → string).

Definition hash_key (plaintext : string) : string := "sha256:" ++ sha256_hex plaintext.

(** [split_once(' ')]. *)
Definition split_once_space : string → option (string * string) :=
  split_once (Ascii.ascii_of_nat 32).

Definition key_of (key : string) : option AgentIdentity :=
  let key := trim key in
  if str_is_empty key then None else Some (KeyHash (hash_key key)).

Definition extract_identity_from_headers (authorization x_api_key : option string) : AgentIdentity :=
  let bearer :=
    auth ← authorization;
    '(scheme, rest) ← split_once_space auth;
    if eq_ignore_ascii_case scheme "Bearer" then key_of rest else None in
  match bearer with
  | Some i => i
  | None => default Anonymous (x_api_key ≫= key_of)
  end.

(** An identity is anonymous exactly when no header carries a key, and is
    otherwise the hash of a key that was sent: the bearer token when there is
    one, else the [x-api-key]. *)
Theorem identity_is_a_presented_key authorization x_api_key :
  match extract_identity_from_headers authorization x_api_key with
  | Anonymous =>
      (∀ scheme rest, authorization ≫= split_once_space = Some (scheme, rest) →
         eq_ignore_ascii_case scheme "Bearer" = true → trim rest = "") ∧
      (∀ key, x_api_key = Some key → trim key = "")
  | KeyHash h =>
      ∃ key, key ≠ "" ∧ h = hash_key key ∧
        ((∃ scheme rest, authorization ≫= split_once_space = Some (scheme, rest) ∧
            eq_ignore_ascii_case scheme "Bearer" = true ∧ key = trim rest) ∨
         (∃ k, x_api_key = Some k ∧ key = trim k))
  end.
Proof.
  unfold extract_identity_from_headers, key_of.
  destruct (authorization ≫= split_once_space) as [[scheme rest]|] eqn:Ha.
  - destruct authorization as [auth|]; [|done]. simpl in Ha. simpl. rewrite Ha. simpl.
    destruct (eq_ignore_ascii_case scheme "Bearer") eqn:Hb.
    + destruct (str_is_empty (trim rest)) eqn:He; simpl.
      * apply str_is_empty_spec in He. destruct x_api_key as [k|]; simpl; [|(split; intros; simplify_eq; congruence)].
        destruct (str_is_empty (trim k)) eqn:Hk; simpl.
        -- apply str_is_empty_spec in Hk. (split; intros; simplify_eq; congruence).
        -- exists (trim k). split; [by intros Hr; rewrite Hr in Hk|]. eauto.
      * exists (trim rest). split; [by intros Hr; rewrite Hr in He|]. eauto 10.
    + simpl. destruct x_api_key as [k|]; simpl; [|(split; intros; simplify_eq; congruence)].
      destruct (str_is_empty (trim k)) eqn:Hk; simpl.
      * apply str_is_empty_spec in Hk. (split; intros; simplify_eq; congruence).
      * exists (trim k). split; [by intros Hr; rewrite Hr in Hk|]. eauto.
  - assert (Hn : (auth ← authorization; '(scheme, rest) ← split_once_space auth;
        if eq_ignore_ascii_case scheme "Bearer" then
          if str_is_empty (trim rest) then None else Some (KeyHash (hash_key (trim rest)))
        else None) = None).
    { destruct authorization as [auth|]; [|done]. simpl in *. by rewrite Ha. }
    rewrite Hn. destruct x_api_key as [k|]; simpl; [|(split; intros; simplify_eq; congruence)].
    destruct (str_is_empty (trim k)) eqn:Hk; simpl.
    + apply str_is_empty_spec in Hk. (split; intros; simplify_eq; congruence).
    + exists (trim k). split; [by intros Hr; rewrite Hr in Hk|]. eauto.
Qed.
End Auth.

(** ** Buckets *)
Inductive RateLimitDimension := PerKey | PerRoute | PerUpstream | PerIp.
#[export] Instance RateLimitDimension_eq_dec : EqDecision RateLimitDimension.
Proof. solve_decision. Defined.
#[export] Instance RateLimitDimension_countable : Countable RateLimitDimension.
Proof.
  refine (inj_countable' (λ d, match d with PerKey => 0 | PerRoute => 1 | PerUpstream => 2 | PerIp => 3 end)
    (λ n, match n with 0 => PerKey | 1 => PerRoute | 2 => PerUpstream | _ => PerIp end) _).
  by intros [].
Defined.

Record BucketConfig := { rate_per_sec : Z; burst : Z }.

Inductive LimitOutcome := Allowed | Limited (retry_after_secs : Z).

Section Limiter.
(** [governor]: a limiter from a quota (requests per second, burst), its check
    at an instant, and the wait a refusal reports at a later instant, in whole
    seconds and nanoseconds.  [clock] gives the successive readings. *)
Context {Limiter NotUntil : Type}.
Context (direct : Z → Z → Limiter).
Context (check : Z → Limiter → result unit NotUntil * Limiter).
Context (wait_time_from : NotUntil → Z → Z * Z).
Context (clock : nat → Z).

Record LimiterRegistry := {
  buckets : gmap (RateLimitDimension * string) Limiter;
  lim_ticks : nat;
  default_per_key : option BucketConfig;
  anonymous : option BucketConfig;
  per_key_overrides : gmap string BucketConfig;
  per_route : gmap string BucketConfig;
  per_upstream : gmap string BucketConfig;
  per_ip : option BucketConfig;
  lim_enabled : bool;
}.

Definition set_buckets (b : gmap (RateLimitDimension * string) Limiter) (n : nat) (r : LimiterRegistry)
    : LimiterRegistry := {|
  buckets := b; lim_ticks := n; default_per_key := default_per_key r; anonymous := anonymous r;
  per_key_overrides := per_key_overrides r; per_route := per_route r;
  per_upstream := per_upstream r; per_ip := per_ip r; lim_enabled := lim_enabled r |}.

(** [LimiterRegistry::disabled]. *)
Definition disabled_limiters : LimiterRegistry := {|
  buckets := ∅; lim_ticks := 0; default_per_key := None; anonymous := None;
  per_key_overrides := ∅; per_route := ∅; per_upstream := ∅; per_ip := None;
  lim_enabled := false |}.

(** [BucketConfig::from], [LimiterRegistry::from_config]. *)
Definition bucket_from (b : BucketConfigYaml) : BucketConfig :=
  {| rate_per_sec := yaml_rate_per_sec b; burst := yaml_burst b |}.
Definition limiters_from_config (cfg : RateLimitConfig) : LimiterRegistry := {|
  buckets := ∅; lim_ticks := 0;
  default_per_key := bucket_from <$> pk_default (rl_per_key cfg);
  anonymous := bucket_from <$> pk_anonymous (rl_per_key cfg);
  per_key_overrides := bucket_from <$> pk_overrides (rl_per_key cfg);
  per_route := bucket_from <$> rl_per_route cfg;
  per_upstream := bucket_from <$> rl_per_upstream cfg;
  per_ip := if ip_enabled (rl_per_ip cfg)
            then Some {| rate_per_sec := ip_rate_per_sec (rl_per_ip cfg); burst := ip_burst (rl_per_ip cfg) |}
            else None;
  lim_enabled := rl_enabled cfg |}.

(** [BucketConfig::quota]. *)
Definition quota (c : BucketConfig) : Z * Z := (Z.max 1 (rate_per_sec c), Z.max 1 (burst c)).

Definition get_or_create_limiter (dim : RateLimitDimension) (key : string) (cfg : BucketConfig)
    (r : LimiterRegistry) : Limiter :=
  default (direct (quota cfg).1 (quota cfg).2) (buckets r !! (dim, key)).

(** [wait] rounded up to whole seconds, at least one. *)
Definition retry_after (wait : Z * Z) : Z :=
  as_u32 (Z.max 1 (u64_add wait.1 (if (0 <? wait.2)%Z then 1 else 0))).

(** [get_or_create] followed by [check_bucket]; the limiter is shared, so its
    new state is the registry's. *)
Definition check_bucket (dim : RateLimitDimension) (key : string) (cfg : BucketConfig)
    (r : LimiterRegistry) : LimitOutcome * LimiterRegistry :=
  let l := get_or_create_limiter dim key cfg r in
  let n := lim_ticks r in
  match check (clock n) l with
  | (Ok _, l') => (Allowed, set_buckets (<[(dim, key) := l']> (buckets r)) (S n) r)
  | (Err neg, l') =>
      (Limited (retry_after (wait_time_from neg (clock (S n)))),
       set_buckets (<[(dim, key) := l']> (buckets r)) (S (S n)) r)
  end.

(** The configuration of the per-key bucket of an identity. *)
Definition key_cfg (identity : AgentIdentity) (r : LimiterRegistry) : option BucketConfig :=
  match identity with
  | KeyHash h =>
      match per_key_overrides r !! h with Some c => Some c | None => default_per_key r end
  | Anonymous => anonymous r
  end.

(** Check an optional bucket; go on when it allows. *)
Definition gate (dim : RateLimitDimension) (key : string) (cfg : option BucketConfig)
    (k : LimiterRegistry → result unit (RateLimitDimension * Z) * LimiterRegistry)
    (r : LimiterRegistry) : result unit (RateLimitDimension * Z) * LimiterRegistry :=
  match cfg with
  | None => k r
  | Some cfg =>
      match check_bucket dim key cfg r with
      | (Limited secs, r') => (Err (dim, secs), r')
      | (Allowed, r') => k r'
      end
  end.

Definition check_pre_chain (identity : AgentIdentity) (frontend_model client_ip : string)
    (r : LimiterRegistry) : result unit (RateLimitDimension * Z) * LimiterRegistry :=
  if negb (lim_enabled r) then (Ok tt, r) else
  gate PerKey (log_id identity) (key_cfg identity r)
    (λ r, gate PerRoute frontend_model (per_route r !! frontend_model)
      (λ r, gate PerIp client_ip (per_ip r) (λ r, (Ok tt, r)) r) r) r.

Definition check_per_upstream (upstream : string) (r : LimiterRegistry)
    : result unit (RateLimitDimension * Z) * LimiterRegistry :=
  if negb (lim_enabled r) then (Ok tt, r)
  else gate PerUpstream upstream (per_upstream r !! upstream) (λ r, (Ok tt, r)) r.

(** ** The reference: a list of buckets, charged in order *)
Definition applicable (identity : AgentIdentity) (frontend_model client_ip : string)
    (r : LimiterRegistry) : list (RateLimitDimension * string * BucketConfig) :=
  if negb (lim_enabled r) then [] else
  option_list ((λ c, (PerKey, log_id identity, c)) <$> key_cfg identity r) ++
  option_list ((λ c, (PerRoute, frontend_model, c)) <$> per_route r !! frontend_model) ++
  option_list ((λ c, (PerIp, client_ip, c)) <$> per_ip r).

(** Charge buckets until one refuses: the refusal, what was charged, and the
    registry. *)
Fixpoint charge (l : list (RateLimitDimension * string * BucketConfig)) (r : LimiterRegistry)
    : result unit (RateLimitDimension * Z) * LimiterRegistry :=
  match l with
  | [] => (Ok tt, r)
  | (dim, key, cfg) :: l' =>
      match check_bucket dim key cfg r with
      | (Limited secs, r') => (Err (dim, secs), r')
      | (Allowed, r') => charge l' r'
      end
  end.

(** A check changes no configuration, only its own bucket. *)
Lemma check_bucket_config dim key cfg r :
  let r' := (check_bucket dim key cfg r).2 in
  key_cfg Anonymous r' = key_cfg Anonymous r ∧ per_route r' = per_route r ∧
  per_ip r' = per_ip r ∧ per_upstream r' = per_upstream r ∧ lim_enabled r' = lim_enabled r ∧
  ∀ k, k ≠ (dim, key) → buckets r' !! k = buckets r !! k.
Proof.
  unfold check_bucket. destruct (check _ _) as [[[]|neg] l']; simpl;
    (split_and!; [done..|]; intros k Hk; by apply lookup_insert_ne).
Qed.

Lemma gate_charge dim key cfg k l (r : LimiterRegistry) :
  (∀ r', (∃ cfg, r' = (check_bucket dim key cfg r).2) ∨ r' = r → k r' = charge l r') →
  gate dim key cfg k r = charge (option_list ((λ c, (dim, key, c)) <$> cfg) ++ l) r.
Proof.
  intros Hk. destruct cfg as [cfg|]; simpl; [|by apply Hk; right].
  specialize (Hk (check_bucket dim key cfg r).2 (or_introl (ex_intro _ cfg eq_refl))).
  destruct (check_bucket dim key cfg r) as [[|secs] r']; done.
Qed.

(** A request is charged to the buckets that apply to it, the key's, then
    the route's, then the address's, until one refuses: the first refusal is
    the error and names its dimension, later buckets are not charged, and a
    disabled limiter charges nothing. *)
Theorem check_pre_chain_charges identity frontend_model client_ip r :
  check_pre_chain identity frontend_model client_ip r =
  charge (applicable identity frontend_model client_ip r) r.
Proof.
  unfold check_pre_chain, applicable. destruct (lim_enabled r); simpl; [|done].
  apply gate_charge. intros r1 Hr1.
  assert (Hc1 : per_route r1 = per_route r ∧ per_ip r1 = per_ip r).
  { destruct Hr1 as [[cfg ->]| ->]; [|done]. by destruct (check_bucket_config PerKey (log_id identity) cfg r) as (_ & ? & ? & _). }
  destruct Hc1 as [-> Hip1]. apply gate_charge. intros r2 Hr2.
  assert (Hc2 : per_ip r2 = per_ip r).
  { destruct Hr2 as [[cfg ->]| ->]; [|done]. rewrite <- Hip1.
    by destruct (check_bucket_config PerRoute frontend_model cfg r1) as (_ & _ & ? & _). }
  rewrite Hc2, <- (app_nil_r (option_list _)). by apply gate_charge.
Qed.

(** Charging moves the buckets and leaves the limits as they were. *)
Definition charged (r r' : LimiterRegistry) : Prop := ∃ b n, r' = set_buckets b n r.
Lemma charged_refl r : charged r r.
Proof. exists (buckets r), (lim_ticks r). by destruct r. Qed.
Lemma charged_trans r1 r2 r3 : charged r1 r2 → charged r2 r3 → charged r1 r3.
Proof. intros (b & n & ->) (b' & n' & ->). by exists b', n'. Qed.
Lemma charged_gate dim key cfg k r : (∀ r, charged r (k r).2) → charged r (gate dim key cfg k r).2.
Proof.
  intros Hk. unfold gate. destruct cfg as [cfg|]; [|apply Hk].
  assert (Hc : charged r (check_bucket dim key cfg r).2)
    by (unfold check_bucket; destruct (check _ _) as [[[]|neg] l']; simpl; by eexists _, _).
  destruct (check_bucket dim key cfg r) as [[|secs] r']; [|done]. by eapply charged_trans.
Qed.
Lemma charged_pre_chain identity frontend_model client_ip r :
  charged r (check_pre_chain identity frontend_model client_ip r).2.
Proof.
  unfold check_pre_chain. destruct (negb _); [apply charged_refl|].
  repeat (apply charged_gate; intros ?). apply charged_refl.
Qed.
Lemma charged_per_upstream upstream r : charged r (check_per_upstream upstream r).2.
Proof.
  unfold check_per_upstream. destruct (negb _); [apply charged_refl|]. apply charged_gate, charged_refl.
Qed.

(** A client that waits as long as it is told waits long enough. *)
Lemma retry_after_long_enough wait :
  (0 ≤ wait.1 < u32_max)%Z → (0 ≤ wait.2 < 1000000000)%Z →
  (wait.1 * 1000000000 + wait.2 ≤ retry_after wait * 1000000000)%Z ∧ (1 ≤ retry_after wait)%Z.
Proof.
  destruct wait as [secs nanos]. simpl. intros Hs Hn. unfold retry_after; simpl.
  unfold u32_max in *.
  destruct (Z.ltb_spec 0 nanos); rewrite u64_add_small by (unfold is_u64, u64_max; lia);
    unfold as_u32; rewrite wrap32_small by (unfold is_u32, u32_max; lia); lia.
Qed.
End Limiter.
