(* ===== verification/ImageTokens.v ===== *)
(** * Image-token estimators (crates/router/src/image_estimators)

    The per-vendor estimates of the tokens an image costs, in the [u32]
    arithmetic of the source: saturating for OpenAI, truncating for Anthropic. *)
From S2P Require Import Prelude.
#[local] Open Scope Z_scope.

(** [core/src/cost.rs]. *)
Inductive ImageDetail := DetailLow | DetailHigh | DetailAuto.
Inductive ImageSizeHint := Known (width height : Z) (detail : ImageDetail) | Unknown.

Definition div_ceil (a b : Z) : Z := a / b + (if 0 <? a mod b then 1 else 0).
Definition u32_saturating_mul (a b : Z) : Z := Z.min u32_max (a * b).

(** ** Anthropic *)
Definition ANTHROPIC_UNKNOWN_TOKENS : Z := 1600.
Definition ANTHROPIC_PIXELS_PER_TOKEN : Z := 750.

(** [AnthropicImageEstimator::tokens_for_image]. *)
Definition anthropic_tokens_for_image (hint : ImageSizeHint) : Z :=
  match hint with
  | Unknown => ANTHROPIC_UNKNOWN_TOKENS
  | Known width height _ => as_u32 (div_ceil (wrap64 (width * height)) ANTHROPIC_PIXELS_PER_TOKEN)
  end.

(** ** OpenAI *)
Definition OPENAI_LOW_DETAIL_TOKENS : Z := 85.
Definition OPENAI_HIGH_BASE_TOKENS : Z := 85.
Definition OPENAI_HIGH_PER_TILE_TOKENS : Z := 170.
Definition OPENAI_TILE_PIXELS : Z := 512.
Definition OPENAI_UNKNOWN_TOKENS : Z := 1105.

Definition high_detail_tokens (width height : Z) : Z :=
  let tiles_w := div_ceil width OPENAI_TILE_PIXELS in
  let tiles_h := div_ceil height OPENAI_TILE_PIXELS in
  let tiles := u32_saturating_mul tiles_w tiles_h in
  u32_saturating_add OPENAI_HIGH_BASE_TOKENS (u32_saturating_mul OPENAI_HIGH_PER_TILE_TOKENS tiles).

Definition openai_tokens_for_image (hint : ImageSizeHint) : Z :=
  match hint with
  | Unknown => OPENAI_UNKNOWN_TOKENS
  | Known _ _ DetailLow => OPENAI_LOW_DETAIL_TOKENS
  | Known width height _ => high_detail_tokens width height
  end.

(** ** Responses *)
Definition responses_tokens_for_image (hint : ImageSizeHint) : Z := openai_tokens_for_image hint.

(** ** Bounds *)
Definition hint_in_range (hint : ImageSizeHint) : Prop :=
  match hint with Unknown => True | Known w h _ => is_u32 w ∧ is_u32 h end.

Lemma div_ceil_spec a b : 0 ≤ a → 0 < b → 0 ≤ div_ceil a b ∧ a ≤ b * div_ceil a b < a + b.
Proof.
  intros Ha Hb. unfold div_ceil. pose proof (Z.div_mod a b). pose proof (Z.mod_pos_bound a b Hb).
  pose proof (Z.div_pos a b Ha Hb). destruct (Z.ltb_spec 0 (a mod b)); nia.
Qed.
Lemma div_ceil_mono a a' b : 0 < b → 0 ≤ a ≤ a' → div_ceil a b ≤ div_ceil a' b.
Proof.
  intros Hb Ha. pose proof (div_ceil_spec a b). pose proof (div_ceil_spec a' b). nia.
Qed.

(** Saturating at every step is saturating once. *)
Lemma high_detail_tokens_saturates w h :
  is_u32 w → is_u32 h →
  high_detail_tokens w h = Z.min u32_max (85 + 170 * (div_ceil w 512 * div_ceil h 512)).
Proof.
  intros [Hw _] [Hh _]. unfold high_detail_tokens, u32_saturating_add, u32_saturating_mul.
  change OPENAI_TILE_PIXELS with 512. change OPENAI_HIGH_BASE_TOKENS with 85.
  change OPENAI_HIGH_PER_TILE_TOKENS with 170.
  pose proof (div_ceil_spec w 512 Hw ltac:(lia)) as [H1 _].
  pose proof (div_ceil_spec h 512 Hh ltac:(lia)) as [H2 _].
  assert (0 ≤ div_ceil w 512 * div_ceil h 512) by nia. unfold u32_max. lia.
Qed.

(** C38: the estimates are 32-bit integers.  OpenAI's and Responses' are the
    saturated tile formula, never below the low-detail price and monotone in
    the dimensions; Anthropic's is the number of started 750-pixel blocks as
    long as that number is below 2^32, and that number modulo 2^32 beyond. *)
Theorem image_tokens_bounds w h d :
  is_u32 w → is_u32 h →
  let o := openai_tokens_for_image (Known w h d) in
  let a := anthropic_tokens_for_image (Known w h d) in
  is_u32 o ∧ 85 ≤ o ∧ responses_tokens_for_image (Known w h d) = o ∧
  (d ≠ DetailLow → o = Z.min u32_max (85 + 170 * (div_ceil w 512 * div_ceil h 512))) ∧
  (∀ w' h', is_u32 w' → is_u32 h' → w ≤ w' → h ≤ h' → o ≤ openai_tokens_for_image (Known w' h' d)) ∧
  is_u32 a ∧ a = div_ceil (w * h) 750 mod 2 ^ 32 ∧
  (w * h ≤ 750 * u32_max → w * h ≤ 750 * a < w * h + 750).
Proof.
  intros Hw Hh o a. pose proof Hw as [Hw0 Hw1]. pose proof Hh as [Hh0 Hh1].
  assert (Hmax : u32_max = 4294967295) by done.
  assert (Ha : a = div_ceil (w * h) 750 mod 2 ^ 32).
  { unfold a, anthropic_tokens_for_image. rewrite wrap64_small; [done|]. unfold is_u64, u64_max. nia. }
  pose proof (div_ceil_spec (w * h) 750 ltac:(nia) ltac:(lia)) as [Hd1 Hd2].
  pose proof (div_ceil_spec w 512 Hw0 ltac:(lia)) as [Hw2 _].
  pose proof (div_ceil_spec h 512 Hh0 ltac:(lia)) as [Hh2 _].
  assert (Hprod : 0 ≤ div_ceil w 512 * div_ceil h 512) by nia.
  assert (Ho : d ≠ DetailLow → o = Z.min u32_max (85 + 170 * (div_ceil w 512 * div_ceil h 512))).
  { intros Hd. rewrite <- (high_detail_tokens_saturates w h Hw Hh). unfold o. by destruct d. }
  assert (Hlow : d = DetailLow → o = 85) by (unfold o; by intros ->).
  assert (Hcase : d = DetailLow ∨ d ≠ DetailLow) by (destruct d; auto).
  assert (Hbound : 85 ≤ o ≤ u32_max) by (destruct Hcase as [Hd|Hd]; [rewrite (Hlow Hd)|rewrite (Ho Hd)]; lia).
  split; [unfold is_u32; lia|]. split; [apply Hbound|]. split; [reflexivity|]. split; [exact Ho|]. split; [|split; [apply as_u32_range|split; [exact Ha|]]].
  - intros w' h' Hw' Hh' Hww Hhh. destruct Hcase as [Hd|Hd]; [by rewrite (Hlow Hd), Hd|].
    assert (Ho' : openai_tokens_for_image (Known w' h' d) =
      Z.min u32_max (85 + 170 * (div_ceil w' 512 * div_ceil h' 512)))
      by (rewrite <- (high_detail_tokens_saturates w' h' Hw' Hh'); by destruct d).
    rewrite Ho', (Ho Hd). pose proof (div_ceil_mono w w' 512). pose proof (div_ceil_mono h h' 512). nia.
  - intros Hsmall. rewrite Ha, Z.mod_small by lia. lia.
Qed.

Lemma image_tokens_bounds_witness :
  is_u32 1000 ∧ openai_tokens_for_image (Known 1000 700 DetailHigh) = 765 ∧
  85 ≤ openai_tokens_for_image (Known 1000 700 DetailHigh).
Proof.
  assert (Hw : is_u32 1000) by (unfold is_u32, u32_max; lia).
  assert (Hh : is_u32 700) by (unfold is_u32, u32_max; lia).
  split; [exact Hw|]. split; [reflexivity|]. exact (proj1 (proj2 (image_tokens_bounds 1000 700 DetailHigh Hw Hh))).
Defined.

(** The price of an unknown image is documented as the worst case; known images
    exceed it, and Anthropic's truncation can make a huge one free. *)
Theorem known_image_exceeds_worst_case :
  openai_tokens_for_image Unknown < openai_tokens_for_image (Known 4096 4096 DetailHigh) ∧
  anthropic_tokens_for_image Unknown < anthropic_tokens_for_image (Known 4096 4096 DetailHigh) ∧
  anthropic_tokens_for_image (Known 768000 4194304 DetailHigh) = 0.
Proof. split_and!; reflexivity. Qed.
