(* ===== verification/CostFilter.v ===== *)
(** * Cost-aware routing (crates/router/src/cost_estimate.rs, cost_filter.rs)

    The cost estimate of a request on an upstream and the filter of a route's
    chain by tier, recent latency and cost cap.  The tokenizer, the latency
    probe and the image-token estimator are parameters. *)
From S2P Require Import Prelude Float64 Json Config Request ImageTokens.
#[local] Open Scope Z_scope.
#[local] Open Scope list_scope.

Inductive FilterReason := TierReason | Latency | Cap | LatencyUnknown.
Record Skip := { skip_upstream : string; skip_reason : FilterReason }.
Record Note := { note_upstream : string; note_reason : FilterReason }.
Record FilterOutcome := {
  survivors : list BackendTarget; skipped : list Skip; notes : list Note }.

Section CostFilter.
Context `{J : JsonApi}.
(** [cl100k_encoder().encode_ordinary(text).len()], the probe's recent p95 and
    the estimator of the request's frontend. *)
Context (token_count : string → Z).
Context (recent_p95_ms : string → option Z).
Context (tokens_for_image : ImageSizeHint → Z).

Definition DEFAULT_MAX_OUTPUT_TOKENS : Z := 4096.

Definition canonical_request_text (request : CanonicalRequest) : string :=
  concat_strings
    (msg ← messages request; block ← content msg;
     match block with
     | TextBlock t _ => [(t ++ String (Ascii.ascii_of_nat 10) EmptyString)%string]
     | _ => []
     end).

Definition estimate_text_tokens (request : CanonicalRequest) : Z :=
  as_u32 (token_count (canonical_request_text request)).

Definition estimate_image_tokens (request : CanonicalRequest) : Z :=
  foldl (λ tokens msg,
    foldl (λ tokens block,
      match block with
      | ImageBlock _ _ => u32_saturating_add tokens (tokens_for_image Unknown)
      | _ => tokens
      end) tokens (content msg)) 0 (messages request).

Definition output_token_cap (request : CanonicalRequest) : Z :=
  default DEFAULT_MAX_OUTPUT_TOKENS (max_tokens (generation request)).

Definition estimate_request_cost (request : CanonicalRequest) (cost : option UpstreamCost)
    : option f64 :=
  cost ← cost;
  let text_tokens := estimate_text_tokens request in
  let image_tokens := estimate_image_tokens request in
  let input_tokens := u32_saturating_add text_tokens image_tokens in
  let output_tokens := output_token_cap request in
  Some (f64_div
    (f64_add (f64_mul (f64_of_Z input_tokens) (input_per_million_usd cost))
             (f64_mul (f64_of_Z output_tokens) (output_per_million_usd cost)))
    (f64_of_Z 1000000)).

(** ** The filter *)
Definition push_survivor (t : BackendTarget) (o : FilterOutcome) : FilterOutcome :=
  {| survivors := survivors o ++ [t]; skipped := skipped o; notes := notes o |}.
Definition push_skip (u : string) (r : FilterReason) (o : FilterOutcome) : FilterOutcome :=
  {| survivors := survivors o; notes := notes o;
     skipped := skipped o ++ [{| skip_upstream := u; skip_reason := r |}] |}.
Definition push_note (u : string) (r : FilterReason) (o : FilterOutcome) : FilterOutcome :=
  {| survivors := survivors o; skipped := skipped o;
     notes := notes o ++ [{| note_upstream := u; note_reason := r |}] |}.

(** The loop body: [continue] is returning the outcome. *)
Definition filter_target (route : RouteEntry) (request : CanonicalRequest) (config : GatewayConfig)
    (o : FilterOutcome) (target : BackendTarget) : FilterOutcome :=
  let upstream_name := provider target in
  match upstreams config !! upstream_name with
  | None => push_survivor target o
  | Some upstream_cfg =>
      let below_tier :=
        match re_min_tier route with
        | Some min_tier => (tier_rank (upstream_tier upstream_cfg) <? tier_rank min_tier)%nat
        | None => false
        end in
      if below_tier then push_skip upstream_name TierReason o else
      let latency :=
        match upstream_latency_budget upstream_cfg with
        | Some budget =>
            match recent_p95_ms upstream_name with
            | Some measured => if budget <? measured then None else Some o
            | None => Some (push_note upstream_name LatencyUnknown o)
            end
        | None => Some o
        end in
      match latency with
      | None => push_skip upstream_name Latency o
      | Some o =>
          let over_cap :=
            match re_max_cost_usd route with
            | Some cap =>
                match estimate_request_cost request (upstream_cost upstream_cfg) with
                | Some est => f64_lt cap est
                | None => false
                end
            | None => false
            end in
          if over_cap then push_skip upstream_name Cap o else push_survivor target o
      end
  end.

Definition filter_chain (chain : list BackendTarget) (route : RouteEntry)
    (request : CanonicalRequest) (config : GatewayConfig) : FilterOutcome :=
  foldl (filter_target route request config) {| survivors := []; skipped := []; notes := [] |} chain.

(** ** The reference: one verdict per upstream *)
Definition passes_tier (route : RouteEntry) (u : UpstreamConfig) : Prop :=
  ∀ min, re_min_tier route = Some min → (tier_rank min ≤ tier_rank (upstream_tier u))%nat.
Definition passes_latency (name : string) (u : UpstreamConfig) : Prop :=
  ∀ budget measured, upstream_latency_budget u = Some budget →
    recent_p95_ms name = Some measured → measured ≤ budget.
Definition passes_cap (route : RouteEntry) (request : CanonicalRequest) (u : UpstreamConfig) : Prop :=
  ∀ cap est, re_max_cost_usd route = Some cap →
    estimate_request_cost request (upstream_cost u) = Some est → f64_lt cap est = false.

(** The reason an upstream is skipped, if it is. *)
Definition verdict (route : RouteEntry) (request : CanonicalRequest) (config : GatewayConfig)
    (t : BackendTarget) : option FilterReason :=
  let o := filter_target route request config {| survivors := []; skipped := []; notes := [] |} t in
  skip_reason <$> head (skipped o).
Definition noted (route : RouteEntry) (request : CanonicalRequest) (config : GatewayConfig)
    (t : BackendTarget) : list Note :=
  notes (filter_target route request config {| survivors := []; skipped := []; notes := [] |} t).

Lemma filter_target_spec route request config o t :
  filter_target route request config o t =
  {| survivors := survivors o ++ match verdict route request config t with Some _ => [] | None => [t] end;
     skipped := skipped o ++
       match verdict route request config t with
       | Some r => [{| skip_upstream := provider t; skip_reason := r |}] | None => [] end;
     notes := notes o ++ noted route request config t |}.
Proof.
  unfold verdict, noted, filter_target. destruct o as [sv sk nt].
  destruct (upstreams config !! provider t); simpl;
    [|unfold push_survivor; simpl; by rewrite !app_nil_r].
  repeat (case_match; simplify_eq/=); unfold push_survivor, push_skip, push_note; simpl;
    by rewrite ?app_nil_r.
Qed.

Lemma verdict_spec route request config t :
  match upstreams config !! provider t with
  | None => verdict route request config t = None
  | Some u =>
      match verdict route request config t with
      | None => passes_tier route u ∧ passes_latency (provider t) u ∧ passes_cap route request u
      | Some TierReason => ¬ passes_tier route u
      | Some Latency => passes_tier route u ∧ ¬ passes_latency (provider t) u
      | Some Cap => passes_tier route u ∧ passes_latency (provider t) u ∧ ¬ passes_cap route request u
      | Some LatencyUnknown => False
      end
  end.
Proof.
  unfold verdict, filter_target. destruct (upstreams config !! provider t) as [u|]; [|done].
  assert (Htier : passes_tier route u ↔
    match re_min_tier route with
    | Some min => (tier_rank (upstream_tier u) <? tier_rank min)%nat | None => false end = false).
  { unfold passes_tier. destruct (re_min_tier route) as [min|]; [|by split].
    rewrite Nat.ltb_ge. split; [by intros H; apply H|]. by intros H ? [= <-]. }
  destruct (match re_min_tier route with Some _ => _ | None => false end); simpl.
  { by rewrite Htier. }
  assert (Hcap : passes_cap route request u ↔
    match re_max_cost_usd route with
    | Some cap => match estimate_request_cost request (upstream_cost u) with
                  | Some est => f64_lt cap est | None => false end
    | None => false end = false).
  { unfold passes_cap. destruct (re_max_cost_usd route) as [cap|]; [|by split].
    destruct (estimate_request_cost request (upstream_cost u)) as [est|]; [|by split].
    split; [by intros H; apply H|]. by intros H ? ? [= <-] [= <-]. }
  set (over := match re_max_cost_usd route with Some _ => _ | None => false end) in *.
  clearbody over.
  assert (Hlat : passes_latency (provider t) u ↔
    match upstream_latency_budget u, recent_p95_ms (provider t) with
    | Some b, Some m => m ≤ b | _, _ => True end).
  { unfold passes_latency. destruct (upstream_latency_budget u) as [b|]; [|by split].
    destruct (recent_p95_ms (provider t)) as [m|]; [|by split].
    split; [by intros H; apply H|]. by intros H ? ? [= <-] [= <-]. }
  destruct (upstream_latency_budget u) as [b|], (recent_p95_ms (provider t)) as [m|];
    try destruct (Z.ltb_spec b m); destruct over; simpl; rewrite ?Htier, ?Hlat, ?Hcap; intuition (discriminate || lia).
Qed.

(** The filter keeps, in the chain's order, exactly the targets whose
    upstream passes the three axes (or is not configured), skips every other
    target with the first axis it fails, in the order tier, latency, cap, and
    loses none. *)
Theorem filter_chain_spec chain route request config :
  let o := filter_chain chain route request config in
  survivors o = List.filter (λ t, bool_decide (verdict route request config t = None)) chain ∧
  skipped o = omap (λ t, (λ r, {| skip_upstream := provider t; skip_reason := r |}) <$>
                           verdict route request config t) chain ∧
  (length (survivors o) + length (skipped o) = length chain)%nat ∧
  ∀ t, t ∈ chain →
    match upstreams config !! provider t with
    | None => verdict route request config t = None
    | Some u =>
        match verdict route request config t with
        | None => passes_tier route u ∧ passes_latency (provider t) u ∧ passes_cap route request u
        | Some TierReason => ¬ passes_tier route u
        | Some Latency => passes_tier route u ∧ ¬ passes_latency (provider t) u
        | Some Cap => passes_tier route u ∧ passes_latency (provider t) u ∧ ¬ passes_cap route request u
        | Some LatencyUnknown => False
        end
    end.
Proof.
  intros o. assert (Hfold : ∀ o0, foldl (filter_target route request config) o0 chain =
    {| survivors := survivors o0 ++
         List.filter (λ t, bool_decide (verdict route request config t = None)) chain;
       skipped := skipped o0 ++ omap (λ t, (λ r, {| skip_upstream := provider t; skip_reason := r |}) <$>
         verdict route request config t) chain;
       notes := notes o0 ++ mjoin (noted route request config <$> chain) |}).
  { clear o. induction chain as [|t chain IH]; intros o0; csimpl.
    - rewrite !app_nil_r. by destruct o0.
    - rewrite IH, filter_target_spec. simpl. destruct (verdict route request config t); simpl;
        by rewrite <- !app_assoc, ?app_nil_r. }
  unfold o, filter_chain. rewrite Hfold. simpl. split_and!; [done..| |].
  - clear. induction chain as [|t chain IH]; [done|]. csimpl.
    destruct (verdict route request config t); case_bool_decide; simplify_eq; csimpl; csimpl in IH; lia.
  - intros t _. apply verdict_spec.
Qed.
End CostFilter.
