(* ===== verification/StaticRoutes.v ===== *)
(** * Static routing (crates/router/src/static_routes.rs)

    [from_config] builds the exact, prefix and wildcard tables of a
    configuration's routes; [resolve_route] looks a model up in them.  A panic
    of [from_config] (an [expect] or an index out of range) is [None]. *)
From S2P Require Import Prelude Float64 Json CoreTypes Breaker Retry Config Request.
#[local] Open Scope string_scope.
#[local] Open Scope list_scope.
#[local] Open Scope nat_scope.

#[export] Instance FrontendKind_eq_dec : EqDecision FrontendKind.
Proof. solve_decision. Defined.
#[export] Instance FrontendKind_countable : Countable FrontendKind.
Proof.
  refine (inj_countable' (λ d, match d with AnthropicMessages => 0 | OpenAiChat => 1 | OpenAiResponses => 2 end)
    (λ n, match n with 0 => AnthropicMessages | 1 => OpenAiChat | _ => OpenAiResponses end) _).
  by intros [].
Defined.

Record WildcardTarget := {
  wc_provider : string; wc_upstream_model : string; wc_policy : RoutePolicy }.
Record PrefixRoute := {
  prefix_str : string;
  prefix_chain : list BackendTarget;
  upstream_model_passthrough : bool;
  prefix_entry : RouteEntry;
}.
Record StaticRouter := {
  exact : gmap (FrontendKind * string) (list BackendTarget);
  exact_entries : gmap (FrontendKind * string) RouteEntry;
  prefixes : gmap FrontendKind (list PrefixRoute);
  wildcards : gmap FrontendKind WildcardTarget;
  wildcard_entries : gmap FrontendKind RouteEntry;
}.
Definition empty_router : StaticRouter := {|
  exact := ∅; exact_entries := ∅; prefixes := ∅; wildcards := ∅; wildcard_entries := ∅ |}.

Record ResolvedRoute := {
  chain : list BackendTarget;
  rr_retry : RetryConfig;
  rr_breaker : BreakerConfig;
  route_label : string;
}.
Inductive RouteError := NoRoute (frontend : FrontendKind) (m : string).

(** ** Building the tables *)
Definition frontend_of (s : string) : option FrontendKind :=
  if bool_decide (s = "anthropic_messages" ∨ s = "anthropic") then Some AnthropicMessages
  else if bool_decide (s = "openai_chat" ∨ s = "openai") then Some OpenAiChat
  else if bool_decide (s = "openai_responses" ∨ s = "responses") then Some OpenAiResponses
  else None.

Definition entry_policy (entry : RouteEntry) : RoutePolicy := {|
  default_reasoning_effort := re_reasoning_effort entry ≫= parse_effort;
  default_anthropic_beta := re_anthropic_beta entry;
  reasoning_mapping :=
    omap (λ rule,
      m ← parse_effort (match_str rule); s ← parse_effort (set_str rule);
      Some {| rule_match := m; rule_set := s |}) (re_reasoning_mapping entry) |}.

Definition entry_targets (entry : RouteEntry) : option (list BackendTarget) :=
  let policy := entry_policy entry in
  if negb (bool_decide (re_upstreams entry = [])) then
    Some ((λ u, {| provider := ref_name u; model := ref_model u; policy := policy |})
            <$> re_upstreams entry)
  else
    p ← re_upstream entry; m ← re_upstream_model entry;
    Some [{| provider := p; model := m; policy := policy |}].

Definition set_exact (k : FrontendKind * string) (t : list BackendTarget) (e : RouteEntry) (r : StaticRouter) := {|
  exact := <[k := t]> (exact r); exact_entries := <[k := e]> (exact_entries r);
  prefixes := prefixes r; wildcards := wildcards r; wildcard_entries := wildcard_entries r |}.
Definition set_prefixes (p : gmap FrontendKind (list PrefixRoute)) (r : StaticRouter) := {|
  exact := exact r; exact_entries := exact_entries r;
  prefixes := p; wildcards := wildcards r; wildcard_entries := wildcard_entries r |}.
Definition set_wildcard (k : FrontendKind) (w : WildcardTarget) (e : RouteEntry) (r : StaticRouter) := {|
  exact := exact r; exact_entries := exact_entries r; prefixes := prefixes r;
  wildcards := <[k := w]> (wildcards r); wildcard_entries := <[k := e]> (wildcard_entries r) |}.

(** The body of [for entry in &cfg.routes]. *)
Definition add_entry (r : StaticRouter) (entry : RouteEntry) : option StaticRouter :=
  match frontend_of (re_frontend entry) with
  | None => Some r
  | Some frontend =>
      targets ← entry_targets entry;
      if bool_decide (re_model entry = "*") then
        head ← head targets;
        Some (set_wildcard frontend
                {| wc_provider := provider head; wc_upstream_model := model head;
                   wc_policy := entry_policy entry |} entry r)
      else
        match strip_last star (re_model entry) with
        | Some prefix =>
            let route := {|
              prefix_str := prefix; prefix_chain := targets;
              upstream_model_passthrough :=
                bool_decide (re_upstreams entry = []) &&
                bool_decide (re_upstream_model entry = Some "*");
              prefix_entry := entry |} in
            let bucket := default [] (prefixes r !! frontend) in
            let bucket := List.filter (λ x, negb (bool_decide (prefix_str x = prefix))) bucket ++ [route] in
            Some (set_prefixes (<[frontend := bucket]> (prefixes r)) r)
        | None => Some (set_exact (frontend, re_model entry) targets entry r)
        end
  end.

Fixpoint add_entries (r : StaticRouter) (l : list RouteEntry) : option StaticRouter :=
  match l with
  | [] => Some r
  | e :: l' => r' ← add_entry r e; add_entries r' l'
  end.

Definition sort_prefixes (r : StaticRouter) : StaticRouter :=
  set_prefixes (sort_by_key_reverse (λ p, String.length (prefix_str p)) <$> prefixes r) r.

Definition from_config (cfg : GatewayConfig) : option StaticRouter :=
  sort_prefixes <$> add_entries empty_router (routes cfg).

(** ** Looking a model up *)
Definition frontend_kind_str (f : FrontendKind) : string :=
  match f with
  | AnthropicMessages => "anthropic_messages"
  | OpenAiChat => "openai_chat"
  | OpenAiResponses => "openai_responses"
  end.
Definition make_route_label (f : FrontendKind) (m : string) : string :=
  (frontend_kind_str f ++ "/" ++ m)%string.

Definition retarget_head (m : string) (l : list BackendTarget) : list BackendTarget :=
  match l with
  | t :: l' => {| provider := provider t; model := m; policy := policy t |} :: l'
  | [] => []
  end.

Definition resolve_route (self : StaticRouter) (frontend : FrontendKind) (m : string)
    : result ResolvedRoute RouteError :=
  match exact self !! (frontend, m) with
  | Some targets =>
      Ok {| chain := targets;
            rr_retry := default default_retry_config (re_retry <$> exact_entries self !! (frontend, m));
            rr_breaker := default default_breaker_config (re_breaker <$> exact_entries self !! (frontend, m));
            route_label := make_route_label frontend m |}
  | None =>
      match list_find (λ p, starts_with m (prefix_str p) = true) (default [] (prefixes self !! frontend)) with
      | Some (_, pr) =>
          Ok {| chain := if upstream_model_passthrough pr then retarget_head m (prefix_chain pr)
                         else prefix_chain pr;
                rr_retry := re_retry (prefix_entry pr);
                rr_breaker := re_breaker (prefix_entry pr);
                route_label := make_route_label frontend m |}
      | None =>
          match wildcards self !! frontend with
          | Some wc =>
              let upstream_model :=
                if bool_decide (wc_upstream_model wc = "*") then m else wc_upstream_model wc in
              Ok {| chain := [{| provider := wc_provider wc; model := upstream_model; policy := wc_policy wc |}];
                    rr_retry := default default_retry_config (re_retry <$> wildcard_entries self !! frontend);
                    rr_breaker := default default_breaker_config (re_breaker <$> wildcard_entries self !! frontend);
                    route_label := make_route_label frontend m |}
          | None => Err (NoRoute frontend m)
          end
      end
  end.

(** [Router::list_routes], in the (unspecified) order of the map. *)
Definition list_routes (self : StaticRouter) : list (FrontendKind * string) :=
  (map_to_list (exact_entries self)).*1.

(** ** The reference: the best matching entry of the configuration *)
Inductive pattern := Exact (m : string) | Prefix (p : string) | AnyModel.
#[export] Instance pattern_eq_dec : EqDecision pattern.
Proof. solve_decision. Defined.

Definition entry_pattern (e : RouteEntry) : pattern :=
  if bool_decide (re_model e = "*") then AnyModel
  else match strip_last star (re_model e) with Some p => Prefix p | None => Exact (re_model e) end.
Definition entry_key (e : RouteEntry) : option (FrontendKind * pattern) :=
  (λ k, (k, entry_pattern e)) <$> frontend_of (re_frontend e).

Definition matches (p : pattern) (m : string) : bool :=
  match p with Exact x => bool_decide (x = m) | Prefix x => starts_with m x | AnyModel => true end.
(** Exact names beat prefixes, longer prefixes shorter ones, and all beat [*]. *)
Definition specificity (p : pattern) : option nat :=
  match p with Exact _ => None | Prefix x => Some (S (String.length x)) | AnyModel => Some 0 end.
Definition at_most (a b : option nat) : Prop :=
  match a, b with _, None => True | None, Some _ => False | Some x, Some y => x ≤ y end.

(** The entry that answers: nothing matching is more specific, and nothing as
    specific comes later. *)
Definition selected (l : list RouteEntry) (k : FrontendKind) (m : string) (e : RouteEntry) : Prop :=
  ∃ l1 l2, l = l1 ++ e :: l2 ∧ frontend_of (re_frontend e) = Some k ∧
    matches (entry_pattern e) m = true ∧
    (∀ e', e' ∈ l → frontend_of (re_frontend e') = Some k → matches (entry_pattern e') m = true →
       at_most (specificity (entry_pattern e')) (specificity (entry_pattern e))) ∧
    (∀ e', e' ∈ l2 → frontend_of (re_frontend e') = Some k → matches (entry_pattern e') m = true →
       specificity (entry_pattern e') ≠ specificity (entry_pattern e)).

(** What an entry answers with. *)
Definition answer_of (e : RouteEntry) (k : FrontendKind) (m : string) : ResolvedRoute :=
  let targets := default [] (entry_targets e) in
  {| chain :=
       match entry_pattern e with
       | Exact _ => targets
       | Prefix _ =>
           if bool_decide (re_upstreams e = []) && bool_decide (re_upstream_model e = Some "*")
           then retarget_head m targets else targets
       | AnyModel =>
           match targets with
           | t :: _ => [if bool_decide (model t = "*") then {| provider := provider t; model := m; policy := policy t |} else t]
           | [] => []
           end
       end;
     rr_retry := re_retry e; rr_breaker := re_breaker e; route_label := make_route_label k m |}.

(** ** The tables hold the last entry of each key *)
Definition last_entry (key : FrontendKind * pattern) (l : list RouteEntry) : option RouteEntry :=
  last (filter (λ e, entry_key e = Some key) l).

Lemma last_entry_snoc key l e :
  last_entry key (l ++ [e]) = if decide (entry_key e = Some key) then Some e else last_entry key l.
Proof.
  unfold last_entry. rewrite filter_app. case_decide.
  - rewrite filter_cons_True, filter_nil by done. by rewrite last_snoc.
  - rewrite filter_cons_False, filter_nil by done. by rewrite app_nil_r.
Qed.

Definition prefix_route (p : string) (e : RouteEntry) : PrefixRoute := {|
  prefix_str := p; prefix_chain := default [] (entry_targets e);
  upstream_model_passthrough :=
    bool_decide (re_upstreams e = []) && bool_decide (re_upstream_model e = Some "*");
  prefix_entry := e |}.
Definition wildcard_of (e : RouteEntry) : option WildcardTarget :=
  h ← head (default [] (entry_targets e));
  Some {| wc_provider := provider h; wc_upstream_model := model h; wc_policy := entry_policy e |}.

Record built (l : list RouteEntry) (r : StaticRouter) : Prop := {
  built_exact k m : exact r !! (k, m) = last_entry (k, Exact m) l ≫= entry_targets;
  built_exact_entries k m : exact_entries r !! (k, m) = last_entry (k, Exact m) l;
  built_prefixes k pr : pr ∈ default [] (prefixes r !! k) ↔
    ∃ p e, last_entry (k, Prefix p) l = Some e ∧ pr = prefix_route p e;
  built_wildcards k : wildcards r !! k = last_entry (k, AnyModel) l ≫= wildcard_of;
  built_wildcard_entries k : wildcard_entries r !! k = last_entry (k, AnyModel) l;
}.

Definition has_targets (e : RouteEntry) : Prop := ∃ t ts, entry_targets e = Some (t :: ts).

Lemma entry_pattern_cases e :
  entry_pattern e =
  if bool_decide (re_model e = "*") then AnyModel
  else match strip_last star (re_model e) with Some p => Prefix p | None => Exact (re_model e) end.
Proof. done. Qed.

Lemma built_add_entry l r e :
  built l r → has_targets e → ∃ r', add_entry r e = Some r' ∧ built (l ++ [e]) r'.
Proof.
  intros [Hx Hxe Hp Hw Hwe] (t & ts & Ht). unfold add_entry.
  pose proof (entry_pattern_cases e) as Hpat.
  destruct (frontend_of (re_frontend e)) as [k|] eqn:Hk.
  2: { exists r. split; [done|]. assert (Hn : entry_key e = None) by (unfold entry_key; by rewrite Hk).
       split; intros; rewrite ?last_entry_snoc, ?Hn, ?decide_False by done; auto.
       rewrite Hp. split; intros (q & e' & He & ->); exists q, e'; rewrite last_entry_snoc, Hn, decide_False in * by done; done. }
  assert (Hkey : ∀ key, entry_key e = Some key ↔ key = (k, entry_pattern e)).
  { intros key. unfold entry_key. rewrite Hk. simpl. split; [by intros [= <-]|by intros ->]. }
  rewrite Ht. simpl.
  assert (Hother : ∀ key, key ≠ (k, entry_pattern e) → last_entry key (l ++ [e]) = last_entry key l).
  { intros key Hne. rewrite last_entry_snoc, decide_False; [done|]. by rewrite Hkey. }
  assert (Hself : last_entry (k, entry_pattern e) (l ++ [e]) = Some e).
  { rewrite last_entry_snoc, decide_True; [done|]. by apply Hkey. }
  case_bool_decide; simpl; [|destruct (strip_last star (re_model e)) as [p|]].
  - eexists. split; [done|]. split; simpl.
    + intros. rewrite Hother by congruence. auto.
    + intros. rewrite Hother by congruence. auto.
    + intros k' pr. rewrite Hp. by split; intros (q & e' & He & ->); exists q, e';
        rewrite Hother in * by congruence.
    + intros k'. destruct (decide (k' = k)) as [->|Hne].
      * rewrite lookup_insert_eq, <- Hpat, Hself. simpl. unfold wildcard_of. by rewrite Ht.
      * rewrite lookup_insert_ne by done. rewrite Hother by congruence. auto.
    + intros k'. destruct (decide (k' = k)) as [->|Hne].
      * by rewrite lookup_insert_eq, <- Hpat, Hself.
      * rewrite lookup_insert_ne by done. rewrite Hother by congruence. auto.
  - eexists. split; [done|]. split; simpl.
    + intros. rewrite Hother by congruence. auto.
    + intros. rewrite Hother by congruence. auto.
    + intros k' pr. destruct (decide (k' = k)) as [->|Hne].
      2: { rewrite lookup_insert_ne by done. rewrite Hp.
           by split; intros (q & e' & He & ->); exists q, e'; rewrite Hother in * by congruence. }
      rewrite lookup_insert_eq. simpl. rewrite elem_of_app, list_elem_of_singleton.
      rewrite list_elem_of_In, filter_In, <- list_elem_of_In, Hp.
      assert (Hroute : prefix_route p e = {| prefix_str := p; prefix_chain := t :: ts;
        upstream_model_passthrough := bool_decide (re_upstreams e = []) &&
          bool_decide (re_upstream_model e = Some "*"); prefix_entry := e |})
        by (unfold prefix_route; by rewrite Ht).
      rewrite <- Hroute. split.
      * intros [[(q & e' & He & ->) Hq]| ->].
        -- exists q, e'. split; [|done]. rewrite Hother; [done|]. intros Heq. assert (q = p) as -> by congruence.
           by rewrite bool_decide_eq_true_2 in Hq.
        -- exists p, e. by rewrite <- Hpat, Hself.
      * intros (q & e' & He & ->). destruct (decide (q = p)) as [->|Hq].
        -- right. rewrite <- Hpat, Hself in He. by injection He as ->.
        -- left. rewrite Hother in He by congruence. split; [eauto|]. simpl.
           by rewrite bool_decide_eq_false_2.
    + intros. rewrite Hother by congruence. auto.
    + intros. rewrite Hother by congruence. auto.
  - eexists. split; [done|]. split; simpl.
    + intros k' m'. destruct (decide ((k', m') = (k, re_model e))) as [[= -> ->]|Hne].
      * rewrite lookup_insert_eq, <- Hpat, Hself. simpl. by rewrite Ht.
      * rewrite lookup_insert_ne by done. rewrite Hother by congruence. auto.
    + intros k' m'. destruct (decide ((k', m') = (k, re_model e))) as [[= -> ->]|Hne].
      * by rewrite lookup_insert_eq, <- Hpat, Hself.
      * rewrite lookup_insert_ne by done. rewrite Hother by congruence. auto.
    + intros k' pr. rewrite Hp. by split; intros (q & e' & He & ->); exists q, e';
        rewrite Hother in * by congruence.
    + intros. rewrite Hother by congruence. auto.
    + intros. rewrite Hother by congruence. auto.
Qed.

Lemma built_add_entries l r l0 :
  built l0 r → Forall has_targets l → ∃ r', add_entries r l = Some r' ∧ built (l0 ++ l) r'.
Proof.
  intros Hb Hf. revert r l0 Hb. induction Hf as [|e l He Hf IH]; intros r l0 Hb.
  - exists r. by rewrite app_nil_r.
  - destruct (built_add_entry _ _ _ Hb He) as (r1 & Hr1 & Hb1). simpl. rewrite Hr1. simpl.
    destruct (IH _ _ Hb1) as (r' & Hr' & Hb'). exists r'. by rewrite <- app_assoc in Hb'.
Qed.

Lemma built_from_config cfg :
  validate_routes cfg = Ok tt →
  ∃ r, from_config cfg = Some (sort_prefixes r) ∧ built (routes cfg) r ∧ Forall has_targets (routes cfg).
Proof.
  intros Hv. unfold validate_routes in Hv. apply validate_from_index_forall in Hv.
  assert (Hf : Forall has_targets (routes cfg)).
  { eapply Forall_impl; [exact Hv|]. intros e He. unfold has_targets, entry_targets.
    destruct (validate_route_upstreams _ _ He) as [(Hne & _ & _)|(-> & u & m & -> & ->)].
    - rewrite bool_decide_eq_false_2 by done. simpl.
      destruct (re_upstreams e); [done|]. csimpl. eauto.
    - simpl. eauto. }
  destruct (built_add_entries (routes cfg) empty_router []) as (r & Hr & Hb); [|done|].
  - split; try done. intros k pr. simpl. split; [by intros ?%not_elem_of_nil|].
    intros (p & e & ? & _). done.
  - exists r. unfold from_config. by rewrite Hr.
Qed.

(** The last entry of a key splits the configuration. *)
Lemma last_entry_split key l e :
  last_entry key l = Some e →
  ∃ l1 l2, l = l1 ++ e :: l2 ∧ entry_key e = Some key ∧ Forall (λ x, entry_key x ≠ Some key) l2.
Proof.
  unfold last_entry. intros Hl. destruct (last_filter_Some _ _ _ Hl) as (l1 & l2 & -> & Hf).
  exists l1, l2. split; [done|]. split; [|done].
  apply last_Some_elem_of in Hl. by apply list_elem_of_filter in Hl as [? _].
Qed.
Lemma last_entry_None key l : last_entry key l = None → Forall (λ x, entry_key x ≠ Some key) l.
Proof.
  unfold last_entry. rewrite last_None. intros Hn. apply Forall_forall. intros x Hx Hk.
  assert (Hin : x ∈ filter (λ e, entry_key e = Some key) l) by by apply list_elem_of_filter.
  rewrite Hn in Hin. by apply not_elem_of_nil in Hin.
Qed.

(** The last entry of the most specific matching key is the selected one. *)
Lemma selected_last l k m pat e :
  last_entry (k, pat) l = Some e → matches pat m = true →
  (∀ e', e' ∈ l → frontend_of (re_frontend e') = Some k → matches (entry_pattern e') m = true →
     at_most (specificity (entry_pattern e')) (specificity pat) ∧
     (specificity (entry_pattern e') = specificity pat → entry_pattern e' = pat)) →
  selected l k m e ∧ entry_pattern e = pat.
Proof.
  intros Hl Hm Hbest. destruct (last_entry_split _ _ _ Hl) as (l1 & l2 & -> & Hk & Hf).
  unfold entry_key in Hk. destruct (frontend_of (re_frontend e)) as [k'|] eqn:Hfr; [|done].
  injection Hk as -> Hpat. split; [|done]. exists l1, l2. rewrite Hpat. split_and!; try done.
  - intros e' He' Hk' Hm'. by apply Hbest.
  - intros e' He' Hk' Hm' Heq.
    destruct (Hbest e') as [_ Hp]; [|done..|].
    { apply elem_of_app. right. by right. }
    rewrite Forall_forall in Hf. apply (Hf e' He'). unfold entry_key. by rewrite Hk', (Hp Heq).
Qed.

Lemma same_specificity p q m :
  matches p m = true → matches q m = true → specificity p = specificity q → p = q.
Proof.
  destruct p, q; simpl; try done.
  - by intros ->%bool_decide_eq_true ->%bool_decide_eq_true.
  - intros Hp Hq [= Hl]. f_equal. by eapply starts_with_same_length.
Qed.

Lemma last_entry_is_Some l k e :
  e ∈ l → frontend_of (re_frontend e) = Some k → is_Some (last_entry (k, entry_pattern e) l).
Proof.
  intros Hin Hk. destruct (last_entry (k, entry_pattern e) l) eqn:Hl; [done|].
  apply last_entry_None in Hl. rewrite Forall_forall in Hl. destruct (Hl e Hin).
  unfold entry_key. by rewrite Hk.
Qed.

Lemma last_entry_elem key l e : last_entry key l = Some e → e ∈ l.
Proof. intros (l1 & l2 & -> & _)%last_entry_split. apply elem_of_app. right. by left. Qed.

Section Lookup.
Variables (l : list RouteEntry) (r : StaticRouter) (k : FrontendKind) (m : string).
Hypothesis (Hb : built l r) (Hf : Forall has_targets l).

Lemma targets_of_entry key e :
  last_entry key l = Some e → ∃ t ts, entry_targets e = Some (t :: ts).
Proof using Hf. intros He%last_entry_elem. rewrite Forall_forall in Hf. by apply Hf. Qed.

(** What a matching entry of the frontend can be, tier by tier. *)
Lemma tier_prefixes e :
  last_entry (k, Exact m) l = None → e ∈ l → frontend_of (re_frontend e) = Some k →
  matches (entry_pattern e) m = true →
  entry_pattern e = AnyModel ∨
  ∃ q e', entry_pattern e = Prefix q ∧ starts_with m q = true ∧ last_entry (k, Prefix q) l = Some e'.
Proof using.
  intros Hn He Hk Hm. destruct (last_entry_is_Some _ _ _ He Hk) as [e' Hl].
  destruct (entry_pattern e) as [x|q|]; [|right|by left].
  - apply bool_decide_eq_true in Hm as ->. congruence.
  - exists q, e'. done.
Qed.

Lemma lookup_exact e :
  last_entry (k, Exact m) l = Some e → selected l k m e ∧ entry_pattern e = Exact m.
Proof using.
  intros He. apply selected_last; [done|by apply bool_decide_eq_true|].
  intros e' _ _ Hm. split; [by destruct (specificity _)|].
  intros Hs. eapply same_specificity; [done|by apply bool_decide_eq_true|done].
Qed.

Lemma lookup_prefix i pr :
  last_entry (k, Exact m) l = None →
  list_find (λ p, starts_with m (prefix_str p) = true)
    (default [] (prefixes (sort_prefixes r) !! k)) = Some (i, pr) →
  ∃ q e, pr = prefix_route q e ∧ selected l k m e ∧ entry_pattern e = Prefix q ∧
    last_entry (k, Prefix q) l = Some e.
Proof using Hb.
  intros Hn Hfind. cbn [sort_prefixes set_prefixes prefixes] in Hfind. rewrite lookup_fmap in Hfind.
  set (sort := sort_by_key_reverse (λ p, String.length (prefix_str p))) in *.
  assert (Hsort : default [] (sort <$> prefixes r !! k) = sort (default [] (prefixes r !! k)))
    by (by destruct (prefixes r !! k)).
  rewrite Hsort in Hfind.
  destruct (ascending_find _ _ _ _ _ (sort_by_key_reverse_ascending _ _) Hfind) as (Hst & Hin & Hmin).
  assert (Hel : ∀ x, x ∈ sort (default [] (prefixes r !! k)) ↔
    ∃ p e, last_entry (k, Prefix p) l = Some e ∧ x = prefix_route p e).
  { intros x. unfold sort. rewrite sort_by_key_reverse_perm. apply (built_prefixes _ _ Hb). }
  destruct (proj1 (Hel pr) Hin) as (q & e & He & ->). exists q, e. split; [done|].
  assert (Hs : selected l k m e ∧ entry_pattern e = Prefix q); [|naive_solver].
  apply selected_last; [done..|]. intros e' He' Hk' Hm'. split.
  - destruct (tier_prefixes e' Hn He' Hk' Hm') as [-> | (q' & e2 & -> & Hst' & Hl')]; simpl; [lia|].
    destruct (Hmin (prefix_route q' e2)) as [Heq|Hle]; [by apply Hel; eauto|done| |].
    + by injection Heq as ->.
    + apply Nat.leb_le in Hle. simpl in Hle. lia.
  - intros Hs. by eapply same_specificity.
Qed.

Lemma no_prefix e :
  last_entry (k, Exact m) l = None →
  list_find (λ p, starts_with m (prefix_str p) = true)
    (default [] (prefixes (sort_prefixes r) !! k)) = None →
  e ∈ l → frontend_of (re_frontend e) = Some k → matches (entry_pattern e) m = true →
  entry_pattern e = AnyModel.
Proof using Hb.
  intros Hn Hfind He Hk Hm.
  destruct (tier_prefixes e Hn He Hk Hm) as [|(q & e' & _ & Hst & Hl)]; [done|].
  apply list_find_None in Hfind. rewrite Forall_forall in Hfind.
  cbn [sort_prefixes set_prefixes prefixes] in Hfind. rewrite lookup_fmap in Hfind.
  destruct (Hfind (prefix_route q e')); [|done].
  pose proof (proj2 (built_prefixes _ _ Hb k (prefix_route q e')) (ex_intro _ q (ex_intro _ e' (conj Hl eq_refl)))) as Hin.
  destruct (prefixes r !! k); simpl in *; [by rewrite sort_by_key_reverse_perm|by apply not_elem_of_nil in Hin].
Qed.
End Lookup.

(** The answer is that of the selected entry. *)
Lemma resolve_route_answers cfg frontend m :
  validate_routes cfg = Ok tt →
  ∃ router, from_config cfg = Some router ∧
    match resolve_route router frontend m with
    | Ok r => ∃ e, selected (routes cfg) frontend m e ∧ r = answer_of e frontend m
    | Err e => e = NoRoute frontend m ∧
        ∀ e', e' ∈ routes cfg → frontend_of (re_frontend e') = Some frontend →
          matches (entry_pattern e') m = false
    end.
Proof.
  intros Hv. destruct (built_from_config cfg Hv) as (r & Hr & Hb & Hf).
  exists (sort_prefixes r). split; [done|]. unfold resolve_route.
  change (exact (sort_prefixes r)) with (exact r). change (exact_entries (sort_prefixes r)) with (exact_entries r).
  change (wildcards (sort_prefixes r)) with (wildcards r). change (wildcard_entries (sort_prefixes r)) with (wildcard_entries r).
  rewrite (built_exact _ _ Hb), (built_exact_entries _ _ Hb).
  destruct (last_entry (frontend, Exact m) (routes cfg)) as [e|] eqn:Hx; simpl.
  { destruct (lookup_exact _ _ _ _ Hx) as [Hs Hp].
    destruct (targets_of_entry _ Hf _ _ Hx) as (t & ts & Ht). rewrite Ht.
    exists e. split; [done|]. unfold answer_of. by rewrite Hp, Ht. }
  destruct (list_find _ _) as [[i pr]|] eqn:Hfind.
  { destruct (lookup_prefix _ _ _ _ Hb i pr Hx Hfind) as (q & e & -> & Hs & Hp & Hl).
    exists e. split; [done|]. unfold answer_of. by rewrite Hp. }
  rewrite (built_wildcards _ _ Hb), (built_wildcard_entries _ _ Hb).
  assert (Hany : ∀ e', e' ∈ routes cfg → frontend_of (re_frontend e') = Some frontend →
    matches (entry_pattern e') m = true → entry_pattern e' = AnyModel)
    by (intros; by eapply no_prefix).
  destruct (last_entry (frontend, AnyModel) (routes cfg)) as [e|] eqn:Hw; simpl.
  - destruct (targets_of_entry _ Hf _ _ Hw) as (t & ts & Ht).
    assert (Hs : selected (routes cfg) frontend m e ∧ entry_pattern e = AnyModel).
    { apply selected_last; [done..|]. intros e' He' Hk' Hm'. rewrite (Hany e' He' Hk' Hm').
      split; [simpl; lia|done]. }
    destruct Hs as [Hs Hp]. unfold wildcard_of. rewrite Ht. simpl.
    exists e. split; [done|]. unfold answer_of. rewrite Hp, Ht. simpl. f_equal. f_equal.
    assert (Hpol : policy t = entry_policy e).
    { unfold entry_targets in Ht. case_bool_decide; simpl in Ht.
      - destruct (re_upstream e), (re_upstream_model e); simpl in Ht; by simplify_eq.
      - destruct (re_upstreams e); [done|]. csimpl in Ht. by simplify_eq. }
    rewrite <- Hpol. case_bool_decide; [done|]. by destruct t.
  - split; [done|]. intros e' He' Hk'. destruct (matches _ m) eqn:Hm; [|done].
    destruct (last_entry_is_Some _ _ _ He' Hk') as [e2 Hl]. rewrite (Hany e' He' Hk' Hm) in Hl. congruence.
Qed.

(** C26: for a validated configuration the tables are built without a panic, and
    a model is answered by the most specific entry of its frontend that matches
    it (an exact name, else the longest prefix, else the catch-all), the last
    such entry when several are as specific, with that entry's targets and
    policies; there is no route exactly when no entry matches. *)
Theorem resolve_route_selects cfg frontend m :
  validate_routes cfg = Ok tt →
  ∃ router, from_config cfg = Some router ∧
    match resolve_route router frontend m with
    | Ok r => ∃ e, selected (routes cfg) frontend m e ∧ r = answer_of e frontend m
    | Err e => e = NoRoute frontend m ∧
        ∀ e', e' ∈ routes cfg → frontend_of (re_frontend e') = Some frontend →
          matches (entry_pattern e') m = false
    end.
Proof. apply resolve_route_answers. Qed.

(** A configuration with an array-form catch-all and a prefix route. *)
Module Samples.
Definition route (m : string) (us : list UpstreamRef) : RouteEntry := {|
  re_frontend := "anthropic"; re_model := m; re_upstream := None; re_upstream_model := None;
  re_upstreams := us; re_reasoning_effort := None; re_anthropic_beta := None;
  re_retry := default_retry_config; re_breaker := default_breaker_config;
  re_min_tier := None; re_max_cost_usd := None; re_plugins := None; re_reasoning_mapping := [] |}.
Definition up (n : string) : UpstreamRef := {| ref_name := n; ref_model := "m" |}.
Definition common : UpstreamCommon := {| tier := Standard; cost := None; p95_latency_budget_ms := None |}.
Definition http : HttpUpstream := {|
  base_url := "https://u"; api_key := "k"; default_headers := ∅; request_timeout_secs := 30;
  http_common := common |}.
Definition cfg : GatewayConfig := gateway_config
  (<["a" := OpenAiCompatible http]> (<["b" := Anthropic http "2023-06-01"]> ∅))
  [route "*" [up "a"; up "b"]; route "claude-*" [up "b"]; route "claude-3" [up "a"; up "b"]].

Lemma resolve_route_selects_witness :
  validate_routes cfg = Ok tt ∧
  ∃ router, from_config cfg = Some router ∧
    chain <$> result_ok (resolve_route router AnthropicMessages "claude-2") =
      Some [{| provider := "b"; model := "m"; policy := entry_policy (route "claude-*" [up "b"]) |}].
Proof.
  assert (Hv : validate_routes cfg = Ok tt) by (vm_compute; reflexivity).
  split; [exact Hv|].
  destruct (resolve_route_selects cfg AnthropicMessages "claude-2" Hv) as (router & Hr & _).
  exists router. split; [exact Hr|]. vm_compute in Hr. injection Hr as <-. vm_compute. reflexivity.
Defined.

(** The catch-all keeps only the first upstream of an array-form route: its
    configured fallbacks are dropped, while validation accepts the route. *)
Theorem wildcard_drops_fallbacks :
  validate_routes cfg = Ok tt ∧
  ∃ router, from_config cfg = Some router ∧
    (λ r, provider <$> chain r) <$> result_ok (resolve_route router AnthropicMessages "gpt") = Some ["a"] ∧
    (λ r, provider <$> chain r) <$> result_ok (resolve_route router AnthropicMessages "claude-3") = Some ["a"; "b"].
Proof.
  split; [vm_compute; reflexivity|]. eexists. split; [reflexivity|]. vm_compute. split; reflexivity.
Qed.
End Samples.
