(* ===== verification/Plugins.v ===== *)
(** * The plugin system (crates/plugins: trait_def.rs, error.rs, invoke.rs,
    log_fields.rs, registry.rs)

    A plugin's hooks are third-party code, a parameter: a hook call is a function
    of the deadline it is run under, acting on a world [W] (which contains the
    per-request scratch map of the context), and answers [None] when the runtime
    cuts it off.  [invoke] is the envelope around every call, [walk_request_hook]
    the chain of the request hooks, [wrap_stream] the chain of the stream hook and
    [build] the construction of the registry from the configuration.  The tasks
    of the response hook are in [Supervisor]. *)
From stdpp Require Import pretty.
From S2P Require Import Prelude Json Emit CoreTypes Config Request StaticRoutes.
#[local] Open Scope string_scope.
#[local] Open Scope list_scope.
#[local] Open Scope nat_scope.

(** ** Hooks *)
Inductive Hook := DecodedRequest | Resolved | StreamEventHook | ResponseComplete.
#[export] Instance Hook_eq_dec : EqDecision Hook.
Proof. solve_decision. Defined.
Definition hook_as_str (h : Hook) : string :=
  match h with
  | DecodedRequest => "on_decoded_request"
  | Resolved => "on_resolved"
  | StreamEventHook => "on_stream_event"
  | ResponseComplete => "on_response_complete"
  end.

(** [HookSet], a [u8] of one bit per hook. *)
Definition HookSet := Z.
Definition DECODED_REQUEST : HookSet := Z.shiftl 1 0.
Definition RESOLVED : HookSet := Z.shiftl 1 1.
Definition STREAM_EVENT : HookSet := Z.shiftl 1 2.
Definition RESPONSE_COMPLETE : HookSet := Z.shiftl 1 3.
Definition hook_bit (h : Hook) : Z :=
  match h with
  | DecodedRequest => Z.shiftl 1 0
  | Resolved => Z.shiftl 1 1
  | StreamEventHook => Z.shiftl 1 2
  | ResponseComplete => Z.shiftl 1 3
  end.
Definition hs_contains (s : HookSet) (h : Hook) : bool := negb (Z.land s (hook_bit h) =? 0)%Z.
Definition hs_bitor : HookSet → HookSet → HookSet := Z.lor.
Definition hs_empty : HookSet := 0%Z.
Definition hs_is_empty (s : HookSet) : bool := (s =? 0)%Z.
Definition hook_set_to_strs (s : HookSet) : list string :=
  hook_as_str <$> List.filter (hs_contains s) [DecodedRequest; Resolved; StreamEventHook; ResponseComplete].

(** ** Errors *)
Inductive OnError := Skip | Fail.
#[export] Instance OnError_eq_dec : EqDecision OnError.
Proof. solve_decision. Defined.
Inductive PluginError :=
| Timeout (plugin hook : string) (elapsed_ms : Z)
| Failed (plugin hook message : string)
| Aborted (plugin reason : string)
| ProtectedFieldMutated (plugin hook field : string).
Definition show_plugin_error (e : PluginError) : string :=
  match e with
  | Timeout p h ms => "plugin " ++ p ++ " timed out after " ++ pretty ms ++ "ms in " ++ h
  | Failed p h m => "plugin " ++ p ++ " failed in " ++ h ++ ": " ++ m
  | Aborted p r => "plugin " ++ p ++ " aborted request: " ++ r
  | ProtectedFieldMutated p h f => "plugin " ++ p ++ " modified protected field `" ++ f ++ "` in " ++ h
  end%string.

(** ** The plugin trait *)
Record PluginContext := { ctx_request_id : string; ctx_frontend : FrontendKind; ctx_route_label : string }.
Inductive UpstreamStatus := StatusSuccess | StatusError | StatusCancelled.

Section Trait.
Context `{J : JsonApi} {W : Type}.

Record ResponseSummary := { rs_usage : option Usage; rs_elapsed_ms : Z; rs_upstream_status : UpstreamStatus }.

(** A call under a deadline in milliseconds: the answer if it came in time, the
    time that passed, and the world after. *)
Definition hook_call (T : Type) : Type := Z → W → option (result T PluginError) * Z * W.
Record Plugin := {
  kind_name : string;
  hooks : HookSet;
  on_decoded_request : PluginContext → CanonicalRequest → hook_call CanonicalRequest;
  on_resolved : PluginContext → CanonicalRequest → BackendTarget → hook_call CanonicalRequest;
  on_stream_event : PluginContext → StreamEvent → hook_call (list StreamEvent);
  on_response_complete : PluginContext → ResponseSummary → hook_call unit;
}.
(** The default methods. *)
Definition done_at_once {T} (x : T) : hook_call T := λ _ w, (Some (Ok x), 0%Z, w).
Definition default_plugin (name : string) (hs : HookSet) : Plugin := {|
  kind_name := name; hooks := hs;
  on_decoded_request := λ _ req, done_at_once req;
  on_resolved := λ _ req _, done_at_once req;
  on_stream_event := λ _ event, done_at_once [event];
  on_response_complete := λ _ _, done_at_once tt |}.

(** ** Registry entries *)
Record HookTimeouts := {
  t_on_decoded_request : Z; t_on_resolved : Z; t_on_stream_event : Z; t_on_response_complete : Z;
}.
Definition default_timeouts : HookTimeouts := {|
  t_on_decoded_request := 50; t_on_resolved := 50; t_on_stream_event := 5; t_on_response_complete := 50 |}.
Definition uniform_timeouts (ms : Z) : HookTimeouts := {|
  t_on_decoded_request := ms; t_on_resolved := ms; t_on_stream_event := ms; t_on_response_complete := ms |}.
Definition for_hook (t : HookTimeouts) (h : Hook) : Z :=
  match h with
  | DecodedRequest => t_on_decoded_request t
  | Resolved => t_on_resolved t
  | StreamEventHook => t_on_stream_event t
  | ResponseComplete => t_on_response_complete t
  end.
Definition or_else {A} (x y : option A) : option A := match x with Some _ => x | None => y end.
Definition timeouts_from_yaml (yaml : TimeoutMs) : HookTimeouts :=
  match yaml with
  | Uniform ms => uniform_timeouts ms
  | PerHook dflt decoded resolved stream complete => {|
      t_on_decoded_request := default (t_on_decoded_request default_timeouts) (or_else decoded dflt);
      t_on_resolved := default (t_on_resolved default_timeouts) (or_else resolved dflt);
      t_on_stream_event := default (t_on_stream_event default_timeouts) (or_else stream dflt);
      t_on_response_complete := default (t_on_response_complete default_timeouts) (or_else complete dflt) |}
  end.

Record PluginEntry := {
  pe_name : string;
  pe_kind : string;
  pe_plugin : Plugin;
  pe_on_error : OnError;
  pe_timeouts : HookTimeouts;
  pe_enabled : bool;
}.

(** ** The envelope of a call *)
Inductive PluginOutcome :=
| OutSuccess | OutSkipped | OutFailed | OutTimedOut | OutAborted | OutProtectedFieldMutated.
#[export] Instance PluginOutcome_eq_dec : EqDecision PluginOutcome.
Proof. solve_decision. Defined.
Definition as_label (o : PluginOutcome) : string :=
  match o with
  | OutSuccess => "success" | OutSkipped => "skipped" | OutFailed => "failed"
  | OutTimedOut => "timed_out" | OutAborted => "aborted"
  | OutProtectedFieldMutated => "protected_field_mutated"
  end.
Inductive Level := LDebug | LInfo | LWarn | LError.
Definition outcome_level (o : PluginOutcome) (on_error : OnError) : Level :=
  match o, on_error with
  | OutSuccess, _ => LDebug
  | OutSkipped, _ => LWarn
  | OutFailed, _ => LError
  | OutTimedOut, Skip => LWarn
  | OutTimedOut, Fail => LError
  | OutAborted, _ => LInfo
  | OutProtectedFieldMutated, _ => LError
  end.

(** What an invocation reports: a log line and a metric. *)
Record PluginLogFields := {
  f_plugin_name : string; f_plugin_kind : string; f_plugin_hook : string; f_request_id : string;
  f_route : string; f_outcome : PluginOutcome; f_elapsed_ms : Z; f_on_error_policy : OnError;
  f_error : option string;
}.
Inductive PluginReport :=
| Logged (level : Level) (fields : PluginLogFields)
| Measured (kind name hook outcome : string) (elapsed_ms : Z).
#[local] Abbreviation M := (emit W PluginReport).

Definition emit_fields (f : PluginLogFields) : M unit :=
  if bool_decide (f_outcome f = OutSuccess ∧ f_plugin_hook f = "on_stream_event") then mret tt
  else push (Logged (outcome_level (f_outcome f) (f_on_error_policy f)) f).

Inductive InvokeOutcome (T : Type) := Success (value : T) | Skipped | Propagate (e : PluginError).
#[global] Arguments Success {T}.
#[global] Arguments Skipped {T}.
#[global] Arguments Propagate {T}.
Record InvokeArgs := {
  a_plugin_name : string; a_plugin_kind : string; a_hook : string; a_timeout_ms : Z; a_on_error : OnError;
}.
Definition args_from_entry (entry : PluginEntry) (h : Hook) : InvokeArgs := {|
  a_plugin_name := pe_name entry; a_plugin_kind := pe_kind entry; a_hook := hook_as_str h;
  a_timeout_ms := for_hook (pe_timeouts entry) h; a_on_error := pe_on_error entry |}.

Definition by_policy {T} (on_error : OnError) (e : PluginError) : InvokeOutcome T :=
  match on_error with Skip => Skipped | Fail => Propagate e end.
(** The match on the call's answer. *)
Definition classify {T} (args : InvokeArgs) (elapsed_ms : Z) (r : option (result T PluginError))
    : PluginOutcome * option string * InvokeOutcome T :=
  match r with
  | Some (Ok value) => (OutSuccess, None, Success value)
  | Some (Err (Aborted _ _ as err)) => (OutAborted, Some (show_plugin_error err), Propagate err)
  | Some (Err (ProtectedFieldMutated _ _ _ as err)) =>
      (OutProtectedFieldMutated, Some (show_plugin_error err), by_policy (a_on_error args) err)
  | Some (Err (Failed _ _ _ as err)) =>
      (match a_on_error args with Skip => OutSkipped | Fail => OutFailed end,
       Some (show_plugin_error err), by_policy (a_on_error args) err)
  | Some (Err (Timeout _ _ _ as err)) =>
      (OutTimedOut, Some (show_plugin_error err), by_policy (a_on_error args) err)
  | None =>
      let err := Timeout (a_plugin_name args) (a_hook args) elapsed_ms in
      (OutTimedOut, Some (show_plugin_error err), by_policy (a_on_error args) err)
  end.

(** [tokio::time::timeout]. *)
Definition run_call {T} (work : hook_call T) (timeout_ms : Z) : M (option (result T PluginError) * Z) :=
  λ w, let '(r, elapsed, w') := work timeout_ms w in ((r, elapsed), w', []).
Definition invoke {T} (args : InvokeArgs) (ctx : PluginContext) (work : hook_call T) : M (InvokeOutcome T) :=
  r ← run_call work (a_timeout_ms args);
  let '(outcome, err, returned) := classify args r.2 r.1 in
  emit_fields {|
    f_plugin_name := a_plugin_name args; f_plugin_kind := a_plugin_kind args; f_plugin_hook := a_hook args;
    f_request_id := ctx_request_id ctx; f_route := ctx_route_label ctx; f_outcome := outcome;
    f_elapsed_ms := r.2; f_on_error_policy := a_on_error args; f_error := err |};;
  push (Measured (a_plugin_kind args) (a_plugin_name args) (a_hook args) (as_label outcome) r.2);;
  mret returned.

(** The fields a plugin may not change. *)
Definition check_protected_fields (plugin_name hook : string) (before after : CanonicalRequest)
    : result unit PluginError :=
  let changed field := Err (ProtectedFieldMutated plugin_name hook field) in
  if negb (bool_decide (id before = id after)) then changed "id"
  else if negb (bool_decide (frontend_kind before = frontend_kind after ∧
                             requested_model before = requested_model after)) then changed "frontend"
  else if negb (bool_decide (req_model before = req_model after)) then changed "model"
  else if negb (bool_decide (stream before = stream after)) then changed "stream"
  else Ok tt.

(** ** Running the hooks *)
Inductive RequestHookKind := KDecodedRequest | KResolved (target : BackendTarget).
Definition request_call (k : RequestHookKind) (p : Plugin) (ctx : PluginContext) (req : CanonicalRequest)
    : hook_call CanonicalRequest :=
  match k with
  | KDecodedRequest => on_decoded_request p ctx req
  | KResolved target => on_resolved p ctx req target
  end.

Fixpoint walk_request_hook (ctx : PluginContext) (req : CanonicalRequest) (hook : Hook)
    (entries : list PluginEntry) (k : RequestHookKind) : M (result CanonicalRequest PluginError) :=
  match entries with
  | [] => mret (Ok req)
  | entry :: entries' =>
      if negb (pe_enabled entry) then walk_request_hook ctx req hook entries' k else
      outcome ← invoke (args_from_entry entry hook) ctx (request_call k (pe_plugin entry) ctx req);
      match outcome with
      | Success new_req =>
          match check_protected_fields (pe_name entry) (hook_as_str hook) req new_req with
          | Err e =>
              match pe_on_error entry with
              | Skip => walk_request_hook ctx req hook entries' k
              | Fail => mret (Err e)
              end
          | Ok _ => walk_request_hook ctx new_req hook entries' k
          end
      | Skipped => walk_request_hook ctx req hook entries' k
      | Propagate err => mret (Err err)
      end
  end.

Record RouteHookPlan := {
  p_on_decoded_request : list PluginEntry; p_on_resolved : list PluginEntry;
  p_on_stream_event : list PluginEntry; p_on_response_complete : list PluginEntry;
}.
Record FrontendRoutePlans := {
  specific : gmap string RouteHookPlan; wildcard : option RouteHookPlan; plans_empty : bool;
}.
Record PluginRegistry := { plugins : gmap string PluginEntry; plans : gmap FrontendKind FrontendRoutePlans }.
Definition empty_registry : PluginRegistry := {| plugins := ∅; plans := ∅ |}.

Definition lookup_plan (self : PluginRegistry) (frontend : FrontendKind) (model : string) : option RouteHookPlan :=
  fp ← plans self !! frontend;
  if plans_empty fp then None else
  match specific fp !! model with Some plan => Some plan | None => wildcard fp end.
Definition has_on_decoded_request_subscriber (self : PluginRegistry) (route : FrontendKind * string) : bool :=
  match lookup_plan self route.1 route.2 with
  | Some plan => match p_on_decoded_request plan with [] => false | _ => true end | None => false end.
Definition has_on_resolved_subscriber (self : PluginRegistry) (route : FrontendKind * string) : bool :=
  match lookup_plan self route.1 route.2 with
  | Some plan => match p_on_resolved plan with [] => false | _ => true end | None => false end.

Definition run_on_decoded_request (self : PluginRegistry) (route : FrontendKind * string) (ctx : PluginContext)
    (req : CanonicalRequest) : M (result CanonicalRequest PluginError) :=
  match lookup_plan self route.1 route.2 with
  | None => mret (Ok req)
  | Some plan =>
      match p_on_decoded_request plan with
      | [] => mret (Ok req)
      | entries => walk_request_hook ctx req DecodedRequest entries KDecodedRequest
      end
  end.
Definition run_on_resolved (self : PluginRegistry) (route : FrontendKind * string) (ctx : PluginContext)
    (req : CanonicalRequest) (target : BackendTarget) : M (result CanonicalRequest PluginError) :=
  match lookup_plan self route.1 route.2 with
  | None => mret (Ok req)
  | Some plan =>
      match p_on_resolved plan with
      | [] => mret (Ok req)
      | entries => walk_request_hook ctx req Resolved entries (KResolved target)
      end
  end.

(** *** The stream hook *)
(** One plugin over the buffer: [None] when an error propagates. *)
Fixpoint run_entry (ctx : PluginContext) (entry : PluginEntry) (buf : list StreamEvent)
    : M (result (list StreamEvent) PluginError) :=
  match buf with
  | [] => mret (Ok [])
  | ev :: buf' =>
      outcome ← invoke (args_from_entry entry StreamEventHook) ctx (on_stream_event (pe_plugin entry) ctx ev);
      match outcome with
      | Success events => next ← run_entry ctx entry buf'; mret (result_map (app events) next)
      | Skipped => next ← run_entry ctx entry buf'; mret (result_map (cons ev) next)
      | Propagate err => mret (Err err)
      end
  end.
Fixpoint run_entries (ctx : PluginContext) (entries : list PluginEntry) (buf : list StreamEvent)
    : M (result (list StreamEvent) PluginError) :=
  match entries with
  | [] => mret (Ok buf)
  | entry :: entries' =>
      if negb (pe_enabled entry) then run_entries ctx entries' buf else
      r ← run_entry ctx entry buf;
      match r with Ok next => run_entries ctx entries' next | Err e => mret (Err e) end
  end.
(** The closure of [wrap_stream] on one item. *)
Definition on_stream_item (ctx : PluginContext) (entries : list PluginEntry)
    (item : result StreamEvent StreamError) : M (list (result StreamEvent StreamError)) :=
  match item with
  | Err e => mret [Err e]
  | Ok event =>
      r ← run_entries ctx entries [event];
      match r with
      | Ok buf => mret (Ok <$> buf)
      | Err e => mret [Ok (ErrorEvent (show_plugin_error e))]
      end
  end.
(** [upstream.then(..).flat_map(iter)], on the items of the upstream. *)
Fixpoint wrap_items (ctx : PluginContext) (entries : list PluginEntry)
    (upstream : list (result StreamEvent StreamError)) : M (list (result StreamEvent StreamError)) :=
  match upstream with
  | [] => mret []
  | item :: upstream' =>
      out ← on_stream_item ctx entries item;
      rest ← wrap_items ctx entries upstream';
      mret (out ++ rest)
  end.
Definition wrap_stream (self : PluginRegistry) (route : FrontendKind * string) (ctx : PluginContext)
    (upstream : list (result StreamEvent StreamError)) : M (list (result StreamEvent StreamError)) :=
  match lookup_plan self route.1 route.2 with
  | Some plan =>
      match p_on_stream_event plan with
      | [] => mret upstream
      | entries => wrap_items ctx entries upstream
      end
  | None => mret upstream
  end.

(** *** The response hook: the tasks handed to the supervisor, in order *)
Definition response_task (entry : PluginEntry) (ctx : PluginContext) (summary : ResponseSummary) : M unit :=
  _ ← invoke (args_from_entry entry ResponseComplete) ctx (on_response_complete (pe_plugin entry) ctx summary);
  mret tt.
Definition run_on_response_complete (self : PluginRegistry) (route : FrontendKind * string)
    (ctx : PluginContext) (summary : ResponseSummary) : list (string * M unit) :=
  match lookup_plan self route.1 route.2 with
  | None => []
  | Some plan =>
      (λ entry, (pe_name entry, response_task entry ctx summary)) <$>
        List.filter pe_enabled (p_on_response_complete plan)
  end.

(** ** Construction *)
Context {ConfigError : Type}.
Record PluginFactory := {
  factory_kind : string;
  instantiate : string → Config.PluginEntry → result Plugin ConfigError;
}.
Inductive RegistryBuildError :=
| UnknownKind (plugin kind : string) (known : list string)
| Instantiation (e : ConfigError) (plugin : string)
| HookSubscriptionMismatch (frontend : FrontendKind) (model plugin hook : string) (subscribed : list string)
| DuplicateFactoryKind (kind : string)
| UndeclaredPluginReference (route hook plugin_name : string)
| UnknownFrontend (frontend : string).

Fixpoint index_factories (factories : list PluginFactory) (m : gmap string PluginFactory)
    : result (gmap string PluginFactory) RegistryBuildError :=
  match factories with
  | [] => Ok m
  | f :: factories' =>
      if bool_decide (is_Some (m !! factory_kind f)) then Err (DuplicateFactoryKind (factory_kind f))
      else index_factories factories' (<[factory_kind f := f]> m)
  end.

Definition instantiate_entry (factories : gmap string PluginFactory) (name : string) (spec : Config.PluginEntry)
    : result PluginEntry RegistryBuildError :=
  match factories !! kind spec with
  | None => Err (UnknownKind name (kind spec) (keys factories))
  | Some factory =>
      match instantiate factory name spec with
      | Err e => Err (Instantiation e name)
      | Ok plugin => Ok {|
          pe_name := name; pe_kind := kind_name plugin; pe_plugin := plugin;
          pe_on_error := match on_error spec with OnSkip => Skip | OnFail => Fail end;
          pe_timeouts := match timeout_ms spec with
                         | Some t => timeouts_from_yaml t | None => default_timeouts end;
          pe_enabled := plugin_enabled spec |}
      end
  end.
Fixpoint instantiate_all (factories : gmap string PluginFactory) (specs : list (string * Config.PluginEntry))
    (acc : gmap string PluginEntry) : result (gmap string PluginEntry) RegistryBuildError :=
  match specs with
  | [] => Ok acc
  | (name, spec) :: specs' =>
      let? entry := instantiate_entry factories name spec in
      instantiate_all factories specs' (<[name := entry]> acc)
  end.

Fixpoint resolve_hook (plugins : gmap string PluginEntry) (frontend : FrontendKind) (route : RouteEntry)
    (hook : Hook) (names : list string) : result (list PluginEntry) RegistryBuildError :=
  match names with
  | [] => Ok []
  | pname :: names' =>
      match plugins !! pname with
      | None => Err (UndeclaredPluginReference (re_frontend route ++ "/" ++ re_model route)%string (hook_as_str hook) pname)
      | Some entry =>
          if negb (hs_contains (hooks (pe_plugin entry)) hook)
          then Err (HookSubscriptionMismatch frontend (re_model route) pname (hook_as_str hook)
                      (hook_set_to_strs (hooks (pe_plugin entry))))
          else let? out := resolve_hook plugins frontend route hook names' in
               Ok (if pe_enabled entry then entry :: out else out)
      end
  end.
Definition block_is_empty (b : RoutePluginsBlock) : bool :=
  match iter_references b with [] => true | _ => false end.
Definition route_plan (plugins : gmap string PluginEntry) (frontend : FrontendKind) (route : RouteEntry)
    (b : RoutePluginsBlock) : result RouteHookPlan RegistryBuildError :=
  let? h2 := resolve_hook plugins frontend route DecodedRequest (rp_on_decoded_request b) in
  let? h3 := resolve_hook plugins frontend route Resolved (rp_on_resolved b) in
  let? h5 := resolve_hook plugins frontend route StreamEventHook (rp_on_stream_event b) in
  let? h7 := resolve_hook plugins frontend route ResponseComplete (rp_on_response_complete b) in
  Ok {| p_on_decoded_request := h2; p_on_resolved := h3; p_on_stream_event := h5;
        p_on_response_complete := h7 |}.

Definition add_plan (frontend : FrontendKind) (model : string) (plan : RouteHookPlan)
    (m : gmap FrontendKind FrontendRoutePlans) : gmap FrontendKind FrontendRoutePlans :=
  let fp := default {| specific := ∅; wildcard := None; plans_empty := false |} (m !! frontend) in
  <[frontend := if bool_decide (model = "*")
                then {| specific := specific fp; wildcard := Some plan; plans_empty := false |}
                else {| specific := <[model := plan]> (specific fp); wildcard := wildcard fp;
                        plans_empty := false |}]> m.
Fixpoint add_routes (plugins : gmap string PluginEntry) (routes : list RouteEntry)
    (m : gmap FrontendKind FrontendRoutePlans) : result (gmap FrontendKind FrontendRoutePlans) RegistryBuildError :=
  match routes with
  | [] => Ok m
  | route :: routes' =>
      match frontend_of (re_frontend route) with
      | None => Err (UnknownFrontend (re_frontend route))
      | Some frontend =>
          match re_plugins route with
          | None => add_routes plugins routes' m
          | Some b =>
              if block_is_empty b then add_routes plugins routes' m else
              let? plan := route_plan plugins frontend route b in
              add_routes plugins routes' (add_plan frontend (re_model route) plan m)
          end
      end
  end.

Definition build (factories : list PluginFactory) (plugin_specs : list (string * Config.PluginEntry))
    (route_specs : list RouteEntry) : result PluginRegistry RegistryBuildError :=
  let? factory_map := index_factories factories ∅ in
  let? plugins := instantiate_all factory_map plugin_specs ∅ in
  let? plans := add_routes plugins route_specs ∅ in
  Ok {| plugins := plugins; plans := plans |}.
End Trait.

(** ** What the envelope guarantees *)
Section Envelope.
Context `{J : JsonApi} {W : Type}.
#[local] Abbreviation M := (emit W PluginReport).
Implicit Types (entry : PluginEntry (W := W)) (req : CanonicalRequest) (self : PluginRegistry (W := W)).

Definition enabled_entries (l : list PluginEntry) : list (PluginEntry (W := W)) := List.filter pe_enabled l.
(** The plugins whose calls were measured, in order. *)
Definition measured (l : list PluginReport) : list string :=
  omap (λ r, match r with Measured _ name _ _ _ => Some name | Logged _ _ => None end) l.
Definition is_aborted (e : PluginError) : bool := match e with Aborted _ _ => true | _ => false end.
(** An error that leaves [entry]'s envelope: an abort, or under [Fail]. *)
Definition may_escape entry (e : PluginError) : Prop := is_aborted e = true ∨ pe_on_error entry = Fail.
Definition protected req := (id req, (frontend_kind req, requested_model req), req_model req, stream req).

Lemma run_invoke {T} args ctx (work : hook_call T) (w : W) :
  ∃ log kind hook label,
    invoke args ctx work w =
      (let '(r, elapsed, w') := work (a_timeout_ms args) w in
       ((classify args elapsed r).2, w', log ++ [Measured kind (a_plugin_name args) hook label elapsed])) ∧
    measured log = [].
Proof.
  unfold invoke, run_call, mbind, emit_bind, push, mret, emit_ret.
  destruct (work (a_timeout_ms args) w) as [[r elapsed] w']. simpl.
  destruct (classify args elapsed r) as [[o err] ret] eqn:Hc. unfold emit_fields. simpl.
  case_bool_decide; simpl; [exists []|eexists [_]]; by eexists _, _, _.
Qed.
Lemma measured_app l1 l2 : measured (l1 ++ l2) = measured l1 ++ measured l2.
Proof. apply omap_app. Qed.

Lemma classify_escapes {T} entry h elapsed (r : option (result T PluginError)) e :
  (classify (args_from_entry entry h) elapsed r).2 = Propagate e → may_escape entry e.
Proof.
  unfold classify, by_policy, may_escape. simpl.
  destruct r as [[v|[]]|]; simpl; destruct (pe_on_error entry); intros [= <-]; auto.
Qed.
Lemma check_protected_ok name hook req new : check_protected_fields name hook req new = Ok tt →
  protected new = protected req.
Proof.
  unfold check_protected_fields, protected. repeat case_bool_decide; simpl; try done.
  destruct_and!. intros _. congruence.
Qed.
(** The outcome of one call in the request chain: the request goes on, changed
    only outside the protected fields, or an error escapes. *)
Lemma hook_walk_spec ctx k hook entries : ∀ req w,
  let '(r, _, reports) := walk_request_hook ctx req hook entries k w in
  match r with
  | Ok req' => protected req' = protected req ∧ measured reports = pe_name <$> enabled_entries entries
  | Err e => ∃ l1 entry l2, enabled_entries entries = l1 ++ entry :: l2 ∧
      measured reports = pe_name <$> l1 ++ [entry] ∧ may_escape entry e
  end.
Proof.
  induction entries as [|entry entries IH]; intros req w; [done|]. simpl.
  destruct (pe_enabled entry) eqn:Hen; simpl; [|apply IH].
  destruct (run_invoke (args_from_entry entry hook) ctx (request_call k (pe_plugin entry) ctx req) w)
    as (log & kd & hk & lb & Hrun & Hlog).
  unfold mbind, emit_bind. rewrite Hrun. destruct (request_call _ _ _ _ _ w) as [[r elapsed] w'].
  pose proof (classify_escapes entry hook elapsed r) as Hesc.
  set (rep := log ++ [_]). assert (Hrep : measured rep = [pe_name entry])
    by (unfold rep; by rewrite measured_app, Hlog).
  assert (Hgo : ∀ req', protected req' = protected req →
    let '(r, w2, reports) := walk_request_hook ctx req' hook entries k w' in
    match r with
    | Ok req2 => protected req2 = protected req ∧
        measured (rep ++ reports) = pe_name entry :: (pe_name <$> enabled_entries entries)
    | Err e => ∃ l1 en l2, entry :: enabled_entries entries = l1 ++ en :: l2 ∧
        measured (rep ++ reports) = pe_name <$> l1 ++ [en] ∧ may_escape en e
    end).
  { intros req' Hp. specialize (IH req' w'). destruct (walk_request_hook ctx req' hook entries k w') as [[[req2|e] w2] reports];
      rewrite measured_app, Hrep.
    - destruct IH as [-> ->]. done.
    - destruct IH as (l1 & en & l2 & -> & -> & He). by exists (entry :: l1), en, l2. }
  assert (Hstop : ∀ e, may_escape entry e → ∃ l1 en l2, entry :: enabled_entries entries = l1 ++ en :: l2 ∧
      measured (rep ++ []) = pe_name <$> l1 ++ [en] ∧ may_escape en e).
  { intros e He. exists [], entry, (enabled_entries entries). by rewrite app_nil_r, Hrep. }
  destruct (classify (args_from_entry entry hook) elapsed r).2 as [new| |e].
  - destruct (check_protected_fields _ _ req new) as [[]|e] eqn:Hch.
    + specialize (Hgo new (check_protected_ok _ _ _ _ Hch)). by destruct (walk_request_hook _ new _ _ _ _) as [[[] ?] ?].
    + destruct (pe_on_error entry) eqn:Hoe.
      * specialize (Hgo req eq_refl). by destruct (walk_request_hook _ req _ _ _ _) as [[[] ?] ?].
      * apply Hstop. by right.
  - specialize (Hgo req eq_refl). by destruct (walk_request_hook _ req _ _ _ _) as [[[] ?] ?].
  - apply Hstop. by apply Hesc.
Qed.

(** A plugin under [Skip] that never aborts and changes nothing when it answers
    in time: it may fail, be cut off or touch protected fields. *)
Definition inert_call {T} entry (same : T → Prop) (work : hook_call (W := W) T) : Prop :=
  pe_on_error entry = Skip ∧ ∀ t w,
    match (work t w).1.1 with
    | Some (Ok x) => same x
    | Some (Err e) => is_aborted e = false
    | None => True
    end.
Definition inert_request k ctx entry : Prop :=
  ∀ req, inert_call entry (λ new, new = req ∨ protected new ≠ protected req) (request_call k (pe_plugin entry) ctx req).
Definition inert_stream ctx entry : Prop :=
  ∀ ev, inert_call entry (λ evs, evs = [ev]) (on_stream_event (pe_plugin entry) ctx ev).

Lemma inert_classify {T} entry h same (work : hook_call T) t w elapsed :
  inert_call entry same work →
  match (classify (args_from_entry entry h) elapsed (work t w).1.1).2 with
  | Success x => same x
  | Skipped => True
  | Propagate _ => False
  end.
Proof.
  intros [Hs Hc]. specialize (Hc t w). unfold classify, by_policy. simpl. rewrite Hs.
  by destruct (work t w).1.1 as [[x|[]]|].
Qed.
Lemma walk_inert ctx k hook entries req : (∀ entry, entry ∈ enabled_entries entries → inert_request k ctx entry) →
  ∀ w, (walk_request_hook ctx req hook entries k w).1.1 = Ok req.
Proof.
  induction entries as [|entry entries IH]; intros Hin w; [done|]. simpl.
  unfold enabled_entries in Hin. simpl in Hin. destruct (pe_enabled entry); simpl; [|by apply IH].
  assert (Hrest : ∀ w, (walk_request_hook ctx req hook entries k w).1.1 = Ok req)
    by (apply IH; intros; apply Hin; by apply list_elem_of_further).
  destruct (run_invoke (args_from_entry entry hook) ctx (request_call k (pe_plugin entry) ctx req) w)
    as (log & kd & hk & lb & Hrun & _).
  pose proof (Hin entry (list_elem_of_here _ _) req) as Hi.
  pose proof (inert_classify entry hook _ _ (a_timeout_ms (args_from_entry entry hook)) w
    (request_call k (pe_plugin entry) ctx req (a_timeout_ms (args_from_entry entry hook)) w).1.2 Hi) as Hcl.
  destruct Hi as [Hs _]. unfold mbind, emit_bind. rewrite Hrun.
  destruct (request_call _ _ _ _ _ w) as [[r elapsed] w']. simpl in Hcl.
  destruct (classify (args_from_entry entry hook) elapsed r).2 as [new| |e]; [| |done].
  - destruct (check_protected_fields _ _ req new) as [[]|e] eqn:Hch.
    + destruct Hcl as [-> |Hne]; [|by destruct Hne; eapply check_protected_ok].
      specialize (Hrest w'). by destruct (walk_request_hook _ _ _ _ _ _) as [[? ?] ?].
    + rewrite Hs. specialize (Hrest w'). by destruct (walk_request_hook _ _ _ _ _ _) as [[? ?] ?].
  - specialize (Hrest w'). by destruct (walk_request_hook _ _ _ _ _ _) as [[? ?] ?].
Qed.

(** *** The stream hook *)
Lemma run_entry_spec ctx entry : ∀ buf w,
  let r := (run_entry ctx entry buf w).1.1 in
  (inert_stream ctx entry → r = Ok buf) ∧ ∀ e, r = Err e → may_escape entry e.
Proof.
  induction buf as [|ev buf IH]; intros w; [done|]. simpl.
  destruct (run_invoke (args_from_entry entry StreamEventHook) ctx (on_stream_event (pe_plugin entry) ctx ev) w)
    as (log & kd & hk & lb & Hrun & _).
  pose proof (inert_classify entry StreamEventHook (λ evs, evs = [ev]) (on_stream_event (pe_plugin entry) ctx ev)
    (a_timeout_ms (args_from_entry entry StreamEventHook)) w
    (on_stream_event (pe_plugin entry) ctx ev (a_timeout_ms (args_from_entry entry StreamEventHook)) w).1.2) as Hin.
  unfold mbind, emit_bind. rewrite Hrun. destruct (on_stream_event _ _ _ _ w) as [[r elapsed] w'].
  pose proof (classify_escapes entry StreamEventHook elapsed r) as Hesc. simpl in Hin.
  specialize (IH w'). destruct IH as [IH1 IH2].
  destruct (classify (args_from_entry entry StreamEventHook) elapsed r).2 as [evs| |e'].
  - destruct (run_entry ctx entry buf w') as [[[next|e] w2] l2]; simpl in *;
      (split; [intros Hi; specialize (IH1 Hi); simplify_eq/=; by rewrite (Hin (Hi ev))|naive_solver]).
  - destruct (run_entry ctx entry buf w') as [[[next|e] w2] l2]; simpl in *;
      (split; [intros Hi; specialize (IH1 Hi); by simplify_eq/=|naive_solver]).
  - simpl. split; [intros Hi; by destruct (Hin (Hi ev))|]. intros e [= <-]. by apply Hesc.
Qed.
Lemma run_entries_spec ctx entries : ∀ buf w,
  let r := (run_entries ctx entries buf w).1.1 in
  ((∀ entry, entry ∈ enabled_entries entries → inert_stream ctx entry) → r = Ok buf) ∧
  ∀ e, r = Err e → ∃ entry, entry ∈ enabled_entries entries ∧ may_escape entry e.
Proof.
  unfold enabled_entries. induction entries as [|entry entries IH]; intros buf w; [done|]. simpl.
  destruct (pe_enabled entry); simpl; [|apply IH].
  destruct (run_entry_spec ctx entry buf w) as [H1 H2]. unfold mbind, emit_bind.
  destruct (run_entry ctx entry buf w) as [[[next|e] w'] l1]; simpl in *.
  - destruct (IH next w') as [IH1 IH2]. destruct (run_entries ctx entries next w') as [[r w2] l2]; simpl in *. split.
    + intros Hi. specialize (H1 (Hi _ (list_elem_of_here _ _))). simplify_eq. apply IH1. intros en Hen.
      by apply Hi, list_elem_of_further.
    + intros e He. destruct (IH2 e He) as (en & Hen & ?). exists en. split; [by apply list_elem_of_further|done].
  - split.
    + intros Hi. by specialize (H1 (Hi _ (list_elem_of_here _ _))).
    + intros e' [= <-]. exists entry. split; [apply list_elem_of_here|by apply H2].
Qed.

(** What one upstream item becomes: an upstream error itself, unseen by the
    plugins; an event the events the plugins make of it, in the world they are
    reached in, or one error event for all of it. *)
Definition wrapped ctx entries (item : result StreamEvent StreamError)
    (out : list (result StreamEvent StreamError)) : Prop :=
  match item with
  | Err e => out = [Err e]
  | Ok ev => (∃ w buf, answer (run_entries ctx entries [ev]) w = Ok buf ∧ out = Ok <$> buf) ∨
      ∃ entry e, entry ∈ enabled_entries entries ∧ may_escape entry e ∧
        out = [Ok (ErrorEvent (show_plugin_error e))]
  end.
Lemma on_stream_item_spec ctx entries item w :
  let '(out, w', reports) := on_stream_item ctx entries item w in
  wrapped ctx entries item out ∧
  ((∀ entry, entry ∈ enabled_entries entries → inert_stream ctx entry) → out = [item]) ∧
  (is_ok item = false → w' = w ∧ reports = []).
Proof.
  destruct item as [ev|e]; [|done]. unfold on_stream_item.
  destruct (run_entries_spec ctx entries [ev] w) as [H1 H2]. unfold mbind, emit_bind.
  destruct (run_entries ctx entries [ev] w) as [[r w'] l] eqn:Hrun. simpl in *.
  destruct r as [buf|e]; simpl; (split; [|split; [|done]]).
  - left. exists w, buf. unfold answer. by rewrite Hrun.
  - intros Hi. specialize (H1 Hi). by simplify_eq.
  - right. destruct (H2 e eq_refl) as (en & ? & ?). by exists en, e.
  - intros Hi. by specialize (H1 Hi).
Qed.
Lemma wrap_items_spec ctx entries : ∀ upstream w,
  let out := (wrap_items ctx entries upstream w).1.1 in
  (∃ outs, out = concat outs ∧ Forall2 (wrapped ctx entries) upstream outs) ∧
  ((∀ entry, entry ∈ enabled_entries entries → inert_stream ctx entry) → out = upstream).
Proof.
  induction upstream as [|item upstream IH]; intros w; [by split; [exists []|]|]. simpl.
  pose proof (on_stream_item_spec ctx entries item w) as Hi. unfold mbind, emit_bind.
  destruct (on_stream_item ctx entries item w) as [[out w'] l]. destruct Hi as (Hw & Hi & _).
  specialize (IH w'). destruct (wrap_items ctx entries upstream w') as [[rest w2] l2]. simpl in *.
  destruct IH as [(outs & -> & Ho) Hrest]. split.
  - exists (out :: outs). split; [done|by constructor].
  - intros Hall. by rewrite (Hi Hall), (Hrest Hall).
Qed.

(** ** Properties *)
(** The two request hooks, by what they pass to the plugins. *)
Definition run_request_hook (k : RequestHookKind) self route ctx req : M (result CanonicalRequest PluginError) :=
  match k with
  | KDecodedRequest => run_on_decoded_request self route ctx req
  | KResolved target => run_on_resolved self route ctx req target
  end.
Definition subscribers (k : RequestHookKind) self (route : FrontendKind * string) : list (PluginEntry (W := W)) :=
  match lookup_plan self route.1 route.2 with
  | Some plan => match k with KDecodedRequest => p_on_decoded_request plan | KResolved _ => p_on_resolved plan end
  | None => []
  end.
Definition hook_of (k : RequestHookKind) : Hook :=
  match k with KDecodedRequest => DecodedRequest | KResolved _ => Resolved end.
Lemma run_request_hook_walk k self route ctx req (w : W) :
  run_request_hook k self route ctx req w =
  walk_request_hook ctx req (hook_of k) (subscribers k self route) k w.
Proof.
  unfold run_request_hook, run_on_decoded_request, run_on_resolved, subscribers.
  destruct k, (lookup_plan self route.1 route.2) as [[[] [] ? ?]|]; done.
Qed.

(** C39: whatever its plugins do, the chain of a request hook calls the enabled
    subscribers in order, up to the first whose error escapes: an abort, or any
    error under [Fail].  A request that comes out has the id, frontend, model
    and stream flag it went in with; and plugins under [Skip] that only fail,
    exceed their deadline or touch protected fields leave it as it was. *)
Theorem request_hooks_spec k self route ctx req (w : W) :
  let '(r, _, reports) := run_request_hook k self route ctx req w in
  let called := enabled_entries (subscribers k self route) in
  match r with
  | Ok req' => protected req' = protected req ∧ measured reports = pe_name <$> called
  | Err e => ∃ l1 entry l2, called = l1 ++ entry :: l2 ∧ measured reports = pe_name <$> l1 ++ [entry] ∧
      may_escape entry e
  end ∧
  ((∀ entry, entry ∈ called → inert_request k ctx entry) → r = Ok req).
Proof.
  rewrite run_request_hook_walk.
  pose proof (hook_walk_spec ctx k (hook_of k) (subscribers k self route) req w) as H.
  pose proof (walk_inert ctx k (hook_of k) (subscribers k self route) req) as Hi.
  specialize (Hi). destruct (walk_request_hook _ _ _ _ _ w) as [[r w'] reports] eqn:Hrun.
  split; [done|]. intros Hall. specialize (Hi Hall w). by rewrite Hrun in Hi.
Qed.

Definition stream_subscribers self (route : FrontendKind * string) : list (PluginEntry (W := W)) :=
  match lookup_plan self route.1 route.2 with Some plan => p_on_stream_event plan | None => [] end.

(** The stream hook works item by item: an upstream error passes unseen and
    in place, an event becomes the events its plugins make of it, or, when an
    error escapes, one error event; the stream goes on after it.  Without
    subscribers, or with plugins under [Skip] that only fail or exceed their
    deadline, the stream is the upstream's. *)
Theorem stream_hook_spec self route ctx upstream (w : W) :
  let out := answer (wrap_stream self route ctx upstream) w in
  let called := enabled_entries (stream_subscribers self route) in
  (∃ outs, out = concat outs ∧ Forall2 (wrapped ctx (stream_subscribers self route)) upstream outs) ∧
  ((∀ entry, entry ∈ called → inert_stream ctx entry) → out = upstream).
Proof.
  unfold wrap_stream, stream_subscribers.
  assert (Hid : let out := upstream in
    (∃ outs, out = concat outs ∧ Forall2 (wrapped ctx []) upstream outs) ∧
    ((∀ entry, entry ∈ enabled_entries [] → inert_stream ctx entry) → out = upstream)).
  { split; [|done]. exists ((λ item, [item]) <$> upstream). split.
    - induction upstream as [|item upstream IH]; [done|]. by f_equal/=.
    - apply Forall2_fmap_r, Forall_Forall2_diag, Forall_forall. intros [ev|e] _; [|done].
      left. by exists w, [ev]. }
  destruct (lookup_plan self route.1 route.2) as [plan|]; [|exact Hid].
  destruct (p_on_stream_event plan) as [|entry entries]; [exact Hid|].
  apply wrap_items_spec.
Qed.
End Envelope.

Module Samples.
#[local] Instance plugin_json : JsonApi := TreeJson [].
Definition noop (name : string) (hs : HookSet) : Plugin (W := unit) := default_plugin name hs.
Definition entry (p : Plugin (W := unit)) (policy : OnError) : PluginEntry := {|
  pe_name := kind_name p; pe_kind := kind_name p; pe_plugin := p; pe_on_error := policy;
  pe_timeouts := default_timeouts; pe_enabled := true |}.
Definition ctx : PluginContext := {| ctx_request_id := "r"; ctx_frontend := OpenAiChat; ctx_route_label := "OpenAiChat/m" |}.
Definition registry (plan : RouteHookPlan) : PluginRegistry (W := unit) :=
  {| plugins := ∅; plans := {[ OpenAiChat := {| specific := {[ "m" := plan ]}; wildcard := None; plans_empty := false |} ]} |}.

(** Fails on the start of a block. *)
Definition picky : Plugin (W := unit) := {|
  kind_name := "picky"; hooks := STREAM_EVENT;
  on_decoded_request := λ _ req, done_at_once req; on_resolved := λ _ req _, done_at_once req;
  on_stream_event := λ _ ev _ w,
    (Some (match ev with ContentBlockStart _ _ => Err (Failed "picky" "on_stream_event" "no") | _ => Ok [ev] end), 0%Z, w);
  on_response_complete := λ _ _, done_at_once tt |}.
(** The stream goes on after the error event, with the deltas of a block that
    was never started. *)
Theorem stream_continues_after_failure :
  answer (wrap_stream (registry {| p_on_decoded_request := []; p_on_resolved := [];
      p_on_stream_event := [entry picky Fail]; p_on_response_complete := [] |}) (OpenAiChat, "m") ctx
    [Ok (ContentBlockStart 0 Text); Ok (TextDelta 0 "hi"); Ok (ContentBlockStop 0)]) tt =
  [Ok (ErrorEvent "plugin picky failed in on_stream_event: no"); Ok (TextDelta 0 "hi"); Ok (ContentBlockStop 0)].
Proof. reflexivity. Qed.

(** Sends every request to another model. *)
Definition with_model (m : string) (req : CanonicalRequest) : CanonicalRequest := {|
  id := id req; frontend_kind := frontend_kind req; requested_model := requested_model req; req_model := m;
  system := system req; messages := messages req; tools := tools req; tool_choice := tool_choice req;
  generation := generation req; response_format := response_format req; stream := stream req;
  metadata := metadata req; inbound_anthropic_headers := inbound_anthropic_headers req;
  resolved_policy := resolved_policy req; extensions := extensions req |}.
Definition rerouter : Plugin (W := unit) := {|
  kind_name := "rerouter"; hooks := DECODED_REQUEST;
  on_decoded_request := λ _ req, done_at_once (with_model "other" req); on_resolved := λ _ req _, done_at_once req;
  on_stream_event := λ _ ev, done_at_once [ev]; on_response_complete := λ _ _, done_at_once tt |}.
(** The mutation is refused, and yet logged and counted as a success. *)
Definition request : CanonicalRequest := {|
  id := "r"; frontend_kind := OpenAiChat; requested_model := "m"; req_model := "m"; system := []; messages := [];
  tools := []; tool_choice := ChoiceAuto;
  generation := {| max_tokens := None; temperature := None; top_p := None; top_k := None; presence_penalty := None;
    frequency_penalty := None; stop_sequences := []; seed := None; reasoning := None |};
  response_format := None; stream := true;
  metadata := {| user_id := None; agent := None |}; inbound_anthropic_headers := [];
  resolved_policy := {| reasoning_effort := None; reasoning_budget_tokens := None; supported_efforts := None;
    supported_endpoints := None; anthropic_headers := [] |}; extensions := ∅ |}.
Theorem mutation_counted_as_success :
  run_on_decoded_request (registry {| p_on_decoded_request := [entry rerouter Fail]; p_on_resolved := [];
      p_on_stream_event := []; p_on_response_complete := [] |}) (OpenAiChat, "m") ctx request tt =
  (Err (ProtectedFieldMutated "rerouter" "on_decoded_request" "model"), tt,
   [Logged LDebug {| f_plugin_name := "rerouter"; f_plugin_kind := "rerouter"; f_plugin_hook := "on_decoded_request";
      f_request_id := "r"; f_route := "OpenAiChat/m"; f_outcome := OutSuccess; f_elapsed_ms := 0;
      f_on_error_policy := Fail; f_error := None |};
    Measured "rerouter" "rerouter" "on_decoded_request" "success" 0]).
Proof. reflexivity. Qed.
End Samples.
