(* ===== verification/Supervisor.v ===== *)
(** * The supervisor of response hooks (crates/plugins/src/supervisor.rs)

    Tasks are spawned per finished response and run on their own; at shutdown
    [flush_pending_h7] takes the task set, waits for it until a deadline and
    reports what is still pending.  Each critical section is one step; tasks and
    the shutdown interleave in any order. *)
From S2P Require Import Prelude.
#[local] Open Scope string_scope.
#[local] Open Scope list_scope.
#[local] Open Scope nat_scope.

(** The tasks in the join set, those a flush has taken out of it, and the
    pending counters, [u64]s. *)
Record Supervisor := {
  tasks : list string;
  taken : option (list string);
  pending : gmap string Z;
}.
Definition new_supervisor : Supervisor := {| tasks := []; taken := None; pending := ∅ |}.

(** [spawn_h7], up to the spawn. *)
Definition increment (name : string) (p : gmap string Z) : gmap string Z :=
  <[name := u64_add (default 0%Z (p !! name)) 1]> p.
(** The end of a task's body. *)
Definition decrement (name : string) (p : gmap string Z) : gmap string Z :=
  match p !! name with
  | None => p
  | Some cnt => let cnt := Z.max 0 (cnt - 1) in if (cnt =? 0)%Z then delete name p else <[name := cnt]> p
  end.

Inductive SupEvent :=
| Spawned (name : string)
| Finished (name : string)
| Panicked (name : string)
| FlushStarted
| Flushed (dropped : list (string * Z)).

(** A running task: in the join set, or taken by the flush. *)
Inductive leaves (name : string) : Supervisor → Supervisor → Prop :=
| leaves_tasks l1 l2 t p :
    leaves name {| tasks := l1 ++ name :: l2; taken := t; pending := p |}
                {| tasks := l1 ++ l2; taken := t; pending := p |}
| leaves_taken l l1 l2 p :
    leaves name {| tasks := l; taken := Some (l1 ++ name :: l2); pending := p |}
                {| tasks := l; taken := Some (l1 ++ l2); pending := p |}.
Definition set_pending (p : gmap string Z) (s : Supervisor) : Supervisor :=
  {| tasks := tasks s; taken := taken s; pending := p |}.

Inductive step : Supervisor → SupEvent → Supervisor → Prop :=
| step_spawn s name :
    step s (Spawned name) {| tasks := tasks s ++ [name]; taken := taken s; pending := increment name (pending s) |}
| step_finish s s' name :
    leaves name s s' → step s (Finished name) (set_pending (decrement name (pending s)) s')
(** A task whose plugin panics ends without the decrement. *)
| step_panic s s' name : leaves name s s' → step s (Panicked name) s'
| step_flush_start s : taken s = None →
    step s FlushStarted {| tasks := []; taken := Some (tasks s); pending := pending s |}
(** All done or the deadline: report, clear, and abort the survivors. *)
| step_flushed s l dropped : taken s = Some l → dropped ≡ₚ map_to_list (pending s) →
    step s (Flushed dropped) {| tasks := tasks s; taken := None; pending := ∅ |}.

(** The states after a history. *)
Inductive after : list SupEvent → Supervisor → Prop :=
| after_nil : after [] new_supervisor
| after_snoc h s e s' : after h s → step s e s' → after (h ++ [e]) s'.

(** The tasks that have not ended. *)
Definition alive (s : Supervisor) : list string := tasks s ++ default [] (taken s).
Definition count (name : string) (l : list string) : nat := length (filter (λ x, x = name) l).
Definition is_panic (e : SupEvent) : bool := match e with Panicked _ => true | _ => false end.
Definition is_spawn (e : SupEvent) : bool := match e with Spawned _ => true | _ => false end.
(** No task is spawned between the start and the end of a flush. *)
Fixpoint orderly (flushing : bool) (h : list SupEvent) : bool :=
  match h with
  | [] => true
  | e :: h' => negb (flushing && is_spawn e) &&
      orderly (match e with FlushStarted => true | Flushed _ => false | _ => flushing end) h'
  end.

Lemma count_app n l1 l2 : count n (l1 ++ l2) = count n l1 + count n l2.
Proof. unfold count. by rewrite filter_app, length_app. Qed.
Lemma count_cons n x l : count n (x :: l) = (if decide (x = n) then 1 else 0) + count n l.
Proof. unfold count. rewrite filter_cons. by destruct (decide (x = n)). Qed.
Lemma count_length n l : count n l ≤ length l.
Proof. apply length_filter. Qed.
Lemma leaves_count n s s' m : leaves n s s' →
  count m (alive s) = (if decide (n = m) then 1 else 0) + count m (alive s') ∧ pending s' = pending s ∧
  (taken s' = None ↔ taken s = None) ∧ length (alive s) = S (length (alive s')).
Proof.
  intros [l1 l2 t p|l l1 l2 p]; unfold alive; simpl; rewrite !count_app, !count_cons, ?count_app, !length_app;
    simpl; rewrite ?length_app; simpl; split_and!; try done; try case_decide; lia.
Qed.

Lemma lookup_increment n m p :
  increment n p !! m = if decide (n = m) then Some (u64_add (default 0%Z (p !! n)) 1) else p !! m.
Proof.
  unfold increment. destruct (decide (n = m)) as [->|]; [apply lookup_insert_eq|by apply lookup_insert_ne].
Qed.
(** The counters of a state in which every task has counted itself. *)
Definition counted (s : Supervisor) : Prop :=
  ∀ n, pending s !! n = if decide (count n (alive s) = 0) then None else Some (Z.of_nat (count n (alive s))).

Lemma counted_spawn s n : counted s → (Z.of_nat (length (alive s)) + 1 < 2 ^ 64)%Z → taken s = None →
  counted {| tasks := tasks s ++ [n]; taken := taken s; pending := increment n (pending s) |}.
Proof.
  intros Hc Hlt Ht m. specialize (Hc m) as Hm. specialize (Hc n). unfold alive in *. simpl. rewrite Ht in *. simpl in *.
  rewrite app_nil_r in *. rewrite lookup_increment, count_app, count_cons. change (count m []) with 0.
  pose proof (count_length n (tasks s)). destruct (decide (n = m)) as [->|].
  - rewrite decide_False by lia. f_equal. rewrite Hc. unfold u64_add.
    destruct (decide (count m (tasks s) = 0)); simpl; rewrite wrap64_small; unfold is_u64, u64_max; lia.
  - replace (count m (tasks s) + (0 + 0)) with (count m (tasks s)) by lia. done.
Qed.
Lemma counted_finish s s' n : counted s → leaves n s s' → counted (set_pending (decrement n (pending s)) s').
Proof.
  intros Hc Hl m. destruct (leaves_count n s s' m Hl) as (Hm & _). destruct (leaves_count n s s' n Hl) as (Hn & _).
  rewrite decide_True in Hn by done. pose proof (Hc n) as Hcn. pose proof (Hc m) as Hcm.
  unfold set_pending, decrement. simpl. change (alive {| tasks := tasks s'; taken := taken s'; pending := _ |}) with (alive s').
  rewrite Hcn. rewrite decide_False by lia. rewrite Hn.
  replace (Z.max 0 (Z.of_nat (1 + count n (alive s')) - 1)) with (Z.of_nat (count n (alive s'))) by lia.
  destruct (decide (n = m)) as [->|Hne].
  - destruct (Z.eqb_spec (Z.of_nat (count m (alive s'))) 0).
    + rewrite decide_True by lia. apply lookup_delete_eq.
    + rewrite decide_False by lia. apply lookup_insert_eq.
  - simpl in Hm. rewrite Hm in Hcm.
    destruct (Z.eqb_spec (Z.of_nat (count n (alive s'))) 0);
      [rewrite lookup_delete_ne by done|rewrite lookup_insert_ne by done]; exact Hcm.
Qed.

(** The invariant of an orderly history without panics. *)
Lemma orderly_snoc h e : ∀ b, orderly b (h ++ [e]) = true → orderly b h = true ∧
  (is_spawn e = true → foldl (λ b e, match e with FlushStarted => true | Flushed _ => false | _ => b end) b h = false).
Proof.
  induction h as [|x h IH]; intros b; simpl.
  - rewrite andb_true_r, negb_true_iff, andb_false_iff. split; [done|]. intros Hs. rewrite Hs in *. naive_solver.
  - rewrite !andb_true_iff. intros [-> H]. by apply IH in H as [-> ?].
Qed.
Lemma after_counted h s : after h s → orderly false h = true → Forall (λ e, is_panic e = false) h →
  (Z.of_nat (length h) < 2 ^ 64)%Z →
  counted s ∧ length (alive s) ≤ length h ∧
  (taken s = None ↔ foldl (λ b e, match e with FlushStarted => true | Flushed _ => false | _ => b end) false h = false) ∧
  (is_Some (taken s) → tasks s = []).
Proof.
  intros Ha. induction Ha as [|h s e s' Ha IH Hstep]; intros Ho Hp Hlt; [done|].
  apply orderly_snoc in Ho as [Ho Hsp]. apply Forall_app in Hp as [Hp He]. rewrite length_app in Hlt |- *. simpl in *.
  destruct IH as (Hc & Hlen & Ht & Htk); [done|done|lia|]. rewrite foldl_snoc.
  destruct Hstep as [s n|s s' n Hl|s s' n Hl|s Hn|s l dropped Hl Hd]; simpl in *.
  - assert (taken s = None) as Hn by (apply Ht; auto). split_and!; [apply counted_spawn; [done|lia|done]| |done|].
    + unfold alive in *. simpl. rewrite !length_app in *. simpl. lia.
    + rewrite Hn. by intros [].
  - destruct (leaves_count n s s' n Hl) as (_ & _ & Ht' & Hln). split_and!.
    + by apply counted_finish.
    + change (alive (set_pending _ s')) with (alive s'). lia.
    + by rewrite <- Ht, <- Ht'.
    + destruct Hl; simpl in *; [|by auto]. intros Hs. specialize (Htk Hs). by destruct l1.
  - inversion He as [|? ? H1 H2]. done.
  - split_and!; [| |done|done].
    + intros n. specialize (Hc n). unfold alive in *. simpl in *. by rewrite Hn, app_nil_r in Hc.
    + unfold alive in *. simpl in *. rewrite Hn, app_nil_r in Hlen. lia.
  - rewrite Htk in * by (rewrite Hl; eauto). unfold alive in *. simpl in *. split_and!; [|lia|done|by intros []].
    intros n. cbn [pending]. by rewrite lookup_empty.
Qed.

(** ** Properties *)

(** If no plugin panics and no task is spawned while the shutdown flushes,
    what the flush reports is exactly the tasks it aborts: per plugin, how many
    of those it took have not ended. *)
Theorem flush_reports_unfinished h s dropped s' :
  after h s → orderly false h = true → Forall (λ e, is_panic e = false) h →
  (Z.of_nat (length h) < 2 ^ 64)%Z → step s (Flushed dropped) s' →
  ∀ n c, (n, c) ∈ dropped ↔ c = Z.of_nat (count n (default [] (taken s))) ∧ (0 < c)%Z.
Proof.
  intros Ha Ho Hp Hlt Hs n c. destruct (after_counted h s Ha Ho Hp Hlt) as (Hc & _ & _ & Htk).
  inversion Hs as [| | | |? l ? Hl Hd]; subst. rewrite Hd, elem_of_map_to_list, (Hc n).
  unfold alive. rewrite Htk by (rewrite Hl; eauto). simpl. split.
  - case_decide; [done|]. intros [= <-]. split; [done|lia].
  - intros [-> Hpos]. by rewrite decide_False by lia.
Qed.

Module Samples.
(** Two tasks, one of which ends before the deadline. *)
Definition history : list SupEvent := [Spawned "audit"; Spawned "audit"; FlushStarted; Finished "audit"].
Definition state : Supervisor := {| tasks := []; taken := Some ["audit"]; pending := {[ "audit" := 1%Z ]} |}.
Lemma history_reaches : after history state.
Proof.
  change history with (((([] ++ [Spawned "audit"]) ++ [Spawned "audit"]) ++ [FlushStarted]) ++ [Finished "audit"]).
  econstructor; [econstructor; [econstructor; [econstructor; [constructor|constructor]|constructor]|by constructor]|].
  match goal with |- step ?s (Finished ?n) _ => pose proof (step_finish s _ n (leaves_taken n [] [] ["audit"] _)) as H end.
  exact H.
Qed.
Lemma flush_reports_unfinished_witness :
  step state (Flushed [("audit", 1%Z)]) {| tasks := []; taken := None; pending := ∅ |} ∧
  ("audit", 1%Z) ∈ [("audit", 1%Z)].
Proof.
  assert (Hs : step state (Flushed [("audit", 1%Z)]) {| tasks := []; taken := None; pending := ∅ |}).
  { apply (step_flushed state ["audit"]); [done|]. vm_compute. reflexivity. }
  split; [exact Hs|].
  apply (flush_reports_unfinished history state _ _ history_reaches eq_refl ltac:(repeat constructor)
    ltac:(vm_compute; reflexivity) Hs "audit" 1%Z).
  vm_compute. split; reflexivity.
Defined.

(** A plugin that panicked long ago is reported as dropped. *)
Theorem panicked_task_reported :
  ∃ s s', after [Spawned "audit"; Panicked "audit"; FlushStarted] s ∧ alive s = [] ∧
    step s (Flushed [("audit", 1%Z)]) s'.
Proof.
  eexists _, _. split.
  - apply (after_snoc [Spawned "audit"; Panicked "audit"] {| tasks := []; taken := None; pending := {[ "audit" := 1%Z ]} |});
      [|by constructor].
    apply (after_snoc [Spawned "audit"] {| tasks := ["audit"]; taken := None; pending := {[ "audit" := 1%Z ]} |}).
    + exact (after_snoc [] _ _ _ after_nil (step_spawn _ _)).
    + apply step_panic. exact (leaves_tasks "audit" [] [] None _).
  - split; [done|]. by apply (step_flushed _ []).
Qed.
End Samples.
