(* ===== verification/ModelIndex.v ===== *)
(** * The fuzzy model index (crates/router/src/model_index.rs) and the catalogue
    records (crates/core/src/catalog.rs)

    Scores are IEEE doubles.  [str::to_lowercase], Unicode's case folding, is a
    parameter whose law says what it does to ASCII. *)
From S2P Require Import Prelude Float64.
#[local] Open Scope string_scope.
#[local] Open Scope list_scope.
#[local] Open Scope nat_scope.

(** ** [core/src/catalog.rs] *)
Record ModelSupports := {
  vision : option bool; tool_calls : option bool; streaming : option bool;
  structured_outputs : option bool; reasoning_effort : option bool;
  reasoning_effort_values : option (list string);
}.
Record ModelMetadata := {
  context_window_tokens : option N;
  max_output_tokens : option N;
  family : option string;
  supports : ModelSupports;
  supported_endpoints : option (list string);
  version : option string;
  adaptive_thinking : option bool;
  thinking_budget_min : option N;
  thinking_budget_max : option N;
}.
(** [ModelMetadata::default()]. *)
Definition default_metadata : ModelMetadata := {|
  context_window_tokens := None; max_output_tokens := None; family := None;
  supports := {| vision := None; tool_calls := None; streaming := None; structured_outputs := None;
                 reasoning_effort := None; reasoning_effort_values := None |};
  supported_endpoints := None; version := None; adaptive_thinking := None;
  thinking_budget_min := None; thinking_budget_max := None |}.

Class Lowercase := { to_lowercase : string → string }.
Definition is_ascii : string → bool := all_chars (λ c, N.ltb (Ascii.N_of_ascii c) 128).
Class LowercaseLaws (L : Lowercase) : Prop := {
  to_lowercase_ascii : ∀ s, is_ascii s = true → to_lowercase s = to_ascii_lowercase s;
}.

Record ModelEntry := { original : string; normalized : string; tokens : list string }.
Record ModelIndex := {
  metadata : gmap string (gmap string ModelMetadata);
  fuzzy : gmap string (list ModelEntry);
}.

Section ModelIndex.
Context `{L : Lowercase}.

(** [split(['-', '_', '.', '/'])], by their codes. *)
Definition is_separator (c : Ascii.ascii) : bool :=
  bool_decide (Ascii.N_of_ascii c ∈ [45; 95; 46; 47]%N).
Fixpoint split_separators (s : string) : list string :=
  match s with
  | EmptyString => [EmptyString]
  | String c s' =>
      match split_separators s' with
      | [] => []
      | t :: ts => if is_separator c then EmptyString :: t :: ts else String c t :: ts
      end
  end.
Definition tokenize (name : string) : list string :=
  List.filter (λ s, negb (str_is_empty s)) (split_separators (to_lowercase name)).

Definition f64_ratio (a b : Z) : f64 := f64_div (f64_of_Z a) (f64_of_Z b).
Definition length_ratio (a b : string) : f64 :=
  f64_ratio (Z.of_nat (String.length a)) (Z.of_nat (String.length b)).
(** [0.8 + 0.2 * ratio]. *)
Definition prefix_score (ratio : f64) : f64 :=
  f64_add (f64_ratio 8 10) (f64_mul (f64_ratio 2 10) ratio).
(** [1.0 / (1.0 + i as f64)]. *)
Definition weight (i : nat) : f64 := f64_div f64_one (f64_add f64_one (f64_of_Z (Z.of_nat i))).

(** The two loops: matched and total weights over the requested tokens, then
    the weights of the candidate's further tokens. *)
Definition request_weights (requested_tokens candidate_tokens : list string) : f64 * f64 :=
  foldl (λ acc p,
    let '(weighted_matches, total_weight) := acc in
    let w := weight p.1 in
    (if bool_decide (p.2 ∈ candidate_tokens) then f64_add weighted_matches w else weighted_matches,
     f64_add total_weight w))
    (f64_zero, f64_zero) (imap pair requested_tokens).
Definition further_weights (requested_tokens candidate_tokens : list string) (total_weight : f64) : f64 :=
  foldl (λ total_weight p,
    if length requested_tokens <=? p.1 then f64_add total_weight (weight p.1) else total_weight)
    total_weight (imap pair candidate_tokens).

Definition score (requested_tokens candidate_tokens : list string) (req_norm cand_norm : string) : f64 :=
  if bool_decide (req_norm = cand_norm) then f64_one
  else if starts_with cand_norm req_norm then prefix_score (length_ratio req_norm cand_norm)
  else if starts_with req_norm cand_norm then prefix_score (length_ratio cand_norm req_norm)
  else if bool_decide (Nat.max (length requested_tokens) (length candidate_tokens) = 0) then f64_zero
  else
    let '(weighted_matches, total_weight) := request_weights requested_tokens candidate_tokens in
    f64_div weighted_matches (further_weights requested_tokens candidate_tokens total_weight).

Definition THRESHOLD : f64 := f64_ratio 1 2.
(** [f64::EPSILON], 2^-52. *)
Definition EPSILON : f64 := f64_ratio 1 (2 ^ 52).

Definition model_entry (name : string) : ModelEntry :=
  {| original := name; normalized := to_lowercase name; tokens := tokenize name |}.
Definition with_metadata (providers : gmap string (gmap string ModelMetadata)) : ModelIndex :=
  {| metadata := providers; fuzzy := (λ map, model_entry <$> keys map) <$> providers |}.
Definition from_ids (providers : gmap string (gset string)) : ModelIndex :=
  with_metadata (gset_to_gmap default_metadata <$> providers).
(** [ModelIndex::new], the legacy name of [from_ids], and [ModelIndex::empty]. *)
Definition new_index : gmap string (gset string) → ModelIndex := from_ids.
Definition empty_index : ModelIndex := {| metadata := ∅; fuzzy := ∅ |}.

(** The score of an entry for a request, as in the loop of [resolve]. *)
Definition entry_score (requested : string) (e : ModelEntry) : f64 :=
  score (tokenize requested) (tokens e) (to_lowercase requested) (normalized e).
(** The shorter name, then the lesser one. *)
Definition tie_break (e b : ModelEntry) : bool :=
  (String.length (original e) <? String.length (original b)) ||
  (bool_decide (String.length (original e) = String.length (original b)) &&
   String.ltb (original e) (original b)).
Definition dominated (s : f64) (entry : ModelEntry) (best : option ModelEntry) (best_score : f64) : bool :=
  match best with
  | None => f64_le THRESHOLD s
  | Some b => f64_lt best_score s || (f64_eq s best_score && tie_break entry b)
  end.
Definition best_entry (requested : string) (entries : list ModelEntry) : option ModelEntry :=
  (foldl (λ acc entry,
    let '(best_score, best) := acc in
    let s := entry_score requested entry in
    if dominated s entry best best_score then (s, Some entry) else (best_score, best))
    (f64_sub THRESHOLD EPSILON, None) entries).2.

Definition resolve (self : ModelIndex) (provider requested : string) : option string :=
  entries ← fuzzy self !! provider;
  match list_find (λ e, eq_ignore_ascii_case (normalized e) requested = true) entries with
  | Some (_, entry) => Some (original entry)
  | None => original <$> best_entry requested entries
  end.

(** [metadata], [provider_models], and [providers] in the order of the map. *)
Definition model_metadata (self : ModelIndex) (provider model : string) : option ModelMetadata :=
  metadata self !! provider ≫= λ map, map !! model.
Definition provider_models (self : ModelIndex) (provider : string) : list (string * ModelMetadata) :=
  default [] (entries <$> metadata self !! provider).
Definition index_providers (self : ModelIndex) : list string := (map_to_list (metadata self)).*1.
End ModelIndex.

(** ** The order of the candidates *)
Ltac ranks := repeat match goal with p : (Z * Z * Z)%type |- _ => destruct p as [[? ?] ?] end;
  unfold rank_lt in *; lia.

Section Order.
Context `{L : Lowercase} (requested : string).
#[local] Abbreviation sc := (entry_score requested).

(** [e] is preferred to [b] by the loop. *)
Definition beats (e b : ModelEntry) : bool :=
  f64_lt (sc b) (sc e) || (f64_eq (sc e) (sc b) && tie_break e b).

Lemma tie_break_spec e b : tie_break e b = true ↔
  (String.length (original e) < String.length (original b)) ∨
  (String.length (original e) = String.length (original b) ∧ String.ltb (original e) (original b) = true).
Proof.
  unfold tie_break. rewrite orb_true_iff, andb_true_iff, bool_decide_eq_true, Nat.ltb_lt. done.
Qed.
Lemma tie_break_trans e x b : tie_break e x = true → tie_break x b = true → tie_break e b = true.
Proof.
  rewrite !tie_break_spec. intros [?|[? H1]] [?|[? H2]]; [left; lia..|right].
  split; [lia|by eapply ltb_trans].
Qed.
Lemma tie_break_irrefl e : tie_break e e = false.
Proof.
  destruct (tie_break e e) eqn:H; [|done]. apply tie_break_spec in H as [?|[_ H]]; [lia|].
  by rewrite ltb_irrefl in H.
Qed.

Lemma beats_spec e b : beats e b = true ↔ ∃ p q, f64_rank (sc e) = Some p ∧ f64_rank (sc b) = Some q ∧
  (rank_lt q p ∨ p = q ∧ tie_break e b = true).
Proof.
  unfold beats. rewrite orb_true_iff, andb_true_iff, f64_lt_spec, f64_eq_spec. split.
  - intros [(q & p & Hq & Hp & Hlt)|[(p & Hp & Hq) Ht]].
    + exists p, q. auto.
    + exists p, p. auto.
  - intros (p & q & Hp & Hq & [Hlt|[-> Ht]]); [left; exists q, p; auto|right; eauto].
Qed.
Lemma beats_trans e x b : beats e x = true → beats x b = true → beats e b = true.
Proof.
  rewrite !beats_spec. intros (p & q & Hp & Hq & H1) (q' & r & Hq' & Hr & H2). simplify_eq.
  exists p, r. split_and!; [done..|].
  destruct H1 as [H1|[H1 T1]], H2 as [H2|[H2 T2]]; simplify_eq; [left; ranks|by left|by left|].
  right. split; [done|by eapply tie_break_trans].
Qed.
Lemma beats_irrefl e : beats e e = false.
Proof.
  destruct (beats e e) eqn:H; [|done]. apply beats_spec in H as (p & q & Hp & Hq & [H|[_ H]]); simplify_eq.
  - ranks.
  - by rewrite tie_break_irrefl in H.
Qed.

(** The best of a list: above the threshold and beaten by none. *)
Definition best_of (l : list ModelEntry) (best : option ModelEntry) : Prop :=
  match best with
  | None => ∀ e, e ∈ l → f64_le THRESHOLD (sc e) = false
  | Some b => b ∈ l ∧ f64_le THRESHOLD (sc b) = true ∧ ∀ e, e ∈ l → beats e b = false
  end.

Lemma threshold_above s s' : f64_le THRESHOLD s = true → f64_lt s s' = true → f64_le THRESHOLD s' = true.
Proof.
  rewrite !f64_le_spec, !orb_true_iff, !f64_lt_spec, !f64_eq_spec.
  intros [(p & q & Hp & Hq & H1)|(p & Hp & Hq)] (q' & r & Hq' & Hr & H2); simplify_eq; left.
  - exists p, r. split_and!; [done..|]. ranks.
  - eauto.
Qed.
Lemma threshold_equal s s' : f64_le THRESHOLD s = true → f64_eq s' s = true → f64_le THRESHOLD s' = true.
Proof.
  rewrite !f64_le_spec, !orb_true_iff, !f64_lt_spec, !f64_eq_spec.
  intros [(p & q & Hp & Hq & H1)|(p & Hp & Hq)] (r & Hr & Hr'); simplify_eq; [left|right]; eauto 6.
Qed.
(** A candidate below the threshold does not beat one above it. *)
Lemma below_threshold e b :
  f64_le THRESHOLD (sc e) = false → f64_le THRESHOLD (sc b) = true → beats e b = false.
Proof.
  intros He Hb. destruct (beats e b) eqn:H; [|done]. unfold beats in H.
  apply orb_true_iff in H as [H|[H _]%andb_true_iff].
  - by rewrite (threshold_above _ _ Hb H) in He.
  - by rewrite (threshold_equal _ _ Hb H) in He.
Qed.

Lemma best_entry_spec l : best_of l (best_entry requested l).
Proof.
  unfold best_entry. match goal with |- context [foldl ?f ?a l] => enough (H : best_of l (foldl f a l).2 ∧
    ∀ b, (foldl f a l).2 = Some b → (foldl f a l).1 = sc b) by apply H end.
  apply (foldl_prefix (λ pre acc, best_of pre acc.2 ∧ ∀ b, acc.2 = Some b → acc.1 = sc b)).
  { split; [|done]. by intros e ?%elem_of_nil. }
  intros pre e [bs best] _ [Hb Hs]. simpl in Hb, Hs.
  split; [|intros b; destruct (dominated _ _ _ _); simpl; [by intros [= ->]|apply Hs]].
  assert (Hsnoc : ∀ Q : ModelEntry → Prop, (∀ x, x ∈ pre → Q x) → Q e → ∀ x, x ∈ pre ++ [e] → Q x)
    by (intros Q H1 H2 x [Hx| ->%list_elem_of_singleton]%elem_of_app; auto).
  assert (Hlast : e ∈ pre ++ [e]) by (apply elem_of_app; right; by left).
  destruct best as [b|]; simpl in *.
  - rewrite (Hs b eq_refl). fold (beats e b). destruct Hb as (Hin & Ht & Hbest).
    destruct (beats e b) eqn:He; simpl.
    + split_and!; [done| |apply Hsnoc; [|apply beats_irrefl]].
      * unfold beats in He. apply orb_true_iff in He as [He|[He _]%andb_true_iff];
          [by eapply threshold_above|by eapply threshold_equal].
      * intros x Hx. destruct (beats x e) eqn:Hxe; [|done].
        rewrite <- (Hbest x Hx). symmetry. by eapply beats_trans.
    + split_and!; [apply elem_of_app; by left|done|by apply Hsnoc].
  - destruct (f64_le THRESHOLD (sc e)) eqn:He; simpl; [|by apply Hsnoc].
    split_and!; [done..|apply Hsnoc; [|apply beats_irrefl]]. intros x Hx. apply below_threshold; auto.
Qed.
End Order.

(** ** Lookup *)
Section Lookup.
Context `{L : Lowercase}.

(** The request names the model, up to ASCII case. *)
Definition named (requested m : string) : bool := eq_ignore_ascii_case (to_lowercase m) requested.
(** [m] is preferred to every other model of the catalogue by score, then
    length, then order. *)
Definition best_match (requested m : string) (models : gmap string ModelMetadata) : Prop :=
  f64_le THRESHOLD (entry_score requested (model_entry m)) = true ∧
  ∀ m', is_Some (models !! m') → beats requested (model_entry m') (model_entry m) = false.

Lemma elem_of_model_entries (models : gmap string ModelMetadata) e :
  e ∈ model_entry <$> keys models ↔ ∃ m, e = model_entry m ∧ is_Some (models !! m).
Proof.
  rewrite list_elem_of_fmap. split; intros (m & -> & Hm); exists m; (split; [done|]);
    by apply elem_of_keys.
Qed.

Lemma keys_ascending (models : gmap string ModelMetadata) : ascending String.leb (keys models).
Proof.
  unfold keys. pose proof (entries_ascending models) as H. induction (entries models) as [|p l IH]; [done|].
  destruct H as [Hp Hl]. csimpl. split; [|by apply IH]. by apply Forall_fmap.
Qed.

(** The exact match is the first of the names that match. *)
Lemma find_named requested (models : gmap string ModelMetadata) i e :
  list_find (λ e, eq_ignore_ascii_case (normalized e) requested = true) (model_entry <$> keys models) = Some (i, e) →
  ∃ m, e = model_entry m ∧ is_Some (models !! m) ∧ named requested m = true ∧
    ∀ m', is_Some (models !! m') → named requested m' = true → String.leb m m' = true.
Proof.
  rewrite list_find_fmap. intros ([j m] & Hf & [= -> ->])%fmap_Some.
  destruct (ascending_find String.leb _ _ _ _ (keys_ascending models) Hf) as (Hm & Hin & Hmin).
  exists m. split_and!; [done|by apply elem_of_keys|exact Hm|]. intros m' Hm' Hn.
  destruct (Hmin m') as [<-|]; [by apply elem_of_keys|exact Hn| |done].
  by destruct (String.leb_total m m).
Qed.
Lemma not_named requested (models : gmap string ModelMetadata) :
  list_find (λ e, eq_ignore_ascii_case (normalized e) requested = true) (model_entry <$> keys models) = None →
  ∀ m, is_Some (models !! m) → named requested m = false.
Proof.
  intros Hf m Hm. apply not_true_iff_false. intros Hn.
  apply list_find_None in Hf. rewrite Forall_forall in Hf.
  by eapply (Hf (model_entry m)); [apply elem_of_model_entries; eauto|].
Qed.

(** What [resolve] answers. *)
Definition selects (models : gmap string ModelMetadata) (requested m : string) : Prop :=
  is_Some (models !! m) ∧
  (named requested m = true ∧
     (∀ m', is_Some (models !! m') → named requested m' = true → String.leb m m' = true) ∨
   (∀ m', is_Some (models !! m') → named requested m' = false) ∧ best_match requested m models).

Lemma resolve_selects providers provider requested :
  match resolve (with_metadata providers) provider requested with
  | Some m => ∃ models, providers !! provider = Some models ∧ selects models requested m
  | None => ∀ models, providers !! provider = Some models → ∀ m, is_Some (models !! m) →
      named requested m = false ∧ f64_le THRESHOLD (entry_score requested (model_entry m)) = false
  end.
Proof.
  unfold resolve. simpl. rewrite lookup_fmap. destruct (providers !! provider) as [models|]; simpl; [|done].
  destruct (list_find _ _) as [[i e]|] eqn:Hf.
  - apply find_named in Hf as (m & -> & Hm & Hn & Hmin). exists models. split; [done|]. split; [done|]. by left.
  - pose proof (not_named _ _ Hf) as Hnot. pose proof (best_entry_spec requested (model_entry <$> keys models)) as Hb.
    destruct (best_entry requested (model_entry <$> keys models)) as [b|]; simpl in *.
    + destruct Hb as ((m & -> & Hm)%elem_of_model_entries & Ht & Hbest). exists models.
      split; [done|]. split; [done|]. right. split; [done|]. split; [done|].
      intros m' Hm'. apply Hbest, elem_of_model_entries. eauto.
    + intros models' [= <-] m Hm. split; [by apply Hnot|]. apply Hb, elem_of_model_entries. eauto.
Qed.

(** *** ASCII names *)
Lemma ascii_lower_idem c : ascii_lower (ascii_lower c) = ascii_lower c.
Proof. destruct c as [[] [] [] [] [] [] [] []]; vm_compute; reflexivity. Qed.
Lemma to_ascii_lowercase_idem s : to_ascii_lowercase (to_ascii_lowercase s) = to_ascii_lowercase s.
Proof. induction s as [|c s IH]; simpl; [done|]. by rewrite ascii_lower_idem, IH. Qed.
Lemma length_to_ascii_lowercase s : String.length (to_ascii_lowercase s) = String.length s.
Proof. induction s as [|c s IH]; simpl; [done|]. by rewrite IH. Qed.

Context `{!LowercaseLaws L}.

Lemma named_ascii r m :
  is_ascii m = true → named r m = true ↔ to_ascii_lowercase m = to_ascii_lowercase r.
Proof.
  intros Hm. unfold named, eq_ignore_ascii_case. rewrite bool_decide_eq_true.
  by rewrite to_lowercase_ascii, to_ascii_lowercase_idem.
Qed.

(** A selected name is selected again. *)
Lemma selects_stable (models : gmap string ModelMetadata) r m m' :
  (∀ x, is_Some (models !! x) → is_ascii x = true) →
  selects models r m → selects models m m' → m' = m.
Proof.
  intros Hascii [Hm Hsel] [Hm' Hsel'].
  assert (Hnm : named m m = true) by (apply named_ascii; auto).
  destruct Hsel' as [[Hn' Hmin']|[Hno _]]; [|by rewrite Hno in Hnm].
  assert (Heq : to_ascii_lowercase m' = to_ascii_lowercase m) by (apply named_ascii; auto).
  assert (Hle : String.leb m' m = true) by by apply Hmin'.
  destruct Hsel as [[Hn Hmin]|[Hno [Ht Hbest]]].
  - apply String.leb_antisym; [done|]. apply Hmin; [done|].
    apply named_ascii; [auto|]. rewrite Heq. apply named_ascii; auto.
  - specialize (Hbest m' Hm'). unfold beats in Hbest. apply orb_false_iff in Hbest as [_ Hbest].
    assert (Hsc : entry_score r (model_entry m') = entry_score r (model_entry m)).
    { unfold entry_score, model_entry, tokenize; simpl. by rewrite !(to_lowercase_ascii _ (Hascii _ Hm')),
        !(to_lowercase_ascii _ (Hascii _ Hm)), Heq. }
    rewrite Hsc in Hbest.
    assert (Hrefl : f64_eq (entry_score r (model_entry m)) (entry_score r (model_entry m)) = true).
    { apply f64_eq_spec. rewrite f64_le_spec, orb_true_iff, f64_lt_spec, f64_eq_spec in Ht.
      destruct Ht as [(p & q & _ & Hq & _)|(p & _ & Hq)]; eauto. }
    rewrite Hrefl in Hbest. simpl in Hbest.
    assert (Hlen : String.length m' = String.length m)
      by by rewrite <- (length_to_ascii_lowercase m'), Heq, length_to_ascii_lowercase.
    unfold tie_break in Hbest; simpl in Hbest. apply orb_false_iff in Hbest as [_ Hbest].
    rewrite bool_decide_eq_true_2 in Hbest by done. simpl in Hbest.
    rewrite leb_ltb, negb_true_iff in Hle. by apply ltb_total.
Qed.
End Lookup.
