(* ===== verification/Resolver.v ===== *)
(** * Model resolution and the public catalogue (crates/router/src/resolver.rs)

    [resolve_route] composes the static router with the fuzzy upgrade of every
    chain element; [list_catalog] lists aliases and discovered models.  The
    order in which the route table is walked, a hash map's, is a parameter. *)
From S2P Require Import Prelude Json Float64 Config Request StaticRoutes ModelIndex.
#[local] Open Scope string_scope.
#[local] Open Scope list_scope.
#[local] Open Scope nat_scope.

(** ** [core/src/catalog.rs] *)
Record CatalogRef := { cr_provider : string; cr_model : string }.
Record ModelRecord := {
  mr_id : string;
  frontends : list FrontendKind;
  upstream_provider : string;
  upstream_model : string;
  upstreams_chain : list CatalogRef;
  mr_metadata : option ModelMetadata;
  long_context_variant : option string;
}.
Definition push_frontend (f : FrontendKind) (r : ModelRecord) : ModelRecord := {|
  mr_id := mr_id r; frontends := frontends r ++ [f]; upstream_provider := upstream_provider r;
  upstream_model := upstream_model r; upstreams_chain := upstreams_chain r;
  mr_metadata := mr_metadata r; long_context_variant := long_context_variant r |}.
Definition set_variant (v : option string) (r : ModelRecord) : ModelRecord := {|
  mr_id := mr_id r; frontends := frontends r; upstream_provider := upstream_provider r;
  upstream_model := upstream_model r; upstreams_chain := upstreams_chain r;
  mr_metadata := mr_metadata r; long_context_variant := v |}.

Record ModelResolver := { static_router : StaticRouter; model_index : ModelIndex }.

(** An iteration order of the route table. *)
Class RouteOrder := {
  route_order : list (FrontendKind * string) → list (FrontendKind * string);
  route_order_perm : ∀ l, route_order l ≡ₚ l;
}.

Section Resolver.
Context `{L : Lowercase}.

Definition apply_fuzzy_upgrades (self : ModelResolver) (chain : list BackendTarget) : list BackendTarget :=
  (λ target,
    match ModelIndex.resolve (model_index self) (provider target) (model target) with
    | Some canonical =>
        if bool_decide (canonical = model target) then target
        else {| provider := provider target; model := canonical; policy := policy target |}
    | None => target
    end) <$> chain.

Definition resolve_route (self : ModelResolver) (frontend : FrontendKind) (model_alias : string)
    : result ResolvedRoute RouteError :=
  match StaticRoutes.resolve_route (static_router self) frontend model_alias with
  | Err e => Err e
  | Ok resolved =>
      Ok {| chain := apply_fuzzy_upgrades self (chain resolved); rr_retry := rr_retry resolved;
            rr_breaker := rr_breaker resolved; route_label := route_label resolved |}
  end.
Definition resolve (self : ModelResolver) (frontend : FrontendKind) (model_alias : string)
    : result (list BackendTarget) RouteError :=
  result_map chain (resolve_route self frontend model_alias).

(** *** Pass 1: the configured aliases *)
Definition alias_record (self : ModelResolver) (alias : string) (head : BackendTarget)
    (chain : list BackendTarget) : ModelRecord := {|
  mr_id := alias; frontends := []; upstream_provider := provider head; upstream_model := model head;
  upstreams_chain := (λ t, {| cr_provider := provider t; cr_model := model t |}) <$> chain;
  mr_metadata := model_metadata (model_index self) (provider head) (model head);
  long_context_variant := None |}.
Definition add_alias (self : ModelResolver) (acc : gmap string ModelRecord * gset string)
    (route : FrontendKind * string) : gmap string ModelRecord * gset string :=
  let '(by_alias, taken_ids) := acc in
  let '(frontend, alias) := route in
  if bool_decide (alias = "*") then acc else
  match resolve_route self frontend alias with
  | Err _ => acc
  | Ok resolved =>
      match chain resolved with
      | [] => acc
      | head :: _ =>
          let entry := default (alias_record self alias head (chain resolved)) (by_alias !! alias) in
          let entry := if bool_decide (frontend ∈ frontends entry) then entry
                       else push_frontend frontend entry in
          (<[alias := entry]> by_alias, {[alias]} ∪ taken_ids)
      end
  end.

(** *** The discovered models *)
Definition model_record (provider model_id : string) (md : ModelMetadata) : ModelRecord := {|
  mr_id := model_id; frontends := []; upstream_provider := provider; upstream_model := model_id;
  upstreams_chain := [{| cr_provider := provider; cr_model := model_id |}];
  mr_metadata := Some md; long_context_variant := None |}.
Definition add_model (provider : string) (acc : list ModelRecord * gset string)
    (m : string * ModelMetadata) : list ModelRecord * gset string :=
  let '(records, taken_ids) := acc in
  if bool_decide (m.1 ∈ taken_ids) then acc
  else (records ++ [model_record provider m.1 m.2], {[m.1]} ∪ taken_ids).
Definition add_provider (self : ModelResolver) (acc : list ModelRecord * gset string) (provider : string)
    : list ModelRecord * gset string :=
  foldl (add_model provider) acc (provider_models (model_index self) provider).

(** *** Pass 2: the long-context sibling *)
Definition record_ctx (r : ModelRecord) : option N := mr_metadata r ≫= context_window_tokens.
Definition record_family (r : ModelRecord) : option string := mr_metadata r ≫= family.
Definition better_variant (r : ModelRecord) (fam : string) (variant : option ModelRecord)
    (other : ModelRecord) : option ModelRecord :=
  if bool_decide (mr_id other = mr_id r) then variant else
  let same_family := bool_decide (record_family other = Some fam) in
  let bigger_ctx := match record_ctx other with
                    | Some c => (default 0 (record_ctx r) <? c)%N | None => false end in
  if same_family && bigger_ctx then
    let other_ctx := default 0%N (record_ctx other) in
    let cur_ctx := default 0%N (variant ≫= record_ctx) in
    if (cur_ctx <? other_ctx)%N then Some other else variant
  else variant.
Definition variant_of (records : list ModelRecord) (r : ModelRecord) : option ModelRecord :=
  match record_family r with
  | Some fam => foldl (better_variant r fam) None records
  | None => None
  end.

Context `{O : RouteOrder}.
Definition catalog_aliases (self : ModelResolver) : gmap string ModelRecord * gset string :=
  foldl (add_alias self) (∅, ∅) (route_order (list_routes (static_router self))).
Definition catalog_records (self : ModelResolver) : list ModelRecord :=
  let '(by_alias, taken_ids) := catalog_aliases self in
  (foldl (add_provider self) ((entries by_alias).*2, taken_ids)
     (sort_by String.leb (index_providers (model_index self)))).1.
Definition list_catalog (self : ModelResolver) : list ModelRecord :=
  let records := catalog_records self in
  sort_by (λ a b, String.leb (mr_id a) (mr_id b))
    ((λ r, set_variant (mr_id <$> variant_of records r) r) <$> records).
End Resolver.

(** ** Facts about the catalogue *)
Section Catalogue.
Context `{L : Lowercase} `{O : RouteOrder} (self : ModelResolver).

(** A route of the table that resolves. *)
Definition resolvable (frontend : FrontendKind) (alias : string) (resolved : list BackendTarget) : Prop :=
  alias ≠ "*" ∧ resolve self frontend alias = Ok resolved ∧ resolved ≠ [].
Definition refs (chain : list BackendTarget) : list CatalogRef :=
  (λ t, {| cr_provider := provider t; cr_model := model t |}) <$> chain.

(** The record of an alias over the routes [l]: one of its chains, and the
    front ends it is reached through, each once. *)
Definition alias_truth (l : list (FrontendKind * string)) (r : ModelRecord) : Prop :=
  NoDup (frontends r) ∧ frontends r ≠ [] ∧
  (∀ f, f ∈ frontends r ↔ (f, mr_id r) ∈ l ∧ ∃ chain, resolvable f (mr_id r) chain) ∧
  ∃ f head rest, f ∈ frontends r ∧ resolvable f (mr_id r) (head :: rest) ∧
    upstream_provider r = provider head ∧ upstream_model r = model head ∧
    upstreams_chain r = refs (head :: rest) ∧
    mr_metadata r = model_metadata (model_index self) (provider head) (model head).
(** The record of a discovered model. *)
Definition model_truth (r : ModelRecord) : Prop :=
  frontends r = [] ∧ upstream_model r = mr_id r ∧ is_Some (mr_metadata r) ∧
  upstreams_chain r = [{| cr_provider := upstream_provider r; cr_model := mr_id r |}] ∧
  mr_metadata r = model_metadata (model_index self) (upstream_provider r) (mr_id r).

Definition aliases_ok (l : list (FrontendKind * string)) (acc : gmap string ModelRecord * gset string) : Prop :=
  dom acc.1 = acc.2 ∧
  (∀ k r, acc.1 !! k = Some r → mr_id r = k ∧ alias_truth l r) ∧
  (∀ f k chain, (f, k) ∈ l → resolvable f k chain → k ∈ acc.2).

(** Routes that do not concern a record leave it true. *)
Lemma alias_truth_snoc l f k r :
  alias_truth l r → (k ≠ mr_id r ∨ (∀ chain, ¬ resolvable f k chain) ∨ f ∈ frontends r) →
  alias_truth (l ++ [(f, k)]) r.
Proof.
  intros (Hn & Hne & Hf & Hch) Hk. split_and!; [done..| |done]. intros f'. rewrite Hf, elem_of_app.
  split; [intros [? ?]; split; [by left|done]|]. intros [[?|[= -> <-]%list_elem_of_singleton] (chain & Hc)]; [by eauto|].
  destruct Hk as [?|[Hk|Hk]]; [done|by destruct (Hk chain)|by apply Hf].
Qed.

Lemma add_alias_ok l acc route :
  aliases_ok l acc → aliases_ok (l ++ [route]) (add_alias self acc route).
Proof.
  destruct acc as [by_alias taken], route as [f k]. intros (Hdom & Hrec & Hall).
  cbn [fst snd] in *. unfold add_alias.
  assert (Hskip : (∀ chain, ¬ resolvable f k chain) → aliases_ok (l ++ [(f, k)]) (by_alias, taken)).
  { intros Hno. split_and!; [done| |].
    - intros k' r Hr. destruct (Hrec k' r Hr) as [Hid Ht]. split; [done|]. apply alias_truth_snoc; auto.
    - intros f' k' chain [H|[= -> ->]%list_elem_of_singleton]%elem_of_app Hc; [by eapply Hall|].
      by destruct (Hno chain). }
  case_bool_decide as Hstar; [apply Hskip; intros chain []; done|].
  assert (Hres : resolve self f k = result_map chain (resolve_route self f k)) by done.
  destruct (resolve_route self f k) as [resolved|e] eqn:Hrr; simpl in Hres;
    [|apply Hskip; intros chain (_ & Hc & _); congruence].
  destruct (chain resolved) as [|head rest] eqn:Hch;
    [apply Hskip; intros chain' (_ & Hc & Hne); congruence|].
  assert (Hok : resolvable f k (head :: rest)) by by split_and!.
  set (entry := default _ (by_alias !! k)). cbv zeta.
  set (entry' := if bool_decide _ then _ else _).
  assert (Hid : mr_id entry' = k ∧ alias_truth (l ++ [(f, k)]) entry').
  { assert (Hin : (f, k) ∈ l ++ [(f, k)]) by (apply elem_of_app; right; by left).
    subst entry'. case_bool_decide as Hf; subst entry; destruct (by_alias !! k) as [r|] eqn:Hr; simpl in *.
    - destruct (Hrec k r Hr) as [Hid Ht]. split; [done|]. apply alias_truth_snoc; auto.
    - by apply elem_of_nil in Hf.
    - destruct (Hrec k r Hr) as [Hid (Hn & Hne & Hfs & f0 & h0 & r0 & Hin0 & Hch0)]. split; [done|]. split_and!; simpl.
      + apply NoDup_app. split_and!; [done| |apply NoDup_singleton].
        intros x Hx ->%list_elem_of_singleton. done.
      + intros [_ ?]%app_eq_nil. done.
      + intros f'. rewrite elem_of_app, Hfs, Hid, (elem_of_app l), !list_elem_of_singleton.
        split; [intros [[? ?]| ->]; eauto|]. intros [[?|[= ->]] ?]; eauto.
      + exists f0, h0, r0. split; [|done]. apply elem_of_app. by left.
    - split; [done|]. split_and!; simpl; [apply NoDup_singleton|done| |].
      + intros f'. rewrite list_elem_of_singleton, elem_of_app.
        split; [intros ->; split; [right; by left|eauto]|].
        intros [[Hl|[= ->]%list_elem_of_singleton] [chain Hc]]; [|done]. exfalso.
        pose proof (Hall _ _ _ Hl Hc) as Hk. rewrite <- Hdom in Hk. apply elem_of_dom in Hk as [? ?]. congruence.
      + exists f, head, rest. split_and!; try done. by left. }
  destruct Hid as [Hid Ht]. split_and!; simpl.
  - by rewrite dom_insert_L, Hdom.
  - intros k' r. destruct (decide (k' = k)) as [->|Hne].
    + rewrite lookup_insert_eq. by intros [= <-].
    + rewrite lookup_insert_ne by done. intros Hr. destruct (Hrec k' r Hr) as [Hid' Ht'].
      split; [done|]. apply alias_truth_snoc; [done|]. left. congruence.
  - intros f' k' chain [H|[= -> ->]%list_elem_of_singleton]%elem_of_app Hc; apply elem_of_union; [right|left].
    + by eapply Hall.
    + by apply elem_of_singleton.
Qed.

Lemma catalog_aliases_ok : aliases_ok (route_order (list_routes (static_router self))) (catalog_aliases self).
Proof.
  unfold catalog_aliases. apply (foldl_prefix aliases_ok).
  - split_and!; [done|by intros ? ? ?|]. by intros ? ? ? ?%elem_of_nil.
  - intros. by apply add_alias_ok.
Qed.

(** *** The discovered models *)
Definition models_ok (aliases : list ModelRecord) (S : string → Prop) (acc : list ModelRecord * gset string) : Prop :=
  NoDup (mr_id <$> acc.1) ∧ (∀ i, i ∈ mr_id <$> acc.1 ↔ i ∈ acc.2) ∧ (∀ i, i ∈ acc.2 ↔ S i) ∧
  (∀ r, r ∈ acc.1 → r ∈ aliases ∨ model_truth r).

Lemma add_model_ok aliases S acc p m :
  model_metadata (model_index self) p m.1 = Some m.2 → models_ok aliases S acc →
  models_ok aliases (λ i, S i ∨ i = m.1) (add_model p acc m).
Proof.
  destruct acc as [records taken], m as [i md]. intros Hmd (Hnd & Hids & HS & Hr). simpl in *.
  case_bool_decide as Hi; simpl; unfold models_ok; simpl.
  - split_and!; [done..| |done]. intros j. rewrite HS. split; [by left|]. intros [?| ->]; [done|by apply HS].
  - rewrite fmap_app. simpl. split_and!.
    + apply NoDup_app. split_and!; [done| |apply NoDup_singleton].
      intros x Hx ->%list_elem_of_singleton. by apply Hi, Hids.
    + intros j. rewrite elem_of_app, list_elem_of_singleton, elem_of_union, elem_of_singleton, Hids. tauto.
    + intros j. rewrite elem_of_union, elem_of_singleton, HS. tauto.
    + intros r [?| ->%list_elem_of_singleton]%elem_of_app; [auto|right].
      split_and!; simpl; [done|done|by eauto|done|by rewrite Hmd].
Qed.
Lemma models_ok_ext aliases S S' acc :
  (∀ i, S i ↔ S' i) → models_ok aliases S acc → models_ok aliases S' acc.
Proof. intros H (? & ? & HS & ?). split_and!; [done..| |done]. intros i. by rewrite HS, H. Qed.

Lemma elem_of_provider_models p i md :
  (i, md) ∈ provider_models (model_index self) p ↔ model_metadata (model_index self) p i = Some md.
Proof.
  unfold provider_models, model_metadata. destruct (metadata (model_index self) !! p) as [m|]; simpl.
  - apply elem_of_entries.
  - split; [by intros ?%elem_of_nil|done].
Qed.

Lemma add_provider_ok aliases S acc p :
  models_ok aliases S acc →
  models_ok aliases (λ i, S i ∨ is_Some (model_metadata (model_index self) p i)) (add_provider self acc p).
Proof.
  intros Hacc. unfold add_provider.
  apply (models_ok_ext _ (λ i, S i ∨ i ∈ (provider_models (model_index self) p).*1)).
  { intros i. rewrite list_elem_of_fmap. split; (intros [?|H]; [by left|right]).
    - destruct H as ([j md] & -> & H%elem_of_provider_models). by eexists.
    - destruct H as [md H]. exists (i, md). by rewrite elem_of_provider_models. }
  apply (foldl_prefix (λ pre acc, models_ok aliases (λ i, S i ∨ i ∈ pre.*1) acc)).
  - eapply models_ok_ext; [|exact Hacc]. intros i. csimpl. rewrite elem_of_nil. tauto.
  - intros pre [i md] b Hin Hb. eapply models_ok_ext; [|eapply add_model_ok; [|exact Hb]].
    + intros j. rewrite fmap_app, elem_of_app. csimpl. rewrite list_elem_of_singleton. tauto.
    + by apply elem_of_provider_models.
Qed.

Lemma catalog_records_ok :
  NoDup (mr_id <$> catalog_records self) ∧
  (∀ i, i ∈ mr_id <$> catalog_records self ↔
     i ∈ (catalog_aliases self).2 ∨ ∃ p, is_Some (model_metadata (model_index self) p i)) ∧
  (∀ r, r ∈ catalog_records self → r ∈ (entries (catalog_aliases self).1).*2 ∨ model_truth r).
Proof.
  unfold catalog_records. pose proof catalog_aliases_ok as (Hdom & Hrec & _).
  destruct (catalog_aliases self) as [by_alias taken]; simpl in *.
  assert (Hids : mr_id <$> (entries by_alias).*2 = keys by_alias).
  { unfold keys. rewrite <- list_fmap_compose. apply list_fmap_ext. intros j [k r] Hj.
    apply (Hrec k), elem_of_entries, list_elem_of_lookup. eauto. }
  set (providers := sort_by String.leb (index_providers (model_index self))).
  assert (H : models_ok (entries by_alias).*2
    (λ i, i ∈ taken ∨ ∃ p, p ∈ providers ∧ is_Some (model_metadata (model_index self) p i))
    (foldl (add_provider self) ((entries by_alias).*2, taken) providers)).
  { apply (foldl_prefix (λ pre acc, models_ok (entries by_alias).*2
      (λ i, i ∈ taken ∨ ∃ p, p ∈ pre ∧ is_Some (model_metadata (model_index self) p i)) acc)).
    - unfold models_ok; simpl. rewrite Hids. split_and!; [apply NoDup_keys| | |auto].
      + intros i. by rewrite elem_of_keys, <- Hdom, elem_of_dom.
      + intros i. split; [by left|]. intros [?|(p & ?%elem_of_nil & _)]; done.
    - intros pre p acc _ Hacc. eapply models_ok_ext; [|by apply add_provider_ok].
      intros i. simpl. split.
      + intros [[?|(q & Hq & Hs)]|Hs]; [by left|right|right].
        * exists q. split; [apply elem_of_app; by left|done].
        * exists p. split; [apply elem_of_app; right; by left|done].
      + intros [?|(q & [Hq| ->%list_elem_of_singleton]%elem_of_app & Hs)]; [left; by left| |by right].
        left. right. eauto. }
  destruct H as (Hnd & Hi & HS & Hr). split_and!; [done| |done].
  intros i. rewrite Hi, HS. split; (intros [?|(p & H)]; [by left|right]); exists p; [by destruct H|].
  split; [|done]. unfold providers. rewrite sort_by_perm. unfold index_providers.
  apply list_elem_of_fmap. unfold model_metadata in H.
  destruct (metadata (model_index self) !! p) as [m|] eqn:Hp; [|by destruct H].
  exists (p, m). split; [done|]. by apply elem_of_map_to_list.
Qed.

(** *** The long-context variant *)
Definition larger_sibling (r : ModelRecord) (fam : string) (other : ModelRecord) : Prop :=
  mr_id other ≠ mr_id r ∧ record_family other = Some fam ∧
  (default 0 (record_ctx r) < default 0 (record_ctx other))%N.
Lemma variant_of_spec records r fam :
  record_family r = Some fam →
  match variant_of records r with
  | Some v => v ∈ records ∧ larger_sibling r fam v ∧
      ∀ o, o ∈ records → larger_sibling r fam o → (default 0 (record_ctx o) ≤ default 0 (record_ctx v))%N
  | None => ∀ o, o ∈ records → ¬ larger_sibling r fam o
  end.
Proof.
  intros Hfam. unfold variant_of. rewrite Hfam.
  apply (foldl_prefix (λ pre variant, match variant with
    | Some v => v ∈ pre ∧ larger_sibling r fam v ∧
        ∀ o, o ∈ pre → larger_sibling r fam o → (default 0 (record_ctx o) ≤ default 0 (record_ctx v))%N
    | None => ∀ o, o ∈ pre → ¬ larger_sibling r fam o end)).
  { by intros o ?%elem_of_nil. }
  intros pre other variant _ Hv.
  assert (Hsib : better_variant r fam variant other =
    if decide (larger_sibling r fam other ∧ (default 0 (variant ≫= record_ctx) < default 0 (record_ctx other))%N)
    then Some other else variant).
  { unfold better_variant, larger_sibling. case_bool_decide as Hid; [by case_decide; naive_solver|].
    case_bool_decide as Hf; simpl; [|case_decide; naive_solver].
    destruct (record_ctx other) as [c|]; simpl; [|case_decide; [|done]; lia].
    destruct (N.ltb_spec (default 0%N (record_ctx r)) c); [|case_decide; [lia|done]].
    destruct (N.ltb_spec (default 0%N (variant ≫= record_ctx)) c); case_decide; naive_solver lia. }
  rewrite Hsib. case_decide as Hd.
  - destruct Hd as [Hs Hlt]. split_and!; [apply elem_of_app; right; by left|done|].
    intros o [Ho| ->%list_elem_of_singleton]%elem_of_app Hso; [|lia].
    destruct variant as [v|]; [|by destruct (Hv o Ho)]. destruct Hv as (_ & _ & Hmax).
    specialize (Hmax o Ho Hso). simpl in Hlt. lia.
  - destruct variant as [v|]; simpl in *.
    + destruct Hv as (Hin & Hs & Hmax). split_and!; [apply elem_of_app; by left|done|].
      intros o [Ho| ->%list_elem_of_singleton]%elem_of_app Hso; [by apply Hmax|].
      apply N.le_ngt. intros Hlt. by apply Hd.
    + intros o [Ho| ->%list_elem_of_singleton]%elem_of_app Hso; [by eapply Hv|].
      apply Hd. split; [done|]. destruct Hso as (_ & _ & ?). lia.
Qed.

Lemma alias_truth_perm l k r : l ≡ₚ k → alias_truth l r → alias_truth k r.
Proof.
  intros Hp (? & ? & Hf & ?). split_and!; [done..| |done]. intros f. by rewrite Hf, Hp.
Qed.

Lemma list_catalog_perm :
  list_catalog self ≡ₚ (λ r, set_variant (mr_id <$> variant_of (catalog_records self) r) r) <$> catalog_records self.
Proof. apply sort_by_perm. Qed.
Lemma list_catalog_ids : mr_id <$> list_catalog self ≡ₚ mr_id <$> catalog_records self.
Proof. by rewrite list_catalog_perm, <- list_fmap_compose. Qed.

(** What a record's variant says, in a list of records. *)
Definition variant_truth (l : list ModelRecord) (r : ModelRecord) : Prop :=
  match record_family r, long_context_variant r with
  | Some fam, Some v => ∃ o, o ∈ l ∧ mr_id o = v ∧ larger_sibling r fam o ∧
      ∀ o', o' ∈ l → larger_sibling r fam o' → (default 0 (record_ctx o') ≤ default 0 (record_ctx o))%N
  | Some fam, None => ∀ o, o ∈ l → ¬ larger_sibling r fam o
  | None, v => v = None
  end.

Lemma list_catalog_variants r : r ∈ list_catalog self → variant_truth (list_catalog self) r.
Proof.
  intros (r0 & -> & Hr0)%(elem_of_Permutation_proper _ _ _ list_catalog_perm)%list_elem_of_fmap.
  assert (Hin : ∀ o, o ∈ catalog_records self →
    set_variant (mr_id <$> variant_of (catalog_records self) o) o ∈ list_catalog self).
  { intros o Ho. rewrite list_catalog_perm. apply list_elem_of_fmap. eauto. }
  assert (Hout : ∀ o, o ∈ list_catalog self → ∃ o0, o0 ∈ catalog_records self ∧
    mr_id o = mr_id o0 ∧ record_family o = record_family o0 ∧ record_ctx o = record_ctx o0).
  { intros o. rewrite list_catalog_perm. intros (o0 & -> & Ho)%list_elem_of_fmap. by exists o0. }
  unfold variant_truth. change (record_family (set_variant _ r0)) with (record_family r0).
  destruct (record_family r0) as [fam|] eqn:Hfam; [|simpl; unfold variant_of; by rewrite Hfam].
  pose proof (variant_of_spec (catalog_records self) r0 fam Hfam) as Hv. simpl.
  destruct (variant_of (catalog_records self) r0) as [v|]; simpl.
  - destruct Hv as (Hvin & Hs & Hmax). eexists. split; [by apply Hin|]. split; [done|]. split; [exact Hs|].
    intros o' Ho' (H1 & H2 & H3). destruct (Hout o' Ho') as (o0 & Ho0 & Hi & Hf & Hc).
    rewrite Hc. apply Hmax; [done|]. unfold larger_sibling. rewrite <- Hi, <- Hf, <- Hc. done.
  - intros o' Ho' (H1 & H2 & H3). destruct (Hout o' Ho') as (o0 & Ho0 & Hi & Hf & Hc).
    apply (Hv o0 Ho0). unfold larger_sibling. rewrite <- Hi, <- Hf, <- Hc. done.
Qed.
End Catalogue.

(** ** Properties *)
Section Properties.
Context `{L : Lowercase}.

(** The catalogue lists every resolvable alias and every discovered model
    once, sorted; an alias' record shows a chain it resolves to and exactly the
    front ends it is reached through, a discovered model's its provider's
    metadata; and the long-context variant of a record is the sibling of its
    family with the largest context window, if one is larger. *)
Theorem list_catalog_spec `{O : RouteOrder} self :
  let catalog := list_catalog self in
  let routes := list_routes (static_router self) in
  NoDup (mr_id <$> catalog) ∧
  ascending (λ a b, String.leb (mr_id a) (mr_id b)) catalog ∧
  (∀ i, i ∈ mr_id <$> catalog ↔
     (∃ f chain, (f, i) ∈ routes ∧ resolvable self f i chain) ∨
     ∃ p, is_Some (model_metadata (model_index self) p i)) ∧
  (∀ r, r ∈ catalog → (alias_truth self routes r ∨ model_truth self r) ∧ variant_truth catalog r).
Proof.
  intros catalog routes. destruct (catalog_records_ok self) as (Hnd & Hids & Hrec).
  pose proof (catalog_aliases_ok self) as (Hdom & Hal & Hall). split_and!.
  - unfold catalog. by rewrite list_catalog_ids.
  - apply sort_by_ascending; intros *; [apply string_leb_total|apply string_leb_trans].
  - intros i. unfold catalog. rewrite list_catalog_ids, Hids. split; (intros [H|H]; [left|by right]).
    + rewrite <- Hdom in H. apply elem_of_dom in H as [r Hr].
      destruct (Hal i r Hr) as [<- (_ & _ & Hf & f & head & rest & Hin & Hch & _)].
      exists f, (head :: rest). split; [|done]. unfold routes. rewrite <- route_order_perm. by apply Hf.
    + destruct H as (f & chain & Hin & Hc). eapply Hall; [|done]. by rewrite route_order_perm.
  - intros r Hr. split; [|by apply list_catalog_variants]. unfold catalog in Hr.
    rewrite list_catalog_perm in Hr. apply list_elem_of_fmap in Hr as (r0 & -> & Hr0).
    destruct (Hrec r0 Hr0) as [Ha|Ha]; [left|by right].
    apply list_elem_of_fmap in Ha as ([k r1] & -> & Hk%elem_of_entries).
    destruct (Hal k r1 Hk) as [_ Ht]. apply (alias_truth_perm _ _ routes) in Ht; [exact Ht|apply route_order_perm].
Qed.

(** What the upgrade of a chain element is. *)
Definition upgraded (providers : gmap string (gmap string ModelMetadata)) (t t' : BackendTarget) : Prop :=
  provider t' = provider t ∧ policy t' = policy t ∧
  ((∃ models, providers !! provider t = Some models ∧ selects models (model t) (model t')) ∨
   model t' = model t ∧ ∀ models, providers !! provider t = Some models → ∀ m, is_Some (models !! m) →
     named (model t) m = false ∧ f64_le THRESHOLD (entry_score (model t) (model_entry m)) = false).

Lemma apply_fuzzy_upgrades_element self providers t :
  model_index self = with_metadata providers →
  ∃ t', apply_fuzzy_upgrades self [t] = [t'] ∧ upgraded providers t t'.
Proof.
  intros Hidx. unfold apply_fuzzy_upgrades. csimpl. eexists. split; [done|]. rewrite Hidx.
  pose proof (resolve_selects providers (provider t) (model t)) as H.
  destruct (ModelIndex.resolve _ _ _) as [m|].
  - destruct H as (models & Hp & Hs). case_bool_decide; subst; split_and!; try done; left; eauto.
  - split_and!; try done. by right.
Qed.

(** C27: resolution keeps the chain's providers and policies, in order, and sends
    each element to the model of its provider's catalogue selected for it: the
    first one of the same name up to case, else the best one by score, brevity
    and order among those above the threshold; with none of them the configured
    name stays.  A selected name is selected again: upgrading is idempotent. *)
Theorem upgrades_select_and_are_stable `{!LowercaseLaws L} self providers chain :
  model_index self = with_metadata providers →
  (∀ p models m, providers !! p = Some models → is_Some (models !! m) → is_ascii m = true) →
  Forall2 (upgraded providers) chain (apply_fuzzy_upgrades self chain) ∧
  apply_fuzzy_upgrades self (apply_fuzzy_upgrades self chain) = apply_fuzzy_upgrades self chain.
Proof.
  intros Hidx Hascii. induction chain as [|t chain [IH1 IH2]]; [done|].
  destruct (apply_fuzzy_upgrades_element self providers t Hidx) as (t' & Ht' & Hu).
  change (t :: chain) with ([t] ++ chain). unfold apply_fuzzy_upgrades in *.
  rewrite !fmap_app, Ht'. split; [by constructor|]. rewrite IH2. f_equal.
  destruct (apply_fuzzy_upgrades_element self providers t' Hidx) as (t2 & Ht2 & Hu2).
  unfold apply_fuzzy_upgrades in Ht2. rewrite Ht2. f_equal.
  destruct Hu as (Hp & Hpo & Hm), Hu2 as (Hp2 & Hpo2 & Hm2).
  enough (model t2 = model t') by (destruct t2, t'; simpl in *; congruence).
  rewrite Hp in Hm2. destruct Hm2 as [(models & Hl & Hs2)|[-> _]]; [|done].
  destruct Hm as [(models' & Hl' & Hs)|[Hm Hno]]; simplify_eq.
  - eapply (selects_stable _ (model t)); [|exact Hs|exact Hs2]. intros; by eapply Hascii.
  - destruct Hs2 as [Hin [[Hn _]|[_ [Hth _]]]]; destruct (Hno _ Hl _ Hin) as [H1 H2]; rewrite Hm in *; congruence.
Qed.
End Properties.

(** ** Concrete resolvers *)
Module Samples.
#[local] Instance ascii_lowercase : Lowercase := {| to_lowercase := to_ascii_lowercase |}.
#[local] Instance ascii_lowercase_laws : LowercaseLaws ascii_lowercase.
Proof. by constructor. Qed.

Definition ids (l : list string) : gmap string ModelMetadata := gset_to_gmap default_metadata (list_to_set l).
Definition discovered : gmap string (gmap string ModelMetadata) :=
  {[ "copilot" := ids ["claude-sonnet-4-5-20250514"; "Gpt-4o"; "o3"] ]}.
Definition routes (rs : list RouteEntry) : StaticRouter :=
  default {| exact := ∅; exact_entries := ∅; prefixes := ∅; wildcards := ∅; wildcard_entries := ∅ |}
    (from_config (gateway_config ∅ rs)).
Definition resolver (rs : list RouteEntry) : ModelResolver :=
  {| static_router := routes rs; model_index := with_metadata discovered |}.
Definition target (p m : string) : BackendTarget :=
  {| provider := p; model := m; policy := entry_policy (singular "openai_chat" m p m) |}.
Definition sample_chain : list BackendTarget :=
  [target "copilot" "claude-sonnet-4-5"; target "copilot" "gpt-4O"; target "copilot" "llama"; target "x" "y"].

Lemma sample_ascii p models m :
  discovered !! p = Some models → is_Some (models !! m) → is_ascii m = true.
Proof.
  unfold discovered. intros [<- <-]%lookup_singleton_Some [md [Hm _]%lookup_gset_to_gmap_Some].
  apply elem_of_list_to_set in Hm.
  repeat (apply elem_of_cons in Hm as [->|Hm]; [reflexivity|]). by apply elem_of_nil in Hm.
Qed.

Lemma upgrades_select_and_are_stable_witness :
  model <$> apply_fuzzy_upgrades (resolver []) sample_chain =
    ["claude-sonnet-4-5-20250514"; "Gpt-4o"; "llama"; "y"] ∧
  apply_fuzzy_upgrades (resolver []) (apply_fuzzy_upgrades (resolver []) sample_chain) =
    apply_fuzzy_upgrades (resolver []) sample_chain.
Proof.
  split; [vm_compute; reflexivity|].
  exact (proj2 (upgrades_select_and_are_stable (resolver []) discovered sample_chain eq_refl sample_ascii)).
Defined.

(** One alias on two front ends with different upstreams: the record's upstream
    is that of the route the hash map yields first. *)
Definition shared : ModelResolver := resolver
  [singular "anthropic_messages" "shared" "a" "m1"; singular "openai_chat" "shared" "b" "m2"].
Definition in_order : RouteOrder := {| route_order := λ l, l; route_order_perm := λ l, Permutation_refl l |}.
Definition reversed : RouteOrder :=
  {| route_order := @rev _; route_order_perm := λ l, Permutation_sym (Permutation_rev l) |}.
Theorem shared_alias_depends_on_order :
  upstream_provider <$> List.filter (λ r, bool_decide (mr_id r = "shared")) (list_catalog (O := in_order) shared) ≠
  upstream_provider <$> List.filter (λ r, bool_decide (mr_id r = "shared")) (list_catalog (O := reversed) shared).
Proof. vm_compute. discriminate. Qed.
End Samples.
