(* ===== verification/Startup.v ===== *)
(** * From a validated configuration to the running router

    The gateway starts (crates/gateway/src/commands/serve.rs) by validating the
    configuration and building the router's tables and the rate limiters from
    it.  What validation promises is what the request path relies on: every
    route answers with a non-empty chain of configured upstreams, under retry
    and breaker policies inside the bounds the retry loop and the breakers
    assume.  The samples show where the two disagree. *)
From S2P Require Import Prelude Float64 Json CoreTypes Request Breaker Retry Config Validation.
From S2P Require Import RateLimit StaticRoutes.
#[local] Open Scope string_scope.
#[local] Open Scope list_scope.
#[local] Open Scope nat_scope.

Section Startup.
Implicit Types (cfg : GatewayConfig) (e : RouteEntry).

Lemma targets_referenced e :
  ((re_upstreams e ≠ [] ∧ re_upstream e = None ∧ re_upstream_model e = None) ∨
   (re_upstreams e = [] ∧ is_Some (re_upstream e) ∧ is_Some (re_upstream_model e))) →
  provider <$> default [] (entry_targets e) = referenced e ∧ referenced e ≠ [].
Proof.
  unfold entry_targets, referenced.
  intros [[Hne _]|[-> [[u ->] [m ->]]]]; [|done]. rewrite !bool_decide_eq_false_2 by done. simpl.
  rewrite <- list_fmap_compose. split; [done|]. by destruct (re_upstreams e).
Qed.

Lemma retarget_providers m l : provider <$> retarget_head m l = provider <$> l.
Proof. by destruct l. Qed.

(** An exact or prefix entry answers with all its upstreams, the catch-all with
    the first. *)
Lemma answer_providers e k m :
  provider <$> chain (answer_of e k m) =
  match entry_pattern e with
  | AnyModel => take 1 (provider <$> default [] (entry_targets e))
  | _ => provider <$> default [] (entry_targets e)
  end.
Proof.
  unfold answer_of. simpl. destruct (entry_pattern e).
  - done.
  - destruct (_ && _); [apply retarget_providers|done].
  - destruct (default [] (entry_targets e)) as [|t ts]; [done|]. simpl. by case_bool_decide.
Qed.

Lemma validate_routes_of cfg : validate cfg = Ok tt → valid_config cfg ∧ validate_routes cfg = Ok tt.
Proof.
  intros Hv. pose proof (validate_sound_and_truthful cfg) as Hc. rewrite Hv in Hc. split; [done|].
  unfold validate in Hv. by apply then_ok in Hv as [_ [_ [_ [?%map_err_ok _]%then_ok]%then_ok]%then_ok].
Qed.

Lemma answer_ready cfg e k m :
  valid_config cfg → e ∈ routes cfg →
  chain (answer_of e k m) ≠ [] ∧
  (∀ t, t ∈ chain (answer_of e k m) → is_Some (lookup_upstream cfg (provider t))) ∧
  valid_retry (retry_policy_from (rr_retry (answer_of e k m))) = true ∧
  (1 ≤ failure_threshold_pct (policy_from (rr_breaker (answer_of e k m))) ≤ 100)%Z ∧
  min_requests (policy_from (rr_breaker (answer_of e k m))) ≠ 0%Z ∧
  (∀ min, re_min_tier e = Some min → entry_pattern e ≠ AnyModel →
     ∃ t u, t ∈ chain (answer_of e k m) ∧ lookup_upstream cfg (provider t) = Some u ∧
       tier_rank min ≤ tier_rank (upstream_tier u)).
Proof.
  intros Hv He. destruct (vc_routes _ Hv e He) as [Hs Hu Hr [Hb Hb'] _ _].
  destruct (targets_referenced e Hs) as [Ht Hne]. pose proof (answer_providers e k m) as Hp.
  rewrite Ht in Hp.
  assert (Hin : ∀ t, t ∈ chain (answer_of e k m) → provider t ∈ referenced e).
  { intros t Hin. apply (list_elem_of_fmap_2 provider) in Hin. rewrite Hp in Hin.
    destruct (entry_pattern e); [done..|]. by eapply elem_of_take in Hin as (i & Hi%list_elem_of_lookup_2 & _). }
  split_and!; [|intros t Ht'; by apply Hu, Hin|exact Hr|exact (proj1 Hb)|exact (proj2 Hb)|exact Hb'|].
  - intros Heq. rewrite Heq in Hp. simpl in Hp. destruct (entry_pattern e), (referenced e); done.
  - intros min Hmin Hpat. destruct (vc_tiers _ Hv e He min Hmin) as (n & u & Hn & Hl & Hle).
    { destruct (referenced e) as [|n l] eqn:Href; [done|]. exists n. split; [by left|].
      apply Hu. by left. }
    assert (Hn' : n ∈ provider <$> chain (answer_of e k m)).
    { rewrite Hp. by destruct (entry_pattern e). }
    apply list_elem_of_fmap in Hn' as (t & -> & Hin'). eauto.
Qed.

(** C22: for a validated configuration the router is built, and each of its
    answers is a non-empty chain of configured upstreams with a retry policy
    and breaker bounds the request path accepts; unless the route is a
    catch-all, its minimum tier is met by an upstream of the chain. *)
Theorem validated_routes_are_ready cfg frontend m :
  validate cfg = Ok tt →
  ∃ router, from_config cfg = Some router ∧
    match resolve_route router frontend m with
    | Ok r =>
        chain r ≠ [] ∧
        (∀ t, t ∈ chain r → is_Some (lookup_upstream cfg (provider t))) ∧
        valid_retry (retry_policy_from (rr_retry r)) = true ∧
        (1 ≤ failure_threshold_pct (policy_from (rr_breaker r)) ≤ 100)%Z ∧
        min_requests (policy_from (rr_breaker r)) ≠ 0%Z ∧
        ∃ e, selected (routes cfg) frontend m e ∧
          ∀ min, re_min_tier e = Some min → entry_pattern e ≠ AnyModel →
            ∃ t u, t ∈ chain r ∧ lookup_upstream cfg (provider t) = Some u ∧
              tier_rank min ≤ tier_rank (upstream_tier u)
    | Err _ => ∀ e, e ∈ routes cfg → frontend_of (re_frontend e) = Some frontend →
        matches (entry_pattern e) m = false
    end.
Proof.
  intros [Hv Hr]%validate_routes_of.
  destruct (resolve_route_answers cfg frontend m Hr) as (router & Hf & Hres).
  exists router. split; [done|]. destruct (resolve_route router frontend m) as [r|err]; [|by destruct Hres].
  destruct Hres as (e & Hs & ->). pose proof Hs as (l1 & l2 & Hl & _).
  destruct (answer_ready cfg e frontend m Hv) as (H1 & H2 & H3 & H4 & H5 & H6).
  { rewrite Hl. set_solver. }
  split_and!; eauto; apply H4.
Qed.
End Startup.

(** ** Concrete configurations *)
Module Samples.
Definition common (t : Tier) : UpstreamCommon := {| tier := t; cost := None; p95_latency_budget_ms := None |}.
Definition http (t : Tier) : HttpUpstream := {|
  base_url := "https://u"; api_key := "k"; default_headers := ∅; request_timeout_secs := 30;
  http_common := common t |}.
Definition cheap : UpstreamConfig := Deepseek (http Economy).
Definition good : UpstreamConfig := Anthropic (http Premium) "2023-06-01".
Definition both : gmap string UpstreamConfig := <["cheap" := cheap]> (<["good" := good]> ∅).
Definition array_route (frontend m : string) (us : list string) (min : option Tier) : RouteEntry := {|
  re_frontend := frontend; re_model := m; re_upstream := None; re_upstream_model := None;
  re_upstreams := (λ u, {| ref_name := u; ref_model := "m" |}) <$> us;
  re_reasoning_effort := None; re_anthropic_beta := None; re_retry := default_retry_config;
  re_breaker := default_breaker_config; re_min_tier := min; re_max_cost_usd := None;
  re_plugins := None; re_reasoning_mapping := [] |}.

(** The upstreams that answer for a model. *)
Definition providers_of (cfg : GatewayConfig) (k : FrontendKind) (m : string) : option (list string) :=
  router ← from_config cfg; r ← result_ok (resolve_route router k m); Some (provider <$> chain r).

Definition tiered : GatewayConfig :=
  gateway_config both [array_route "openai" "gpt-*" ["cheap"; "good"] (Some Premium)].
Lemma validated_routes_are_ready_witness :
  validate tiered = Ok tt ∧
  ∃ router, from_config tiered = Some router ∧
    match resolve_route router OpenAiChat "gpt-4" with Ok r => chain r ≠ [] | Err _ => False end.
Proof.
  assert (Hv : validate tiered = Ok tt) by (vm_compute; reflexivity).
  split; [exact Hv|].
  destruct (validated_routes_are_ready tiered OpenAiChat "gpt-4" Hv) as (router & Hr & Hres).
  exists router. split; [exact Hr|].
  assert (Hok : ∃ r, resolve_route router OpenAiChat "gpt-4" = Ok r).
  { vm_compute in Hr. injection Hr as <-. eexists. vm_compute. reflexivity. }
  destruct Hok as [r Hok]. rewrite Hok in *. apply Hres.
Defined.

(** Two spellings of a frontend are one key of the tables but two aliases of
    the check: the second route silently replaces the first. *)
Definition aliased : GatewayConfig := gateway_config both
  [singular "anthropic" "m" "good" "m"; singular "anthropic_messages" "m" "cheap" "m"].
Theorem alias_shadows_route :
  validate aliased = Ok tt ∧
  providers_of aliased AnthropicMessages "m" = Some ["cheap"].
Proof. split; vm_compute; reflexivity. Qed.

(** A catch-all route can pass the tier check thanks to an upstream its answers
    never contain: every request on it is refused. *)
Definition starved : GatewayConfig :=
  gateway_config both [array_route "openai" "*" ["cheap"; "good"] (Some Premium)].
Theorem wildcard_min_tier_unsatisfied :
  validate starved = Ok tt ∧
  providers_of starved OpenAiChat "gpt-4" = Some ["cheap"] ∧
  tier_rank (upstream_tier cheap) < tier_rank Premium.
Proof. split_and!; [vm_compute; reflexivity..|vm_compute; lia]. Qed.

(** The check requires a per-route bucket to be keyed by the route as it is
    written; requests are charged under the canonical frontend name and the
    requested model.  The bucket of an aliased or wildcard route is never
    charged. *)
Definition limited_config : GatewayConfig := {|
  gw_server := default_server; upstreams := both;
  routes := [array_route "openai" "gpt-*" ["good"] None]; gw_plugins := ∅; gw_auth := default_auth;
  gw_rate_limit := {|
    rl_enabled := true; rl_per_key := rl_per_key default_rate_limit;
    rl_per_route := {[ "openai/gpt-*" := {| yaml_rate_per_sec := 1; yaml_burst := 1 |} ]};
    rl_per_upstream := ∅; rl_per_ip := default_per_ip |};
  gw_admin := None; gw_otel := None; gw_shutdown := default_shutdown;
  gw_validation := {| strict_upstream_models := false |} |}.
Theorem per_route_bucket_never_charged identity client_ip :
  validate limited_config = Ok tt ∧
  ∃ router r, from_config limited_config = Some router ∧
    resolve_route router OpenAiChat "gpt-4" = Ok r ∧
    applicable identity (route_label r) client_ip
      (limiters_from_config (Limiter := unit) (gw_rate_limit limited_config)) = [].
Proof.
  split; [vm_compute; reflexivity|]. eexists _, _. split; [vm_compute; reflexivity|].
  split; [vm_compute; reflexivity|]. by destruct identity.
Qed.

(** Key hashes are compared as lower-case hex, but upper-case digits pass the
    check: such a key never matches a client. *)
Definition upper_hash : string :=
  "sha256:AAAAAAAAAAAAAAAAAAAAAAAAAAAAAAAAAAAAAAAAAAAAAAAAAAAAAAAAAAAAAAAA".
Definition is_upper (c : Ascii.ascii) : bool :=
  let n := Ascii.nat_of_ascii c in (65 <=? n) && (n <=? 90).
Theorem upper_case_hash_never_matches sha256_hex plaintext :
  check_sha256_key upper_hash = Ok tt ∧
  (all_chars (λ c, negb (is_upper c)) (sha256_hex plaintext) = true →
   hash_key sha256_hex plaintext ≠ upper_hash).
Proof.
  split; [vm_compute; reflexivity|]. unfold hash_key, upper_hash. intros Hl Heq.
  injection Heq as Heq. change ("" ++ sha256_hex plaintext)%string with (sha256_hex plaintext) in Heq.
  rewrite Heq in Hl. by vm_compute in Hl.
Qed.
End Samples.
