(* ===== verification/PluginBuild.v ===== *)
(** * The plugin registry of a validated configuration
    (crates/plugins/src/registry.rs, [PluginRegistry::build])

    What [build] makes of a configuration that passed validation: which plans the
    lookups find, and which errors are still possible.  The samples show that the
    plans of prefix routes are never found. *)
From S2P Require Import Prelude Json Emit CoreTypes Config Request Validation StaticRoutes Startup Plugins.
#[local] Open Scope string_scope.
#[local] Open Scope list_scope.
#[local] Open Scope nat_scope.

Section Build.
Context `{J : JsonApi} {W ConfigError : Type}.
Implicit Types (factories : list (PluginFactory (W := W) (ConfigError := ConfigError))).
Implicit Types (ps : gmap string (Plugins.PluginEntry (W := W))) (k : FrontendKind) (m : string).

(** The plugins a block names under a hook. *)
Definition references (h : Hook) (b : RoutePluginsBlock) : list string :=
  match h with
  | DecodedRequest => rp_on_decoded_request b
  | Resolved => rp_on_resolved b
  | StreamEventHook => rp_on_stream_event b
  | ResponseComplete => rp_on_response_complete b
  end.
Lemma reference_listed h b n : n ∈ references h b → (hook_as_str h, n) ∈ iter_references b.
Proof.
  unfold iter_references. rewrite !elem_of_app. intros Hn.
  destruct h; simpl in *; [left|right; left|do 2 right; left|do 3 right]; by apply list_elem_of_fmap_2.
Qed.

(** The enabled entries under some names. *)
Definition enabled_named ps (names : list string) : list Plugins.PluginEntry :=
  omap (λ n, en ← ps !! n; if pe_enabled en then Some en else None) names.
Definition plan_of ps (b : RoutePluginsBlock) : RouteHookPlan := {|
  p_on_decoded_request := enabled_named ps (references DecodedRequest b);
  p_on_resolved := enabled_named ps (references Resolved b);
  p_on_stream_event := enabled_named ps (references StreamEventHook b);
  p_on_response_complete := enabled_named ps (references ResponseComplete b) |}.
Definition subscribed ps (h : Hook) (n : string) : Prop :=
  ∃ en, ps !! n = Some en ∧ hs_contains (hooks (pe_plugin en)) h = true.
(** A reference to a plugin that does not subscribe to the hook. *)
Definition mismatched ps (h : Hook) (n : string) (subs : list string) : Prop :=
  ∃ en, ps !! n = Some en ∧ hs_contains (hooks (pe_plugin en)) h = false ∧
    subs = hook_set_to_strs (hooks (pe_plugin en)).

Lemma resolve_hook_spec ps k route h names :
  match resolve_hook (ConfigError := ConfigError) ps k route h names with
  | Ok out => out = enabled_named ps names ∧ ∀ n, n ∈ names → subscribed ps h n
  | Err (UndeclaredPluginReference _ h' n) => h' = hook_as_str h ∧ n ∈ names ∧ ps !! n = None
  | Err (HookSubscriptionMismatch k' m n h' subs) =>
      k' = k ∧ m = re_model route ∧ h' = hook_as_str h ∧ n ∈ names ∧ mismatched ps h n subs
  | Err _ => False
  end.
Proof.
  induction names as [|n names IH]; simpl; [by split; [|intros ? ?%not_elem_of_nil]|].
  destruct (ps !! n) as [en|] eqn:Hn; [|split_and!; [done|apply list_elem_of_here|done]].
  destruct (hs_contains _ h) eqn:Hc; simpl.
  - destruct (resolve_hook ps k route h names) as [out|e]; simpl.
    + destruct IH as [-> Hs]. split.
      * unfold enabled_named. simpl. by destruct (pe_enabled en).
      * intros x [->|Hx]%elem_of_cons; [by exists en|by apply Hs].
    + destruct e; try done; destruct_and!; split_and!; try done; by apply list_elem_of_further.
  - split_and!; [done..|apply list_elem_of_here|by exists en].
Qed.

(** The outcome of a route's block. *)
Definition route_fault ps k (route : RouteEntry) (b : RoutePluginsBlock)
    (e : RegistryBuildError (ConfigError := ConfigError)) : Prop :=
  ∃ h, match e with
  | UndeclaredPluginReference _ h' n => h' = hook_as_str h ∧ n ∈ references h b ∧ ps !! n = None
  | HookSubscriptionMismatch k' m n h' subs =>
      k' = k ∧ m = re_model route ∧ h' = hook_as_str h ∧ n ∈ references h b ∧ mismatched ps h n subs
  | _ => False
  end.
Lemma route_plan_spec ps k route b :
  match route_plan ps k route b with
  | Ok plan => plan = plan_of ps b ∧ ∀ h n, n ∈ references h b → subscribed ps h n
  | Err e => route_fault ps k route b e
  end.
Proof.
  unfold route_plan.
  pose proof (λ h, resolve_hook_spec ps k route h (references h b)) as H.
  pose proof (H DecodedRequest) as H2. pose proof (H Resolved) as H3.
  pose proof (H StreamEventHook) as H5. pose proof (H ResponseComplete) as H7. clear H.
  simpl references in *.
  destruct (resolve_hook ps k route DecodedRequest _) as [h2|e]; simpl.
  2: { exists DecodedRequest. by destruct e. }
  destruct (resolve_hook ps k route Resolved _) as [h3|e]; simpl.
  2: { exists Resolved. by destruct e. }
  destruct (resolve_hook ps k route StreamEventHook _) as [h5|e]; simpl.
  2: { exists StreamEventHook. by destruct e. }
  destruct (resolve_hook ps k route ResponseComplete _) as [h7|e]; simpl.
  2: { exists ResponseComplete. by destruct e. }
  destruct H2 as [-> H2], H3 as [-> H3], H5 as [-> H5], H7 as [-> H7]. split; [done|].
  intros []; auto.
Qed.

(** The block in force for a front end and a model name: that of the last route
    spelled so that has plugins. *)
Definition active_block (r : RouteEntry) : option RoutePluginsBlock :=
  b ← re_plugins r; if block_is_empty b then None else Some b.
Fixpoint block_for (routes : list RouteEntry) k m : option RoutePluginsBlock :=
  match routes with
  | [] => None
  | r :: routes' =>
      match block_for routes' k m with
      | Some b => Some b
      | None => if bool_decide (frontend_of (re_frontend r) = Some k ∧ re_model r = m)
                then active_block r else None
      end
  end.

(** The plan stored for a spelling. *)
Definition stored (pl : gmap FrontendKind FrontendRoutePlans) k m : option (RouteHookPlan (W := W)) :=
  fp ← pl !! k; if bool_decide (m = "*") then wildcard fp else specific fp !! m.
Definition in_use (pl : gmap FrontendKind (FrontendRoutePlans (W := W))) : Prop :=
  ∀ k fp, pl !! k = Some fp → plans_empty fp = false ∧ specific fp !! "*" = None.

Lemma stored_add_plan pl k m plan k' m' :
  stored (add_plan k m plan pl) k' m' =
  if bool_decide (k' = k ∧ m' = m) then Some plan else stored pl k' m'.
Proof.
  unfold stored, add_plan. destruct (decide (k' = k)) as [->|Hk].
  - rewrite lookup_insert_eq. simpl.
    destruct (decide (m' = m)) as [->|Hm].
    + rewrite (bool_decide_eq_true_2 (k = k ∧ m = m)) by done.
      case_bool_decide; simpl; [done|]. by rewrite lookup_insert_eq.
    + rewrite (bool_decide_eq_false_2 (k = k ∧ m' = m)) by naive_solver.
      destruct (pl !! k) as [fp|]; repeat case_bool_decide; simpl; subst; try done;
        by rewrite ?lookup_insert_ne by done.
  - rewrite (bool_decide_eq_false_2 (k' = k ∧ m' = m)) by naive_solver. by rewrite lookup_insert_ne.
Qed.
Lemma in_use_add_plan pl k m plan : in_use pl → in_use (add_plan k m plan pl).
Proof.
  intros Hu k' fp. unfold add_plan. destruct (decide (k' = k)) as [->|Hk].
  - rewrite lookup_insert_eq. intros [= <-].
    assert (Hn : specific (default {| specific := ∅; wildcard := None; plans_empty := false |} (pl !! k)) !! "*" = None)
      by (destruct (pl !! k) as [fp|] eqn:Hk; [by apply (Hu k)|done]).
    case_bool_decide; simpl; [done|]. by rewrite lookup_insert_ne.
  - rewrite lookup_insert_ne by done. apply Hu.
Qed.
Lemma in_use_empty : in_use ∅.
Proof. by intros k fp. Qed.

Lemma add_routes_spec ps routes : ∀ pl, in_use pl →
  match add_routes ps routes pl with
  | Ok pl' => in_use pl' ∧
      (∀ k m, stored pl' k m = match block_for routes k m with Some b => Some (plan_of ps b) | None => stored pl k m end) ∧
      ∀ r b h n, r ∈ routes → active_block r = Some b → n ∈ references h b → subscribed ps h n
  | Err (Plugins.UnknownFrontend f) => ∃ r, r ∈ routes ∧ f = re_frontend r ∧ frontend_of f = None
  | Err e => ∃ r k b, r ∈ routes ∧ frontend_of (re_frontend r) = Some k ∧ active_block r = Some b ∧
      route_fault ps k r b e
  end.
Proof.
  induction routes as [|r routes IH]; intros pl Hu; simpl.
  { split_and!; [done..|]. by intros r b h n ?%not_elem_of_nil. }
  destruct (frontend_of (re_frontend r)) as [k|] eqn:Hk.
  2: { exists r. split_and!; [apply list_elem_of_here|done..]. }
  assert (Hgo : ∀ pl2, in_use pl2 →
    (∀ k' m, stored pl2 k' m = if bool_decide (Some k = Some k' ∧ re_model r = m)
       then match active_block r with Some b => Some (plan_of ps b) | None => stored pl k' m end
       else stored pl k' m) →
    (∀ b h n, active_block r = Some b → n ∈ references h b → subscribed ps h n) →
    match add_routes ps routes pl2 with
    | Ok pl' => in_use pl' ∧
        (∀ k' m, stored pl' k' m =
           match match block_for routes k' m with
                 | Some b => Some b
                 | None => if bool_decide (Some k = Some k' ∧ re_model r = m) then active_block r else None
                 end with Some b => Some (plan_of ps b) | None => stored pl k' m end) ∧
        ∀ r' b h n, r' ∈ r :: routes → active_block r' = Some b → n ∈ references h b → subscribed ps h n
    | Err (Plugins.UnknownFrontend f) => ∃ r', r' ∈ r :: routes ∧ f = re_frontend r' ∧ frontend_of f = None
    | Err e => ∃ r' k b, r' ∈ r :: routes ∧ frontend_of (re_frontend r') = Some k ∧ active_block r' = Some b ∧
        route_fault ps k r' b e
    end).
  { intros pl2 Hu2 Hst Hsub. specialize (IH pl2 Hu2). destruct (add_routes ps routes pl2) as [pl'|e].
    - destruct IH as (Hu' & Hs' & Hr'). split_and!; [done| |].
      + intros k' m. rewrite Hs', Hst. destruct (block_for routes k' m); [done|].
        case_bool_decide; [|done]. by destruct (active_block r).
      + intros r' b h n [->|Hin]%elem_of_cons; [apply Hsub|by apply Hr'].
    - destruct e; naive_solver (eauto using list_elem_of_further). }
  unfold active_block in *. destruct (re_plugins r) as [b|] eqn:Hb; simpl in *.
  2: { apply Hgo; [done|intros; by case_bool_decide|done]. }
  destruct (block_is_empty b) eqn:He.
  { apply Hgo; [done|intros; by case_bool_decide|done]. }
  pose proof (route_plan_spec ps k r b) as Hp. destruct (route_plan ps k r b) as [plan|e]; simpl.
  - destruct Hp as [-> Hsub]. apply Hgo; [by apply in_use_add_plan| |].
    + intros k' m. rewrite stored_add_plan. by do 2 case_bool_decide; naive_solver.
    + intros ? h n [= <-]. apply Hsub.
  - destruct e as [| | | | |]; try (by destruct Hp); exists r, k, b; split_and!; try done;
      try apply list_elem_of_here; by rewrite Hb; simpl; rewrite He.
Qed.

(** *** Factories and instances *)
Lemma index_factories_spec factories : ∀ fm : gmap string PluginFactory,
  match index_factories factories fm with
  | Ok fm' => NoDup (factory_kind <$> factories) ∧ (∀ f, f ∈ factories → fm !! factory_kind f = None) ∧
      ∀ kd f, fm' !! kd = Some f ↔ fm !! kd = Some f ∨ (f ∈ factories ∧ factory_kind f = kd)
  | Err (DuplicateFactoryKind kd) =>
      ∃ l1 f l2, factories = l1 ++ f :: l2 ∧ kd = factory_kind f ∧ (is_Some (fm !! kd) ∨ kd ∈ factory_kind <$> l1)
  | Err _ => False
  end.
Proof.
  induction factories as [|f factories IH]; intros fm; simpl.
  { split_and!; [constructor|by intros f ?%not_elem_of_nil|]. intros kd f. split; [by left|].
    by intros [?|[?%not_elem_of_nil ?]]. }
  case_bool_decide as Hf.
  { exists [], f, factories. split_and!; [done..|by left]. }
  apply eq_None_not_Some in Hf. specialize (IH (<[factory_kind f := f]> fm)).
  destruct (index_factories factories _) as [fm'|e].
  - destruct IH as (Hnd & Hfresh & Hl).
    assert (Hn : factory_kind f ∉ factory_kind <$> factories).
    { intros (g & Hg & Hin)%list_elem_of_fmap. specialize (Hfresh g Hin). by rewrite <- Hg, lookup_insert_eq in Hfresh. }
    split_and!; [by constructor| |].
    + intros g [->|Hg]%elem_of_cons; [done|]. specialize (Hfresh g Hg).
      rewrite lookup_insert_ne in Hfresh; [done|]. intros Heq. apply Hn. rewrite Heq. by apply list_elem_of_fmap_2.
    + intros kd g. rewrite Hl, elem_of_cons. destruct (decide (kd = factory_kind f)) as [->|Hne].
      * rewrite lookup_insert_eq, Hf. split; [naive_solver|]. intros [?|[[->|Hg] Hk]]; [done|by left|].
        destruct Hn. rewrite <- Hk. by apply list_elem_of_fmap_2.
      * rewrite lookup_insert_ne by done. naive_solver.
  - destruct e as [| | |kd| |]; try done. destruct IH as (l1 & g & l2 & -> & -> & Hor).
    exists (f :: l1), g, l2. split_and!; [done..|]. rewrite fmap_cons, elem_of_cons.
    destruct (decide (factory_kind g = factory_kind f)); [by right; left|].
    rewrite lookup_insert_ne in Hor by done. naive_solver.
Qed.
Lemma instantiate_all_spec fm specs : NoDup specs.*1 → ∀ acc : gmap string (Plugins.PluginEntry (W := W)),
  match instantiate_all (ConfigError := ConfigError) fm specs acc with
  | Ok ps => (∀ n spec, (n, spec) ∈ specs → ∃ en, instantiate_entry fm n spec = Ok en ∧ ps !! n = Some en) ∧
      ∀ n, n ∉ specs.*1 → ps !! n = acc !! n
  | Err e => ∃ n spec, (n, spec) ∈ specs ∧ instantiate_entry fm n spec = Err e
  end.
Proof.
  induction specs as [|[n spec] specs IH]; intros Hnd acc; simpl.
  { split; [by intros n spec ?%not_elem_of_nil|done]. }
  inversion_clear Hnd as [|? ? Hn Hnd'].
  destruct (instantiate_entry fm n spec) as [en|e] eqn:Hen; simpl.
  2: { exists n, spec. split; [apply list_elem_of_here|done]. }
  specialize (IH Hnd' (<[n := en]> acc)). destruct (instantiate_all fm specs _) as [ps|e].
  - destruct IH as [Hin Hout]. split.
    + intros n' spec' [[= -> ->]|Hx]%elem_of_cons; [|by apply Hin].
      exists en. split; [done|]. by rewrite Hout, lookup_insert_eq.
    + intros n' Hn'. apply not_elem_of_cons in Hn' as [Hne Hn']. by rewrite Hout, lookup_insert_ne.
  - destruct IH as (n' & spec' & ? & ?). exists n', spec'. split; [by apply list_elem_of_further|done].
Qed.

(** ** The outcome for a validated configuration *)
(** The factory of a kind. *)
Definition made_by factories (name : string) (spec : Config.PluginEntry) (plugin : Plugin) : Prop :=
  ∃ f, f ∈ factories ∧ factory_kind f = kind spec ∧ instantiate f name spec = Ok plugin.
Definition entry_made (name : string) (spec : Config.PluginEntry) (plugin : Plugin) : Plugins.PluginEntry (W := W) := {|
  pe_name := name; pe_kind := kind_name plugin; pe_plugin := plugin;
  pe_on_error := match on_error spec with OnSkip => Skip | OnFail => Fail end;
  pe_timeouts := match timeout_ms spec with Some t => timeouts_from_yaml t | None => default_timeouts end;
  pe_enabled := plugin_enabled spec |}.
(** The route whose block is in force refers to a plugin that does not subscribe. *)
Definition unsubscribed factories cfg k m n (h : Hook) subs : Prop :=
  ∃ r b spec plugin, r ∈ routes cfg ∧ frontend_of (re_frontend r) = Some k ∧ re_model r = m ∧
    active_block r = Some b ∧ n ∈ references h b ∧ gw_plugins cfg !! n = Some spec ∧
    made_by factories n spec plugin ∧ hs_contains (hooks plugin) h = false ∧ subs = hook_set_to_strs (hooks plugin).
Definition build_fault factories cfg (e : RegistryBuildError (ConfigError := ConfigError)) : Prop :=
  match e with
  | DuplicateFactoryKind _ => ¬ NoDup (factory_kind <$> factories)
  | UnknownKind n kd known => (∃ spec, gw_plugins cfg !! n = Some spec ∧ kd = kind spec) ∧
      (kd ∉ factory_kind <$> factories) ∧ (∀ x, x ∈ known ↔ x ∈ (factory_kind <$> factories))
  | Instantiation err n => ∃ spec f, gw_plugins cfg !! n = Some spec ∧ f ∈ factories ∧
      factory_kind f = kind spec ∧ instantiate f n spec = Err err
  | HookSubscriptionMismatch k m n hs subs => ∃ h, hs = hook_as_str h ∧ unsubscribed factories cfg k m n h subs
  | UndeclaredPluginReference _ _ _ | Plugins.UnknownFrontend _ => False
  end.

Lemma valid_frontend s : s ∈ VALID_FRONTENDS → is_Some (frontend_of s).
Proof. unfold VALID_FRONTENDS. rewrite !elem_of_cons, elem_of_nil. intros Hs. by destruct_or!; subst. Qed.
Lemma active_in r b : active_block r = Some b → re_plugins r = Some b.
Proof. unfold active_block. destruct (re_plugins r) as [b'|]; [|done]. simpl. by case_match; intros; simplify_eq. Qed.

Lemma instantiate_entry_made factories fm n spec :
  (∀ kd f, fm !! kd = Some f ↔ (∅ : gmap string PluginFactory) !! kd = Some f ∨ (f ∈ factories ∧ factory_kind f = kd)) →
  match instantiate_entry fm n spec with
  | Ok en => ∃ plugin, made_by factories n spec plugin ∧ en = entry_made n spec plugin
  | Err (UnknownKind n' kd known) => n' = n ∧ kd = kind spec ∧ (kd ∉ factory_kind <$> factories) ∧
      (∀ x, x ∈ known ↔ x ∈ (factory_kind <$> factories))
  | Err (Instantiation err n') => n' = n ∧ ∃ f, f ∈ factories ∧ factory_kind f = kind spec ∧ instantiate f n spec = Err err
  | Err _ => False
  end.
Proof.
  intros Hfm. unfold instantiate_entry. destruct (fm !! kind spec) as [f|] eqn:Hf.
  - apply Hfm in Hf as [?|[Hin Hk]]; [done|].
    destruct (instantiate f n spec) as [plugin|err] eqn:Hi.
    + exists plugin. split; [by exists f|done].
    + split; [done|]. by exists f.
  - assert (Hdom : ∀ x, is_Some (fm !! x) ↔ x ∈ factory_kind <$> factories).
    { intros x. rewrite list_elem_of_fmap. split.
      - intros [g [?|[? ?]]%Hfm]; [done|by exists g].
      - intros (g & -> & Hg). exists g. apply Hfm. by right. }
    split_and!; [done..| |].
    + rewrite <- Hdom, Hf. by intros [].
    + intros x. by rewrite elem_of_keys, Hdom.
Qed.

(** For a validated configuration the registry is built exactly when the
    factories have distinct kinds, provide every declared plugin and every
    referenced plugin subscribes to its hook: each remaining error is true of the
    configuration and the factories, and the two that validation is to rule out
    do not occur.  In the registry a lookup finds the enabled plugins, in order,
    of the last route with plugins under that front end and that very name, else
    of the last such catch-all. *)
Theorem validated_plugins_build factories cfg :
  validate cfg = Ok tt →
  match build factories (entries (gw_plugins cfg)) (routes cfg) with
  | Ok reg =>
      (∀ n spec, gw_plugins cfg !! n = Some spec → ∃ plugin,
         made_by factories n spec plugin ∧ plugins reg !! n = Some (entry_made n spec plugin)) ∧
      (∀ r b h n, r ∈ routes cfg → active_block r = Some b → n ∈ references h b → subscribed (plugins reg) h n) ∧
      ∀ k m, lookup_plan reg k m = plan_of (plugins reg) <$>
        match block_for (routes cfg) k m with Some b => Some b | None => block_for (routes cfg) k "*" end
  | Err e => build_fault factories cfg e
  end.
Proof.
  intros Hv. destruct (validate_routes_of cfg Hv) as [Hc _]. unfold build.
  pose proof (index_factories_spec factories ∅) as Hf. destruct (index_factories factories ∅) as [fm|e]; simpl.
  2: { destruct e as [| | |kd| |]; try done. destruct Hf as (l1 & f & l2 & -> & -> & [[? ?]|Hin]); [done|].
    simpl. rewrite fmap_app, NoDup_app. intros (_ & Hd & _). apply (Hd _ Hin), list_elem_of_here. }
  destruct Hf as (_ & _ & Hfm).
  pose proof (instantiate_all_spec fm (entries (gw_plugins cfg)) (NoDup_keys _) ∅) as Hi.
  destruct (instantiate_all fm _ ∅) as [ps|e]; simpl.
  2: { destruct Hi as (n & spec & Hin%elem_of_entries & He).
    pose proof (instantiate_entry_made factories fm n spec Hfm) as Hm. rewrite He in Hm.
    destruct e; try done; simpl; naive_solver. }
  destruct Hi as [Hin Hout].
  assert (Hps : ∀ n spec, gw_plugins cfg !! n = Some spec → ∃ plugin,
      made_by factories n spec plugin ∧ ps !! n = Some (entry_made n spec plugin)).
  { intros n spec Hn%elem_of_entries. destruct (Hin n spec Hn) as (en & Hen & Hl).
    pose proof (instantiate_entry_made factories fm n spec Hfm) as Hm. rewrite Hen in Hm.
    destruct Hm as (plugin & ? & ->). by exists plugin. }
  pose proof (add_routes_spec ps (routes cfg) ∅ in_use_empty) as Hr.
  assert (Hfault : ∀ r k b e, r ∈ routes cfg → frontend_of (re_frontend r) = Some k → active_block r = Some b →
      route_fault ps k r b e → build_fault factories cfg e).
  { intros r k b e Hrin Hk Hb [h He].
    assert (Hdecl : ∀ n, n ∈ references h b → is_Some (gw_plugins cfg !! n)).
    { intros n Hn. eapply (pl_declared _ (vc_plugins _ Hc)); [done|by apply active_in|by apply reference_listed]. }
    destruct e; try done; simpl.
    - destruct He as (-> & -> & -> & Hn & en & Hen & Hsub & ->). destruct (Hdecl _ Hn) as [spec Hspec].
      destruct (Hps _ _ Hspec) as (pl & Hmade & Hen'). rewrite Hen in Hen'. simplify_eq.
      exists h. split; [done|]. by exists r, b, spec, pl.
    - destruct He as (_ & Hn & Hnone). destruct (Hdecl _ Hn) as [spec Hspec].
      destruct (Hps _ _ Hspec) as (? & _ & ?). congruence. }
  destruct (add_routes ps (routes cfg) ∅) as [pl|e]; simpl.
  - destruct Hr as (Hu & Hst & Hsub). split_and!; [done..|]. intros k m. unfold lookup_plan. simpl.
    pose proof (Hst k m) as Hm. pose proof (Hst k "*") as Hw. unfold stored in Hm, Hw.
    rewrite !lookup_empty in Hm, Hw. simpl in Hm, Hw.
    destruct (pl !! k) as [fp|] eqn:Hfp; simpl in *.
    + destruct (Hu k fp Hfp) as [-> Hstar]. destruct (decide (m = "*")) as [->|Hne].
      * rewrite Hstar, Hw. by destruct (block_for (routes cfg) k "*").
      * rewrite bool_decide_eq_false_2 in Hm by done. rewrite Hm.
        destruct (block_for (routes cfg) k m); [done|]. simpl. rewrite Hw. by destruct (block_for (routes cfg) k "*").
    + destruct (block_for (routes cfg) k m); [done|]. by destruct (block_for (routes cfg) k "*").
  - destruct e; try (by destruct Hr as (r & k & b & ? & ? & ? & ?); eapply Hfault).
    destruct Hr as (r & Hrin & -> & Hnone). destruct (valid_frontend _ (vc_frontends _ Hc r Hrin)). congruence.
Qed.
End Build.

Module Samples.
#[local] Instance build_json : JsonApi := TreeJson [].
Definition factory (name : string) (hs : HookSet) : PluginFactory (W := unit) (ConfigError := string) :=
  {| factory_kind := name; instantiate := λ _ _, Ok (default_plugin name hs) |}.
Definition spec (kd : string) : Config.PluginEntry :=
  {| kind := kd; on_error := OnSkip; timeout_ms := None; plugin_enabled := true |}.
Definition with_plugins (b : RoutePluginsBlock) (r : RouteEntry) : RouteEntry := {|
  re_frontend := re_frontend r; re_model := re_model r; re_upstream := re_upstream r;
  re_upstream_model := re_upstream_model r; re_upstreams := re_upstreams r;
  re_reasoning_effort := re_reasoning_effort r; re_anthropic_beta := re_anthropic_beta r;
  re_retry := re_retry r; re_breaker := re_breaker r; re_min_tier := re_min_tier r;
  re_max_cost_usd := re_max_cost_usd r; re_plugins := Some b; re_reasoning_mapping := re_reasoning_mapping r |}.
Definition decoding (ns : list string) : RoutePluginsBlock :=
  {| rp_on_decoded_request := ns; rp_on_resolved := []; rp_on_stream_event := []; rp_on_response_complete := [] |}.
Definition config (rs : list RouteEntry) : GatewayConfig := {|
  gw_server := default_server; upstreams := Startup.Samples.both; routes := rs;
  gw_plugins := {[ "scrub" := spec "pii" ]};
  gw_auth := default_auth; gw_rate_limit := default_rate_limit; gw_admin := None;
  gw_otel := None; gw_shutdown := default_shutdown; gw_validation := {| strict_upstream_models := false |} |}.
Definition built (cfg : GatewayConfig) := build [factory "pii" DECODED_REQUEST] (entries (gw_plugins cfg)) (routes cfg).
Definition names (plan : option (RouteHookPlan (W := unit))) : option (list string) :=
  (λ p, pe_name <$> p_on_decoded_request p) <$> plan.

Definition prefixed : GatewayConfig := config
  [with_plugins (decoding ["scrub"]) (Startup.Samples.array_route "anthropic" "claude-*" ["good"] None)].
Lemma validated_plugins_build_witness :
  validate prefixed = Ok tt ∧
  match built prefixed with
  | Ok reg => names (lookup_plan reg AnthropicMessages "claude-*") = Some ["scrub"]
  | Err _ => False
  end.
Proof.
  assert (Hv : validate prefixed = Ok tt) by (vm_compute; reflexivity). split; [exact Hv|].
  pose proof (validated_plugins_build [factory "pii" DECODED_REQUEST] prefixed Hv) as H.
  assert (Hn : match built prefixed with Ok reg => names (lookup_plan reg AnthropicMessages "claude-*") | Err _ => None end
    = Some ["scrub"]) by (vm_compute; reflexivity).
  unfold built in *. by destruct (build _ _ _) as [reg|e].
Defined.

(** A request the prefix route answers is looked up under its own name: the
    plugins of the route do not run, here a filter that is to protect personal
    data. *)
Theorem prefix_plugins_never_run :
  validate prefixed = Ok tt ∧
  Startup.Samples.providers_of prefixed AnthropicMessages "claude-opus" = Some ["good"] ∧
  match built prefixed with
  | Ok reg => lookup_plan reg AnthropicMessages "claude-opus" = None
  | Err _ => False
  end.
Proof.
  split_and!; [vm_compute; reflexivity..|].
  assert (Hn : match built prefixed with
    | Ok reg => match lookup_plan reg AnthropicMessages "claude-opus" with None => true | Some _ => false end
    | Err _ => false end = true) by (vm_compute; reflexivity).
  destruct (built prefixed) as [reg|e]; [|done]. by destruct (lookup_plan _ _ _).
Qed.
End Samples.
