(* ===== verification/Admission.v ===== *)
(** * Admission (crates/router/src/admission.rs)

    The gates a request passes before any upstream is called, in order: rate
    limits, cost filter, per-upstream rate limits, capabilities, breakers; and
    the ticket that carries one breaker hold per admitted target.  The function
    [Admission::admit] is [admission_admit]. *)
From S2P Require Import Prelude Emit Float64 Json CoreTypes Fallback Retry Breaker.
From S2P Require Import Config RateLimit Request ImageTokens CostFilter StaticRoutes.
#[local] Open Scope string_scope.
#[local] Open Scope list_scope.
#[local] Open Scope nat_scope.

(** ** Tickets *)
Record AdmissionTicket := {
  filtered_chain : list BackendTarget;
  resolved : ResolvedRoute;
  identity : AgentIdentity;
  breaker_holds : list (option BreakerHold);
  (** how many rate-limit reservations; they do nothing by design *)
  rate_limit_reservations : nat;
  ticket_consumed : bool;
}.

Definition breaker_allowed (t : AdmissionTicket) (chain_index : nat) : bool :=
  bool_decide (is_Some (mjoin (breaker_holds t !! chain_index))).

Section Ticket.
Context (clock : nat → Z).
Notation M := (emit BreakerRegistry StateChange).

Definition spent (t : AdmissionTicket) : AdmissionTicket := {|
  filtered_chain := filtered_chain t; resolved := resolved t; identity := identity t;
  breaker_holds := []; rate_limit_reservations := 0; ticket_consumed := true |}.

(** The loop over the taken holds; a hold that is not the consumed one is
    dropped at the end of its iteration. *)
Fixpoint consume_holds (i : nat) (holds : list (option BreakerHold)) (chain_index : nat)
    (succeeded : bool) : M unit :=
  match holds with
  | [] => mret tt
  | hold :: holds' =>
      match hold with
      | Some hold =>
          if i =? chain_index then hold_consume clock hold succeeded else hold_drop clock hold
      | None => mret tt
      end;;
      consume_holds (S i) holds' chain_index succeeded
  end.

Definition ticket_consume (chain_index : nat) (succeeded : bool) (t : AdmissionTicket)
    : M AdmissionTicket :=
  if ticket_consumed t then mret t
  else
    consume_holds 0 (breaker_holds t) chain_index succeeded;;
    mret (spent t).

(** Dropping the ticket drops the holds it still has, in order. *)
Definition ticket_drop (t : AdmissionTicket) : M unit :=
  for_each (breaker_holds t) (λ hold,
    match hold with Some hold => hold_drop clock hold | None => mret tt end).

(** A ticket's life: any calls of [consume], then the drop. *)
Fixpoint ticket_life (calls : list (nat * bool)) (t : AdmissionTicket) : M unit :=
  match calls with
  | [] => ticket_drop t
  | (i, b) :: calls' => t' ← ticket_consume i b t; ticket_life calls' t'
  end.

(** The reference: one record per hold, its outcome decided by the first call. *)
Fixpoint record_each (i : nat) (holds : list (option BreakerHold)) (outcome : nat → bool) : M unit :=
  match holds with
  | [] => mret tt
  | Some h :: holds' =>
      registry_record clock (hold_provider h) (hold_model h) (outcome i) (hold_policy h);;
      record_each (S i) holds' outcome
  | None :: holds' => record_each (S i) holds' outcome
  end.

Lemma record_each_ext holds f g : (∀ j, f j = g j) → ∀ k, record_each k holds f = record_each k holds g.
Proof. intros Hfg. induction holds as [|[h|] holds IH]; intros k; simpl; [done| |done]. by rewrite Hfg, IH. Qed.

Definition outcome_of (calls : list (nat * bool)) (i : nat) : bool :=
  match calls with
  | (chain_index, succeeded) :: _ => (i =? chain_index) && succeeded
  | [] => false
  end.

Definition fresh (hold : option BreakerHold) : Prop :=
  match hold with Some h => consumed h = false | None => True end.

(** Executions are compared pointwise. *)
Definition same_run {A} (m n : M A) : Prop := ∀ r, m r = n r.

Lemma same_run_bind {A B} (m n : M A) (f g : A → M B) :
  same_run m n → (∀ a, same_run (f a) (g a)) → same_run (m ≫= f) (n ≫= g).
Proof.
  intros Hm Hf r. unfold mbind, emit_bind. rewrite (Hm r). destruct (n r) as [[a r1] l1].
  by rewrite (Hf a r1).
Qed.

Lemma run_ret_bind {B} (m : M B) : same_run (mret tt ≫= λ _, m) m.
Proof. intros r. unfold mbind, emit_bind, mret, emit_ret. by destruct (m r) as [[b r1] l1]. Qed.
Lemma run_bind_ret (m : M unit) : same_run (m ≫= λ _, mret tt) m.
Proof.
  intros r. unfold mbind, emit_bind, mret, emit_ret. destruct (m r) as [[[] r1] l1].
  by rewrite app_nil_r.
Qed.
Lemma run_assoc {A B C} (m : M A) (f : A → M B) (g : B → M C) :
  same_run ((m ≫= f) ≫= g) (m ≫= λ a, f a ≫= g).
Proof.
  intros r. unfold mbind, emit_bind. destruct (m r) as [[a r1] l1].
  destruct (f a r1) as [[b r2] l2]. destruct (g b r2) as [[c r3] l3]. by rewrite app_assoc.
Qed.

Lemma hold_consume_fresh h b :
  consumed h = false →
  same_run (hold_consume clock h b) (registry_record clock (hold_provider h) (hold_model h) b (hold_policy h)).
Proof. intros Hf. unfold hold_consume. rewrite Hf. apply run_bind_ret. Qed.
Lemma hold_drop_fresh h :
  consumed h = false →
  same_run (hold_drop clock h) (registry_record clock (hold_provider h) (hold_model h) false (hold_policy h)).
Proof. intros Hf. unfold hold_drop. rewrite Hf. by intros r. Qed.

Lemma consume_holds_record i holds chain_index b :
  Forall fresh holds →
  same_run (consume_holds i holds chain_index b)
           (record_each i holds (λ i, (i =? chain_index) && b)).
Proof.
  intros Hf. revert i. induction Hf as [|hold holds Hh Hf IH]; intros i; [done|]. simpl.
  destruct hold as [h|].
  - apply same_run_bind; [|intros []; apply IH]. destruct (i =? chain_index); simpl.
    + by apply hold_consume_fresh.
    + by apply hold_drop_fresh.
  - intros r. rewrite (run_ret_bind _ r). apply IH.
Qed.

Lemma ticket_drop_record i t :
  Forall fresh (breaker_holds t) →
  same_run (ticket_drop t) (record_each i (breaker_holds t) (λ _, false)).
Proof.
  unfold ticket_drop. intros Hf. revert i. induction Hf as [|hold holds Hh Hf IH]; intros i; [done|].
  simpl. destruct hold as [h|].
  - apply same_run_bind; [by apply hold_drop_fresh|intros []; apply IH].
  - intros r. rewrite (run_ret_bind _ r). apply IH.
Qed.

Lemma spent_life calls t : same_run (ticket_life calls (spent t)) (mret tt).
Proof.
  induction calls as [|[i b] calls IH]; simpl; [done|]. intros r.
  change (ticket_consume i b (spent t)) with (mret (M := M) (spent t)).
  unfold mbind, emit_bind. simpl. by rewrite (IH r).
Qed.

Lemma ticket_life_records calls t :
  ticket_consumed t = false → Forall fresh (breaker_holds t) →
  same_run (ticket_life calls t) (record_each 0 (breaker_holds t) (outcome_of calls)).
Proof.
  intros Hc Hf. destruct calls as [|[i b] calls]; simpl; [by apply ticket_drop_record|].
  unfold ticket_consume. rewrite Hc. intros r.
  rewrite (run_assoc _ _ _ r).
  transitivity ((record_each 0 (breaker_holds t) (λ j, (j =? i) && b) ≫= λ _, mret tt) r).
  - apply same_run_bind; [by apply consume_holds_record|]. intros [] r'.
    unfold mbind, emit_bind. simpl. by rewrite (spent_life calls t r').
  - apply run_bind_ret.
Qed.

(** Over a ticket's whole life, any sequence of [consume] calls followed by
    its drop, every hold records exactly one outcome, in chain order: success
    only for the hold the first call names and only if that call says so,
    failure for every other hold; later calls and the drop record nothing
    more. *)
Theorem ticket_records_each_hold_once calls t :
  ticket_consumed t = false → Forall fresh (breaker_holds t) →
  same_run (ticket_life calls t) (record_each 0 (breaker_holds t) (outcome_of calls)).
Proof. apply ticket_life_records. Qed.
End Ticket.

(** A two-element chain whose primary always succeeds: after two requests the
    fallback's breaker, charged with a failure per request, is open although
    the fallback has never been called. *)
Module HealthyFallback.
Definition clock (n : nat) : Z := Z.of_nat n.
Definition policy : BreakerPolicy := {|
  enabled := true; failure_threshold_pct := 50; min_requests := 2;
  window := 1000; open_cooldown := 1000 |}.
Definition empty : BreakerRegistry := {| breakers := ∅; ticks := 0 |}.

(** Hold both breakers, commit the primary's success, drop the ticket. *)
Definition successful_request : emit BreakerRegistry StateChange unit :=
  h1 ← try_hold clock "primary" "m" policy;
  h2 ← try_hold clock "fallback" "m" policy;
  consume_holds clock 0 [h1; h2] 0 true.

Theorem healthy_fallback_trips :
  let r := final (successful_request;; successful_request) empty in
  answer (registry_decision clock "fallback" "m" policy) r = Breaker.Skip ∧
  answer (registry_decision clock "primary" "m" policy) r = Breaker.Allow.
Proof. vm_compute. split; reflexivity. Qed.

(** A ticket over both targets, consumed once and dropped. *)
Definition hold_of (provider : string) : option BreakerHold := Some {|
  hold_provider := provider; hold_model := "m"; hold_policy := policy; consumed := false |}.
Definition target (name : string) : BackendTarget :=
  Build_BackendTarget name "m" {| default_reasoning_effort := None; default_anthropic_beta := None;
                                  reasoning_mapping := [] |}.
Definition two_holds : AdmissionTicket := {|
  filtered_chain := [target "primary"; target "fallback"];
  identity := Anonymous;
  resolved := {| chain := []; rr_retry := default_retry_config;
                 rr_breaker := default_breaker_config; route_label := "openai_chat/m" |};
  breaker_holds := [hold_of "primary"; hold_of "fallback"];
  rate_limit_reservations := 3; ticket_consumed := false |}.

Lemma ticket_records_each_hold_once_witness :
  same_run (ticket_life clock [(0, true); (1, true)] two_holds)
    (record_each clock 0 (breaker_holds two_holds) (outcome_of [(0, true); (1, true)])).
Proof.
  apply (ticket_records_each_hold_once clock [(0, true); (1, true)] two_holds);
    [reflexivity|repeat constructor].
Defined.
End HealthyFallback.

(** ** The gates *)
Inductive AdmissionError :=
| RateLimited (dimension : RateLimitDimension) (retry_after_secs : Z)
| NoEligibleUpstream (filtered : list CostFilter.Skip)
| CapabilityMismatchError (msg : string)
| AllBreakersOpen (tried : list string)
| ProviderFault (e : ProviderError).

(** The metrics and state changes an admission reports. *)
Inductive AdmissionEvent :=
| CostFiltered (reason : FilterReason) (upstream : string)
| RateLimitRejected (dimension : RateLimitDimension) (retry_after_secs : Z)
| BreakerChanged (e : StateChange).

(** Run a component's program inside a larger state. *)
Definition embed {S T E F A} (proj : S → T) (upd : T → S → S) (ev : E → F) (m : emit T E A)
    : emit S F A :=
  λ s, let '(a, t, l) := m (proj s) in (a, upd t s, ev <$> l).

Lemma answer_embed {S T E F A} (proj : S → T) (upd : T → S → S) (ev : E → F) (m : emit T E A) s :
  answer (embed proj upd ev m) s = answer m (proj s).
Proof. unfold answer, embed. by destruct (m (proj s)) as [[a t] l]. Qed.

Section Admit.
Context `{J : JsonApi} {Limiter NotUntil : Type}.
Context (direct : Z → Z → Limiter).
Context (check : Z → Limiter → result unit NotUntil * Limiter).
Context (wait_time_from : NotUntil → Z → Z * Z).
Context (limiter_clock breaker_clock : nat → Z).
Context (token_count : string → Z) (recent_p95_ms : string → option Z).
Context (tokens_for_image : ImageSizeHint → Z).
(** [ProviderLookup::get] and the vision capability of what it finds. *)
Context (vision_of : string → option bool).

Record AdmissionState := {
  limiter : LimiterRegistry (Limiter := Limiter);
  breaker : BreakerRegistry;
}.
Definition set_limiter (l : LimiterRegistry) (s : AdmissionState) : AdmissionState :=
  {| limiter := l; breaker := breaker s |}.
Definition set_breaker (b : BreakerRegistry) (s : AdmissionState) : AdmissionState :=
  {| limiter := limiter s; breaker := b |}.

Notation M := (emit AdmissionState AdmissionEvent).

(** A limiter call; a refusal is reported before it is returned. *)
Definition limited (f : LimiterRegistry → result unit (RateLimitDimension * Z) * LimiterRegistry)
    : M (result unit AdmissionError) :=
  r ← (λ s, let '(r, l) := f (limiter s) in (r, set_limiter l s, []));
  match r with
  | Ok _ => mret (Ok tt)
  | Err (d, secs) => push (RateLimitRejected d secs);; mret (Err (RateLimited d secs))
  end.

Fixpoint check_upstreams (targets : list BackendTarget) : M (result unit AdmissionError) :=
  match targets with
  | [] => mret (Ok tt)
  | t :: targets' =>
      r ← limited (check_per_upstream direct check wait_time_from limiter_clock (provider t));
      match r with Ok _ => check_upstreams targets' | Err e => mret (Err e) end
  end.

Definition request_has_image (request : CanonicalRequest) : bool :=
  existsb (λ b, match b with ImageBlock _ _ => true | _ => false end)
    (msg ← messages request; content msg).

Definition check_capability (target : BackendTarget) (request : CanonicalRequest)
    : result unit AdmissionError :=
  match vision_of (provider target) with
  | None => Err (ProviderFault (UnknownProvider (provider target)))
  | Some vision =>
      if request_has_image request && negb vision
      then Err (CapabilityMismatchError
        "target provider does not support vision (image blocks present in request)")
      else Ok tt
  end.
Fixpoint check_capabilities (targets : list BackendTarget) (request : CanonicalRequest)
    : result unit AdmissionError :=
  match targets with
  | [] => Ok tt
  | t :: targets' => let? _ := check_capability t request in check_capabilities targets' request
  end.

(** The loop that collects the holds. *)
Fixpoint try_holds (targets : list BackendTarget) (policy : BreakerPolicy)
    : emit BreakerRegistry StateChange (list (option BreakerHold)) :=
  match targets with
  | [] => mret []
  | t :: targets' =>
      hold ← try_hold breaker_clock (provider t) (Request.model t) policy;
      holds ← try_holds targets' policy;
      mret (hold :: holds)
  end.

(** [Admission::admit]. *)
Definition admission_admit (resolved : ResolvedRoute) (route_entry : RouteEntry)
    (config : GatewayConfig) (request : CanonicalRequest) (identity : AgentIdentity)
    (client_ip : string) : M (result AdmissionTicket AdmissionError) :=
  r ← limited (check_pre_chain direct check wait_time_from limiter_clock identity (route_label resolved) client_ip);
  match r with
  | Err e => mret (Err e)
  | Ok _ =>
      let outcome := filter_chain token_count recent_p95_ms tokens_for_image
                       (chain resolved) route_entry request config in
      for_each (skipped outcome) (λ s, push (CostFiltered (skip_reason s) (skip_upstream s)));;
      for_each (notes outcome) (λ n, push (CostFiltered (note_reason n) (note_upstream n)));;
      match survivors outcome with
      | [] => mret (Err (NoEligibleUpstream (skipped outcome)))
      | filtered_chain =>
          r ← check_upstreams filtered_chain;
          match r with
          | Err e => mret (Err e)
          | Ok _ =>
              match check_capabilities filtered_chain request with
              | Err e => mret (Err e)
              | Ok _ =>
                  holds ← embed breaker set_breaker BreakerChanged
                            (try_holds filtered_chain (policy_from (rr_breaker resolved)));
                  if existsb (λ h, bool_decide (is_Some h)) holds then
                    mret (Ok {| filtered_chain := filtered_chain; resolved := resolved;
                                identity := identity; breaker_holds := holds;
                                rate_limit_reservations := S (length filtered_chain);
                                ticket_consumed := false |})
                  else mret (Err (AllBreakersOpen (provider <$> filtered_chain)))
              end
          end
      end
  end.

(** ** What admission promises *)
(** The limits stay as they were: only buckets move. *)
Definition limits_frame {A} (m : M A) : Prop := ∀ s, charged (limiter s) (limiter (final m s)).
Lemma limits_frame_ret {A} (a : A) : limits_frame (mret a).
Proof. intros s. apply charged_refl. Qed.
Lemma limits_frame_bind {A B} (m : M A) (f : A → M B) :
  limits_frame m → (∀ a, limits_frame (f a)) → limits_frame (m ≫= f).
Proof. intros Hm Hf s. rewrite final_bind. eapply charged_trans; [apply Hm|apply Hf]. Qed.
Lemma limits_frame_pushes {A} (l : list A) e : limits_frame (for_each l (λ x, push (e x))).
Proof.
  induction l as [|x l IH]; [apply limits_frame_ret|]. apply limits_frame_bind; [|done]. intros s. apply charged_refl.
Qed.
Lemma limits_frame_limited f : (∀ r, charged r (f r).2) → limits_frame (limited f).
Proof.
  intros Hf. apply limits_frame_bind; [|intros [[]|[d n]] s; apply charged_refl].
  intros s. unfold final. specialize (Hf (limiter s)). by destruct (f (limiter s)) as [r l].
Qed.
Lemma limits_frame_check_upstreams l : limits_frame (check_upstreams l).
Proof.
  induction l as [|t l IH]; [apply limits_frame_ret|].
  apply limits_frame_bind; [apply limits_frame_limited; intros; apply charged_per_upstream|].
  intros [[]|e]; [done|apply limits_frame_ret].
Qed.
Lemma limits_frame_admission route route_entry config request identity client_ip :
  limits_frame (admission_admit route route_entry config request identity client_ip).
Proof.
  apply limits_frame_bind; [apply limits_frame_limited; intros; apply charged_pre_chain|].
  intros [[]|e]; [|apply limits_frame_ret].
  apply limits_frame_bind; [apply limits_frame_pushes|]. intros [].
  apply limits_frame_bind; [apply limits_frame_pushes|]. intros [].
  destruct (survivors _) as [|t ts]; [apply limits_frame_ret|].
  apply limits_frame_bind; [apply limits_frame_check_upstreams|]. intros [[]|e]; [|apply limits_frame_ret].
  destruct (check_capabilities _ _) as [[]|e]; [|apply limits_frame_ret].
  apply limits_frame_bind; [|intros holds; destruct (existsb _ holds); apply limits_frame_ret].
  intros s. unfold final, embed. destruct (try_holds _ _ _) as [[h b] l]. apply charged_refl.
Qed.

(** The buckets of the upstreams of a chain, in its order. *)
Definition upstream_buckets (targets : list BackendTarget) (r : LimiterRegistry (Limiter := Limiter))
    : list (RateLimitDimension * string * BucketConfig) :=
  if negb (lim_enabled r) then []
  else omap (λ t, (λ c, (PerUpstream, provider t, c)) <$> per_upstream r !! provider t) targets.
#[local] Abbreviation charge_all := (charge direct check wait_time_from limiter_clock).
Definition rate_limited (e : RateLimitDimension * Z) : AdmissionError := RateLimited e.1 e.2.

(** A limiter call, as it is run. *)
Lemma limited_run f s :
  answer (limited f) s = map_err rate_limited (f (limiter s)).1 ∧ final (limited f) s = set_limiter (f (limiter s)).2 s.
Proof. unfold limited, answer, final, mbind, emit_bind. by destruct (f (limiter s)) as [[[]|[d n]] l]. Qed.
Lemma pushes_run {A} (l : list A) (e : A → AdmissionEvent) (s : AdmissionState) :
  final (for_each l (λ x, push (e x))) s = s.
Proof. induction l as [|x l IH]; [done|]. simpl for_each. rewrite final_bind. apply IH. Qed.
(** The upstreams are charged in chain order, to the first that refuses. *)
Lemma check_upstreams_run l s :
  let charged := charge_all (upstream_buckets l (limiter s)) (limiter s) in
  answer (check_upstreams l) s = map_err rate_limited charged.1 ∧
  final (check_upstreams l) s = set_limiter charged.2 s.
Proof.
  revert s. induction l as [|t l IH]; intros s charged; unfold charged; clear charged.
  { unfold upstream_buckets. destruct (negb _); by destruct s. }
  simpl check_upstreams. rewrite answer_bind, final_bind.
  set (f := check_per_upstream _ _ _ _ _). destruct (limited_run f s) as [-> ->]. unfold f, check_per_upstream, gate. clear f.
  assert (Hset : set_limiter (limiter s) s = s) by by destruct s.
  unfold upstream_buckets in *. destruct (lim_enabled (limiter s)) eqn:Hen; simpl.
  2: { rewrite Hset. destruct (IH s) as [-> ->]. by rewrite Hen. }
  destruct (per_upstream (limiter s) !! provider t) as [cfg|] eqn:Hcfg; simpl.
  2: { rewrite Hset. destruct (IH s) as [-> ->]. by rewrite Hen. }
  pose proof (check_bucket_config direct check wait_time_from limiter_clock PerUpstream (provider t) cfg (limiter s))
    as (_ & _ & _ & Hup & Hen' & _).
  destruct (check_bucket _ _ _ _ _ _ _ _) as [[|secs] r']; simpl in *; [|done].
  destruct (IH (set_limiter r' s)) as [-> ->]. simpl. by rewrite Hup, Hen', Hen.
Qed.

(** What the breakers of a chain say, asked in its order. *)
Fixpoint decide_each (targets : list BackendTarget) (policy : BreakerPolicy)
    : emit BreakerRegistry StateChange (list BreakerDecision) :=
  match targets with
  | [] => mret []
  | t :: targets' =>
      d ← registry_decision breaker_clock (provider t) (Request.model t) policy;
      ds ← decide_each targets' policy;
      mret (d :: ds)
  end.
(** A hold for every target that is not skipped. *)
Definition hold_for (policy : BreakerPolicy) (t : BackendTarget) (d : BreakerDecision) : option BreakerHold :=
  match d with
  | Breaker.Skip => None
  | Allow | Probe => Some {| hold_provider := provider t; hold_model := Request.model t; hold_policy := policy; consumed := false |}
  end.
Lemma try_holds_run targets policy r :
  answer (try_holds targets policy) r = zip_with (hold_for policy) targets (answer (decide_each targets policy) r) ∧
  final (try_holds targets policy) r = final (decide_each targets policy) r.
Proof.
  revert r. induction targets as [|t targets IH]; intros r; [done|]. simpl.
  assert (Hhold : answer (try_hold breaker_clock (provider t) (Request.model t) policy) r =
      hold_for policy t (answer (registry_decision breaker_clock (provider t) (Request.model t) policy) r) ∧
    final (try_hold breaker_clock (provider t) (Request.model t) policy) r =
      final (registry_decision breaker_clock (provider t) (Request.model t) policy) r).
  { unfold try_hold. rewrite answer_bind, final_bind. by destruct (answer (registry_decision _ _ _ _) r). }
  destruct Hhold as [Hh Hf]. rewrite !answer_bind, !final_bind, Hh, Hf.
  destruct (IH (final (registry_decision breaker_clock (provider t) (Request.model t) policy) r)) as [H1 H2].
  rewrite H1, H2. by split.
Qed.
Lemma decide_each_length targets policy r : length (answer (decide_each targets policy) r) = length targets.
Proof. revert r. induction targets as [|t targets IH]; intros r; [done|]. simpl. rewrite !answer_bind. unfold answer at 1. simpl. by rewrite IH. Qed.
Lemma some_hold policy targets ds :
  length ds = length targets →
  if existsb (λ h : option BreakerHold, bool_decide (is_Some h)) (zip_with (hold_for policy) targets ds)
  then ∃ d, d ∈ ds ∧ d ≠ Breaker.Skip else Forall (eq Breaker.Skip) ds.
Proof.
  revert ds. induction targets as [|t targets IH]; intros [|d ds] Hlen; try done; [by constructor|]. simpl.
  injection Hlen as Hlen. specialize (IH ds Hlen). destruct d; simpl.
  - exists Allow. split; [left|done].
  - destruct (existsb _ _); [|by constructor]. destruct IH as (d & ? & ?). exists d. split; [by right|done].
  - exists Probe. split; [left|done].
Qed.

(** Can the provider of a target serve the request? *)
Definition capable (request : CanonicalRequest) (t : BackendTarget) : Prop :=
  ∃ vision, vision_of (provider t) = Some vision ∧ (request_has_image request = true → vision = true).
Definition capability_error (request : CanonicalRequest) (t : BackendTarget) (e : AdmissionError) : Prop :=
  (vision_of (provider t) = None ∧ e = ProviderFault (UnknownProvider (provider t))) ∨
  (vision_of (provider t) = Some false ∧ request_has_image request = true ∧
   ∃ msg, e = CapabilityMismatchError msg).

Lemma check_capability_spec request t :
  match check_capability t request with
  | Ok _ => capable request t
  | Err e => capability_error request t e
  end.
Proof.
  unfold check_capability, capable, capability_error.
  destruct (vision_of (provider t)) as [vision|]; [|by left].
  destruct (request_has_image request), vision; simpl; eauto 10.
Qed.

(** The loop stops at the first target that cannot serve the request. *)
Lemma check_capabilities_spec l request :
  match check_capabilities l request with
  | Ok _ => Forall (capable request) l
  | Err e => ∃ l1 t l2, l = l1 ++ t :: l2 ∧ Forall (capable request) l1 ∧ capability_error request t e
  end.
Proof.
  induction l as [|t l IH]; simpl; [done|].
  pose proof (check_capability_spec request t) as Ht.
  destruct (check_capability t request) as [[]|e]; simpl; [|by exists [], t, l].
  destruct (check_capabilities l request) as [[]|e]; [by constructor|].
  destruct IH as (l1 & t' & l2 & -> & ? & ?). exists (t :: l1), t', l2. auto.
Qed.

(** What is known when a request has passed the gates before the breakers:
    [pre] and [up] are the charges of the request's and of the upstreams' buckets. *)
#[local] Abbreviation Charge := (result unit (RateLimitDimension * Z) * LimiterRegistry (Limiter := Limiter))%type.
Definition reached_breakers (pre up : Charge) (o : FilterOutcome) (request : CanonicalRequest) : Prop :=
  pre.1 = Ok tt ∧ survivors o ≠ [] ∧ up.1 = Ok tt ∧ Forall (capable request) (survivors o).
(** The refusal of an admission, gate by gate, and the state it leaves: what was
    charged stays charged, and only the last gate asks the breakers. *)
Definition refused (pre up : Charge) (o : FilterOutcome) (request : CanonicalRequest) (policy : BreakerPolicy)
    (s s' : AdmissionState) (e : AdmissionError) : Prop :=
  match e with
  | RateLimited d n =>
      pre.1 = Err (d, n) ∧ s' = set_limiter pre.2 s ∨
      pre.1 = Ok tt ∧ survivors o ≠ [] ∧ up.1 = Err (d, n) ∧ s' = set_limiter up.2 s
  | NoEligibleUpstream sk => pre.1 = Ok tt ∧ survivors o = [] ∧ sk = skipped o ∧ s' = set_limiter pre.2 s
  | CapabilityMismatchError _ | ProviderFault _ =>
      pre.1 = Ok tt ∧ up.1 = Ok tt ∧ s' = set_limiter up.2 s ∧
      ∃ l1 t l2, survivors o = l1 ++ t :: l2 ∧ Forall (capable request) l1 ∧ capability_error request t e
  | AllBreakersOpen tried =>
      reached_breakers pre up o request ∧ tried = provider <$> survivors o ∧
      Forall (eq Breaker.Skip) (answer (decide_each (survivors o) policy) (breaker s)) ∧
      s' = {| limiter := up.2; breaker := final (decide_each (survivors o) policy) (breaker s) |}
  end.

(** The ticket of an admitted request. *)
Lemma admission_ticket route route_entry config request identity client_ip s t :
  answer (admission_admit route route_entry config request identity client_ip) s = Ok t →
  filtered_chain t ≠ [] ∧ resolved t = route.
Proof.
  unfold admission_admit. rewrite answer_bind. destruct (answer (limited _) s) as [[]|]; [|done].
  rewrite !answer_bind. destruct (survivors _) as [|t0 ts]; [done|].
  rewrite answer_bind. destruct (answer (check_upstreams _) _) as [[]|]; [|done].
  destruct (check_capabilities (t0 :: ts) request) as [[]|]; [|done].
  rewrite answer_bind. destruct (existsb _ _); [|done]. intros H. injection H as <-. by split.
Qed.

(** The run of an admission, gate by gate. *)
Lemma admission_run resolved route_entry config request identity client_ip s :
  let o := filter_chain token_count recent_p95_ms tokens_for_image (chain resolved) route_entry request config in
  let pre := charge_all (applicable identity (route_label resolved) client_ip (limiter s)) (limiter s) in
  let up := charge_all (upstream_buckets (survivors o) pre.2) pre.2 in
  let m := admission_admit resolved route_entry config request identity client_ip in
  let policy := policy_from (rr_breaker resolved) in
  match pre.1 with
  | Err e => answer m s = Err (rate_limited e) ∧ final m s = set_limiter pre.2 s
  | Ok _ =>
    if bool_decide (survivors o = []) then answer m s = Err (NoEligibleUpstream (skipped o)) ∧ final m s = set_limiter pre.2 s
    else match up.1 with
    | Err e => answer m s = Err (rate_limited e) ∧ final m s = set_limiter up.2 s
    | Ok _ =>
      match check_capabilities (survivors o) request with
      | Err e => answer m s = Err e ∧ final m s = set_limiter up.2 s
      | Ok _ =>
        let holds := zip_with (hold_for policy) (survivors o) (answer (decide_each (survivors o) policy) (breaker s)) in
        answer m s = (if existsb (λ h, bool_decide (is_Some h)) holds
          then Ok {| filtered_chain := survivors o; resolved := resolved; identity := identity; breaker_holds := holds;
                     rate_limit_reservations := S (length (survivors o)); ticket_consumed := false |}
          else Err (AllBreakersOpen (provider <$> survivors o))) ∧
        final m s = {| limiter := up.2; breaker := final (decide_each (survivors o) policy) (breaker s) |}
      end
    end
  end.
Proof.
  intros o pre up m policy. unfold m, admission_admit. fold o. clear m. rewrite answer_bind, final_bind.
  set (f := check_pre_chain _ _ _ _ _ _ _). destruct (limited_run f s) as [-> ->].
  assert (Hf : f (limiter s) = pre) by apply check_pre_chain_charges. rewrite Hf. clear f Hf.
  destruct pre as [[[]|e] l1] eqn:Hpre; cbn [fst snd map_err] in *; [|by split].
  rewrite !answer_bind, !final_bind, !pushes_run.
  destruct (survivors o) as [|t0 ts]; [by split|]. rewrite bool_decide_eq_false_2 by done. set (fc := t0 :: ts) in *.
  rewrite answer_bind, final_bind. destruct (check_upstreams_run fc (set_limiter l1 s)) as [-> ->]. cbn [limiter set_limiter]. fold up.
  destruct up as [[[]|e] l2]; cbn [fst snd map_err]; [|by split].
  destruct (check_capabilities fc request) as [[]|e]; [|by split].
  rewrite answer_bind, final_bind. fold policy. rewrite answer_embed.
  destruct (try_holds_run fc policy (breaker s)) as [Hh Hr]. cbn [breaker set_limiter]. rewrite Hh.
  assert (He : final (embed breaker set_breaker BreakerChanged (try_holds fc policy)) (set_limiter l2 (set_limiter l1 s)) =
    {| limiter := l2; breaker := final (decide_each fc policy) (breaker s) |}).
  { rewrite <- Hr. unfold final, embed. cbn [breaker set_limiter]. by destruct (try_holds fc policy (breaker s)) as [[? ?] ?]. }
  rewrite He. by destruct (existsb _ _).
Qed.

(** C24: a request is admitted exactly through the gates, in the code's order:
    the buckets of the key, the route and the address are charged until one
    refuses; then the cost filter must leave a target; then the buckets of the
    surviving upstreams are charged, in chain order, until one refuses; then all
    of them must be able to serve the request; and then their breakers are asked,
    in order, and not all may answer [Skip].  The ticket holds the survivors and
    one fresh hold for each target whose breaker answers [Allow] or [Probe], none
    for the others.  A refusal names the first gate that failed, and what comes
    after it has not happened: a later bucket is not charged, and a request
    refused before the breaker gate leaves every breaker as it was, so it can
    neither trip one nor take its probe. *)
Theorem admission_gates resolved route_entry config request identity client_ip s :
  let o := filter_chain token_count recent_p95_ms tokens_for_image (chain resolved) route_entry request config in
  let pre := charge_all (applicable identity (route_label resolved) client_ip (limiter s)) (limiter s) in
  let up := charge_all (upstream_buckets (survivors o) pre.2) pre.2 in
  let policy := policy_from (rr_breaker resolved) in
  let decisions := answer (decide_each (survivors o) policy) (breaker s) in
  let m := admission_admit resolved route_entry config request identity client_ip in
  match answer m s with
  | Ok t =>
      reached_breakers pre up o request ∧ (∃ d, d ∈ decisions ∧ d ≠ Breaker.Skip) ∧
      t = {| filtered_chain := survivors o; resolved := resolved; identity := identity;
             breaker_holds := zip_with (hold_for policy) (survivors o) decisions;
             rate_limit_reservations := S (length (survivors o)); ticket_consumed := false |} ∧
      final m s = {| limiter := up.2; breaker := final (decide_each (survivors o) policy) (breaker s) |}
  | Err e => refused pre up o request policy s (final m s) e
  end.
Proof.
  intros o pre up policy decisions m.
  pose proof (admission_run resolved route_entry config request identity client_ip s) as H. cbv zeta in H.
  fold o pre up policy m in H.
  destruct (pre.1) as [[]|[d n]] eqn:Hpre; [|destruct H as [-> ->]; by left].
  case_bool_decide as Hsv; [by destruct H as [-> ->]|].
  destruct (up.1) as [[]|[d n]] eqn:Hup; [|destruct H as [-> ->]; by right].
  pose proof (check_capabilities_spec (survivors o) request) as Hcap.
  destruct (check_capabilities (survivors o) request) as [[]|e].
  2: { destruct H as [-> ->]. pose proof Hcap as (_ & t & _ & _ & _ & [[_ ->]|(_ & _ & msg & ->)]); by split_and!. }
  destruct H as [-> ->]. fold decisions.
  pose proof (some_hold policy (survivors o) decisions (decide_each_length _ _ _)) as Hsome.
  by destruct (existsb _ _).
Qed.
End Admit.
