(* ===== verification/Resilient.v ===== *)
(** * The resilient caller (crates/router/src/resilient_caller.rs)

    [complete_inner] walks the admitted chain with a retry loop per target;
    [ConsumeOnFirstEventStream] commits the ticket when the stream's first item
    arrives.  Providers, clocks and the generator's entropy act on a world [W]. *)
From S2P Require Import Prelude Emit Drain Float64 Json CoreTypes Fallback Breaker Retry.
From S2P Require Import Config RateLimit Request CostFilter StaticRoutes Admission.
#[local] Open Scope string_scope.
#[local] Open Scope list_scope.
#[local] Open Scope nat_scope.

Record TriedUpstream := {
  tried_provider : string; tried_model : string; tried_attempts : Z;
  last_error_tag : string; last_error_msg : string; elapsed_ms : Z;
}.

Inductive ResilienceError :=
| NoUpstreamSucceeded (tried : list TriedUpstream) (last_error : ProviderError)
| TerminalError (error : ProviderError) (tried : list TriedUpstream)
| CallerAllBreakersOpen (tried : list string).

(** ** Committing the ticket on the first item *)
Section FirstEvent.
Context `{J : JsonApi} (clock : nat → Z).

(** [ConsumeOnFirstEventStream::poll_next], given what the inner stream's poll
    returned: [Some b] when the item decides the outcome. *)
Definition first_event_succeeded (p : poll (option (result StreamEvent StreamError))) : option bool :=
  match p with
  | Ready (Some (Ok (ErrorEvent _))) => Some false
  | Ready (Some (Ok _)) => Some true
  | Ready (Some (Err _)) => Some false
  | _ => None
  end.
Definition on_poll (chain_index : nat) (p : poll (option (result StreamEvent StreamError)))
    (ticket : option AdmissionTicket) : emit BreakerRegistry StateChange (option AdmissionTicket) :=
  match first_event_succeeded p, ticket with
  | Some succeeded, Some t =>
      t' ← ticket_consume clock chain_index succeeded t;
      ticket_drop clock t';;
      mret None
  | _, _ => mret ticket
  end.

(** A stream polled any number of times, then dropped. *)
Fixpoint stream_life (chain_index : nat) (polls : list (poll (option (result StreamEvent StreamError))))
    (ticket : option AdmissionTicket) : emit BreakerRegistry StateChange unit :=
  match polls with
  | [] => match ticket with Some t => ticket_drop clock t | None => mret tt end
  | p :: polls' => t' ← on_poll chain_index p ticket; stream_life chain_index polls' t'
  end.

Lemma stream_life_none i polls : same_run (stream_life i polls None) (mret tt).
Proof.
  induction polls as [|p polls IH]; simpl; [done|]. intros r. unfold on_poll.
  destruct (first_event_succeeded p); rewrite <- (IH r);
    unfold mbind, emit_bind, mret, emit_ret; by destruct (stream_life i polls None r) as [[[] r1] l1].
Qed.

(** The item that arrives first decides what the breakers learn: the called
    target's hold records a success exactly when that item is an event other
    than an error event, every other hold records a failure, and a stream
    dropped before any item records a failure everywhere. *)
Theorem first_item_decides i polls t :
  ticket_consumed t = false → Forall fresh (breaker_holds t) →
  same_run (stream_life i polls (Some t))
    (record_each clock 0 (breaker_holds t)
       (λ j, (j =? i) && default false (head (omap first_event_succeeded polls)))).
Proof.
  intros Hc Hf. induction polls as [|p polls IH]; intros r; simpl.
  - change (ticket_drop clock t r) with (ticket_life clock [] t r).
    rewrite (ticket_life_records clock [] t Hc Hf r).
    assert (Heq : ∀ hs k r, record_each clock k hs (outcome_of []) r =
      record_each clock k hs (λ j, (j =? i) && false) r).
    { clear. induction hs as [|[h|] hs IH]; intros k r; simpl; [done| |apply IH].
      rewrite andb_false_r. unfold mbind, emit_bind.
      destruct (registry_record _ _ _ _ _ r) as [[[] r1] l1]. by rewrite IH. }
    apply Heq.
  - unfold on_poll. destruct (first_event_succeeded p) as [b|]; simpl.
    + transitivity (ticket_life clock [(i, b)] t r);
        [|exact (ticket_life_records clock [(i, b)] t Hc Hf r)]. simpl.
      rewrite (run_assoc _ _ _ r). apply same_run_bind; [done|]. intros t' r'.
      rewrite (run_assoc _ _ _ r').
      transitivity ((ticket_drop clock t' ≫= λ _, mret tt) r').
      * apply same_run_bind; [done|]. intros [] r2. unfold mbind, emit_bind. simpl.
        by rewrite (stream_life_none i polls r2).
      * apply run_bind_ret.
    + etransitivity; [|exact (IH r)]. unfold mbind, emit_bind. simpl.
      by destruct (stream_life i polls (Some t) r) as [[[] r1] l1].
Qed.
End FirstEvent.

(** ** The chain walk *)
Inductive CallerEvent (Stream : Type) :=
| Skipped (chain_position : nat)
| RetryLog (chain_position : nat) (e : RetryEvent Stream)
| Succeeded (chain_position : nat)
| WasTerminal (chain_position : nat)
| Transition (from_upstream to_upstream : string)
| CallerBreaker (e : StateChange).
Arguments Skipped {Stream}.
Arguments RetryLog {Stream}.
Arguments Succeeded {Stream}.
Arguments WasTerminal {Stream}.
Arguments Transition {Stream}.
Arguments CallerBreaker {Stream}.

Section Caller.
Context {W Rng Stream Request : Type}.
Context (from_entropy : W → Rng * W) (gen_range : f64 → Rng → option (f64 * Rng)).
(** [ProviderLookup::get] and the provider's [complete]; a clock in
    milliseconds; the printing of numbers in error messages. *)
Context (lookup : string → option (Request → BackendTarget → W → result Stream ProviderError * W)).
Context (now_ms : W → Z * W) (show_u16 : Z → string).
Context (breaker_clock : nat → Z).

Record CallerState := { world : W; caller_breakers : BreakerRegistry }.
Definition set_world (w : W) (s : CallerState) : CallerState :=
  {| world := w; caller_breakers := caller_breakers s |}.
Definition set_caller_breakers (b : BreakerRegistry) (s : CallerState) : CallerState :=
  {| world := world s; caller_breakers := b |}.

Notation M := (emit CallerState (CallerEvent Stream)).
Notation Answer := (result (Stream * nat) ResilienceError).

Definition read_clock : M Z := λ s, let '(t, w) := now_ms (world s) in (t, set_world w s, []).

(** What the loop over the chain keeps. *)
Record WalkState := {
  tried : list TriedUpstream;
  last_error : option ProviderError;
  breakers_skipped : list string;
}.

(** After the loop. *)
Definition exhausted_chain (ws : WalkState) : Answer :=
  match tried ws, last_error ws, breakers_skipped ws with
  | _ :: _, Some e, _ => Err (NoUpstreamSucceeded (tried ws) e)
  | _ :: _, None, _ => Err (TerminalError (Network "last_error set on every Err path") (tried ws))
  | [], _, _ :: _ => Err (CallerAllBreakersOpen (breakers_skipped ws))
  | [], _, [] => Err (TerminalError (Network "empty chain") [])
  end.

(** The retry loop of one chain element. *)
Definition call_upstream (i : nat) (policy : RetryPolicy)
    (complete : W → result Stream ProviderError * W) : M (option (RetryOutcome Stream)) :=
  embed world set_world (RetryLog i) (retry_with_policy from_entropy gen_range complete policy).

(** [for (i, target) in chain.iter().enumerate()]; [None]: out of retry fuel. *)
Fixpoint walk (holds : list (option BreakerHold)) (policy : RetryPolicy) (req : Request) (i : nat)
    (targets : list BackendTarget) (ws : WalkState) : M (option Answer) :=
  match targets with
  | [] => mret (Some (exhausted_chain ws))
  | target :: targets' =>
      match mjoin (holds !! i) with
      | None =>
          push (Skipped i);;
          walk holds policy req (S i) targets'
            {| tried := tried ws; last_error := last_error ws;
               breakers_skipped := breakers_skipped ws ++ [provider target] |}
      | Some _ =>
          match lookup (provider target) with
          | None => mret (Some (Err (TerminalError (UnknownProvider (provider target)) (tried ws))))
          | Some complete =>
              started ← read_clock;
              outcome ← call_upstream i policy (complete req target);
              ended ← read_clock;
              match outcome with
              | None => mret None
              | Some o =>
                  match outcome_result o with
                  | Ok stream => push (Succeeded i);; mret (Some (Ok (stream, i)))
                  | Err e =>
                      let tried' := tried ws ++ [{|
                        tried_provider := provider target; tried_model := Request.model target;
                        tried_attempts := attempts o; last_error_tag := error_tag e;
                        last_error_msg := show_error show_u16 e; elapsed_ms := saturating_sub ended started |}] in
                      if bool_decide (fallback_eligibility_with_overrides e (retry_on policy) = Terminal)
                      then push (WasTerminal i);; mret (Some (Err (TerminalError e tried')))
                      else
                        match targets' with
                        | next :: _ => push (Transition (provider target) (provider next))
                        | [] => mret tt
                        end;;
                        walk holds policy req (S i) targets'
                          {| tried := tried'; last_error := Some e;
                             breakers_skipped := breakers_skipped ws |}
                  end
              end
          end
      end
  end.

(** [complete_inner]: on success the ticket moves into the returned stream, on
    every error it is dropped. *)
Definition complete_inner (ticket : AdmissionTicket) (req : Request)
    : M (option (result (Stream * AdmissionTicket * nat) ResilienceError)) :=
  r ← walk (breaker_holds ticket) (retry_policy_from (rr_retry (resolved ticket))) req 0
        (filtered_chain ticket)
        {| tried := []; last_error := None; breakers_skipped := [] |};
  match r with
  | None => mret None
  | Some (Ok (stream, i)) => mret (Some (Ok (stream, ticket, i)))
  | Some (Err e) =>
      embed caller_breakers set_caller_breakers CallerBreaker (ticket_drop breaker_clock ticket);;
      mret (Some (Err e))
  end.

(** ** The reference: a visit per allowed element *)
(** The provider calls of a log, with their chain positions. *)
Definition chain_calls (l : list (CallerEvent Stream)) : list (nat * result Stream ProviderError) :=
  omap (λ e, match e with RetryLog i (Called r) => Some (i, r) | _ => None end) l.

(** The chain positions with a hold, from [i]. *)
Fixpoint allowed (holds : list (option BreakerHold)) (i n : nat) : list nat :=
  match n with
  | O => []
  | S n' =>
      match mjoin (holds !! i) with
      | Some _ => i :: allowed holds (S i) n'
      | None => allowed holds (S i) n'
      end
  end.

(** A visit: the position, the failed attempts, the last result. *)
Record visit := {
  position : nat;
  failed : list (result Stream ProviderError);
  last_result : result Stream ProviderError;
}.
Definition visit_calls (v : visit) : list (nat * result Stream ProviderError) :=
  pair (position v) <$> (failed v ++ [last_result v]).
Definition good_visit (policy : RetryPolicy) (v : visit) : Prop :=
  Forall (eligible policy) (failed v) ∧
  (Z.of_nat (S (length (failed v))) ≤ Z.max 1 (max_attempts policy))%Z.
Definition may_fall_back (policy : RetryPolicy) (v : visit) : Prop := eligible policy (last_result v).

(** What the error report says of a visit. *)
Definition reports (chain : list BackendTarget) (t : TriedUpstream) (v : visit) : Prop :=
  ∃ target e, chain !! position v = Some target ∧ last_result v = Err e ∧
    tried_provider t = provider target ∧ tried_model t = Request.model target ∧
    tried_attempts t = Z.of_nat (S (length (failed v))) ∧ last_error_tag t = error_tag e.

(** The visits of a walk from position [i] over the last [n] elements of
    [chain], started with [ws], and its answer. *)
Definition walked (policy : RetryPolicy) (holds : list (option BreakerHold))
    (chain : list BackendTarget) (i n : nat) (ws : WalkState) (vs : list visit) (r : Answer) : Prop :=
  match r with
  | Ok (stream, k) =>
      (position <$> vs) `prefix_of` allowed holds i n ∧
      ∃ vs' v, vs = vs' ++ [v] ∧ position v = k ∧ last_result v = Ok stream ∧
        Forall (may_fall_back policy) vs'
  | Err (NoUpstreamSucceeded report e) =>
      position <$> vs = allowed holds i n ∧ Forall (may_fall_back policy) vs ∧
      (∃ new, report = tried ws ++ new ∧ report ≠ [] ∧ Forall2 (reports chain) new vs) ∧
      (last (last_result <$> vs) = Some (Err e) ∨ vs = [] ∧ last_error ws = Some e)
  | Err (TerminalError e report) =>
      (position <$> vs) `prefix_of` allowed holds i n ∧
      (∃ new, report = tried ws ++ new ∧ Forall2 (reports chain) new vs) ∧
      ((∃ vs' v, vs = vs' ++ [v] ∧ last_result v = Err e ∧ ¬ may_fall_back policy v ∧
          Forall (may_fall_back policy) vs') ∨
       ((∃ target, target ∈ chain ∧ e = UnknownProvider (provider target) ∧
           lookup (provider target) = None) ∧ Forall (may_fall_back policy) vs) ∨
       (vs = [] ∧ n = 0 ∧ tried ws = [] ∧ breakers_skipped ws = []))
  | Err (CallerAllBreakersOpen skipped) =>
      allowed holds i n = [] ∧ vs = [] ∧ tried ws = [] ∧
      skipped = breakers_skipped ws ++ (provider <$> drop i chain)
  end.

(** Passing over an element whose breaker is open. *)
Lemma walked_skip policy holds chain i n ws ws' target vs r :
  mjoin (holds !! i) = None → chain !! i = Some target →
  tried ws' = tried ws → last_error ws' = last_error ws →
  breakers_skipped ws' = breakers_skipped ws ++ [provider target] →
  walked policy holds chain (S i) n ws' vs r → walked policy holds chain i (S n) ws vs r.
Proof.
  intros Hh Hi Ht Hl Hs. destruct r as [[st k]|[]]; simpl; rewrite Hh, ?Ht, ?Hl; try done.
  - rewrite Hs. intros (Hp & Hr & [H|[H|(_ & _ & _ & H)]]); [| |by destruct (breakers_skipped ws)];
      split_and!; try done; auto.
  - intros (-> & -> & -> & ->). split_and!; [done..|].
    by rewrite Hs, (drop_S chain target i Hi), <- app_assoc.
Qed.

(** Moving on after an eligible error. *)
Lemma walked_next policy holds chain i n ws ws' v e vs r t :
  is_Some (mjoin (holds !! i)) → position v = i → last_result v = Err e → may_fall_back policy v →
  reports chain t v → tried ws' = tried ws ++ [t] → last_error ws' = Some e →
  walked policy holds chain (S i) n ws' vs r → walked policy holds chain i (S n) ws (v :: vs) r.
Proof.
  intros [h Hh] Hp Hv Hm Hrep Ht Hl.
  assert (Hne : ∀ new, tried ws' ++ new = tried ws ++ t :: new) by (intros; by rewrite Ht, <- app_assoc).
  destruct r as [[st k]|[]]; simpl; rewrite Hh, ?Hp.
  - intros (Hpre & vs' & v' & -> & ? & ? & ?). split; [by apply prefix_cons|].
    exists (v :: vs'), v'. split_and!; auto.
  - intros (Hpos & Hf & (new & -> & Hn & H2) & He). split_and!; [by f_equal|by constructor| |].
    + exists (t :: new). rewrite Hne. split_and!; [done|by destruct (tried ws)|by constructor].
    + left. destruct He as [He|[-> He]]; [|simpl; congruence].
      change (last (last_result <$> v :: vs) = Some (Err last_error0)). by rewrite fmap_cons, last_cons, He.
  - intros (Hpre & (new & -> & H2) & He). split_and!; [by apply prefix_cons| |].
    + exists (t :: new). rewrite Hne. split; [done|by constructor].
    + destruct He as [(vs' & v' & -> & ? & ? & ?)|[[He ?]|(_ & _ & He & _)]].
      * left. exists (v :: vs'), v'. split_and!; auto.
      * right. left. split; [done|by constructor].
      * rewrite Ht in He. by destruct (tried ws).
  - intros (_ & _ & He & _). rewrite Ht in He. by destruct (tried ws).
Qed.

Lemma chain_calls_app l k : chain_calls (l ++ k) = chain_calls l ++ chain_calls k.
Proof. apply omap_app. Qed.
Lemma chain_calls_retry i (l : list (RetryEvent Stream)) :
  chain_calls (RetryLog i <$> l) = pair i <$> calls l.
Proof. induction l as [|[] l IH]; csimpl; unfold chain_calls, calls in *; simpl; by rewrite ?IH. Qed.

(** One element's retry loop is a visit. *)
Lemma call_upstream_visit i policy complete s :
  draws gen_range policy → is_u32 (max_attempts policy) → (0 ≤ total_budget_ms policy)%Z →
  ∃ v o, answer (call_upstream i policy complete) s = Some o ∧
    chain_calls (emitted (call_upstream i policy complete) s) = visit_calls v ∧
    position v = i ∧ last_result v = outcome_result o ∧
    attempts o = Z.of_nat (S (length (failed v))) ∧ good_visit policy v.
Proof.
  intros Hj Hm Hb. unfold call_upstream.
  destruct (retry_with_policy_loop from_entropy gen_range complete policy (world s) Hj Hm Hb)
    as (o & Ho & [(errs & Hc & Hf & Ha) _ Hat _ _]).
  exists {| position := i; failed := errs; last_result := outcome_result o |}, o. simpl.
  rewrite answer_embed. split_and!; try done; [|lia|split; simpl; [done|lia]].
  unfold emitted, embed in *. destruct (retry_with_policy _ _ _ _ _) as [[a w] l]. simpl in *.
  by rewrite chain_calls_retry, Hc.
Qed.

Lemma read_clock_calls s : chain_calls (emitted read_clock s) = [].
Proof. unfold emitted, read_clock. by destruct (now_ms (world s)). Qed.

Lemma walk_spec policy holds chain req targets : ∀ i ws s,
  draws gen_range policy → is_u32 (max_attempts policy) → (0 ≤ total_budget_ms policy)%Z →
  targets = drop i chain → (tried ws = [] ↔ last_error ws = None) →
  ∃ r vs, answer (walk holds policy req i targets ws) s = Some r ∧
    chain_calls (emitted (walk holds policy req i targets ws) s) = mjoin (visit_calls <$> vs) ∧
    Forall (good_visit policy) vs ∧ walked policy holds chain i (length targets) ws vs r.
Proof.
  induction targets as [|target targets IH]; intros i ws s Hj Hm Hb Hd Hws.
  - simpl. exists (exhausted_chain ws), []. split_and!; [done..|].
    unfold exhausted_chain. destruct (tried ws) eqn:Et, (last_error ws) eqn:El;
      [by destruct Hws; naive_solver| | |by destruct Hws; naive_solver].
    + destruct (breakers_skipped ws) eqn:Es; simpl; rewrite Et, ?Es.
      * split_and!; [done|by exists []|by right; right].
      * split_and!; [done..|]. by rewrite <- Hd, app_nil_r.
    + simpl. rewrite Et, El. split_and!; [done..| |by right]. exists []. by rewrite app_nil_r.
  - assert (Hi : chain !! i = Some target).
    { replace i with (i + 0) by lia. by rewrite <- (lookup_drop chain i 0), <- Hd. }
    assert (Hd' : targets = drop (S i) chain).
    { rewrite (drop_S chain target i Hi) in Hd. by injection Hd. }
    simpl. destruct (mjoin (holds !! i)) as [h|] eqn:Hh.
    + destruct (lookup (provider target)) as [complete|] eqn:Hl.
      2: { eexists _, []. split_and!; [done..|]. simpl. rewrite Hh.
        split_and!; [apply prefix_nil|exists []; by rewrite app_nil_r|]. right. left.
        split; [|done]. exists target. split_and!; [|done..]. by apply list_elem_of_lookup_2 in Hi. }
      rewrite answer_bind, emitted_bind, chain_calls_app, read_clock_calls.
      generalize (answer read_clock s) (final read_clock s). intros started s1.
      rewrite answer_bind, emitted_bind, chain_calls_app.
      destruct (call_upstream_visit i policy (complete req target) s1 Hj Hm Hb)
        as (v & o & -> & -> & Hp & Hv & Hat & Hgv).
      generalize (final (call_upstream i policy (complete req target)) s1). intros s2.
      rewrite answer_bind, emitted_bind, chain_calls_app, read_clock_calls.
      generalize (answer read_clock s2) (final read_clock s2). intros ended s3.
      destruct (outcome_result o) as [stream|e] eqn:Ho.
      { exists (Ok (stream, i)), [v]. simpl. rewrite app_nil_r, Hh, Hp. split_and!; [done|done|by constructor| |].
        - by apply prefix_cons, prefix_nil.
        - exists [], v. by rewrite Hp. }
      set (t := {| tried_provider := _ |}).
      assert (Hrep : reports chain t v).
      { exists target, e. rewrite Hp. split_and!; try done. }
      case_bool_decide as Hel.
      { exists (Err (TerminalError e (tried ws ++ [t]))), [v]. simpl. rewrite app_nil_r, Hh, Hp.
        split_and!; [done|done|by constructor|by apply prefix_cons, prefix_nil| |].
        - exists [t]. split; [done|by repeat constructor].
        - left. exists [], v. split_and!; try done. unfold may_fall_back, eligible. rewrite Hv.
          intros (e' & [= <-] & ?). congruence. }
      rewrite answer_bind, emitted_bind, chain_calls_app.
      match goal with |- context [final ?m s3] => set (next := m);
        assert (Hn : chain_calls (emitted next s3) = []) by (by unfold next; destruct targets) end.
      rewrite Hn. generalize (final next s3). intros s4.
      edestruct (IH (S i) {| tried := tried ws ++ [t]; last_error := Some e;
        breakers_skipped := breakers_skipped ws |} s4) as (r & vs & Ha & Hc & Hg & Hw);
        [done|done|done|done|simpl; by destruct (tried ws)|].
      exists r, (v :: vs). split_and!; [exact Ha|by rewrite Hc; csimpl|by constructor|].
      eapply (walked_next _ _ _ _ _ _ _ v e); [..|exact Hw]; try done.
      exists e. split; [done|]. by destruct (fallback_eligibility_with_overrides e _).
    + rewrite answer_bind, emitted_bind, chain_calls_app.
      destruct (IH (S i) {| tried := tried ws; last_error := last_error ws;
        breakers_skipped := breakers_skipped ws ++ [provider target] |} (final (push (E := CallerEvent Stream) (Skipped i)) s)
        Hj Hm Hb Hd' Hws) as (r & vs & Ha & Hc & Hg & Hw).
      exists r, vs. split_and!; [exact Ha|exact Hc|done|]. by eapply walked_skip; [..|exact Hw].
Qed.

Lemma walk_keeps_breakers holds policy req targets : ∀ i ws s,
  caller_breakers (final (walk holds policy req i targets ws) s) = caller_breakers s.
Proof.
  induction targets as [|target targets IH]; intros i ws s; simpl; [done|].
  destruct (mjoin (holds !! i)); [|by rewrite final_bind, IH].
  destruct (lookup (provider target)) as [complete|]; [|done].
  rewrite !final_bind. set (s1 := final read_clock s). set (s2 := final (call_upstream _ _ _) s1).
  assert (H1 : caller_breakers s1 = caller_breakers s).
  { unfold s1, final, read_clock. by destruct (now_ms (world s)). }
  assert (H2 : caller_breakers s2 = caller_breakers s1).
  { unfold s2, final, call_upstream, embed. by destruct (retry_with_policy _ _ _ _ _) as [[]]. }
  assert (H3 : caller_breakers (final read_clock s2) = caller_breakers s2).
  { unfold final, read_clock. by destruct (now_ms (world s2)). }
  rewrite H2 in H3. rewrite H1 in H3. rewrite <- H3. generalize (final read_clock s2).
  intros s3. destruct (answer (call_upstream _ _ _) s1) as [o|]; [|done].
  destruct (outcome_result o); [done|]. case_bool_decide; [done|].
  rewrite final_bind, IH. by destruct targets.
Qed.

(** [complete_inner] answers, and hands on the ticket it took. *)
Lemma complete_inner_answers ticket req s :
  let policy := retry_policy_from (rr_retry (resolved ticket)) in
  draws gen_range policy → is_u32 (max_attempts policy) → (0 ≤ total_budget_ms policy)%Z →
  ∃ r, answer (complete_inner ticket req) s = Some r.
Proof.
  intros policy Hj Hm Hb. unfold complete_inner. fold policy.
  destruct (walk_spec policy (breaker_holds ticket) (filtered_chain ticket) req (filtered_chain ticket)
    0 {| tried := []; last_error := None; breakers_skipped := [] |} s Hj Hm Hb eq_refl) as (r & vs & Ha & _); [done|].
  rewrite answer_bind, Ha. destruct r as [[stream i]|e]; [by eexists|]. rewrite answer_bind. by eexists.
Qed.
Lemma complete_inner_ticket ticket req s stream t i :
  answer (complete_inner ticket req) s = Some (Ok (stream, t, i)) → t = ticket.
Proof.
  unfold complete_inner. rewrite answer_bind. destruct (answer (walk _ _ _ _ _ _) s) as [[[st k]|e]|]; [| |done].
  - intros H. by injection H.
  - by rewrite answer_bind.
Qed.

(** C23: [complete_inner] always answers, as long as rand can draw the jitter
    (see [Retry.samplable_draws]; it panics otherwise).  It visits an initial segment of the
    chain positions whose breaker let the request through, in order, skipping
    none; every visit makes between one and [max_attempts] calls, all but the
    last failing with an error the [retry_on] list makes eligible.  It answers
    with the first success; otherwise with the first error that is not
    eligible; otherwise, after all the positions, with the last error and one
    report per visit; [CallerAllBreakersOpen] only when no position was
    allowed.  A success hands over the ticket with the breakers untouched; an
    error drops it. *)
Theorem complete_inner_walks ticket req s :
  let policy := retry_policy_from (rr_retry (resolved ticket)) in
  let start := {| tried := []; last_error := None; breakers_skipped := [] |} in
  draws gen_range policy → is_u32 (max_attempts policy) → (0 ≤ total_budget_ms policy)%Z →
  ∃ r vs, answer (complete_inner ticket req) s = Some r ∧
    chain_calls (emitted (complete_inner ticket req) s) = mjoin (visit_calls <$> vs) ∧
    Forall (good_visit policy) vs ∧
    walked policy (breaker_holds ticket) (filtered_chain ticket) 0 (length (filtered_chain ticket))
      start vs (match r with Ok (stream, _, i) => Ok (stream, i) | Err e => Err e end) ∧
    caller_breakers (final (complete_inner ticket req) s) =
      match r with
      | Ok _ => caller_breakers s
      | Err _ => final (ticket_drop breaker_clock ticket) (caller_breakers s)
      end ∧
    (∀ stream t i, r = Ok (stream, t, i) → t = ticket).
Proof.
  intros policy start Hj Hm Hb. unfold complete_inner. fold policy start.
  destruct (walk_spec policy (breaker_holds ticket) (filtered_chain ticket) req (filtered_chain ticket)
    0 start s Hj Hm Hb eq_refl) as (r & vs & Ha & Hc & Hg & Hw); [done|].
  pose proof (walk_keeps_breakers (breaker_holds ticket) policy req (filtered_chain ticket) 0 start s) as Hk.
  rewrite answer_bind, emitted_bind, final_bind, chain_calls_app, Ha, Hc.
  generalize dependent (final (walk (breaker_holds ticket) policy req 0 (filtered_chain ticket) start) s).
  intros s1 Hk. destruct r as [[stream i]|e].
  - exists (Ok (stream, ticket, i)), vs. split_and!; try done; [by rewrite app_nil_r|by intros ??? [=]].
  - exists (Err e), vs. rewrite <- Hk.
    rewrite answer_bind, emitted_bind, final_bind, chain_calls_app. unfold emitted at 1, final, embed.
    destruct (ticket_drop breaker_clock ticket (caller_breakers s1)) as [[a b] l]. simpl.
    split_and!; try done. rewrite app_nil_r. replace (chain_calls (CallerBreaker <$> l)) with
      (@nil (nat * result Stream ProviderError)); [by rewrite app_nil_r|].
    clear. induction l; csimpl; done.
Qed.
End Caller.

(** ** A concrete chain: the primary fails twice, the fallback succeeds *)
Module Samples.
Definition lookup (name : string)
    : option (unit → BackendTarget → Retry.Samples.script → result nat ProviderError * Retry.Samples.script) :=
  Some (λ _ _ w, Retry.Samples.complete w).
Definition now_ms (w : Retry.Samples.script) : Z * Retry.Samples.script := (0%Z, w).
Definition retrying : RetryConfig := {|
  cfg_max_attempts := 2; cfg_initial_backoff_ms := 10; cfg_multiplier := f64_of_Z 2;
  cfg_jitter_pct := f64_zero; cfg_total_budget_ms := 100; cfg_retry_on := default_retry_on |}.
Definition ticket : AdmissionTicket := {|
  filtered_chain := filtered_chain HealthyFallback.two_holds;
  identity := Anonymous;
  resolved := {| chain := []; rr_retry := retrying; rr_breaker := default_breaker_config;
                 route_label := "openai_chat/m" |};
  breaker_holds := breaker_holds HealthyFallback.two_holds;
  rate_limit_reservations := 3; ticket_consumed := false |}.
Definition start : CallerState (W := Retry.Samples.script) := {|
  world := [Err (Network "reset"); Err (Upstream 503 ""); Ok 7];
  caller_breakers := HealthyFallback.empty |}.
Definition run := complete_inner Retry.Samples.entropy Retry.Samples.no_jitter lookup now_ms
  (λ _, "") HealthyFallback.clock ticket tt.

Lemma complete_inner_walks_witness :
  is_u32 2 ∧
  ∃ r vs, answer run start = Some r ∧
    chain_calls (emitted run start) = mjoin (visit_calls <$> vs) ∧
    chain_calls (emitted run start) =
      [(0, Err (Network "reset")); (0, Err (Upstream 503 "")); (1, Ok 7)].
Proof.
  assert (Hm : is_u32 2) by (split; vm_compute; congruence). split; [exact Hm|].
  destruct (complete_inner_walks Retry.Samples.entropy Retry.Samples.no_jitter lookup now_ms
    (λ _, "") HealthyFallback.clock ticket tt start (λ rng, ex_intro _ _ eq_refl) Hm) as (r & vs & Ha & Hc & _);
    [vm_compute; congruence|].
  exists r, vs. split; [exact Ha|]. split; [exact Hc|]. vm_compute. reflexivity.
Defined.

Lemma first_item_decides_witness :
  same_run
    (stream_life (J := TreeJson []) HealthyFallback.clock 0 [Pending; Ready (Some (Ok (MessageStart Assistant)))]
      (Some ticket))
    (record_each HealthyFallback.clock 0 (breaker_holds ticket) (λ j, (j =? 0) && true)).
Proof.
  apply (first_item_decides (J := TreeJson []) HealthyFallback.clock 0
    [Pending; Ready (Some (Ok (MessageStart Assistant)))] ticket); [reflexivity|repeat constructor].
Defined.
End Samples.
