(* ===== verification/AppState.v ===== *)
(** * The running gateway and its reload
    (crates/gateway/src/state.rs, crates/observability/src/reload.rs and
    [handle_reload] of crates/gateway/src/commands/serve.rs)

    [AppCore] holds what startup builds once, [AppSnapshot] what a reload swaps;
    [app_state] is [AppState::build] and [handle_reload] the task that serves one
    reload request.  The providers, the discovered models and the plugin
    factories come from code and services outside the model. *)
From S2P Require Import Prelude Emit Float64 Json CoreTypes Request Config Validation Startup.
From S2P Require Import Breaker RateLimit StaticRoutes ModelIndex Resolver Plugins PluginBuild.
#[local] Open Scope string_scope.
#[local] Open Scope list_scope.
#[local] Open Scope nat_scope.

Section AppState.
Context `{J : JsonApi} `{L : Lowercase} {W ConfigError Limiter Provider : Type}.
(** A provider's constructor and its model discovery; the built-in plugins; the
    YAML reader; the file system when a reload is served. *)
Context (construct : string → UpstreamConfig → result Provider string).
Context (list_models : Provider → result (option (gmap string ModelMetadata)) string).
Context (builtin_plugins : list (PluginFactory (W := W) (ConfigError := ConfigError))).
Context (parse_yaml : string → result GatewayConfig string).

(** ** The state *)
Record AppCore := {
  config_path : option string;
  server_config : ServerConfig;
  admin_config : option AdminConfig;
  providers : gmap string Provider;
  resolver : ModelResolver;
}.
Record AppSnapshot := {
  snap_config : GatewayConfig;
  snap_auth_enabled : bool;
  snap_auth_required : bool;
  configured_key_hashes : gset string;
  snap_plugins : PluginRegistry (W := W);
}.
(** The limiter and the breaker registry are shared by all requests; a reload
    replaces the limiters and keeps the breakers. *)
Record AppState := {
  core : AppCore;
  snapshot : AppSnapshot;
  limiters : LimiterRegistry (Limiter := Limiter);
  breaker_registry : BreakerRegistry;
}.

(** ** Construction *)
(** [observability::reload::build] and the fields [AppState::build] computes. *)
Definition snapshot_of (config : GatewayConfig) (plugins : PluginRegistry) : AppSnapshot := {|
  snap_config := config; snap_auth_enabled := auth_enabled (gw_auth config);
  snap_auth_required := auth_required (gw_auth config);
  configured_key_hashes := dom (auth_keys (gw_auth config)); snap_plugins := plugins |}.
Definition limiters_of (config : GatewayConfig) : LimiterRegistry (Limiter := Limiter) :=
  if rl_enabled (gw_rate_limit config) then limiters_from_config (gw_rate_limit config) else disabled_limiters.
(** The providers that could be built: a failure is logged and passed over. *)
Definition build_providers (config : GatewayConfig) : gmap string Provider :=
  map_imap (λ name upstream, result_ok (construct name upstream)) (upstreams config).
Definition discovered (ps : gmap string Provider) : gmap string (gmap string ModelMetadata) :=
  omap (λ p, match list_models p with Ok models => models | Err _ => None end) ps.
Definition build_plugins (config : GatewayConfig) : result (PluginRegistry (W := W)) RegistryBuildError :=
  Plugins.build builtin_plugins (entries (gw_plugins config)) (routes config).

(** [AppState::build]; [None] is the panic of [StaticRouter::from_config]. *)
Definition app_state (config : GatewayConfig) : result (option AppState) (RegistryBuildError (ConfigError := ConfigError)) :=
  let providers := build_providers config in
  let? plugins := build_plugins config in
  Ok ((λ static_router, {|
    core := {|
      config_path := None; server_config := gw_server config; admin_config := gw_admin config;
      providers := providers;
      resolver := {| static_router := static_router; model_index := with_metadata (discovered providers) |} |};
    snapshot := snapshot_of config plugins;
    limiters := limiters_of config;
    breaker_registry := {| breakers := ∅; ticks := 0 |} |}) <$> from_config config).

(** ** Reload *)
Inductive ReloadSource := Path (p : string) | Yaml (s : string) | Sighup.
(** The errors' texts are those of the wrapped errors. *)
Inductive ReloadOutcome :=
| ReloadOk (diff : ReloadDiff)
| ReloadValidation (e : ReloadValidationError)
| ReloadImmutableField (e : ReloadValidationError)
| ReloadIo (msg : string)
| ReloadParse (msg : string)
| ReloadPluginValidation (e : RegistryBuildError (ConfigError := ConfigError)).
(** The label of the counter of reloads. *)
Inductive ReloadEvent := ReloadCounted (result : string).
#[local] Abbreviation M := (emit AppState ReloadEvent).

Definition set_snapshot (snap : AppSnapshot) (s : AppState) : AppState := {|
  core := core s; snapshot := snap; limiters := limiters s; breaker_registry := breaker_registry s |}.
Definition set_limiters (l : LimiterRegistry) (s : AppState) : AppState := {|
  core := core s; snapshot := snapshot s; limiters := l; breaker_registry := breaker_registry s |}.

(** What the running process may not change. *)
Definition reload_baseline (s : AppState) : ReloadBaseline := {|
  base_upstream_names := dom (upstreams (snap_config (snapshot s)));
  base_server := server_config (core s); base_admin := admin_config (core s);
  base_otel_endpoint := gw_otel (snap_config (snapshot s)) ≫= endpoint |}.

Definition reload_yaml (read_to_string : string → result string string) (source : ReloadSource) (s : AppState)
    : result string string :=
  match source with
  | Path p => read_to_string p
  | Yaml yaml => Ok yaml
  | Sighup =>
      match config_path (core s) with
      | Some p => read_to_string p
      | None => Err "no config path; SIGHUP can't re-read"
      end
  end.

Definition handle_reload (read_to_string : string → result string string) (source : ReloadSource)
    : M ReloadOutcome :=
  yaml ← gets (reload_yaml read_to_string source);
  match yaml with
  | Err e => mret (ReloadIo e)
  | Ok yaml =>
      match parse_yaml yaml with
      | Err e => mret (ReloadParse e)
      | Ok candidate =>
          baseline ← gets reload_baseline;
          match validate_for_reload candidate baseline with
          | Ok diff =>
              match build_plugins candidate with
              | Err e => push (ReloadCounted "plugin_validation_error");; mret (ReloadPluginValidation e)
              | Ok new_plugins =>
                  modify (set_snapshot (snapshot_of candidate new_plugins));;
                  committed ← gets (λ s, snap_config (snapshot s));
                  modify (set_limiters (limiters_of committed));;
                  push (ReloadCounted "ok");;
                  mret (ReloadOk diff)
              end
          | Err (StartupError _ as e) => push (ReloadCounted "validation_error");; mret (ReloadValidation e)
          | Err e => push (ReloadCounted "immutable_field");; mret (ReloadImmutableField e)
          end
      end
  end.
End AppState.
Arguments AppState {J} W Limiter Provider.
Arguments AppSnapshot {J} W.

(** ** What holds of the running process *)
Section Running.
Context `{J : JsonApi} `{L : Lowercase} {W ConfigError Limiter Provider : Type}.
Context (construct : string → UpstreamConfig → result Provider string).
Context (list_models : Provider → result (option (gmap string ModelMetadata)) string).
Context (builtin_plugins : list (PluginFactory (W := W) (ConfigError := ConfigError))).
Context (parse_yaml : string → result GatewayConfig string).
#[local] Abbreviation State := (AppState W Limiter Provider).
#[local] Abbreviation start := (app_state (Limiter := Limiter) construct list_models builtin_plugins).
#[local] Abbreviation reload := (handle_reload (Limiter := Limiter) (Provider := Provider) builtin_plugins parse_yaml).

(** Reloads, served one at a time, and the traffic between them, which moves the
    buckets and the breakers. *)
Inductive AppEvent :=
| Reload (read_to_string : string → result string string) (source : ReloadSource)
| Traffic (b : gmap (RateLimitDimension * string) Limiter) (n : nat) (r : BreakerRegistry).
Definition app_step (s : State) (e : AppEvent) : State :=
  match e with
  | Reload read source => final (reload read source) s
  | Traffic b n r => {|
      core := core s; snapshot := snapshot s; limiters := set_buckets b n (limiters s); breaker_registry := r |}
  end.

(** The configurations that may be in force: the first, and those read by a
    reload. *)
Definition presented (cfg : GatewayConfig) (h : list AppEvent) (c : GatewayConfig) : Prop :=
  c = cfg ∨ ∃ read source s yaml, Reload read source ∈ h ∧ reload_yaml read source (s : State) = Ok yaml ∧
    parse_yaml yaml = Ok c.

(** The state serves one configuration: snapshot, plugins and limits all derive
    from it, and what may not change has not. *)
Record serves (cfg : GatewayConfig) (s0 s : State) (c : GatewayConfig) : Prop := {
  sv_valid : valid_config c;
  sv_plugins : build_plugins builtin_plugins c = Ok (snap_plugins (snapshot s));
  sv_snapshot : snapshot s = snapshot_of c (snap_plugins (snapshot s));
  sv_limiters : ∃ b n, limiters s = set_buckets b n (limiters_of c);
  sv_core : core s = core s0;
  sv_upstreams : dom (upstreams c) = dom (upstreams cfg);
  sv_listeners : server_bind (gw_server c) = server_bind (gw_server cfg) ∧
    server_port (gw_server c) = server_port (gw_server cfg) ∧
    ((λ a, (admin_bind a, admin_port a)) <$> gw_admin c) =
    ((λ a, (admin_bind a, admin_port a)) <$> gw_admin cfg);
}.

(** A reload commits all of its configuration or nothing. *)
Lemma reload_commits_or_keeps read source s :
  let m := reload read source in
  match answer m s with
  | ReloadOk diff => ∃ yaml c plugins,
      reload_yaml read source s = Ok yaml ∧ parse_yaml yaml = Ok c ∧
      validate_for_reload c (reload_baseline s) = Ok diff ∧
      build_plugins builtin_plugins c = Ok plugins ∧
      final m s = {| core := core s; snapshot := snapshot_of c plugins; limiters := limiters_of c;
                     breaker_registry := breaker_registry s |}
  | _ => final m s = s
  end.
Proof.
  unfold handle_reload, answer, final, mbind, emit_bind, gets, modify, push, mret, emit_ret.
  destruct (reload_yaml read source s) as [yaml|] eqn:Hy; [|done].
  destruct (parse_yaml yaml) as [c|] eqn:Hp; [|done].
  destruct (validate_for_reload c (reload_baseline s)) as [diff|[]] eqn:Hd; [|done..].
  destruct (build_plugins builtin_plugins c) as [plugins|] eqn:Hb; [|done].
  by exists yaml, c, plugins.
Qed.

Lemma serves_step cfg s0 s c e :
  server_config (core s0) = gw_server cfg → admin_config (core s0) = gw_admin cfg →
  serves cfg s0 s c →
  serves cfg s0 (app_step s e) c ∨
  ∃ c', serves cfg s0 (app_step s e) c' ∧ ∃ read source yaml, e = Reload read source ∧
    reload_yaml read source s = Ok yaml ∧ parse_yaml yaml = Ok c'.
Proof.
  intros Hsc Had [Hv Hp Hs Hl Hc Hu Hli]. destruct e as [read source|b n r].
  - pose proof (reload_commits_or_keeps read source s) as H. cbn zeta in H. unfold app_step.
    destruct (answer (reload read source) s); try (rewrite H; left; by split).
    destruct H as (yaml & c' & plugins & Hy & Hpy & Hval & Hb & ->). right. exists c'. split; [|eauto 8].
    destruct (reload_accepted c' (reload_baseline s) diff Hval) as (Hv' & Hu' & Him & _).
    pose proof (check_immutable_spec c' (reload_baseline s)) as Hb'. rewrite Him in Hb'.
    destruct Hb' as (Hb1 & Hb2 & Hb3 & _).
    simpl in *. rewrite Hc in *. rewrite Hsc, Had in *. split; simpl; try done.
    + by exists ∅, 0; unfold limiters_of; destruct (rl_enabled _).
    + by rewrite Hu', Hs.
  - left. split; simpl; try done. destruct Hl as (b' & n' & ->). by exists b, n.
Qed.

Lemma start_serves cfg s0 :
  validate cfg = Ok tt → start cfg = Ok (Some s0) →
  serves cfg s0 s0 cfg ∧ server_config (core s0) = gw_server cfg ∧ admin_config (core s0) = gw_admin cfg ∧
  from_config cfg = Some (static_router (resolver (core s0))).
Proof.
  intros Hv Hs0. unfold app_state in Hs0. destruct (build_plugins builtin_plugins cfg) as [plugins|] eqn:Hb; [|done].
  destruct (from_config cfg); simplify_eq/=. split_and!; [|done..]. split; simpl; try done.
  - by apply validate_routes_of.
  - exists ∅, 0. unfold limiters_of. by destruct (rl_enabled _).
Qed.
Lemma always_serves cfg s0 h :
  validate cfg = Ok tt → start cfg = Ok (Some s0) →
  ∃ c, presented cfg h c ∧ serves cfg s0 (foldl app_step s0 h) c.
Proof.
  intros Hv Hs0. destruct (start_serves cfg s0 Hv Hs0) as (Hstart & Hsc & Had & _).
  induction h as [|e h IH] using rev_ind; [exists cfg; split; [by left|done]|].
  destruct IH as (c & Hpres & Hserves). rewrite foldl_snoc.
  assert (Hmono : ∀ c, presented cfg h c → presented cfg (h ++ [e]) c).
  { intros c0 [->|(read & source & s & yaml & Hin & ?)]; [by left|right].
    exists read, source, s, yaml. split; [|done]. apply elem_of_app. by left. }
  destruct (serves_step cfg s0 (foldl app_step s0 h) c e Hsc Had Hserves)
    as [H|(c' & H & read & source & yaml & -> & Hy & Hp)]; [eauto|].
  exists c'. split; [|done]. right. exists read, source, (foldl app_step s0 h), yaml.
  split; [|done]. apply elem_of_app. right. by left.
Qed.

(** C9: whatever reloads and traffic come after the start, the running process
    serves one configuration: snapshot, plugins, keys and limits all derive from
    it, it is well formed, it is the initial one or one that a reload read, and
    it has the upstreams and the listeners of the first; and a reload that does
    not answer with success changes nothing. *)
Theorem running_configuration cfg s0 h :
  validate cfg = Ok tt → start cfg = Ok (Some s0) →
  let s := foldl app_step s0 h in
  (∃ c, presented cfg h c ∧ serves cfg s0 s c) ∧
  ∀ read source,
    (∃ diff, answer (reload read source) s = ReloadOk diff) ∨ app_step s (Reload read source) = s.
Proof.
  intros Hv Hs0. split; [by apply always_serves|].
  intros read source. pose proof (reload_commits_or_keeps read source (foldl app_step s0 h)) as H.
  unfold app_step at 2. cbn zeta in H. destruct (answer _ _); eauto.
Qed.
End Running.

(** ** A reload of the routes *)
Module Samples.
#[local] Instance sample_json : JsonApi := TreeJson [].
#[local] Instance ascii_lowercase : Lowercase := {| to_lowercase := to_ascii_lowercase |}.
Definition before : GatewayConfig := gateway_config Startup.Samples.both [singular "openai_chat" "a" "cheap" "m"].
(** The route [a] moves to another upstream, and there is a new one. *)
Definition after : GatewayConfig := gateway_config Startup.Samples.both
  [singular "openai_chat" "a" "good" "m"; singular "openai_chat" "b" "good" "m"].
Definition parse_yaml (s : string) : result GatewayConfig string := if bool_decide (s = "after") then Ok after else Err "yaml".
#[local] Abbreviation State := (AppState unit unit unit).
Definition sample_start : result (option State) (RegistryBuildError (ConfigError := unit)) :=
  app_state (λ _ _, Ok tt) (λ _, Ok None) [] before.
Definition reload_after : emit State ReloadEvent (ReloadOutcome (ConfigError := unit)) :=
  handle_reload [] parse_yaml (λ _, Err "unreadable") (Yaml "after").
Definition providers_for (s : State) (m : string) : result (list string) RouteError :=
  result_map (λ r, provider <$> chain r) (resolve_route (resolver (core s)) OpenAiChat m).

(** The number of routes a successful reload reports, the models the
    configuration in force has routes for, and who answers for [a] and [b]. *)
Definition after_reload (s : State) : option nat * list string * result (list string) RouteError * result (list string) RouteError :=
  let s' := final reload_after s in
  (match answer reload_after s with ReloadOk diff => Some (routes_total diff) | _ => None end,
   re_model <$> routes (snap_config (snapshot s')), providers_for s' "a", providers_for s' "b").

(** The reload succeeds and its configuration is in force, but requests are
    still routed by the tables of the start. *)
Lemma reload_keeps_old_routes :
  validate before = Ok tt ∧
  result_map (fmap after_reload) sample_start =
  Ok (Some (Some 2, ["a"; "b"], Ok ["cheap"], Err (NoRoute OpenAiChat "b"))).
Proof. split; vm_compute; reflexivity. Qed.

Lemma running_configuration_witness :
  validate before = Ok tt ∧
  ∃ s0, sample_start = Ok (Some s0) ∧
  ∃ c, presented (W := unit) (Limiter := unit) (Provider := unit) parse_yaml before [Reload (λ _, Err "unreadable") (Yaml "after")] c.
Proof.
  assert (Hv : validate before = Ok tt) by (vm_compute; reflexivity). split; [exact Hv|].
  assert (Hs : ∃ s0, sample_start = Ok (Some s0)).
  { assert (H : match sample_start with Ok (Some _) => true | _ => false end = true) by (vm_compute; reflexivity).
    destruct sample_start as [[s0|]|]; [by exists s0|done..]. }
  destruct Hs as [s0 Hs0]. exists s0. split; [exact Hs0|].
  destruct (running_configuration (ConfigError := unit) (λ _ _, Ok tt) (λ _, Ok None) [] parse_yaml before s0
    [Reload (λ _, Err "unreadable") (Yaml "after")] Hv Hs0) as [(c & Hc & _) _].
  by exists c.
Defined.
End Samples.
