(* ===== verification/GatewayErrors.v ===== *)
(** * The gateway's errors (crates/gateway/src/handlers/mod.rs)

    [HandlerError] is what a request handler fails with; [into_response] the
    HTTP answer a client gets, in the dialect of its front end: a status, headers
    and a JSON body, here as the record the [json!] literals build.  The
    conversions come from the components a request passes, and
    [status_hint] is the status the pipeline's span reports. *)
From stdpp Require Import pretty.
From S2P Require Import Prelude Json CoreTypes Fallback RateLimit Request CostFilter StaticRoutes Admission Resilient Plugins.
#[local] Open Scope string_scope.
#[local] Open Scope list_scope.
#[local] Open Scope Z_scope.

Inductive FrontendError :=
| InvalidBody (msg : string) | Unsupported (msg : string) | EncodeFailure (msg : string) | DecodeFailure (msg : string).

Inductive HandlerError :=
| RouteFault (e : RouteError)
| Provider (e : ProviderError)
| Frontend (e : FrontendError)
| HCapabilityMismatch (kind : FrontendKind) (message : string)
| HNoUpstreamSucceeded (kind : FrontendKind) (last_error : ProviderError) (tried_count : Z)
| TerminalUpstream (kind : FrontendKind) (error : ProviderError)
| HAllBreakersOpen (kind : FrontendKind) (tried_count : Z)
| HRateLimited (kind : FrontendKind) (dimension : RateLimitDimension) (retry_after_secs : Z)
| HNoEligibleUpstream (kind : FrontendKind) (filtered : list CostFilter.Skip)
| Unauthorized (kind : FrontendKind)
| PluginFailed (kind : FrontendKind) (plugin hook : string) (aborted : bool).

(** ** Conversions *)
Definition from_resilience_error (e : ResilienceError) (kind : FrontendKind) : HandlerError :=
  match e with
  | NoUpstreamSucceeded tried last_error => HNoUpstreamSucceeded kind last_error (Z.of_nat (length tried))
  | TerminalError error _ => TerminalUpstream kind error
  | CallerAllBreakersOpen tried => HAllBreakersOpen kind (Z.of_nat (length tried))
  end.
Definition handler_error_from_admission (e : AdmissionError) (kind : FrontendKind) : HandlerError :=
  match e with
  | RateLimited dimension retry_after_secs => HRateLimited kind dimension retry_after_secs
  | NoEligibleUpstream filtered => HNoEligibleUpstream kind filtered
  | CapabilityMismatchError message => HCapabilityMismatch kind message
  | AllBreakersOpen tried => HAllBreakersOpen kind (Z.of_nat (length tried))
  | ProviderFault error => Provider error
  end.
Definition handler_error_from_plugin_error (e : PluginError) (kind : FrontendKind) : HandlerError :=
  match e with
  | Aborted plugin _ => PluginFailed kind plugin "aborted" true
  | Timeout plugin hook _ => PluginFailed kind plugin hook false
  | Failed plugin hook _ => PluginFailed kind plugin hook false
  | ProtectedFieldMutated plugin hook _ => PluginFailed kind plugin hook false
  end.

(** ** Messages *)
Definition show_dimension (d : RateLimitDimension) : string :=
  match d with PerKey => "PerKey" | PerRoute => "PerRoute" | PerUpstream => "PerUpstream" | PerIp => "PerIp" end.
Definition show_frontend (k : FrontendKind) : string :=
  match k with
  | AnthropicMessages => "AnthropicMessages" | OpenAiChat => "OpenAiChat" | OpenAiResponses => "OpenAiResponses" end.
Definition show_bool (b : bool) : string := if b then "true" else "false".
Definition show_route_error (e : RouteError) : string :=
  match e with NoRoute k m => ("no route for frontend=" ++ show_frontend k ++ " model=" ++ m)%string end.
Definition show_frontend_error (e : FrontendError) : string :=
  match e with
  | InvalidBody m => "invalid request body: " ++ m
  | Unsupported m => "unsupported feature: " ++ m
  | EncodeFailure m => "encoding failure: " ++ m
  | DecodeFailure m => "decoding failure: " ++ m
  end%string.
Definition show_provider_error : ProviderError → string := show_error (λ n, pretty n).
Definition show_handler_error (e : HandlerError) : string :=
  match e with
  | RouteFault e => "route error: " ++ show_route_error e
  | Provider e => "provider error: " ++ show_provider_error e
  | Frontend e => "frontend error: " ++ show_frontend_error e
  | HCapabilityMismatch _ m => "capability mismatch: " ++ m
  | HNoUpstreamSucceeded _ e n =>
      "no upstream succeeded after trying " ++ pretty n ++ " options: " ++ show_provider_error e
  | TerminalUpstream _ e => "terminal upstream error: " ++ show_provider_error e
  | HAllBreakersOpen _ n => "all " ++ pretty n ++ " upstreams temporarily unavailable (circuit breakers open)"
  | HRateLimited _ d s => show_dimension d ++ " rate limit exceeded; retry after " ++ pretty s ++ "s"
  | HNoEligibleUpstream _ l =>
      "no eligible upstream after cost filter (" ++ pretty (Z.of_nat (length l)) ++ " candidates rejected)"
  | Unauthorized _ => "authentication required"
  | PluginFailed _ p h a => "plugin `" ++ p ++ "` failed on hook `" ++ h ++ "` (aborted=" ++ show_bool a ++ ")"
  end%string.

(** ** The answer *)
(** The error envelopes of the two dialects, and the plain one.  [filtered] is
    the additional array of upstreams and reasons. *)
Inductive ErrorBody :=
| AnthropicBody (ty message : string) (filtered : option (list (string * string)))
| OpenAiBody (message ty code : string) (filtered : option (list (string * string)))
| PlainBody (message : string).
Record ErrorResponse := { status : Z; www_authenticate : bool; retry_after : option string; body : ErrorBody }.

Definition filter_reason_as_str (r : FilterReason) : string :=
  match r with
  | TierReason => "tier" | Latency => "latency" | Cap => "cap" | LatencyUnknown => "latency_unknown" end.
Definition filtered_array (l : list CostFilter.Skip) : list (string * string) :=
  (λ s, (skip_upstream s, filter_reason_as_str (skip_reason s))) <$> l.
Definition dimension_code (d : RateLimitDimension) : string * string :=
  match d with
  | PerKey => ("rate_limited_per_key", "Per-API-key")
  | PerRoute => ("rate_limited_per_route", "Route")
  | PerUpstream => ("rate_limited_per_upstream", "Upstream")
  | PerIp => ("rate_limited_per_ip", "Per-IP")
  end.

(** [None] is the [unreachable!] of the two functions. *)
Definition openai_envelope_body (e : HandlerError) : option ErrorBody :=
  match e with
  | HNoUpstreamSucceeded _ last_error tried_count => Some (OpenAiBody
      ("All " ++ pretty tried_count ++ " upstreams failed: " ++ show_provider_error last_error)
      "service_unavailable_error" "no_upstream_available" None)
  | HAllBreakersOpen _ tried_count => Some (OpenAiBody
      ("All " ++ pretty tried_count ++ " upstreams temporarily unavailable (circuit breakers open)")
      "service_unavailable_error" "all_breakers_open" None)
  | HNoEligibleUpstream _ filtered => Some (OpenAiBody
      ("No eligible upstream after cost filter (" ++ pretty (Z.of_nat (length filtered)) ++ " candidates rejected)")
      "service_unavailable_error" "no_eligible_upstream" (Some (filtered_array filtered)))
  | HRateLimited _ dimension retry_after_secs =>
      let '(code, dimension_msg) := dimension_code dimension in
      Some (OpenAiBody (dimension_msg ++ " rate limit exceeded; retry after " ++ pretty retry_after_secs ++ "s")
        "rate_limit_error" code None)
  | _ => None
  end%string.
Definition anthropic_envelope_body (e : HandlerError) : option ErrorBody :=
  match e with
  | HNoUpstreamSucceeded _ _ _ | HAllBreakersOpen _ _ =>
      Some (AnthropicBody "overloaded_error" (show_handler_error e) None)
  | HNoEligibleUpstream _ filtered =>
      Some (AnthropicBody "overloaded_error" (show_handler_error e) (Some (filtered_array filtered)))
  | HRateLimited _ _ _ => Some (AnthropicBody "rate_limit_error" (show_handler_error e) None)
  | _ => None
  end.

(** [StatusCode::from_u16(status).unwrap_or(BAD_GATEWAY)]. *)
Definition status_or_bad_gateway (s : Z) : Z := if (100 <=? s) && (s <=? 999) then s else 502.
(** The flat lookup at the end. *)
Definition plain_status (e : HandlerError) : Z :=
  match e with
  | RouteFault (NoRoute _ _) => 404
  | Provider (Upstream s _) => status_or_bad_gateway s
  | Provider (UnknownProvider _) => 502
  | Provider (Network _) => 502
  | Provider (CapabilityMismatch _) => 400
  | Frontend (InvalidBody _) => 400
  | Frontend (Unsupported _) => 422
  | TerminalUpstream _ (Upstream s _) => status_or_bad_gateway s
  | TerminalUpstream _ _ => 502
  | _ => 500
  end.
Definition in_dialect (kind : FrontendKind) (ty message code : string) : ErrorBody :=
  match kind with
  | AnthropicMessages => AnthropicBody ty message None
  | OpenAiChat | OpenAiResponses => OpenAiBody message ty code None
  end.
(** [None] would be a panic. *)
Definition into_response (e : HandlerError) : option ErrorResponse :=
  let answer status body := {| status := status; www_authenticate := false; retry_after := None; body := body |} in
  let enveloped kind status retry_after :=
    (λ body, {| status := status; www_authenticate := false; retry_after := retry_after; body := body |}) <$>
      match kind with AnthropicMessages => anthropic_envelope_body e | _ => openai_envelope_body e end in
  match e with
  | HCapabilityMismatch kind message =>
      Some (answer 400 (in_dialect kind "invalid_request_error" message "capability_mismatch"))
  | Unauthorized kind => Some {|
      status := 401; www_authenticate := true; retry_after := None;
      body := in_dialect kind "authentication_error" "Authentication required." "unauthorized" |}
  | PluginFailed kind _ _ aborted =>
      let ty := if aborted then "invalid_request_error" else "api_error" in
      let code := if aborted then "plugin_aborted" else "plugin_failed" in
      Some (answer (if aborted then 400 else 502) (in_dialect kind ty (show_handler_error e) code))
  | HNoUpstreamSucceeded kind _ _ => enveloped kind 503 None
  | HAllBreakersOpen kind _ => enveloped kind 503 None
  | HNoEligibleUpstream kind _ => enveloped kind 503 None
  | HRateLimited kind _ secs => enveloped kind 429 (Some (pretty secs))
  | _ => Some (answer (plain_status e) (PlainBody (show_handler_error e)))
  end.

(** [handler_error_status_hint]. *)
Definition status_hint (e : HandlerError) : Z :=
  match e with
  | RouteFault (NoRoute _ _) => 404
  | Unauthorized _ => 401
  | HCapabilityMismatch _ _ => 400
  | Frontend (InvalidBody _) => 400
  | Frontend (Unsupported _) => 422
  | Frontend _ => 400
  | Provider (Upstream s _) => s
  | Provider _ => 502
  | HNoUpstreamSucceeded _ _ _ | HAllBreakersOpen _ _ | HNoEligibleUpstream _ _ => 503
  | HRateLimited _ _ _ => 429
  | TerminalUpstream _ (Upstream s _) => s
  | TerminalUpstream _ _ => 502
  | PluginFailed _ _ _ true => 400
  | PluginFailed _ _ _ false => 502
  end.
Definition status_class_for (s : Z) : string :=
  if (200 <=? s) && (s <=? 299) then "2xx"
  else if (300 <=? s) && (s <=? 399) then "3xx"
  else if (400 <=? s) && (s <=? 499) then "4xx"
  else if (500 <=? s) && (s <=? 599) then "5xx"
  else "other".

(** ** Facts *)
(** The upstream's own status, where an error carries one. *)
Definition upstream_status (e : HandlerError) : option Z :=
  match e with
  | Provider (Upstream s _) | TerminalUpstream _ (Upstream s _) => Some s
  | _ => None
  end.
(** The span's status is the wire's, but for encoding and decoding failures and
    a provider's own capability refusal. *)
Definition hint_is_exact (e : HandlerError) : bool :=
  match e with
  | Frontend (EncodeFailure _) | Frontend (DecodeFailure _) => false
  | Provider (Decode _) | Provider (Encode _) | Provider (CapabilityMismatch _) => false
  | _ => true
  end.

(** Every error has an answer, the [unreachable!] branches being so: an
    error status, unless the error carries an upstream's status, which passes
    through when it is one; [Retry-After] exactly on a rate limit; and, for the
    errors that know it, a body in the client's own dialect. *)
Theorem error_responses_are_errors e :
  ∃ r, into_response e = Some r ∧
    match upstream_status e with
    | Some s => status r = status_or_bad_gateway s
    | None => (400 ≤ status r ≤ 503)
    end ∧
    ((∀ s, upstream_status e = Some s → 100 ≤ s ≤ 999) → hint_is_exact e = true → status_hint e = status r) ∧
    (is_Some (retry_after r) ↔ ∃ k d s, e = HRateLimited k d s) ∧
    match e, body r with
    | (HCapabilityMismatch k _ | HNoUpstreamSucceeded k _ _ | HAllBreakersOpen k _ | HRateLimited k _ _
       | HNoEligibleUpstream k _ | Unauthorized k | PluginFailed k _ _ _), AnthropicBody _ _ _ => k = AnthropicMessages
    | (HCapabilityMismatch k _ | HNoUpstreamSucceeded k _ _ | HAllBreakersOpen k _ | HRateLimited k _ _
       | HNoEligibleUpstream k _ | Unauthorized k | PluginFailed k _ _ _), OpenAiBody _ _ _ _ => k ≠ AnthropicMessages
    | (RouteFault _ | Provider _ | Frontend _ | TerminalUpstream _ _), PlainBody m => m = show_handler_error e
    | _, _ => False
    end.
Proof.
  assert (Hs : ∀ s, 100 ≤ s ≤ 999 → status_or_bad_gateway s = s).
  { intros s Hs. unfold status_or_bad_gateway. destruct (Z.leb_spec 100 s), (Z.leb_spec s 999); simpl; lia. }
  destruct e as [[]|[]|[]|[] ?|[] ? ?|k []|[] ?|[] [] ?|[] ?|[]|[] ? ? []]; eexists; (split; [reflexivity|]); simpl;
    (split; [done|split; [|split]]); try done;
    try (split; [by intros []|by intros (? & ? & ? & ?)]); try (split; [by eauto|done]);
    intros Hr _; symmetry; by apply Hs, Hr.
Qed.
