(* ===== verification/Conversation.v ===== *)
(** * Conversations: what the decoders and the request builders share

    The three decoders read a client's messages in the same loop: the leading
    run of system and developer messages becomes the session's instructions,
    later ones keep their place.  [decode_turns] is that loop over what each
    decoder makes of one message.  [tools_check] is the discipline of tool
    calls: a reply answers a call that is still open, and nothing else is said
    while calls are open. *)
From S2P Require Import Prelude Json CoreTypes Emit Request GatewayErrors.
#[local] Open Scope string_scope.
#[local] Open Scope list_scope.
#[local] Open Scope nat_scope.

Section Loop.
Context `{J : JsonApi}.

(** What an inbound message is: a system or developer instruction, turns of the
    conversation, or something without canonical form. *)
Inductive Decoded :=
| Instruction (source : SystemSource) (content : list ContentBlock) (name : option string)
| Turn (m : Message).

(** The mutable locals of the loop. *)
Record DecodeState := {
  prelude_phase : bool; d_system : list SystemInstruction; d_messages : list Message }.
Definition push_system (i : SystemInstruction) (st : DecodeState) : DecodeState := {|
  prelude_phase := prelude_phase st; d_system := d_system st ++ [i]; d_messages := d_messages st |}.
Definition push_message (m : Message) (st : DecodeState) : DecodeState := {|
  prelude_phase := prelude_phase st; d_system := d_system st; d_messages := d_messages st ++ [m] |}.
Definition end_prelude (st : DecodeState) : DecodeState := {|
  prelude_phase := false; d_system := d_system st; d_messages := d_messages st |}.

Definition bare_message (r : MessageRole) (content : list ContentBlock) : Message := {|
  role := r; content := content; msg_name := None; msg_source := None; msg_extensions := ∅ |}.
Definition system_message (source : SystemSource) (content : list ContentBlock) (name : option string) : Message := {|
  role := System; content := content; msg_name := name; msg_source := Some source; msg_extensions := ∅ |}.
Definition instruction (source : SystemSource) (content : list ContentBlock) : SystemInstruction := {|
  si_source := source; si_content := content |}.

Definition place (st : DecodeState) (d : Decoded) : DecodeState :=
  match d with
  | Instruction source content name =>
      if prelude_phase st then push_system (instruction source content) st
      else push_message (system_message source content name) st
  | Turn m => push_message m (end_prelude st)
  end.

Context {A : Type} (classify : A → result Decoded FrontendError).
Fixpoint decode_turns (st : DecodeState) (l : list A) : result DecodeState FrontendError :=
  match l with
  | [] => Ok st
  | x :: l' => let? d := classify x in decode_turns (place st d) l'
  end.

(** ** What the loop computes *)
Fixpoint classify_all (l : list A) : result (list Decoded) FrontendError :=
  match l with
  | [] => Ok []
  | x :: l' => let? d := classify x in let? ds := classify_all l' in Ok (d :: ds)
  end.

(** The instructions of the leading run. *)
Fixpoint leading (ds : list Decoded) : list SystemInstruction :=
  match ds with
  | Instruction source content _ :: ds' => instruction source content :: leading ds'
  | _ => []
  end.
(** The messages after it, instructions in their place. *)
Definition positional (d : Decoded) : Message :=
  match d with Instruction source content name => system_message source content name | Turn m => m end.
Fixpoint conversation (ds : list Decoded) : list Message :=
  match ds with
  | Instruction _ _ _ :: ds' => conversation ds'
  | _ => positional <$> ds
  end.

Lemma place_after sys msgs ds :
  foldl place {| prelude_phase := false; d_system := sys; d_messages := msgs |} ds =
  {| prelude_phase := false; d_system := sys; d_messages := msgs ++ (positional <$> ds) |}.
Proof.
  revert msgs. induction ds as [|d ds IH]; intros msgs; csimpl; [by rewrite app_nil_r|].
  destruct d; simpl; unfold push_message, end_prelude; simpl; rewrite IH, <- app_assoc; done.
Qed.
Lemma place_all sys ds :
  d_system (foldl place {| prelude_phase := true; d_system := sys; d_messages := [] |} ds) = sys ++ leading ds ∧
  d_messages (foldl place {| prelude_phase := true; d_system := sys; d_messages := [] |} ds) = conversation ds.
Proof.
  revert sys. induction ds as [|d ds IH]; intros sys; csimpl; [by rewrite app_nil_r|].
  destruct d as [source content name|m]; simpl.
  - unfold push_system; simpl. destruct (IH (sys ++ [instruction source content])) as [-> ->].
    by rewrite <- app_assoc.
  - unfold push_message, end_prelude; simpl. rewrite place_after. simpl. by rewrite app_nil_r.
Qed.

(** The loop fails as the first message that cannot be read; otherwise it splits
    the conversation at the first turn. *)
Lemma decode_turns_spec st l :
  decode_turns st l = result_map (foldl place st) (classify_all l).
Proof.
  revert st. induction l as [|x l IH]; intros st; simpl; [done|].
  destruct (classify x) as [d|e]; simpl; [|done]. rewrite IH. by destruct (classify_all l).
Qed.
End Loop.

(** The separator of the builders' [join]. *)
Definition newline : string := String (Ascii.ascii_of_nat 10) "".
Fixpoint join (sep : string) (l : list string) : string :=
  match l with
  | [] => ""
  | [s] => s
  | s :: l' => (s ++ sep ++ join sep l')%string
  end.

(** [ResolvedPolicy::default()]. *)
Definition default_policy : ResolvedPolicy := {|
  reasoning_effort := None; reasoning_budget_tokens := None; supported_efforts := None;
  supported_endpoints := None; anthropic_headers := [] |}.
(** [ContentBlock::text]. *)
Definition text_block `{J : JsonApi} (t : string) : ContentBlock := TextBlock t ∅.

(** [image_url_to_binary_source], of which both OpenAI decoders have a copy, on
    base64's [STANDARD.decode]. *)
Definition comma : Ascii.ascii := Ascii.ascii_of_nat 44.
Definition semicolon : Ascii.ascii := Ascii.ascii_of_nat 59.
Definition image_url_to_binary_source (b64_decode : string → option string) (url : string) : option BinarySource :=
  match strip_prefix "data:" url with
  | Some rest =>
      match split_once comma rest with
      | None => None
      | Some (header, payload) =>
          let '(media_type, encoding) := default (header, "") (split_once semicolon header) in
          if negb (bool_decide (encoding = "base64")) then None
          else Base64 media_type <$> b64_decode payload
      end
  | None => if starts_with url "http://" || starts_with url "https://" then Some (Url url) else None
  end.

(** ** Tool calls and replies

    What a message says in terms of tools: the calls it makes, the calls it
    answers, and whether it says anything else. *)
Record talk := { calls : list string; replies : list string; speaks : bool }.

(** One reply to one of the open calls. *)
Definition answer_one (open : gset string) (id : string) : option (gset string) :=
  if bool_decide (id ∈ open) then Some (open ∖ {[id]}) else None.

(** The discipline of tool calls, with the set of calls that are open: a message
    without replies is said when no call is open and opens its calls; one with
    replies answers open calls, makes none, and says more only when it has
    answered them all. *)
Definition talk_check (open : gset string) (t : talk) : option (gset string) :=
  match replies t with
  | [] => if bool_decide (open = ∅) then Some (list_to_set (calls t)) else None
  | _ =>
      steps answer_one open (replies t) ≫= λ open',
      if bool_decide (calls t = []) && (bool_decide (open' = ∅) || negb (speaks t)) then Some open' else None
  end.

Section Tools.
Context `{J : JsonApi}.
Definition call_id (b : ContentBlock) : option string :=
  match b with ToolCallB tc => Some (tc_id tc) | _ => None end.
Definition reply_id (b : ContentBlock) : option string :=
  match b with ToolResultB tr => Some (tool_call_id tr) | _ => None end.
Definition is_plain (b : ContentBlock) : bool :=
  match b with ToolCallB _ | ToolResultB _ => false | _ => true end.
Definition talk_of (content : list ContentBlock) : talk := {|
  calls := omap call_id content; replies := omap reply_id content; speaks := existsb is_plain content |}.
Definition tools_check (open : gset string) (m : Message) : option (gset string) := talk_check open (talk_of (content m)).
End Tools.

(** Saying less keeps the discipline. *)
Lemma talk_check_quieter open c r s s' open' :
  (s' = true → s = true) →
  talk_check open {| calls := c; replies := r; speaks := s |} = Some open' →
  talk_check open {| calls := c; replies := r; speaks := s' |} = Some open'.
Proof.
  intros Hs. unfold talk_check. simpl. destruct r as [|x r]; [done|].
  destruct (steps answer_one open (x :: r)) as [o|]; [|done]. simpl.
  destruct (bool_decide (c = [])), (bool_decide (o = ∅)), s, s'; simpl; auto; try done.
  by discriminate Hs.
Qed.

(** A conversation is disciplined when its messages are, one after the other. *)
Lemma steps_fmap {P A B} (step : P → B → option P) (f : A → B) p l :
  steps step p (f <$> l) = steps (λ p x, step p (f x)) p l.
Proof. revert p. induction l as [|x l IH]; intros p; [done|]. simpl. by destruct (step p (f x)); simpl. Qed.
Lemma steps_app {P A} (step : P → A → option P) p l k :
  steps step p (l ++ k) = steps step p l ≫= λ p', steps step p' k.
Proof. revert p. induction l as [|x l IH]; intros p; [done|]. simpl. by destruct (step p x); simpl. Qed.
Lemma steps_refine {P A B} (step : P → A → option P) (step' : P → B → option P) (f : A → list B) l :
  (∀ x p p', x ∈ l → step p x = Some p' → steps step' p (f x) = Some p') →
  ∀ p p', steps step p l = Some p' → steps step' p (l ≫= f) = Some p'.
Proof.
  induction l as [|x l IH]; intros Hf p p'; [done|]. simpl. rewrite steps_app.
  destruct (step p x) as [q|] eqn:Hq; [|done]. simpl. intros Hl.
  rewrite (Hf x p q) by (done || by left). simpl. apply IH; [|done]. intros y p1 p1' Hy. apply Hf. by right.
Qed.
