(* ===== verification/ChatDecode.v ===== *)
(** * Decoding Chat Completions requests
    (crates/frontends/src/openai_chat/decode.rs, the inbound types of wire.rs,
    mapping.rs)

    Reading the body into [ChatCompletionsRequest] is serde's derived code, the
    parameter [from_body]; base64 and [to_value] of a block are parameters too. *)
From S2P Require Import Prelude Float64 Json CoreTypes Request GatewayErrors Conversation.
#[local] Open Scope string_scope.
#[local] Open Scope list_scope.
#[local] Open Scope nat_scope.

(** ** The wire *)
Inductive StopField := StopOne (s : string) | StopMany (l : list string).
Definition into_vec (f : StopField) : list string :=
  match f with StopOne s => [s] | StopMany v => v end.

Inductive InboundContentPart :=
| PartText (text : string)
| PartImageUrl (url : string).
Inductive InboundMessageContent :=
| ContentText (text : string)
| ContentParts (parts : list InboundContentPart).

Record InboundToolCall := { itc_id : string; itc_type : string; itc_name : string; itc_arguments : string }.
Record InboundMessage := {
  in_role : string;
  in_content : option InboundMessageContent;
  in_name : option string;
  in_tool_calls : list InboundToolCall;
  in_tool_call_id : option string;
}.
Inductive InboundToolChoice := ChoiceMode (s : string) | ChoiceFunction (ty name : string).

Section Wire.
Context `{J : JsonApi}.

(** [InboundTool] and its function, unfolded. *)
Record InboundTool := {
  it_type : string; it_name : string; it_description : option string; it_parameters : option value }.
Record InboundJsonSchema := { js_name : string; js_schema : value; js_strict : option bool }.
Record InboundResponseFormat := { rf_type : string; rf_schema : option InboundJsonSchema }.

Record ChatCompletionsRequest := {
  cc_model : string;
  cc_messages : list InboundMessage;
  cc_tools : option (list InboundTool);
  cc_tool_choice : option InboundToolChoice;
  cc_max_tokens : option Z;
  cc_max_completion_tokens : option Z;
  cc_temperature : option f64;
  cc_top_p : option f64;
  cc_presence_penalty : option f64;
  cc_frequency_penalty : option f64;
  cc_stop : option StopField;
  cc_stream : option bool;
  cc_response_format : option InboundResponseFormat;
  cc_seed : option Z;
  cc_user : option string;
  cc_reasoning_effort : option string;
}.
End Wire.

(** ** Roles *)
Inductive RoleClass := RoleMessage (r : MessageRole) | RoleSystem (s : SystemSource).
Definition role_to_canonical (role : string) : option RoleClass :=
  if bool_decide (role = "user") then Some (RoleMessage User)
  else if bool_decide (role = "assistant") then Some (RoleMessage Assistant)
  else if bool_decide (role = "tool") then Some (RoleMessage Tool)
  else if bool_decide (role = "system") then Some (RoleSystem OpenAiSystem)
  else if bool_decide (role = "developer") then Some (RoleSystem OpenAiDeveloper)
  else None.

Section Decode.
Context `{J : JsonApi} `{V : !JsonValues J}.
(** base64's [STANDARD.decode], and [serde_json::to_value] of a block. *)
Context (b64_decode : string → option string) (block_value : ContentBlock → option value).

Definition decode_part (p : InboundContentPart) : ContentBlock :=
  match p with
  | PartText text => text_block text
  | PartImageUrl url =>
      match image_url_to_binary_source b64_decode url with
      | Some source => ImageBlock source ∅
      | None => UnsupportedBlock "openai_chat"
          (json_object [("type", json_string "image_url"); ("image_url", json_object [("url", json_string url)])])
      end
  end.
Definition decode_content (c : option InboundMessageContent) : list ContentBlock :=
  match c with
  | None => []
  | Some (ContentText t) => [text_block t]
  | Some (ContentParts parts) => decode_part <$> parts
  end.

Definition decode_tool_call (tc : InboundToolCall) : ContentBlock :=
  ToolCallB {| tc_id := itc_id tc; tc_name := itc_name tc;
    arguments := Complete (match from_str (itc_arguments tc) with
                           | Ok v => v | Err _ => json_string (itc_arguments tc) end);
    tc_extensions := ∅ |}.

(** The value of a tool result: the first block of the message. *)
Definition tool_result_value (content : list ContentBlock) : value :=
  match content with
  | TextBlock t _ :: _ => json_string t
  | other :: _ => default json_null (block_value other)
  | [] => json_null
  end.

(** What the body of the loop makes of a message. *)
Definition classify (inbound : InboundMessage) : result Decoded FrontendError :=
  match role_to_canonical (in_role inbound) with
  | None => Err (InvalidBody ("unknown role: " ++ in_role inbound)%string)
  | Some role_class =>
      let text_content := decode_content (in_content inbound) in
      match role_class with
      | RoleSystem source => Ok (Instruction source text_content (in_name inbound))
      | RoleMessage Tool =>
          match in_tool_call_id inbound with
          | None => Err (InvalidBody "tool message missing tool_call_id")
          | Some tool_call_id =>
              Ok (Turn {| role := Tool;
                content := [ToolResultB {| tool_call_id := tool_call_id;
                  tr_content := tool_result_value text_content; is_error := false; tr_extensions := ∅ |}];
                msg_name := in_name inbound; msg_source := None; msg_extensions := ∅ |})
          end
      | RoleMessage r =>
          Ok (Turn {| role := r;
            content := text_content ++ (decode_tool_call <$> in_tool_calls inbound);
            msg_name := in_name inbound; msg_source := None; msg_extensions := ∅ |})
      end
  end.

Definition decode_tool (t : InboundTool) : ToolDefinition := {|
  tool_name := it_name t; description := it_description t;
  input_schema := default (json_object []) (it_parameters t); tool_extensions := ∅ |}.
Definition decode_tool_choice (c : option InboundToolChoice) : ToolChoice :=
  match c with
  | None => ChoiceAuto
  | Some (ChoiceMode s) =>
      if bool_decide (s = "none") then ChoiceNone
      else if bool_decide (s = "required") then ChoiceRequired else ChoiceAuto
  | Some (ChoiceFunction _ name) => ChoiceSpecific name
  end.
Definition decode_response_format (rf : InboundResponseFormat) : option ResponseFormat :=
  if bool_decide (rf_type rf = "json_object") then Some FormatJsonObject
  else if bool_decide (rf_type rf = "json_schema")
  then (λ js, FormatJsonSchema (js_name js) (js_schema js) (default false (js_strict js))) <$> rf_schema rf
  else None.
Definition decode_generation (req : ChatCompletionsRequest) : GenerationOptions := {|
  max_tokens := match cc_max_completion_tokens req with Some n => Some n | None => cc_max_tokens req end;
  temperature := cc_temperature req; top_p := cc_top_p req; top_k := None;
  presence_penalty := cc_presence_penalty req; frequency_penalty := cc_frequency_penalty req;
  stop_sequences := default [] (into_vec <$> cc_stop req); seed := cc_seed req;
  reasoning := (λ e, {| effort := Some e; budget_tokens := None |}) <$> (cc_reasoning_effort req ≫= parse_effort) |}.

(** [decode], once the body has been read; [fresh_id] is what [RequestId::new]
    generates. *)
Definition decode_request (fresh_id : string) (req : ChatCompletionsRequest) : result CanonicalRequest FrontendError :=
  let? st := decode_turns classify {| prelude_phase := true; d_system := []; d_messages := [] |} (cc_messages req) in
  Ok {| id := fresh_id; frontend_kind := OpenAiChat; requested_model := cc_model req; req_model := cc_model req;
        system := d_system st; messages := d_messages st;
        tools := decode_tool <$> default [] (cc_tools req);
        tool_choice := decode_tool_choice (cc_tool_choice req);
        generation := decode_generation req;
        response_format := cc_response_format req ≫= decode_response_format;
        stream := default false (cc_stream req);
        metadata := {| user_id := cc_user req; agent := None |};
        inbound_anthropic_headers := []; resolved_policy := default_policy; extensions := ∅ |}.

Context (from_body : string → result ChatCompletionsRequest string).
Definition decode (fresh_id body : string) : result CanonicalRequest FrontendError :=
  match from_body body with
  | Err e => Err (InvalidBody e)
  | Ok req => decode_request fresh_id req
  end.
End Decode.
