(* ===== verification/AnthropicDecode.v ===== *)
(** * Decoding Anthropic Messages requests
    (crates/frontends/src/anthropic_messages/decode.rs, the inbound types of
    wire.rs)

    Reading the body into [MessagesRequest] and an image source out of a JSON
    value is serde's derived code, the parameters [from_body] and
    [source_from_value]. *)
From S2P Require Import Prelude Float64 Json CoreTypes Request GatewayErrors Conversation.
#[local] Open Scope string_scope.
#[local] Open Scope list_scope.
#[local] Open Scope nat_scope.

Section Wire.
Context `{J : JsonApi}.

Inductive ToolResultContent := ResultText (t : string) | ResultBlocks (b : list value).

Inductive InboundContentBlock :=
| InTextB (text : string) (cache_control : option value)
| InImageB (source : value) (cache_control : option value)
| InToolUseB (id name : string) (input : value) (cache_control : option value)
| InToolResultB (tool_use_id : string) (is_error : option bool) (content : option ToolResultContent)
    (cache_control : option value)
| InThinkingB (thinking signature : string)
| InRedactedThinkingB (data : string).

Inductive SystemField := SystemText (t : string) | SystemBlocks (l : list InboundContentBlock).
Inductive InboundMessageContent := MessageText (t : string) | MessageBlocks (l : list InboundContentBlock).
Record InboundMessage := { im_role : string; im_content : InboundMessageContent }.

Record InboundTool := {
  it_name : string; it_description : option string; it_input_schema : value;
  it_cache_control : option value }.
Inductive InboundToolChoice := InAuto | InAny | InTool (name : string) | InNone.

(** [metadata] and [thinking] are read and dropped. *)
Record MessagesRequest := {
  mr_model : string;
  mr_messages : list InboundMessage;
  mr_system : option SystemField;
  mr_tools : option (list InboundTool);
  mr_tool_choice : option InboundToolChoice;
  mr_max_tokens : Z;
  mr_temperature : option f64;
  mr_top_p : option f64;
  mr_top_k : option Z;
  mr_stop_sequences : option (list string);
  mr_stream : option bool;
  mr_metadata : option value;
  (** [output_config] and its [effort]. *)
  mr_output_effort : option string;
}.
End Wire.

Section Decode.
Context `{J : JsonApi} `{V : !JsonValues J}.
(** [serde_json::from_value::<BinarySource>]. *)
Context (source_from_value : value → option BinarySource).

Definition cache_extensions (cache_control : option value) : ExtensionMap :=
  match cache_control with Some cc => {[ "cache_control" := cc ]} | None => ∅ end.

(** The raw JSON of an image whose source is not understood. *)
Definition raw_image (source : value) (cache_control : option value) : value :=
  json_object ([("type", json_string "image"); ("source", source)] ++
    match cache_control with Some cc => [("cache_control", cc)] | None => [] end).

Definition inbound_block_to_canonical (block : InboundContentBlock) : ContentBlock :=
  match block with
  | InTextB text cc => TextBlock text (cache_extensions cc)
  | InImageB source cc =>
      match source_from_value source with
      | Some bin => ImageBlock bin (cache_extensions cc)
      | None => UnsupportedBlock "anthropic_messages" (raw_image source cc)
      end
  | InToolUseB id name input cc =>
      ToolCallB {| tc_id := id; tc_name := name; arguments := Complete input; tc_extensions := cache_extensions cc |}
  | InToolResultB tool_use_id is_error content cc =>
      ToolResultB {| tool_call_id := tool_use_id;
        tr_content := match content with
                      | None => json_null
                      | Some (ResultText t) => json_string t
                      | Some (ResultBlocks b) => json_array b
                      end;
        Request.is_error := default false is_error; tr_extensions := cache_extensions cc |}
  | InThinkingB thinking signature => ReasoningBlock thinking {[ "signature" := json_string signature ]}
  | InRedactedThinkingB data => RedactedReasoningBlock data ∅
  end.

Definition decode_content (c : InboundMessageContent) : list ContentBlock :=
  match c with
  | MessageText text => [text_block text]
  | MessageBlocks blocks => inbound_block_to_canonical <$> blocks
  end.
Definition decode_system (s : option SystemField) : list SystemInstruction :=
  match s with
  | None => []
  | Some (SystemText text) => [{| si_source := AnthropicSystem; si_content := [text_block text] |}]
  | Some (SystemBlocks blocks) =>
      [{| si_source := AnthropicSystem; si_content := inbound_block_to_canonical <$> blocks |}]
  end.

(** What the body of the loop makes of a message. *)
Definition classify (m : InboundMessage) : result Decoded FrontendError :=
  match role_from_anthropic (im_role m) with
  | None => Err (InvalidBody ("unknown role: " ++ im_role m)%string)
  | Some r =>
      let content := decode_content (im_content m) in
      match r with
      | System => Ok (Instruction AnthropicSystem content None)
      | other => Ok (Turn (bare_message other content))
      end
  end.

Definition decode_tool (t : InboundTool) : ToolDefinition := {|
  tool_name := it_name t; description := it_description t; input_schema := it_input_schema t;
  tool_extensions := cache_extensions (it_cache_control t) |}.
Definition decode_tool_choice (c : option InboundToolChoice) : ToolChoice :=
  match c with
  | None | Some InAuto => ChoiceAuto
  | Some InAny => ChoiceRequired
  | Some InNone => ChoiceNone
  | Some (InTool name) => ChoiceSpecific name
  end.
Definition decode_generation (req : MessagesRequest) : GenerationOptions := {|
  max_tokens := Some (mr_max_tokens req); temperature := mr_temperature req; top_p := mr_top_p req;
  top_k := mr_top_k req; presence_penalty := None; frequency_penalty := None;
  stop_sequences := default [] (mr_stop_sequences req); seed := None;
  reasoning := (λ e, {| effort := Some e; budget_tokens := None |}) <$> (mr_output_effort req ≫= parse_effort) |}.

(** [fresh_id] is what [RequestId::new] generates. *)
Definition decode_request (fresh_id : string) (req : MessagesRequest) : result CanonicalRequest FrontendError :=
  let? st := decode_turns classify
    {| prelude_phase := true; d_system := decode_system (mr_system req); d_messages := [] |} (mr_messages req) in
  Ok {| id := fresh_id; frontend_kind := AnthropicMessages; requested_model := mr_model req; req_model := mr_model req;
        system := d_system st; messages := d_messages st;
        tools := decode_tool <$> default [] (mr_tools req);
        tool_choice := decode_tool_choice (mr_tool_choice req);
        generation := decode_generation req; response_format := None;
        stream := default false (mr_stream req);
        metadata := {| user_id := None; agent := None |};
        inbound_anthropic_headers := []; resolved_policy := default_policy; extensions := ∅ |}.

Context (from_body : string → result MessagesRequest string).
Definition decode (fresh_id body : string) : result CanonicalRequest FrontendError :=
  match from_body body with
  | Err e => Err (InvalidBody e)
  | Ok req => decode_request fresh_id req
  end.
End Decode.
