(* ===== verification/ResponsesDecode.v ===== *)
(** * Decoding Responses requests
    (crates/frontends/src/openai_responses/decode.rs, the inbound types of
    wire.rs)

    Reading the body into [ResponsesRequest], its untagged input included, is
    serde's, the parameter [from_body].  [decode_messages] and the message
    items of [decode_items] share the loop of [Conversation]. *)
From S2P Require Import Prelude Float64 Json CoreTypes Request GatewayErrors Conversation.
#[local] Open Scope string_scope.
#[local] Open Scope list_scope.
#[local] Open Scope nat_scope.

(** ** The wire *)
Inductive InputContentPart :=
| InputText (text : string) | InputImage (image_url : string) | OutputText (text : string) | OtherPart.
Inductive InputMessageContent := InputContentText (t : string) | InputContentParts (l : list InputContentPart).
Record InputMessage := { ipm_role : string; ipm_content : option InputMessageContent }.
(** The parts of a [reasoning] item's summary, and of its content. *)
Inductive ReasoningPart := ReasoningText (text : string) | OtherReasoning.
Inductive InboundToolChoice := RChoiceMode (s : string) | RChoiceSpecific (name : string).

Section Wire.
Context `{J : JsonApi}.

Inductive InputItem :=
| ItemMessage (m : InputMessage)
| ItemFunctionCall (id : option string) (call_id name : string) (arguments : value)
| ItemFunctionCallOutput (call_id : string) (output : value)
| ItemReasoning (summary content : option (list ReasoningPart))
| ItemOther.
Inductive InputField := FieldText (t : string) | FieldMessages (l : list InputMessage) | FieldItems (l : list InputItem).

Record InboundFunction := { if_name : string; if_description : option string; if_parameters : option value }.
Record InboundTool := {
  rt_type : string; rt_name : option string; rt_description : option string; rt_parameters : option value;
  rt_function : option InboundFunction }.

(** Without the fields that are accepted and ignored. *)
Record ResponsesRequest := {
  rr_model : string;
  rr_input : InputField;
  rr_instructions : option string;
  rr_tools : option (list InboundTool);
  rr_tool_choice : option InboundToolChoice;
  rr_stream : option bool;
  rr_temperature : option f64;
  rr_top_p : option f64;
  rr_max_output_tokens : option Z;
  rr_metadata : option value;
  (** [reasoning] and its [effort]. *)
  rr_effort : option string;
}.
End Wire.

Section Decode.
Context `{J : JsonApi} `{V : !JsonValues J} (b64_decode : string → option string).

Definition decode_part (p : InputContentPart) : option ContentBlock :=
  match p with
  | InputText text | OutputText text => Some (text_block text)
  | InputImage image_url =>
      Some match image_url_to_binary_source b64_decode image_url with
           | Some source => ImageBlock source ∅
           | None => UnsupportedBlock "openai_responses"
               (json_object [("type", json_string "input_image"); ("image_url", json_string image_url)])
           end
  | OtherPart => None
  end.
Definition decode_message_content (content : option InputMessageContent) : list ContentBlock :=
  match content with
  | None => []
  | Some (InputContentText t) => [text_block t]
  | Some (InputContentParts parts) => omap decode_part parts
  end.

(** The match on the role, which the two loops have in common but for the text
    of the error. *)
Definition classify_message (place_name : string) (m : InputMessage) : result Decoded FrontendError :=
  let content := decode_message_content (ipm_content m) in
  if bool_decide (ipm_role m = "system") then Ok (Instruction OpenAiSystem content None)
  else if bool_decide (ipm_role m = "developer") then Ok (Instruction OpenAiDeveloper content None)
  else if bool_decide (ipm_role m = "user") then Ok (Turn (bare_message User content))
  else if bool_decide (ipm_role m = "assistant") then Ok (Turn (bare_message Assistant content))
  else Err (InvalidBody ("unknown role in input " ++ place_name ++ ": " ++ ipm_role m)%string).

Definition start : DecodeState := {| prelude_phase := true; d_system := []; d_messages := [] |}.
Definition parts (st : DecodeState) : list SystemInstruction * list Message := (d_system st, d_messages st).

Definition decode_messages (msgs : list InputMessage) : result (list SystemInstruction * list Message) FrontendError :=
  result_map parts (decode_turns (classify_message "message") start msgs).

Definition part_text (p : ReasoningPart) : option string :=
  match p with ReasoningText t => Some t | OtherReasoning => None end.
Definition extract_reasoning_text (content summary : option (list ReasoningPart)) : string :=
  let from_content := concat_strings (omap part_text (default [] content)) in
  if negb (str_is_empty from_content) then from_content
  else concat_strings (omap part_text (default [] summary)).

(** The arguments of a call: a string is parsed when it can be. *)
Definition call_arguments (arguments : value) : value :=
  match Json.as_str arguments with
  | Some s => match from_str s with Ok v => v | Err _ => json_string s end
  | None => arguments
  end.

(** [out.last_mut()] when it is an assistant message, else a new message. *)
Fixpoint attach_reasoning (block : ContentBlock) (out : list Message) : list Message :=
  match out with
  | [] => [bare_message Assistant [block]]
  | [msg] =>
      if bool_decide (role msg = Assistant)
      then [{| role := role msg; content := content msg ++ [block]; msg_name := msg_name msg;
               msg_source := msg_source msg; msg_extensions := msg_extensions msg |}]
      else [msg; bare_message Assistant [block]]
  | m :: out' => m :: attach_reasoning block out'
  end.

(** The body of the loop over the items. *)
Definition decode_item (st : DecodeState) (item : InputItem) : result DecodeState FrontendError :=
  match item with
  | ItemMessage m => let? d := classify_message "item" m in Ok (place st d)
  | ItemFunctionCall id call_id name arguments =>
      Ok (push_message (bare_message Assistant
        [ToolCallB {| tc_id := default call_id id; tc_name := name; arguments := Complete (call_arguments arguments);
                      tc_extensions := ∅ |}]) (end_prelude st))
  | ItemFunctionCallOutput call_id output =>
      Ok (push_message (bare_message Tool
        [ToolResultB {| tool_call_id := call_id; tr_content := output; is_error := false; tr_extensions := ∅ |}])
        (end_prelude st))
  | ItemReasoning summary content =>
      Ok {| prelude_phase := false; d_system := d_system st;
            d_messages := attach_reasoning (ReasoningBlock (extract_reasoning_text content summary) ∅) (d_messages st) |}
  | ItemOther => Ok (end_prelude st)
  end.
Fixpoint decode_items_from (st : DecodeState) (items : list InputItem) : result DecodeState FrontendError :=
  match items with
  | [] => Ok st
  | i :: items' => let? st' := decode_item st i in decode_items_from st' items'
  end.
Definition decode_items (items : list InputItem) : result (list SystemInstruction * list Message) FrontendError :=
  result_map parts (decode_items_from start items).

Definition decode_input (input : InputField) : result (list SystemInstruction * list Message) FrontendError :=
  match input with
  | FieldText text => Ok ([], [bare_message User [text_block text]])
  | FieldMessages msgs => decode_messages msgs
  | FieldItems items => decode_items items
  end.

(** The fields of a built-in tool that are kept: [type] and what is present. *)
Definition present (key : string) (o : option value) : list (string * value) :=
  match o with Some v => [(key, v)] | None => [] end.
Definition or_null (o : option value) : value := default json_null o.
Definition common_fields (tool : InboundTool) : list (string * value) :=
  ("type", json_string (rt_type tool)) :: present "name" (json_string <$> rt_name tool) ++
  present "description" (json_string <$> rt_description tool) ++ present "parameters" (rt_parameters tool).
Definition known_builtin (ty : string) : bool :=
  bool_decide (ty ∈ ["web_search"; "web_search_preview"; "file_search"; "code_interpreter"; "computer_use"]).
Definition raw_tool (tool : InboundTool) : value :=
  json_object (common_fields tool ++
    if known_builtin (rt_type tool) then []
    else present "function" ((λ f, json_object [("name", json_string (if_name f));
           ("description", or_null (json_string <$> if_description f));
           ("parameters", or_null (if_parameters f))]) <$> rt_function tool)).

Definition function_tool (name : string) (description : option string) (parameters : option value) : ToolDefinition := {|
  tool_name := name; description := description; input_schema := default (json_object []) parameters;
  tool_extensions := ∅ |}.
Definition decode_tool (tool : InboundTool) : result (ToolDefinition + value) FrontendError :=
  if bool_decide (rt_type tool = "function" ∨ rt_type tool = "custom") then
    match rt_function tool, rt_name tool with
    | Some f, _ => Ok (inl (function_tool (if_name f) (if_description f) (if_parameters f)))
    | None, Some name => Ok (inl (function_tool name (rt_description tool) (rt_parameters tool)))
    | None, None => Err (InvalidBody "function tool missing name")
    end
  else Ok (inr (raw_tool tool)).
Fixpoint decode_tools (tools : list InboundTool) : result (list ToolDefinition * list value) FrontendError :=
  match tools with
  | [] => Ok ([], [])
  | t :: tools' =>
      let? d := decode_tool t in
      let? p := decode_tools tools' in
      Ok match d with inl f => (f :: p.1, p.2) | inr raw => (p.1, raw :: p.2) end
  end.

Definition decode_tool_choice (c : option InboundToolChoice) : ToolChoice :=
  match c with
  | None => ChoiceAuto
  | Some (RChoiceMode s) =>
      if bool_decide (s = "none") then ChoiceNone
      else if bool_decide (s = "required") then ChoiceRequired else ChoiceAuto
  | Some (RChoiceSpecific name) => ChoiceSpecific name
  end.
Definition decode_generation (req : ResponsesRequest) : GenerationOptions := {|
  max_tokens := rr_max_output_tokens req; temperature := rr_temperature req; top_p := rr_top_p req; top_k := None;
  presence_penalty := None; frequency_penalty := None; stop_sequences := []; seed := None;
  reasoning := (λ e, {| effort := Some e; budget_tokens := None |}) <$> (rr_effort req ≫= parse_effort) |}.

Definition instructions_of (req : ResponsesRequest) : list SystemInstruction :=
  match rr_instructions req with Some t => [instruction OpenAiSystem [text_block t]] | None => [] end.

Definition decode_request (fresh_id : string) (req : ResponsesRequest) : result CanonicalRequest FrontendError :=
  let? input := decode_input (rr_input req) in
  let? tools := decode_tools (default [] (rr_tools req)) in
  Ok {| id := fresh_id; frontend_kind := OpenAiResponses; requested_model := rr_model req; req_model := rr_model req;
        system := instructions_of req ++ input.1; messages := input.2;
        tools := tools.1; tool_choice := decode_tool_choice (rr_tool_choice req);
        generation := decode_generation req; response_format := None;
        stream := default false (rr_stream req);
        metadata := {| user_id := rr_metadata req ≫= get_str "user_id"; agent := None |};
        inbound_anthropic_headers := []; resolved_policy := default_policy;
        extensions := match tools.2 with [] => ∅ | raw => {[ "builtin_tools" := json_array raw ]} end |}.

Context (from_body : string → result ResponsesRequest string).
Definition decode (fresh_id body : string) : result CanonicalRequest FrontendError :=
  match from_body body with
  | Err e => Err (InvalidBody e)
  | Ok req => decode_request fresh_id req
  end.
End Decode.
