(* ===== verification/ChatBuild.v ===== *)
(** * Building Chat Completions requests
    (crates/providers/src/oai_chat_wire/canonical_to_chat.rs, wire.rs)

    The body sent to the upstreams that speak the Chat dialect, from a
    canonical request.  base64 is a parameter, JSON values are [JsonApi]'s. *)
From S2P Require Import Prelude Float64 Json CoreTypes Request Conversation.
#[local] Open Scope string_scope.
#[local] Open Scope list_scope.
#[local] Open Scope nat_scope.

(** ** The wire (without the constant tags) *)
Record ToolCallOut := { tco_id : string; tco_name : string; tco_arguments : string }.
Inductive ToolChoiceOut := ChoiceString (s : string) | ChoiceObject (name : string).

Section Wire.
Context `{J : JsonApi}.

Record MsgOut := {
  mo_role : string;
  mo_content : option value;
  mo_name : option string;
  mo_tool_calls : option (list ToolCallOut);
  mo_tool_call_id : option string;
}.
Record ToolOut := { to_name : string; to_description : option string; to_parameters : value }.
Inductive ResponseFormatOut :=
| OutText | OutJsonObject | OutJsonSchema (name : string) (schema : value) (strict : bool).

(** [stream_options] is present, with [include_usage], when its flag is set. *)
Record ChatBody := {
  cb_model : string;
  cb_messages : list MsgOut;
  cb_max_tokens : option Z;
  cb_temperature : option f64;
  cb_top_p : option f64;
  cb_presence_penalty : option f64;
  cb_frequency_penalty : option f64;
  cb_stop : list string;
  cb_seed : option Z;
  cb_response_format : option ResponseFormatOut;
  cb_tools : list ToolOut;
  cb_tool_choice : option ToolChoiceOut;
  cb_stream : bool;
  cb_include_usage : bool;
  cb_reasoning_effort : option string;
}.
End Wire.

(** ** Reasoning effort *)
Definition effort_for_chat (e : ReasoningEffort) (accepts_xhigh : bool) : string :=
  match e with
  | Minimal => "minimal" | Low => "low" | Medium => "medium" | High => "high"
  | Xhigh | Max => if accepts_xhigh then "xhigh" else "high"
  end.

Section Build.
Context `{J : JsonApi} `{V : !JsonValues J}.
(** base64's [STANDARD.encode]. *)
Context (b64_encode : string → string).

Definition effort_wire_string (req : CanonicalRequest) (accepts_xhigh : bool) : option string :=
  match Request.reasoning_effort (resolved_policy req) with
  | None => None
  | Some effort =>
      match supported_efforts (resolved_policy req) ≫= clamp_to_advertised effort with
      | Some clamped => Some clamped
      | None => Some (effort_for_chat effort accepts_xhigh)
      end
  end.

Definition text_of_block (b : ContentBlock) : option string :=
  match b with TextBlock t _ => Some t | _ => None end.
Definition extract_text_content (blocks : list ContentBlock) : string :=
  join newline (omap text_of_block blocks).
Definition build_text_content_value (blocks : list ContentBlock) : option value :=
  let text := extract_text_content blocks in
  if str_is_empty text then None else Some (json_string text).

Definition image_part (url : string) : value :=
  json_object [("type", json_string "image_url"); ("image_url", json_object [("url", json_string url)])].
Definition data_uri (media_type data : string) : string :=
  ("data:" ++ media_type ++ ";base64," ++ b64_encode data)%string.
Definition content_part (b : ContentBlock) : option value :=
  match b with
  | TextBlock t _ => Some (json_object [("type", json_string "text"); ("text", json_string t)])
  | ImageBlock (Base64 media_type data) _ | ImageBlock (Bytes media_type data) _ =>
      Some (image_part (data_uri media_type data))
  | ImageBlock (Url url) _ => Some (image_part url)
  | ImageBlock (ProviderFileId _) _ => None
  | _ => None
  end.
Definition build_content_value (blocks : list ContentBlock) : option value :=
  let text_blocks := omap text_of_block blocks in
  let has_non_text := existsb (λ b, negb (bool_decide (is_Some (text_of_block b)))) blocks in
  match negb has_non_text, text_blocks with
  | true, [t] => Some (json_string t)
  | _, _ =>
      match blocks with
      | [] => None
      | _ => match omap content_part blocks with
             | [] => None
             | parts => Some (json_array parts)
             end
      end
  end.

(** One item of an array of blocks, as text. *)
Definition item_text (item : value) : string :=
  match get_str "text" item with
  | Some text => text
  | None => match Json.as_str item with Some s => s | None => to_json_string item end
  end.
Definition extract_text_from_tool_result (content : value) : string :=
  match Json.as_str content with
  | Some s => s
  | None =>
      match as_array content with
      | Some arr => join newline (item_text <$> arr)
      | None => if is_null content then "" else to_json_string content
      end
  end.

Definition arguments_string (a : ToolCallArguments) : string :=
  match a with Complete v => to_json_string v | Streaming data => data end.
Definition tool_call_out (b : ContentBlock) : option ToolCallOut :=
  match b with
  | ToolCallB tc => Some {| tco_id := tc_id tc; tco_name := tc_name tc; tco_arguments := arguments_string (arguments tc) |}
  | _ => None
  end.
Definition tool_result_of (b : ContentBlock) : option ToolResultBlock :=
  match b with ToolResultB tr => Some tr | _ => None end.

(** The body of the loop over [req.system]. *)
Definition system_out (sys : SystemInstruction) : MsgOut := {|
  mo_role := match si_source sys with OpenAiDeveloper => "developer" | _ => "system" end;
  mo_content := Some (json_string (extract_text_content (si_content sys)));
  mo_name := None; mo_tool_calls := None; mo_tool_call_id := None |}.

Definition message_role (msg : Message) : string :=
  match role msg with
  | User => "user"
  | Assistant => "assistant"
  | Tool => "tool"
  | System => match msg_source msg with Some OpenAiDeveloper => "developer" | _ => "system" end
  end.
Definition tool_reply (name : option string) (tr : ToolResultBlock) : MsgOut := {|
  mo_role := "tool"; mo_content := Some (json_string (extract_text_from_tool_result (tr_content tr)));
  mo_name := name; mo_tool_calls := None; mo_tool_call_id := Some (tool_call_id tr) |}.
Definition plain_message (msg : Message) (content : option value) (calls : option (list ToolCallOut)) : MsgOut := {|
  mo_role := message_role msg; mo_content := content; mo_name := msg_name msg;
  mo_tool_calls := calls; mo_tool_call_id := None |}.

(** The body of the loop over [req.messages]. *)
Definition message_out (msg : Message) : list MsgOut :=
  let tool_calls := omap tool_call_out (content msg) in
  let tool_results := omap tool_result_of (content msg) in
  match tool_results, tool_calls with
  | _ :: _, _ =>
      (tool_reply (msg_name msg) <$> tool_results) ++
      let rest := List.filter (λ b, negb (bool_decide (is_Some (tool_result_of b)))) (content msg) in
      if bool_decide (role msg = Tool) then []
      else match build_content_value rest with
           | Some content => [plain_message msg (Some content) None]
           | None => []
           end
  | [], _ :: _ => [plain_message msg (build_text_content_value (content msg)) (Some tool_calls)]
  | [], [] => [plain_message msg (build_content_value (content msg)) None]
  end.

Definition tool_out (t : ToolDefinition) : ToolOut := {|
  to_name := tool_name t; to_description := description t; to_parameters := input_schema t |}.
Definition tool_choice_out (c : ToolChoice) : ToolChoiceOut :=
  match c with
  | ChoiceAuto => ChoiceString "auto"
  | ChoiceNone => ChoiceString "none"
  | ChoiceRequired => ChoiceString "required"
  | ChoiceSpecific name => ChoiceObject name
  end.
Definition response_format_out (rf : ResponseFormat) : ResponseFormatOut :=
  match rf with
  | FormatText => OutText
  | FormatJsonObject => OutJsonObject
  | FormatJsonSchema name schema strict => OutJsonSchema name schema strict
  end.

Definition build (req : CanonicalRequest) (target : BackendTarget) (accepts_xhigh : bool) : ChatBody :=
  let tools := tool_out <$> tools req in
  {| cb_model := model target;
     cb_messages := (system_out <$> system req) ++ (messages req ≫= message_out);
     cb_max_tokens := max_tokens (generation req); cb_temperature := temperature (generation req);
     cb_top_p := top_p (generation req); cb_presence_penalty := presence_penalty (generation req);
     cb_frequency_penalty := frequency_penalty (generation req);
     cb_stop := stop_sequences (generation req); cb_seed := seed (generation req);
     cb_response_format := response_format_out <$> response_format req;
     cb_tools := tools;
     cb_tool_choice := match tools with [] => None | _ => Some (tool_choice_out (tool_choice req)) end;
     cb_stream := stream req; cb_include_usage := stream req;
     cb_reasoning_effort := effort_wire_string req accepts_xhigh |}.
End Build.
