(* ===== verification/ChatFlavors.v ===== *)
(** * The DeepSeek and GLM request bodies
    (crates/providers/src/deepseek/request.rs and glm/request.rs)

    Both providers send the Chat body of [ChatBuild] after editing it as a JSON
    value.  The value is [Json.tree], a [serde_json::Value] with its objects as
    lists of fields; serialising the typed body to it is serde's, a parameter. *)
From S2P Require Import Prelude Json CoreTypes Fallback Request ChatBuild.
#[local] Open Scope string_scope.
#[local] Open Scope list_scope.
#[local] Open Scope nat_scope.

#[local] Abbreviation fields := (list (string * tree)).

(** ** Editing an object *)
(** [map.remove(k)]: what is left, and whether the key was there. *)
Definition has_key (k : string) (fs : fields) : bool := existsb (λ f, bool_decide (f.1 = k)) fs.
Definition remove_key (k : string) (fs : fields) : fields := filter (λ f, f.1 ≠ k) fs.
(** [map.insert(k, v)]. *)
Definition insert_key (k : string) (v : tree) (fs : fields) : fields := remove_key k fs ++ [(k, v)].
(** [map.get_mut(k)], with a change that also counts. *)
Fixpoint edit_key (k : string) (f : tree → tree * nat) (fs : fields) : fields * nat :=
  match fs with
  | [] => ([], 0)
  | (k', v) :: fs' =>
      if bool_decide (k' = k) then let '(v', n) := f v in ((k', v') :: fs', n)
      else let '(fs', n) := edit_key k f fs' in ((k', v) :: fs', n)
  end.
Fixpoint edit_all (f : tree → tree * nat) (l : list tree) : list tree * nat :=
  match l with
  | [] => ([], 0)
  | t :: l' => let '(t', n) := f t in let '(l', k) := edit_all f l' in (t' :: l', n + k)
  end.
Definition edit_array (f : tree → tree * nat) (t : tree) : tree * nat :=
  match t with TArr l => let '(l', n) := edit_all f l in (TArr l', n) | _ => (t, 0) end.
Definition CACHE_CONTROL : string := "cache_control".
Definition take_marker (fs : fields) : fields * nat :=
  (remove_key CACHE_CONTROL fs, if has_key CACHE_CONTROL fs then 1 else 0).

(** ** [strip_cache_control], the same function in both files *)
Definition strip_block (block : tree) : tree * nat :=
  match block with TObj fs => let '(fs', n) := take_marker fs in (TObj fs', n) | _ => (block, 0) end.
Definition strip_message (msg : tree) : tree * nat :=
  match msg with
  | TObj fs =>
      let '(fs1, n) := take_marker fs in
      let '(fs2, k) := edit_key "content" (edit_array strip_block) fs1 in
      (TObj fs2, n + k)
  | _ => (msg, 0)
  end.
Definition strip_cache_control (body : tree) : tree * nat :=
  match body with
  | TObj fs => let '(fs', n) := edit_key "messages" (edit_array strip_message) fs in (TObj fs', n)
  | _ => (body, 0)
  end.

(** ** The builders *)
Definition thinking_type (e : option ReasoningEffort) : string :=
  match e with Some Minimal => "disabled" | _ => "enabled" end.
Section Builders.
Context `{J : JsonApi} `{V : !JsonValues J}.
Context (b64_encode : string → string) (to_value : ChatBody → tree).

Definition deepseek_build (req : CanonicalRequest) (target : BackendTarget) (accepts_xhigh : bool) : tree :=
  (strip_cache_control (to_value (build b64_encode req target accepts_xhigh))).1.

Definition glm_build (req : CanonicalRequest) (target : BackendTarget) (accepts_xhigh : bool)
    : result tree ProviderError :=
  match to_value (build b64_encode req target accepts_xhigh) with
  | TObj fs =>
      let obj := remove_key "reasoning_effort" fs in
      let obj := insert_key "thinking"
                   (TObj [("type", TStr (thinking_type (Request.reasoning_effort (resolved_policy req))))]) obj in
      Ok (strip_cache_control (TObj obj)).1
  | _ => Err (Encode "GLM request body must be a JSON object")
  end.
End Builders.

(** ** What the editing leaves *)
(** The markers on messages and on their blocks. *)
Definition marker (t : tree) : nat :=
  match t with TObj fs => if has_key CACHE_CONTROL fs then 1 else 0 | _ => 0 end.
Definition array_sum (f : tree → nat) (t : tree) : nat :=
  match t with TArr l => sum_list_with f l | _ => 0 end.
Definition message_markers (t : tree) : nat :=
  marker t + from_option (array_sum marker) 0 (tree_get "content" t).
Definition markers (t : tree) : nat := from_option (array_sum message_markers) 0 (tree_get "messages" t).

(** A change that removes what a measure counts, and says how much it was. *)
Definition strips (f : tree → tree * nat) (m : tree → nat) : Prop :=
  ∀ t, (f t).2 = m t ∧ m (f t).1 = 0 ∧ (m t = 0 → (f t).1 = t).

Lemma tree_get_cons k k' v fs :
  tree_get k (TObj ((k', v) :: fs)) = if bool_decide (k' = k) then Some v else tree_get k (TObj fs).
Proof.
  unfold tree_get; simpl. case_bool_decide as H; [by rewrite decide_True|].
  rewrite decide_False by done. by destruct (list_find (λ f, f.1 = k) fs) as [[? ?]|].
Qed.
Lemma strips_all f m l :
  strips f m →
  (edit_all f l).2 = sum_list_with m l ∧ sum_list_with m (edit_all f l).1 = 0 ∧
  (sum_list_with m l = 0 → (edit_all f l).1 = l).
Proof.
  intros Hf. induction l as [|t l (H1 & H2 & H3)]; [done|]. simpl.
  destruct (Hf t) as (F1 & F2 & F3). destruct (f t) as [t' n], (edit_all f l) as [l' k]. simpl in *.
  split_and!; [lia|lia|]. intros H. rewrite F3, H3 by lia. done.
Qed.
Lemma strips_array f m : strips f m → strips (edit_array f) (array_sum m).
Proof.
  intros Hf t. destruct t; try done. simpl. pose proof (strips_all f m l Hf) as (H1 & H2 & H3).
  destruct (edit_all f l) as [l' n]. simpl in *. split_and!; [done..|]. intros. by rewrite H3.
Qed.
(** Editing one field leaves the others. *)
Lemma strips_key k f m fs :
  strips f m →
  let '(fs', n) := edit_key k f fs in
  n = from_option m 0 (tree_get k (TObj fs)) ∧ from_option m 0 (tree_get k (TObj fs')) = 0 ∧
  (from_option m 0 (tree_get k (TObj fs)) = 0 → fs' = fs) ∧
  ∀ k', k' ≠ k → tree_get k' (TObj fs') = tree_get k' (TObj fs).
Proof.
  intros Hf. induction fs as [|[k1 v] fs IH]; [done|]. simpl edit_key.
  destruct (bool_decide_reflect (k1 = k)) as [->|Hk].
  - destruct (Hf v) as (F1 & F2 & F3). destruct (f v) as [v' n]. cbn [fst snd] in *.
    rewrite !tree_get_cons, bool_decide_eq_true_2 by done. cbn [from_option]. split_and!; [done..| |].
    + intros. by rewrite F3.
    + intros k' H. by rewrite !tree_get_cons, bool_decide_eq_false_2.
  - destruct (edit_key k f fs) as [fs' n]. destruct IH as (H1 & H2 & H3 & H4).
    rewrite !tree_get_cons, bool_decide_eq_false_2 by done. split_and!; [done..| |].
    + intros. by rewrite H3.
    + intros k' H. rewrite !tree_get_cons. by rewrite H4.
Qed.
Lemma has_remove k fs : has_key k (remove_key k fs) = false.
Proof.
  unfold has_key, remove_key. induction fs as [|[k1 v] fs IH]; [done|].
  rewrite filter_cons. case_decide; simpl; [|done]. by rewrite bool_decide_eq_false_2, IH.
Qed.
Lemma remove_absent k fs : has_key k fs = false → remove_key k fs = fs.
Proof.
  unfold has_key, remove_key. induction fs as [|[k1 v] fs IH]; [done|]. simpl.
  case_bool_decide; [done|]. intros H1. rewrite filter_cons_True by done. by rewrite IH.
Qed.
Lemma get_remove k k' fs : k' ≠ k → tree_get k' (TObj (remove_key k fs)) = tree_get k' (TObj fs).
Proof.
  intros Hk. unfold remove_key. induction fs as [|[k1 v] fs IH]; [done|]. rewrite filter_cons, tree_get_cons.
  case_decide as H; simpl in H; [by rewrite tree_get_cons, IH|].
  rewrite IH, bool_decide_eq_false_2; [done|congruence].
Qed.
Lemma get_absent k fs : has_key k fs = false → tree_get k (TObj fs) = None.
Proof.
  induction fs as [|[k1 v] fs IH]; [done|]. simpl has_key. intros [H1 H2]%orb_false_iff. simpl in H1.
  rewrite tree_get_cons, H1. by apply IH.
Qed.
Lemma get_snoc k k' v fs : k' ≠ k → tree_get k' (TObj (fs ++ [(k, v)])) = tree_get k' (TObj fs).
Proof.
  intros Hk. induction fs as [|[k1 v1] fs IH]; cbn [app]; rewrite !tree_get_cons; [by rewrite bool_decide_eq_false_2|].
  by rewrite IH.
Qed.
Lemma get_last k v fs : has_key k fs = false → tree_get k (TObj (fs ++ [(k, v)])) = Some v.
Proof.
  induction fs as [|[k1 v1] fs IH]; cbn [app]; rewrite tree_get_cons; [by rewrite bool_decide_eq_true_2|].
  simpl has_key. intros [H1 H2]%orb_false_iff. simpl in H1. rewrite H1. by apply IH.
Qed.
Lemma get_edited k f fs : tree_get k (TObj (edit_key k f fs).1) = (λ v, (f v).1) <$> tree_get k (TObj fs).
Proof.
  induction fs as [|[k1 v1] fs IH]; [done|]. simpl edit_key. destruct (bool_decide_reflect (k1 = k)) as [->|Hk].
  - destruct (f v1) as [v' n] eqn:E. cbn [fst]. rewrite !tree_get_cons, bool_decide_eq_true_2 by done.
    cbn. by rewrite E.
  - destruct (edit_key k f fs) as [fs' n]. cbn [fst] in *. by rewrite !tree_get_cons, bool_decide_eq_false_2.
Qed.
Lemma get_messages fs :
  tree_get "messages" (strip_cache_control (TObj fs)).1 =
    (λ v, (edit_array strip_message v).1) <$> tree_get "messages" (TObj fs).
Proof. rewrite <- get_edited. unfold strip_cache_control. by destruct (edit_key _ _ fs). Qed.
Lemma edit_key_keys k f fs k' : has_key k' (edit_key k f fs).1 = has_key k' fs.
Proof.
  induction fs as [|[k1 v] fs IH]; [done|]. simpl. case_bool_decide.
  - destruct (f v). done.
  - destruct (edit_key k f fs) as [fs' n]. simpl in *. by rewrite IH.
Qed.

Lemma strips_block : strips strip_block marker.
Proof.
  intros t. destruct t; try done. simpl. rewrite has_remove. split_and!; [done..|].
  destruct (has_key CACHE_CONTROL fields) eqn:H; [done|]. intros _. by rewrite remove_absent.
Qed.
Lemma strips_message : strips strip_message message_markers.
Proof.
  intros t. destruct t; try done. unfold strip_message, message_markers, take_marker.
  pose proof (strips_key "content" _ _ (remove_key CACHE_CONTROL fields) (strips_array _ _ strips_block)) as H.
  pose proof (edit_key_keys "content" (edit_array strip_block) (remove_key CACHE_CONTROL fields) CACHE_CONTROL) as Hk.
  destruct (edit_key _ _ _) as [fs2 k]. simpl fst in Hk. rewrite has_remove in Hk.
  destruct H as (H1 & H2 & H3 & _). rewrite get_remove in H1, H3 by done. cbn [fst snd marker]. rewrite Hk.
  split_and!; [lia|lia|]. destruct (has_key CACHE_CONTROL fields) eqn:Hm; [lia|]. intros H.
  by rewrite H3, remove_absent by (done || lia).
Qed.
Lemma strip_fields fs :
  let '(t', n) := strip_cache_control (TObj fs) in
  n = markers (TObj fs) ∧ markers t' = 0 ∧ (markers (TObj fs) = 0 → t' = TObj fs) ∧
  ∀ k, k ≠ "messages" → tree_get k t' = tree_get k (TObj fs).
Proof.
  unfold strip_cache_control, markers.
  pose proof (strips_key "messages" _ _ fs (strips_array _ _ strips_message)) as H.
  destruct (edit_key _ _ _) as [fs' n]. destruct H as (H1 & H2 & H3 & H4). split_and!; try done.
  intros H. by rewrite H3.
Qed.

Section Properties.
Context `{J : JsonApi} `{V : !JsonValues J}.
Context (b64_encode : string → string) (to_value : ChatBody → tree).

(** What the strict upstreams reject never reaches them.  When the Chat body is
    serialised to an object, DeepSeek is sent that object without any cache marker
    on a message or a block of its content, and unchanged when there was none; GLM
    is sent it without markers and without [reasoning_effort], with [thinking]
    disabled exactly for the minimal effort; every other field is the Chat
    body's.  The count of removed markers is exact. *)
Theorem strict_bodies_are_clean req target accepts_xhigh fs :
  to_value (build b64_encode req target accepts_xhigh) = TObj fs →
  let deepseek := deepseek_build b64_encode to_value req target accepts_xhigh in
  markers deepseek = 0 ∧ (markers (TObj fs) = 0 → deepseek = TObj fs) ∧
  (strip_cache_control (TObj fs)).2 = markers (TObj fs) ∧
  (∀ k, k ≠ "messages" → tree_get k deepseek = tree_get k (TObj fs)) ∧
  ∃ glm, glm_build b64_encode to_value req target accepts_xhigh = Ok glm ∧
    markers glm = 0 ∧ tree_get "reasoning_effort" glm = None ∧
    tree_get "thinking" glm = Some (TObj [("type", TStr (thinking_type (Request.reasoning_effort (resolved_policy req))))]) ∧
    tree_get "messages" glm = tree_get "messages" deepseek ∧
    ∀ k, k ∉ ["messages"; "reasoning_effort"; "thinking"] → tree_get k glm = tree_get k (TObj fs).
Proof.
  intros E. unfold deepseek_build, glm_build. rewrite E. cbn zeta.
  set (obj := insert_key _ _ _).
  pose proof (strip_fields fs) as H. destruct (strip_cache_control (TObj fs)) as [d n] eqn:Ed.
  destruct H as (H1 & H2 & H3 & H4). cbn [fst snd]. split_and!; [done..|].
  pose proof (strip_fields obj) as H. destruct (strip_cache_control (TObj obj)) as [g k] eqn:Eg.
  destruct H as (_ & G2 & _ & G4). exists g.
  assert (∀ k, k ∉ ["reasoning_effort"; "thinking"] → tree_get k (TObj obj) = tree_get k (TObj fs)) as Hobj.
  { intros k' Hk. unfold obj, insert_key. rewrite get_snoc by set_solver. rewrite !get_remove by set_solver. done. }
  split_and!; try done.
  - rewrite G4 by done. unfold obj, insert_key. rewrite get_snoc, get_remove by done. apply get_absent, has_remove.
  - rewrite G4 by done. unfold obj, insert_key. by rewrite get_last by (apply has_remove).
  - pose proof (get_messages fs) as M1. pose proof (get_messages obj) as M2. rewrite Ed in M1. rewrite Eg in M2.
    cbn [fst] in M1, M2. by rewrite M1, M2, Hobj by set_solver.
  - intros k' Hk. rewrite G4, Hobj by set_solver. done.
Qed.
End Properties.

(** ** A body with two markers *)
Module Samples.
Definition marked : tree := TObj [("role", TStr "user"); ("cache_control", TNull);
  ("content", TArr [TObj [("cache_control", TNull); ("text", TStr "hi")]; TStr "x"])].
Definition body : list (string * tree) :=
  [("messages", TArr [marked; TObj [("role", TStr "tool")]]); ("reasoning_effort", TStr "low"); ("model", TStr "m")].
Definition clean : tree := TArr [TObj [("role", TStr "user"); ("content", TArr [TObj [("text", TStr "hi")]; TStr "x"])];
  TObj [("role", TStr "tool")]].
Example two_markers : strip_cache_control (TObj body) =
  (TObj [("messages", clean); ("reasoning_effort", TStr "low"); ("model", TStr "m")], 2).
Proof. reflexivity. Qed.

#[local] Instance sample_json : JsonApi := TreeJson [].
Definition request (e : option ReasoningEffort) : CanonicalRequest := {|
  id := "req"; frontend_kind := OpenAiChat; requested_model := "m"; req_model := "m";
  system := []; messages := []; tools := []; tool_choice := ChoiceAuto;
  generation := {| max_tokens := None; temperature := None; top_p := None; top_k := None;
    presence_penalty := None; frequency_penalty := None; stop_sequences := []; seed := None; reasoning := None |};
  response_format := None; stream := true; metadata := {| user_id := None; agent := None |};
  inbound_anthropic_headers := [];
  resolved_policy := {| Request.reasoning_effort := e; Request.reasoning_budget_tokens := None;
    supported_efforts := None; supported_endpoints := None; anthropic_headers := [] |};
  extensions := ∅ |}.
Definition target : BackendTarget := {| provider := "glm"; model := "m"; policy := {|
  default_reasoning_effort := None; default_anthropic_beta := None; reasoning_mapping := [] |} |}.
Lemma strict_bodies_are_clean_witness :
  tree_get "messages" (deepseek_build (λ s, s) (λ _, TObj body) (request (Some Minimal)) target true) = Some clean ∧
  ∃ glm, glm_build (λ s, s) (λ _, TObj body) (request (Some Minimal)) target true = Ok glm ∧
    tree_get "reasoning_effort" glm = None ∧
    tree_get "thinking" glm = Some (TObj [("type", TStr "disabled")]) ∧ tree_get "model" glm = Some (TStr "m").
Proof.
  split; [reflexivity|].
  destruct (strict_bodies_are_clean (λ s, s) (λ _, TObj body) (request (Some Minimal)) target true body eq_refl)
    as (_ & _ & _ & _ & glm & H1 & _ & H3 & H4 & _ & H6).
  exists glm. split_and!; [exact H1|exact H3|exact H4|].
  rewrite (H6 "model"); [reflexivity|]. apply (bool_decide_eq_true_1 _). vm_compute. reflexivity.
Defined.
End Samples.
