(* ===== verification/AnthropicBuild.v ===== *)
(** * Building Anthropic Messages requests
    (crates/providers/src/anthropic/request.rs, the Outgoing types of wire.rs)

    The body sent to an Anthropic upstream, from a canonical request, before its
    serialisation.  base64 is a parameter. *)
From S2P Require Import Prelude Text Float64 Json CoreTypes Request Conversation.
#[local] Open Scope string_scope.
#[local] Open Scope list_scope.
#[local] Open Scope nat_scope.

Definition DEFAULT_MAX_TOKENS : Z := 4096.
Definition EXT_CACHE_CONTROL : string := "anthropic.cache_control".
Definition EXT_CACHE_CONTROL_LEGACY : string := "cache_control".
Definition EXT_SIGNATURE : string := "anthropic.signature".
Definition EXT_SIGNATURE_LEGACY : string := "signature".

(** ** The wire *)
Inductive OutgoingThinking := Adaptive | Enabled (budget_tokens : Z).
Inductive OutgoingToolChoice := OutAny | OutTool (name : string) | OutNone.

Section Wire.
Context `{J : JsonApi}.

Inductive OutgoingToolResultContent := OutResultText (t : string) | OutResultBlocks (b : list value).
Inductive OutgoingContentBlock :=
| OutTextB (text : string) (cache_control : option value)
| OutImageB (source : value) (cache_control : option value)
| OutToolUseB (id name : string) (input : value) (cache_control : option value)
| OutToolResultB (tool_use_id : string) (is_error : option bool) (content : option OutgoingToolResultContent)
    (cache_control : option value)
| OutThinkingB (thinking : string) (signature : option string)
| OutRedactedThinkingB (data : string).
Record OutgoingMessage := { om_role : string; om_content : list OutgoingContentBlock }.
Inductive OutgoingSystem := OutSystemText (t : string) | OutSystemBlocks (l : list OutgoingContentBlock).
Record OutgoingTool := {
  ot_name : string; ot_description : option string; ot_input_schema : value; ot_cache_control : option value }.

Record OutgoingRequest := {
  or_model : string;
  or_messages : list OutgoingMessage;
  or_system : option OutgoingSystem;
  or_tools : option (list OutgoingTool);
  or_tool_choice : option OutgoingToolChoice;
  or_max_tokens : Z;
  or_temperature : option f64;
  or_top_p : option f64;
  or_top_k : option Z;
  or_stop_sequences : option (list string);
  or_stream : bool;
  or_metadata : option value;
  or_thinking : option OutgoingThinking;
  (** [output_config] and its [effort]. *)
  or_output_effort : option string;
}.
End Wire.

(** [str::split]. *)
Fixpoint split_on (c : Ascii.ascii) (s : string) : list string :=
  match s with
  | EmptyString => [""]
  | String d s' =>
      if bool_decide (d = c) then "" :: split_on c s'
      else match split_on c s' with
           | x :: l => String d x :: l
           | [] => [String d ""]
           end
  end.

Section Build.
Context `{J : JsonApi} `{V : !JsonValues J}.
Context (b64_encode : string → string).

Definition first_of (ext : ExtensionMap) (key legacy : string) : option value :=
  match ext !! key with Some v => Some v | None => ext !! legacy end.
Definition cache_control_from_ext (ext : ExtensionMap) : option value :=
  first_of ext EXT_CACHE_CONTROL EXT_CACHE_CONTROL_LEGACY.
Definition signature_from_ext (ext : ExtensionMap) : option string :=
  first_of ext EXT_SIGNATURE EXT_SIGNATURE_LEGACY ≫= Json.as_str.

(** The [source] of an image. *)
Definition image_source (source : BinarySource) : option value :=
  match source with
  | Base64 media_type data | Bytes media_type data =>
      Some (json_object [("type", json_string "base64"); ("media_type", json_string media_type);
                         ("data", json_string (b64_encode data))])
  | Url url => Some (json_object [("type", json_string "url"); ("url", json_string url)])
  | ProviderFileId _ => None
  end.
Definition image_block_to_outgoing (source : BinarySource) (ext : ExtensionMap) : option OutgoingContentBlock :=
  (λ v, OutImageB v (cache_control_from_ext ext)) <$> image_source source.

Definition tool_result_content (content : value) : option OutgoingToolResultContent :=
  if is_null content then None else
  match Json.as_str content with
  | Some s => Some (OutResultText s)
  | None => match as_array content with
            | Some arr => Some (OutResultBlocks arr)
            | None => Some (OutResultText (to_json_string content))
            end
  end.

Definition content_block_to_outgoing (block : ContentBlock) : option OutgoingContentBlock :=
  match block with
  | TextBlock text ext => Some (OutTextB text (cache_control_from_ext ext))
  | ImageBlock source ext => image_block_to_outgoing source ext
  | ToolCallB tc =>
      let input := match arguments tc with
                   | Complete v => v
                   | Streaming data => match from_str data with Ok v => v | Err _ => json_object [] end
                   end in
      Some (OutToolUseB (tc_id tc) (tc_name tc) input (cache_control_from_ext (tc_extensions tc)))
  | ToolResultB tr =>
      Some (OutToolResultB (tool_call_id tr) (if Request.is_error tr then Some true else None)
        (tool_result_content (tr_content tr)) (cache_control_from_ext (tr_extensions tr)))
  | ReasoningBlock text ext => Some (OutThinkingB text (signature_from_ext ext))
  | RedactedReasoningBlock data _ => Some (OutRedactedThinkingB data)
  | AudioBlock _ _ | FileBlock _ _ | UnsupportedBlock _ _ => None
  end.

Definition is_simple_text_block (block : ContentBlock) : bool :=
  match block with TextBlock _ ext => size (ext : gmap string value) =? 0 | _ => false end.
Definition block_text (block : ContentBlock) : option string :=
  match block with TextBlock text _ => Some text | _ => None end.

Definition build_system (system : list SystemInstruction) : option OutgoingSystem :=
  match system with
  | [] => None
  | _ =>
      let blocks := system ≫= si_content in
      if forallb (λ si, forallb is_simple_text_block (si_content si)) system
      then
        let joined := join (newline ++ newline)%string (omap block_text blocks) in
        if str_is_empty joined then None else Some (OutSystemText joined)
      else match omap content_block_to_outgoing blocks with
           | [] => None
           | out => Some (OutSystemBlocks out)
           end
  end.

Definition message_to_outgoing (msg : Message) : OutgoingMessage := {|
  om_role := role_to_anthropic (role msg);
  om_content := omap content_block_to_outgoing (content msg) |}.

Definition tool_to_outgoing (t : ToolDefinition) : OutgoingTool := {|
  ot_name := tool_name t; ot_description := description t; ot_input_schema := input_schema t;
  ot_cache_control := cache_control_from_ext (tool_extensions t) |}.
Definition build_tools (req : CanonicalRequest) : option (list OutgoingTool) :=
  match tools req with [] => None | l => Some (tool_to_outgoing <$> l) end.
Definition build_tool_choice (choice : ToolChoice) : option OutgoingToolChoice :=
  match choice with
  | ChoiceAuto => None
  | ChoiceRequired => Some OutAny
  | ChoiceNone => Some OutNone
  | ChoiceSpecific name => Some (OutTool name)
  end.

Definition anthropic_effort_str (e : ReasoningEffort) : string :=
  match e with
  | Minimal => "low" | Low => "low" | Medium => "medium" | High => "high" | Xhigh => "xhigh" | Max => "max"
  end.
Definition effort_to_budget (e : ReasoningEffort) : Z :=
  match e with
  | Minimal => 128 | Low => 512 | Medium => 2048 | High => 8192 | Xhigh => 16384 | Max => 16384
  end.
(** The [effort-2025-11-24] beta among the route's headers. *)
Definition use_effort_beta (p : ResolvedPolicy) : bool :=
  existsb (λ h, eq_ignore_ascii_case h.1 "anthropic-beta" &&
    existsb (λ seg, bool_decide (trim seg = "effort-2025-11-24")) (split_on comma h.2)) (anthropic_headers p).
Definition reasoning_blocks (p : ResolvedPolicy) : option OutgoingThinking * option string :=
  match Request.reasoning_effort p, reasoning_budget_tokens p with
  | None, None => (None, None)
  | effort, budget =>
      if use_effort_beta p
      then (Some Adaptive, Some (anthropic_effort_str (default High effort)))
      else match (match budget with Some b => Some b | None => effort_to_budget <$> effort end) with
           | Some b => (Some (Enabled b), None)
           | None => (None, None)
           end
  end.
Definition build_reasoning_blocks (req : CanonicalRequest) : option OutgoingThinking * option string :=
  reasoning_blocks (resolved_policy req).
Definition build_metadata (req : CanonicalRequest) : option value :=
  (λ u, json_object [("user_id", json_string u)]) <$> user_id (Request.metadata req).

Definition build (req : CanonicalRequest) (target : BackendTarget) : OutgoingRequest :=
  let '(thinking, output_effort) := build_reasoning_blocks req in
  {| or_model := model target;
     or_messages := message_to_outgoing <$> messages req;
     or_system := build_system (system req);
     or_tools := build_tools req;
     or_tool_choice := build_tool_choice (tool_choice req);
     or_max_tokens := default DEFAULT_MAX_TOKENS (max_tokens (generation req));
     or_temperature := temperature (generation req); or_top_p := top_p (generation req);
     or_top_k := top_k (generation req);
     or_stop_sequences := match stop_sequences (generation req) with [] => None | l => Some l end;
     or_stream := stream req; or_metadata := build_metadata req;
     or_thinking := thinking; or_output_effort := output_effort |}.
End Build.
