(* ===== verification/ResponsesBuild.v ===== *)
(** * Building Responses requests
    (crates/providers/src/openai_compatible/responses_api/encode_request.rs)

    The input items and the other fields of the body; [body["k"] = v] on a
    [json!] object is a field that is present. *)
From S2P Require Import Prelude Float64 Json CoreTypes Request Conversation.
#[local] Open Scope string_scope.
#[local] Open Scope list_scope.
#[local] Open Scope nat_scope.

Inductive ToolChoiceField := FieldMode (s : string) | FieldFunction (name : string).

Section Wire.
Context `{J : JsonApi}.
(** The items, without the constant tags. *)
Inductive InputOut :=
| OutMessage (role : string) (content : value)
| OutFunctionCall (call_id name arguments : string)
| OutFunctionCallOutput (call_id output : string).
Inductive ToolOut := OutFunction (name : string) (parameters : value) (description : option string) | OutBuiltin (raw : value).
Record ResponsesBody := {
  rb_model : string;
  rb_stream : bool;
  rb_input : list InputOut;
  rb_instructions : option string;
  rb_tools : option (list ToolOut);
  rb_tool_choice : option ToolChoiceField;
  rb_max_output_tokens : option Z;
  rb_temperature : option f64;
  rb_top_p : option f64;
  rb_effort : option string;
}.
End Wire.

Section Build.
Context `{J : JsonApi} `{V : !JsonValues J} (b64_encode : string → string).

Definition block_text (b : ContentBlock) : option string :=
  match b with TextBlock t _ => Some t | _ => None end.
Definition extract_text (blocks : list ContentBlock) : string := join newline (omap block_text blocks).

Definition is_image (b : ContentBlock) : bool := match b with ImageBlock _ _ => true | _ => false end.
Definition input_image (url : string) : value :=
  json_object [("type", json_string "input_image"); ("image_url", json_string url)].
Definition content_part (b : ContentBlock) : option value :=
  match b with
  | TextBlock t _ => Some (json_object [("type", json_string "input_text"); ("text", json_string t)])
  | ImageBlock (Url url) _ => Some (input_image url)
  | ImageBlock (Base64 media_type data) _ | ImageBlock (Bytes media_type data) _ =>
      Some (input_image ("data:" ++ media_type ++ ";base64," ++ b64_encode data)%string)
  | _ => None
  end.
Definition build_message_content (blocks : list ContentBlock) : value :=
  if existsb is_image blocks then json_array (omap content_part blocks) else json_string (extract_text blocks).

Definition result_output (content : value) : string :=
  match Json.as_str content with Some s => s | None => to_json_string content end.
Definition result_item (b : ContentBlock) : option InputOut :=
  match b with
  | ToolResultB tr => Some (OutFunctionCallOutput (tool_call_id tr) (result_output (tr_content tr)))
  | _ => None
  end.
Definition arguments_string (a : ToolCallArguments) : string :=
  match a with Complete v => to_json_string v | Streaming data => data end.
Definition call_item (b : ContentBlock) : option InputOut :=
  match b with
  | ToolCallB tc => Some (OutFunctionCall (tc_id tc) (tc_name tc) (arguments_string (arguments tc)))
  | _ => None
  end.

(** The items of a user or assistant message. *)
Definition speaker_items (role_name : string) (blocks : list ContentBlock) : list InputOut :=
  match omap call_item blocks with
  | [] => [OutMessage role_name (build_message_content blocks)]
  | calls =>
      let text := extract_text blocks in
      (if str_is_empty text then [] else [OutMessage role_name (json_string text)]) ++ calls
  end.
(** The body of the loop: the items of a message, and what it adds to the
    instructions. *)
Definition message_items (msg : Message) : list InputOut :=
  match role msg with
  | User => speaker_items "user" (content msg)
  | Assistant => speaker_items "assistant" (content msg)
  | Tool => omap result_item (content msg)
  | System => []
  end.
Definition message_instruction (msg : Message) : option string :=
  match role msg with
  | System => let text := extract_text (content msg) in if str_is_empty text then None else Some text
  | _ => None
  end.

Definition tool_out (t : ToolDefinition) : ToolOut := OutFunction (tool_name t) (input_schema t) (description t).
Definition tool_choice_field (c : ToolChoice) : ToolChoiceField :=
  match c with
  | ChoiceAuto => FieldMode "auto"
  | ChoiceNone => FieldMode "none"
  | ChoiceRequired => FieldMode "required"
  | ChoiceSpecific name => FieldFunction name
  end.
Definition effort_string (p : ResolvedPolicy) : option string :=
  match Request.reasoning_effort p with
  | None => None
  | Some effort =>
      Some (default (match effort with Xhigh | Max => "high" | other => as_str other end)
        (supported_efforts p ≫= clamp_to_advertised effort))
  end.
Definition non_empty {A} (l : list A) : option (list A) := match l with [] => None | _ => Some l end.

Definition build (req : CanonicalRequest) (target : BackendTarget) : ResponsesBody :=
  let builtin := extensions req !! "builtin_tools" in
  let instructions := ((λ s, extract_text (si_content s)) <$> system req) ++ omap message_instruction (messages req) in
  {| rb_model := model target; rb_stream := stream req;
     rb_input := messages req ≫= message_items;
     rb_instructions := join newline <$> non_empty instructions;
     rb_tools := non_empty ((tool_out <$> tools req) ++ (OutBuiltin <$> default [] (builtin ≫= as_array)));
     rb_tool_choice :=
       match tools req, builtin with
       | [], None => None
       | _, _ => Some (tool_choice_field (tool_choice req))
       end;
     rb_max_output_tokens := max_tokens (generation req); rb_temperature := temperature (generation req);
     rb_top_p := top_p (generation req); rb_effort := effort_string (resolved_policy req) |}.
End Build.
