(* ===== verification/Sse.v ===== *)
(** * Server-sent event frames (crates/frontends/src/sse.rs)

    The frames the encoders write, and the keepalive wrapper around an encoder.
    JSON texts come from serde, [None] when serialisation fails. *)
From S2P Require Import Prelude Emit Drain.
#[local] Open Scope string_scope.

Definition newline : string := String (Ascii.ascii_of_nat 10) EmptyString.

Definition event (event_name data_json : string) : string :=
  "event: " ++ event_name ++ newline ++ "data: " ++ data_json ++ newline ++ newline.
Definition data_only (data_json : string) : string :=
  "data: " ++ data_json ++ newline ++ newline.
Definition comment (text : string) : string := ": " ++ text ++ newline ++ newline.

Definition event_serialized (event_name : string) (json : option string) : option string :=
  match json with
  | None => None
  | Some j => Some ("event: " ++ event_name ++ newline ++ "data: " ++ j ++ newline ++ newline)
  end.
Definition data_only_serialized (json : option string) : string :=
  match json with
  | None => ""
  | Some j => "data: " ++ j ++ newline ++ newline
  end.

(** ** The keepalive wrapper

    [KeepaliveStream] around a stream, whose [poll_next] is [inner_poll], and
    tokio's interval timer, whose [poll_tick] says whether it has fired. *)
Section Keepalive.
Context {S T O : Type}.
Context (inner_poll : S → poll (option O) * S) (poll_tick : T → bool * T) (ping : O).

Record keepalive := { inner : S; interval : T; inner_done : bool }.

(** [KeepaliveStream::new]. *)
Definition new_keepalive (s : S) (t : T) : keepalive :=
  {| inner := s; interval := t; inner_done := false |}.

Definition keepalive_poll (k : keepalive) : poll (option O) * keepalive :=
  if inner_done k then (Ready None, k) else
  match inner_poll (inner k) with
  | (Ready (Some item), s) =>
      (Ready (Some item), {| inner := s; interval := interval k; inner_done := false |})
  | (Ready None, s) => (Ready None, {| inner := s; interval := interval k; inner_done := true |})
  | (Pending, s) =>
      let '(fired, t) := poll_tick (interval k) in
      let k' := {| inner := s; interval := t; inner_done := false |} in
      if fired : bool then (Ready (Some ping), k') else (Pending, k')
  end.

Fixpoint keepalive_collect (fuel : nat) (k : keepalive) : option (list O) :=
  match fuel with
  | 0 => None
  | Datatypes.S fuel' =>
      match keepalive_poll k with
      | (Ready None, _) => Some []
      | (Ready (Some o), k') => cons o <$> keepalive_collect fuel' k'
      | (Pending, k') => keepalive_collect fuel' k'
      end
  end.

(** The second list is the first with pings put in between. *)
Inductive with_pings : list O → list O → Prop :=
| pings_nil : with_pings [] []
| pings_item o l k : with_pings l k → with_pings (o :: l) (o :: k)
| pings_ping l k : with_pings l k → with_pings l (ping :: k).
End Keepalive.
Arguments keepalive : clear implicits.

Section KeepaliveEncoder.
Context {I St T O : Type} (handle : I → St → St * list O * bool).
Context (poll_tick : T → bool * T) (ping : O).

Lemma keepalive_collect_spec fuel (e : encoder) t :
  length (esource e) + length (eremaining handle e) < fuel →
  ∃ out, keepalive_collect (encoder_poll handle) poll_tick ping fuel (new_keepalive e t) = Some out ∧
         with_pings ping (eremaining handle e) out.
Proof.
  revert e t. induction fuel as [|fuel IH]; intros e t Hfuel; [lia|].
  cbn [keepalive_collect]. unfold keepalive_poll. cbn [inner_done inner new_keepalive interval].
  pose proof (encoder_loop_spec handle (esource e) (estate e) (epending e) (edone e)) as Hp.
  cbv zeta in Hp. unfold encoder_poll at 1.
  replace {| esource := esource e; estate := estate e; epending := epending e; edone := edone e |}
    with e in Hp by (by destruct e).
  destruct (encoder_loop handle _ _ _ _) as [[|[o|]] e']; destruct Hp as [Hr Hl].
  - destruct (poll_tick t) as [[] t'].
    + destruct (IH e' t') as (out & Hout & Hw); [rewrite <- Hr; lia|].
      unfold new_keepalive in Hout. rewrite Hout. exists (ping :: out). rewrite Hr.
      split; [done|by constructor].
    + destruct (IH e' t') as (out & Hout & Hw); [rewrite <- Hr; lia|].
      unfold new_keepalive in Hout. rewrite Hout, Hr. eauto.
  - rewrite Hr in Hfuel. simpl in Hfuel. destruct (IH e' t) as (out & Hout & Hw); [lia|].
    unfold new_keepalive in Hout. rewrite Hout, Hr. exists (o :: out). split; [done|by constructor].
  - rewrite Hr. eexists. split; [done|constructor].
Qed.
End KeepaliveEncoder.

(** Whatever the timer does, a response wrapped with keepalives is the
    response with pings inserted between its frames: nothing is lost, reordered
    or repeated, and it ends when the encoder's stream ends. *)
Theorem keepalive_adds_only_pings {I St T O : Type} (handle : I → St → St * list O * bool)
    (poll_tick : T → bool * T) (ping : O) st src t fuel :
  length src + length (encode_items handle (items src) st) < fuel →
  ∃ out, keepalive_collect (encoder_poll handle) poll_tick ping fuel
           (new_keepalive (einit st src) t) = Some out ∧
         with_pings ping (encode_items handle (items src) st) out.
Proof. exact (keepalive_collect_spec handle poll_tick ping fuel (einit st src) t). Qed.

(** A source that is pending twice, with a timer that always fires. *)
Lemma keepalive_adds_only_pings_witness :
  let handle := λ (i : string) (n : nat), (S n, [data_only i], bool_decide (i = "end")) in
  let src := [SPending; SItem "a"; SPending; SItem "end"; SItem "late"] in
  keepalive_collect (encoder_poll handle) (λ t : unit, (true, t)) (comment "ping") 20
    (new_keepalive (einit 0 src) tt) =
  Some [comment "ping"; data_only "a"; comment "ping"; data_only "end"] ∧
  ∃ out, keepalive_collect (encoder_poll handle) (λ t : unit, (true, t)) (comment "ping") 20
    (new_keepalive (einit 0 src) tt) = Some out ∧
    with_pings (comment "ping") [data_only "a"; data_only "end"] out.
Proof.
  intros handle src. split; [vm_compute; reflexivity|].
  apply (keepalive_adds_only_pings handle (λ t : unit, (true, t)) (comment "ping") 0 src tt 20).
  vm_compute. lia.
Defined.
