(* ===== verification/AnthropicEncode.v ===== *)
(** * The Anthropic Messages stream encoder
    (crates/frontends/src/anthropic_messages/encode_stream.rs)

    [handle] is the method of [AnthropicEncoderStream] on one canonical item,
    with the outbound events it pushes and whether the stream is complete; the
    bytes of an event are [serialize_event], on top of serde, a parameter.  The
    poll loop is [Drain.encoder_poll].  The wire types are those of
    [anthropic_messages/wire.rs], without the constant tags. *)
From S2P Require Import Prelude Json CoreTypes Emit Lifecycle Drain Sse.
#[local] Open Scope string_scope.
#[local] Open Scope list_scope.
#[local] Open Scope nat_scope.

(** ** The wire *)
Record OutboundUsage := {
  out_input_tokens : Z;
  out_output_tokens : Z;
  out_cache_creation_input_tokens : option Z;
  out_cache_read_input_tokens : option Z;
}.
Definition default_outbound_usage : OutboundUsage := {|
  out_input_tokens := 0; out_output_tokens := 0;
  out_cache_creation_input_tokens := None; out_cache_read_input_tokens := None |}.

Inductive ContentBlockStartPayload :=
| PText (text : string)
| PToolUse (id name input : string)
| PThinking (thinking : string)
| PRedactedThinking (data : string).

Inductive ContentBlockDelta :=
| DTextDelta (text : string)
| DInputJsonDelta (partial_json : string)
| DThinkingDelta (thinking : string)
| DSignatureDelta (signature : string).

Inductive OutboundEvent :=
| OMessageStart (id model : string) (usage : OutboundUsage)
| OContentBlockStart (index : Z) (content_block : ContentBlockStartPayload)
| OContentBlockDelta (index : Z) (delta : ContentBlockDelta)
| OContentBlockStop (index : Z)
| OMessageDelta (stop_reason : string) (stop_sequence : option string) (usage : OutboundUsage)
| OMessageStop
| OPing
| OError (ty message : string).

Definition event_name (ev : OutboundEvent) : string :=
  match ev with
  | OMessageStart _ _ _ => "message_start"
  | OContentBlockStart _ _ => "content_block_start"
  | OContentBlockDelta _ _ => "content_block_delta"
  | OContentBlockStop _ => "content_block_stop"
  | OMessageDelta _ _ _ => "message_delta"
  | OMessageStop => "message_stop"
  | OPing => "ping"
  | OError _ _ => "error"
  end.

(** ** The encoder's state *)
Record EncoderState := {
  enc_response_id : string;
  enc_model : string;
  block_kinds : list ContentBlockKind;
  enc_input_tokens : Z;
  enc_output_tokens : Z;
  enc_cache_creation : option Z;
  enc_cache_read : option Z;
  pending_stop : option (StopReason * option string);
}.

Definition set_enc_response_id (x : string) (s : EncoderState) : EncoderState :=
  {|
     enc_response_id := x; enc_model := enc_model s; block_kinds := block_kinds s;
     enc_input_tokens := enc_input_tokens s; enc_output_tokens := enc_output_tokens s;
     enc_cache_creation := enc_cache_creation s; enc_cache_read := enc_cache_read s;
     pending_stop := pending_stop s |}.
Definition set_enc_model (x : string) (s : EncoderState) : EncoderState :=
  {|
     enc_response_id := enc_response_id s; enc_model := x; block_kinds := block_kinds s;
     enc_input_tokens := enc_input_tokens s; enc_output_tokens := enc_output_tokens s;
     enc_cache_creation := enc_cache_creation s; enc_cache_read := enc_cache_read s;
     pending_stop := pending_stop s |}.
Definition set_block_kinds (x : list ContentBlockKind) (s : EncoderState) : EncoderState :=
  {|
     enc_response_id := enc_response_id s; enc_model := enc_model s; block_kinds := x;
     enc_input_tokens := enc_input_tokens s; enc_output_tokens := enc_output_tokens s;
     enc_cache_creation := enc_cache_creation s; enc_cache_read := enc_cache_read s;
     pending_stop := pending_stop s |}.
Definition set_enc_input_tokens (x : Z) (s : EncoderState) : EncoderState :=
  {|
     enc_response_id := enc_response_id s; enc_model := enc_model s; block_kinds :=
     block_kinds s; enc_input_tokens := x; enc_output_tokens := enc_output_tokens s;
     enc_cache_creation := enc_cache_creation s; enc_cache_read := enc_cache_read s;
     pending_stop := pending_stop s |}.
Definition set_enc_output_tokens (x : Z) (s : EncoderState) : EncoderState :=
  {|
     enc_response_id := enc_response_id s; enc_model := enc_model s; block_kinds :=
     block_kinds s; enc_input_tokens := enc_input_tokens s; enc_output_tokens := x;
     enc_cache_creation := enc_cache_creation s; enc_cache_read := enc_cache_read s;
     pending_stop := pending_stop s |}.
Definition set_enc_cache_creation (x : option Z) (s : EncoderState) : EncoderState :=
  {|
     enc_response_id := enc_response_id s; enc_model := enc_model s; block_kinds :=
     block_kinds s; enc_input_tokens := enc_input_tokens s; enc_output_tokens :=
     enc_output_tokens s; enc_cache_creation := x; enc_cache_read := enc_cache_read s;
     pending_stop := pending_stop s |}.
Definition set_enc_cache_read (x : option Z) (s : EncoderState) : EncoderState :=
  {|
     enc_response_id := enc_response_id s; enc_model := enc_model s; block_kinds :=
     block_kinds s; enc_input_tokens := enc_input_tokens s; enc_output_tokens :=
     enc_output_tokens s; enc_cache_creation := enc_cache_creation s; enc_cache_read := x;
     pending_stop := pending_stop s |}.
Definition set_pending_stop (x : option (StopReason * option string)) (s : EncoderState) : EncoderState :=
  {|
     enc_response_id := enc_response_id s; enc_model := enc_model s; block_kinds :=
     block_kinds s; enc_input_tokens := enc_input_tokens s; enc_output_tokens :=
     enc_output_tokens s; enc_cache_creation := enc_cache_creation s; enc_cache_read :=
     enc_cache_read s; pending_stop := x |}.

(** [EncoderState::new()], given the id [ResponseId::new()] generates. *)
Definition new_encoder (fresh_id : string) : EncoderState := {|
  enc_response_id := fresh_id; enc_model := ""; block_kinds := [];
  enc_input_tokens := 0; enc_output_tokens := 0;
  enc_cache_creation := None; enc_cache_read := None; pending_stop := None |}.

(** [resize(idx + 1, Text)] when the vector is too short, then the store. *)
Definition set_block_kind (index : Z) (kind : ContentBlockKind) (l : list ContentBlockKind)
    : list ContentBlockKind :=
  let idx := Z.to_nat index in
  let l := if length l <=? idx then resize (idx + 1) Text l else l in
  <[idx := kind]> l.

Definition start_payload (kind : ContentBlockKind) : ContentBlockStartPayload :=
  match kind with
  | Text => PText ""
  | Reasoning => PThinking ""
  | RedactedReasoning => PRedactedThinking ""
  | _ => PText ""
  end.

(** [*o.get_or_insert(0) += v]. *)
Definition add_some (v : option Z) (o : option Z) : option Z :=
  match v with Some v => Some (u32_add (default 0%Z o) v) | None => o end.

Section Encoder.
Context `{J : JsonApi}.
Notation M := (emit EncoderState OutboundEvent).

Definition add_usage (u : Usage) (s : EncoderState) : EncoderState :=
  let s := set_enc_input_tokens (u32_add (enc_input_tokens s) (default 0%Z (input_tokens u))) s in
  let s := set_enc_output_tokens (u32_add (enc_output_tokens s) (default 0%Z (output_tokens u))) s in
  let s := set_enc_cache_creation (add_some (cache_creation_input_tokens u) (enc_cache_creation s)) s in
  set_enc_cache_read (add_some (cache_read_input_tokens u) (enc_cache_read s)) s.

Definition override_usage (u : Usage) (s : EncoderState) : EncoderState :=
  let s := match input_tokens u with Some it => set_enc_input_tokens it s | None => s end in
  let s := match output_tokens u with Some ot => set_enc_output_tokens ot s | None => s end in
  let s := match cache_creation_input_tokens u with
           | Some v => set_enc_cache_creation (Some v) s | None => s end in
  match cache_read_input_tokens u with
  | Some v => set_enc_cache_read (Some v) s | None => s end.

Definition current_usage (s : EncoderState) : OutboundUsage := {|
  out_input_tokens := enc_input_tokens s; out_output_tokens := enc_output_tokens s;
  out_cache_creation_input_tokens := enc_cache_creation s;
  out_cache_read_input_tokens := enc_cache_read s |}.

(** The arm of [ResponseStop]: the answer says whether the stream is complete. *)
Definition handle_response_stop (usage : option Usage) : M bool :=
  match usage with Some u => modify (override_usage u) | None => mret tt end;;
  stop ← gets pending_stop;
  modify (set_pending_stop None);;
  match stop with
  | Some (stop_reason, stop_sequence) =>
      usage ← gets current_usage;
      push (OMessageDelta (stop_reason_to_anthropic stop_reason) stop_sequence usage);;
      push OMessageStop;;
      mret true
  | None => mret false
  end.

Definition handle_event (ev : StreamEvent) : M bool :=
  match ev with
  | ResponseStart id model _ =>
      modify (set_enc_response_id id);;
      modify (set_enc_model model);;
      push (OMessageStart id model default_outbound_usage);;
      push OPing;;
      mret false
  | ContentBlockStart index kind =>
      modify (λ s, set_block_kinds (set_block_kind index kind (block_kinds s)) s);;
      when (negb (bool_decide (kind = ToolCall)))
        (push (OContentBlockStart index (start_payload kind)));;
      mret false
  | ToolCallStart index id name => push (OContentBlockStart index (PToolUse id name ""));; mret false
  | TextDelta index text => push (OContentBlockDelta index (DTextDelta text));; mret false
  | ReasoningDelta index text => push (OContentBlockDelta index (DThinkingDelta text));; mret false
  | ToolCallArgumentsDelta index json_fragment =>
      push (OContentBlockDelta index (DInputJsonDelta json_fragment));; mret false
  | ToolCallStop _ => mret false
  | ContentBlockStop index => push (OContentBlockStop index);; mret false
  | UsageDelta usage => modify (add_usage usage);; mret false
  | MessageStop stop_reason stop_sequence =>
      modify (set_pending_stop (Some (stop_reason, stop_sequence)));; mret false
  | ResponseStop usage => handle_response_stop usage
  | ErrorEvent message => push (OError "api_error" message);; mret false
  | MessageStart _ | RawProviderEvent _ => mret false
  end.

Definition handle_item (item : result StreamEvent StreamError) : M bool :=
  match item with
  | Ok ev => handle_event ev
  | Err e => push (OError "api_error" (show_stream_error e));; mret false
  end.

(** ** The bytes and the poll loop *)
(** [serde_json::to_writer]: [None] when serialisation fails. *)
Context (to_json : OutboundEvent → option string).

Definition serialize_event (ev : OutboundEvent) : option string :=
  event_serialized (event_name ev) (to_json ev).

Definition handle (item : result StreamEvent StreamError) (s : EncoderState)
    : EncoderState * list string * bool :=
  let '(complete, s', evs) := handle_item item s in (s', omap serialize_event evs, complete).

Definition poll_next : encoder → poll (option string) * encoder := encoder_poll handle.
Definition encode (fresh_id : string) (src : list (source_poll (result StreamEvent StreamError)))
    : encoder := einit (O := string) (new_encoder fresh_id) src.
End Encoder.

(** The outbound events of a stream of items: the poll loop's reference before
    serialisation. *)
Definition outbound_handle `{J : JsonApi} (item : result StreamEvent StreamError) (s : EncoderState)
    : EncoderState * list OutboundEvent * bool :=
  let '(complete, s', evs) := handle_item item s in (s', evs, complete).
Definition outbound `{J : JsonApi} (fresh_id : string) (l : list (result StreamEvent StreamError))
    : list OutboundEvent :=
  encode_items outbound_handle l (new_encoder fresh_id).

(** ** The protocol of the wire

    What a Messages client accepts: [message_start] first and once, blocks with
    fresh indices, deltas of their block's type while it is open,
    [message_delta] once and with every block closed, then [message_stop], then
    nothing. *)
Inductive shape := SText | SToolUse | SThinking | SRedacted.

Definition shape_of (p : ContentBlockStartPayload) : shape :=
  match p with
  | PText _ => SText | PToolUse _ _ _ => SToolUse | PThinking _ => SThinking
  | PRedactedThinking _ => SRedacted
  end.
Definition delta_shape (d : ContentBlockDelta) : shape :=
  match d with
  | DTextDelta _ => SText | DInputJsonDelta _ => SToolUse
  | DThinkingDelta _ | DSignatureDelta _ => SThinking
  end.
#[export] Instance shape_eq_dec : EqDecision shape.
Proof. solve_decision. Defined.

Record proto := {
  p_started : bool;
  p_open : gmap Z shape;
  p_used : gset Z;
  p_delta : bool;
  p_stopped : bool;
}.
Definition proto0 : proto := {|
  p_started := false; p_open := ∅; p_used := ∅; p_delta := false; p_stopped := false |}.
Definition set_p_blocks (o : gmap Z shape) (u : gset Z) (g : proto) : proto := {|
  p_started := p_started g; p_open := o; p_used := u; p_delta := p_delta g; p_stopped := p_stopped g |}.
Definition set_p_flags (started delta stopped : bool) (g : proto) : proto := {|
  p_started := started; p_open := p_open g; p_used := p_used g; p_delta := delta; p_stopped := stopped |}.

Definition proto_check (g : proto) (ev : OutboundEvent) : option proto :=
  if p_stopped g then None else
  match ev with
  | OPing | OError _ _ => Some g
  | OMessageStart _ _ _ =>
      if p_started g then None else Some (set_p_flags true (p_delta g) false g)
  | OContentBlockStart i p =>
      if p_started g && negb (p_delta g) && negb (bool_decide (i ∈ p_used g))
      then Some (set_p_blocks (<[i := shape_of p]> (p_open g)) ({[i]} ∪ p_used g) g)
      else None
  | OContentBlockDelta i d =>
      if bool_decide (p_open g !! i = Some (delta_shape d)) then Some g else None
  | OContentBlockStop i =>
      if bool_decide (is_Some (p_open g !! i))
      then Some (set_p_blocks (delete i (p_open g)) (p_used g) g) else None
  | OMessageDelta _ _ _ =>
      if p_started g && negb (p_delta g) && bool_decide (p_open g = ∅)
      then Some (set_p_flags true true false g) else None
  | OMessageStop => if p_delta g then Some (set_p_flags (p_started g) true true g) else None
  end.

(** Every tool call is announced exactly once, before its arguments and its
    end: what the wire needs beyond the canonical lifecycle. *)
Definition announce_check `{J : JsonApi} (A : gset Z) (ev : StreamEvent) : option (gset Z) :=
  match ev with
  | ToolCallStart i _ _ => if bool_decide (i ∈ A) then None else Some ({[i]} ∪ A)
  | ToolCallArgumentsDelta i _ | ToolCallStop i => if bool_decide (i ∈ A) then Some A else None
  | _ => Some A
  end.
(** ** A conforming canonical stream is a conforming response *)
Section Simulation.
Context `{J : JsonApi}.
Implicit Types (o : gmap Z ContentBlockKind) (t c A : gset Z).

(** The shape of an open block on the wire; a tool call is not open until it
    has been announced. *)
Definition wire_shape A o (i : Z) : option shape :=
  match o !! i with
  | Some ToolCall => if bool_decide (i ∈ A) then Some SToolUse else None
  | Some k => Some (shape_of (start_payload k))
  | None => None
  end.

(** The blocks of the validator and of the wire. *)
Record blocks_match o t c A (g : proto) : Prop := {
  bm_open : ∀ i, p_open g !! i = wire_shape A o i;
  bm_used : ∀ i, i ∈ p_used g → i ∈ c ∨ is_Some (p_open g !! i);
  bm_announced : ∀ i, i ∈ A → is_Some (o !! i) ∨ i ∈ c;
  bm_disjoint : ∀ i, is_Some (o !! i) → i ∉ c;
  bm_tools : t ⊆ A;
}.
Definition live (g : proto) : Prop :=
  p_started g = true ∧ p_delta g = false ∧ p_stopped g = false.

Lemma wire_shape_insert A o i k j :
  wire_shape A (<[i := k]> o) j =
  if decide (j = i) then
    (if bool_decide (k = ToolCall) then if bool_decide (i ∈ A) then Some SToolUse else None
     else Some (shape_of (start_payload k)))
  else wire_shape A o j.
Proof.
  unfold wire_shape. destruct (decide (j = i)) as [->|Hne].
  - rewrite lookup_insert_eq. by destruct k.
  - by rewrite lookup_insert_ne.
Qed.
Lemma wire_shape_delete A o i j :
  wire_shape A (delete i o) j = if decide (j = i) then None else wire_shape A o j.
Proof.
  unfold wire_shape. destruct (decide (j = i)) as [->|Hne].
  - by rewrite lookup_delete_eq.
  - by rewrite lookup_delete_ne.
Qed.
Lemma wire_shape_announce A o i j :
  wire_shape ({[i]} ∪ A) o j =
  if decide (j = i) then
    match o !! i with Some ToolCall => Some SToolUse | _ => wire_shape A o i end
  else wire_shape A o j.
Proof.
  unfold wire_shape. destruct (decide (j = i)) as [->|Hne].
  - destruct (o !! i) as [[]|]; try done. by rewrite bool_decide_eq_true_2 by set_solver.
  - destruct (o !! j) as [[]|]; try done. by rewrite (bool_decide_ext _ (j ∈ A)) by set_solver.
Qed.

(** Opening a block: on the wire at once, unless it is a tool call. *)
Lemma match_start o t c A g i k :
  blocks_match o t c A g → live g → o !! i = None → i ∉ c →
  ∃ g', monitor proto_check g
      (if bool_decide (k = ToolCall) then [] else [OContentBlockStart i (start_payload k)]) = Some g' ∧
    blocks_match (<[i := k]> o) t c A g' ∧ live g'.
Proof.
  intros [Ho Hu Ha Hd Ht] (Hs & Hdl & Hst) Hn Hc.
  assert (HiA : i ∉ A) by (intros Hi; destruct (Ha i Hi) as [[? ?]|]; congruence).
  assert (Hio : p_open g !! i = None) by (rewrite Ho; unfold wire_shape; by rewrite Hn).
  assert (Hiu : i ∉ p_used g) by (intros Hi; destruct (Hu i Hi) as [|[? ?]]; congruence).
  assert (Hgen : ∀ j, is_Some (<[i := k]> o !! j) → j ∉ c).
  { intros j. destruct (decide (j = i)) as [->|]; [done|]. rewrite lookup_insert_ne by done. apply Hd. }
  assert (Hann : ∀ j, j ∈ A → is_Some (<[i := k]> o !! j) ∨ j ∈ c).
  { intros j Hj. rewrite lookup_insert_ne by set_solver. by apply Ha. }
  case_bool_decide as Hk; simpl.
  - exists g. split_and!; try done. split; try done. intros j. rewrite wire_shape_insert, Ho.
    destruct (decide (j = i)) as [->|]; [|done]. rewrite bool_decide_eq_true_2 by done.
    rewrite bool_decide_eq_false_2 by done. unfold wire_shape. by rewrite Hn.
  - unfold proto_check. rewrite Hst, Hs, Hdl, bool_decide_eq_false_2 by done. simpl.
    eexists. split; [done|]. split; [|done]. split; simpl; try done.
    + intros j. rewrite wire_shape_insert. destruct (decide (j = i)) as [->|].
      * rewrite lookup_insert_eq. by rewrite bool_decide_eq_false_2.
      * by rewrite lookup_insert_ne.
    + intros j [->%elem_of_singleton|Hj]%elem_of_union.
      * right. by rewrite lookup_insert_eq.
      * destruct (Hu j Hj); [by left|right]. destruct (decide (j = i)) as [->|].
        -- by rewrite lookup_insert_eq.
        -- by rewrite lookup_insert_ne.
Qed.

(** Announcing an open tool call. *)
Lemma match_announce o t c A g i p :
  blocks_match o t c A g → live g → o !! i = Some ToolCall → i ∉ A → shape_of p = SToolUse →
  ∃ g', monitor proto_check g [OContentBlockStart i p] = Some g' ∧
    blocks_match o t c ({[i]} ∪ A) g' ∧ live g'.
Proof.
  intros [Ho Hu Ha Hd Ht] (Hs & Hdl & Hst) Hi HiA Hp.
  assert (Hio : p_open g !! i = None)
    by (rewrite Ho; unfold wire_shape; by rewrite Hi, bool_decide_eq_false_2).
  assert (Hiu : i ∉ p_used g).
  { intros Hx. destruct (Hu i Hx) as [Hc|[? ?]]; [|congruence]. by eapply Hd. }
  simpl. unfold proto_check. rewrite Hst, Hs, Hdl, bool_decide_eq_false_2 by done. simpl.
  eexists. split; [done|]. split; [|done]. rewrite Hp. split; simpl; try done.
  - intros j. rewrite wire_shape_announce. destruct (decide (j = i)) as [->|].
    + by rewrite lookup_insert_eq, Hi.
    + by rewrite lookup_insert_ne.
  - intros j [->%elem_of_singleton|Hj]%elem_of_union.
    + right. by rewrite lookup_insert_eq.
    + destruct (Hu j Hj); [by left|right]. rewrite lookup_insert_ne; [done|]. set_solver.
  - intros j [->%elem_of_singleton|Hj]%elem_of_union; [left; eauto|by apply Ha].
  - set_solver.
Qed.

(** A delta of an open block. *)
Lemma match_delta o t c A g i d :
  blocks_match o t c A g → live g → wire_shape A o i = Some (delta_shape d) →
  monitor proto_check g [OContentBlockDelta i d] = Some g.
Proof.
  intros [Ho _ _ _ _] (_ & _ & Hst) Hw. simpl. unfold proto_check.
  by rewrite Hst, Ho, Hw, bool_decide_eq_true_2.
Qed.

(** Closing a block that is open on the wire. *)
Lemma match_stop o t c A g i t' :
  blocks_match o t c A g → live g → is_Some (wire_shape A o i) → t' ⊆ t →
  ∃ g', monitor proto_check g [OContentBlockStop i] = Some g' ∧
    blocks_match (delete i o) t' ({[i]} ∪ c) A g' ∧ live g'.
Proof.
  intros [Ho Hu Ha Hd Ht] (Hs & Hdl & Hst) Hi Ht'. simpl. unfold proto_check.
  rewrite Hst, bool_decide_eq_true_2 by (by rewrite Ho). simpl.
  eexists. split; [done|]. split; [|done]. split; simpl.
  - intros j. rewrite wire_shape_delete. destruct (decide (j = i)) as [->|].
    + by rewrite lookup_delete_eq.
    + by rewrite lookup_delete_ne.
  - intros j Hj. destruct (decide (j = i)) as [->|]; [set_solver|].
    rewrite lookup_delete_ne by done. destruct (Hu j Hj); [set_solver|by right].
  - intros j Hj. destruct (decide (j = i)) as [->|]; [set_solver|].
    rewrite lookup_delete_ne by done. destruct (Ha j Hj); [by left|set_solver].
  - intros j. destruct (decide (j = i)) as [->|].
    + rewrite lookup_delete_eq. by intros [].
    + rewrite lookup_delete_ne by done. intros ?%Hd. set_solver.
  - set_solver.
Qed.

Definition sim (v : ValidatorState) A (s : EncoderState) (g : proto) : Prop :=
  ∃ ms mstop o t c, v = vstate true ms mstop false o t c ∧
    (mstop = true ↔ is_Some (pending_stop s)) ∧ blocks_match o t c A g ∧ live g.

(** An event other than [ResponseStop] and [ErrorEvent] keeps the simulation
    and does not complete the response. *)
Lemma sim_step e v v' A A' s g :
  sim v A s g → step_event default_strict v e = Ok v' → announce_check A e = Some A' →
  is_error e = false → (∀ u, e ≠ ResponseStop u) →
  ∃ s' evs g', handle_event e s = (false, s', evs) ∧
    monitor proto_check g evs = Some g' ∧ sim v' A' s' g'.
Proof.
  intros (ms & mstop & o & t & c & -> & Hp & Hb & Hl) Hv HA He Hr.
  assert (Hsim : ∀ o' t' c' g', blocks_match o' t' c' A' g' → live g' →
    sim (vstate true ms mstop false o' t' c') A' s g') by (intros; eexists _, _, _, _, _; done).
  destruct e; try done; simpl in HA; simplify_eq;
    unfold step_event, step_delta, check_delta_kind, check_post_message_stop, check_post_response_stop in Hv;
    simpl in Hv.
  - (* MessageStart *) destruct mstop, ms; simplify_eq/=.
    eexists _, [], g. split_and!; [done..|]. by eexists _, _, _, _, _.
  - (* ContentBlockStart *) destruct mstop, ms; simplify_eq/=.
    case_bool_decide as Ho; [done|]. case_bool_decide; [done|]. simplify_eq.
    destruct (match_start o t c A' g index kind Hb Hl) as (g' & Hg & Hb' & Hl');
      [by destruct (o !! index); [exfalso; eauto|]|done|].
    unfold handle_event. case_bool_decide; simpl in *;
      eexists _, _, g'; (split_and!; [done|exact Hg|by eexists _, _, _, _, _]).
  - (* TextDelta *) destruct mstop; simplify_eq/=.
    destruct (o !! index) as [k|] eqn:Hi; [|done]. case_bool_decide; simplify_eq/=.
    eexists _, _, g. split_and!; [done| |by apply Hsim].
    eapply match_delta; [done..|]. unfold wire_shape. by rewrite Hi.
  - (* ReasoningDelta *) destruct mstop; simplify_eq/=.
    destruct (o !! index) as [k|] eqn:Hi; [|done]. case_bool_decide; simplify_eq/=.
    eexists _, _, g. split_and!; [done| |by apply Hsim].
    eapply match_delta; [done..|]. unfold wire_shape. by rewrite Hi.
  - (* ToolCallStart *) destruct mstop; simplify_eq/=.
    destruct (o !! index) as [k|] eqn:Hi; [|done]. case_bool_decide; simplify_eq/=.
    case_bool_decide; simplify_eq.
    destruct (match_announce o t c A g index (PToolUse id name "") Hb Hl) as (g' & Hg & Hb' & Hl'); [done..|].
    eexists _, _, g'. split_and!; [done|exact Hg|by apply Hsim].
  - (* ToolCallArgumentsDelta *) destruct mstop; simplify_eq/=.
    destruct (o !! index) as [k|] eqn:Hi; [|done]. case_bool_decide; simplify_eq/=.
    case_bool_decide; simplify_eq. eexists _, _, g. split_and!; [done| |by apply Hsim].
    eapply match_delta; [done..|]. unfold wire_shape. by rewrite Hi, bool_decide_eq_true_2.
  - (* ToolCallStop *) destruct mstop; simplify_eq/=.
    destruct (o !! index) as [k|] eqn:Hi; [|done]. case_bool_decide; simplify_eq/=.
    case_bool_decide; simplify_eq. eexists _, [], g. split_and!; [done..|]. apply Hsim; [|done].
    destruct Hb. split; try done. set_solver.
  - (* ContentBlockStop *) destruct mstop; simplify_eq/=.
    destruct (o !! index) as [k|] eqn:Hi; [|done].
    destruct (bool_decide (k = ToolCall) && negb (bool_decide (index ∈ t))) eqn:Hk; simplify_eq.
    edestruct (match_stop o t c A' g index) as (g' & Hg & Hb' & Hl'); [done..| | |
      eexists _, _, g'; split_and!; [done|exact Hg|by apply Hsim]].
    + unfold wire_shape. rewrite Hi. destruct k; eauto. rewrite bool_decide_eq_true_2; [eauto|].
      apply andb_false_iff in Hk as [Hk%bool_decide_eq_false|Hk%negb_false_iff%bool_decide_eq_true]; [done|].
      by apply (bm_tools _ _ _ _ _ Hb).
    + case_bool_decide; set_solver.
  - (* UsageDelta *) simplify_eq/=. eexists _, [], g. split_and!; [done..|].
    eexists _, _, _, _, _. by split_and!.
  - (* MessageStop *) destruct mstop; simplify_eq/=. eexists _, [], g. split_and!; [done..|].
    eexists _, _, _, _, _. split_and!; done.
  - (* ResponseStop *) by destruct (Hr usage).
  - (* RawProviderEvent *) simplify_eq/=. eexists _, [], g. split_and!; [done..|].
    eexists _, _, _, _, _. by split_and!.
Qed.

(** The response to a conforming stream, from a simulated state. *)
Lemma sim_run its : ∀ v A s g,
  sim v A s g → validate_from default_strict v (oks its) = Ok tt →
  is_Some (monitor announce_check A (oks its)) → Forall (λ e, is_error e = false) (oks its) →
  ∃ g', monitor proto_check g (encode_items outbound_handle its s) = Some g' ∧
    p_open g' = ∅ ∧ (p_stopped g' = true ↔ ∃ u, ResponseStop u ∈ oks its).
Proof.
  induction its as [|[e|err] its IH]; intros v A s g Hsim Hv HA He.
  - destruct Hsim as (ms & mstop & o & t & c & -> & Hp & [Ho _ _ _ _] & (_ & _ & Hst)).
    simpl in Hv. case_bool_decide as Hempty; [|done]. simpl in Hempty. subst o.
    exists g. split_and!; [done|by apply map_eq|]. rewrite Hst. split; [done|].
    by intros [u Hu%not_elem_of_nil].
  - change (oks (Ok e :: its)) with (e :: oks its) in *. inversion_clear He as [|? ? He1 He2].
    assert (Halive : terminated_by_error v = false)
      by (by destruct Hsim as (? & ? & ? & ? & ? & -> & _)).
    simpl in Hv, HA. rewrite Halive in Hv.
    destruct (step_event default_strict v e) as [v'|] eqn:Hstep; [|done]. simpl in Hv.
    destruct (announce_check A e) as [A'|] eqn:HAe; [|by destruct HA].
    assert (Hcases : (∃ u, e = ResponseStop u) ∨ ∀ u, e ≠ ResponseStop u)
      by (destruct e; eauto; right; congruence).
    destruct Hcases as [[u ->]|Hne].
    + (* the deferred stop is emitted *)
      destruct Hsim as (ms & mstop & o & t & c & -> & Hp & [Ho _ _ _ _] & (Hs & Hd & Hst)).
      simpl in Hstep. destruct mstop; [|done]. simplify_eq/=.
      destruct Hp as [[[r q] Hq] _]; [done|].
      assert (Hempty : o = ∅) by (refine (stopped_no_open _ _ _ _ He2 Hv); reflexivity). subst o.
      assert (Hgo : p_open g = ∅) by (by apply map_eq).
      unfold outbound_handle. cbn [encode_items handle_item handle_event].
      assert (Hrun : ∃ s' uo, handle_response_stop u s =
        (true, s', [OMessageDelta (stop_reason_to_anthropic r) q uo; OMessageStop])).
      { unfold handle_response_stop, mbind, emit_bind, mret, emit_ret, modify, gets, push.
        destruct u as [u|]; simpl.
        - replace (pending_stop (override_usage u s)) with (Some (r, q))
            by (rewrite <- Hq; unfold override_usage; by repeat case_match). eauto.
        - rewrite Hq. eauto. }
      destruct Hrun as (s' & uo & ->). rewrite app_nil_r.
      rewrite (monitor_cons _ _ _ (set_p_flags true true false g))
        by (unfold proto_check; by rewrite Hst, Hs, Hd, bool_decide_eq_true_2 by done).
      simpl. eexists. split; [done|]. split; [done|]. split; [|done].
      intros _. exists u. by apply list_elem_of_here.
    + destruct (sim_step e v v' A A' s g Hsim Hstep HAe He1 Hne)
        as (s' & evs & g' & Hh & Hg & Hsim').
      unfold outbound_handle. cbn [encode_items handle_item]. rewrite Hh.
      destruct (IH v' A' s' g' Hsim' Hv HA He2) as (g2 & Hg2 & Hopen & Hstop).
      exists g2. rewrite monitor_app, Hg. split_and!; [done..|]. rewrite Hstop.
      split; intros [u Hu]; exists u; [by apply list_elem_of_further|].
      apply elem_of_cons in Hu as [<-|]; [naive_solver|done].
  - destruct (IH v A s g Hsim Hv HA He) as (g2 & Hg2 & Hrest).
    unfold outbound_handle. cbn [encode_items handle_item]. exists g2.
    destruct Hsim as (? & ? & ? & ? & ? & _ & _ & _ & (_ & _ & Hst)).
    unfold mbind, emit_bind, push, mret, emit_ret. cbn [app].
    by rewrite (monitor_cons _ _ _ g) by (unfold proto_check; by rewrite Hst).
Qed.

(** From the start: stream errors, then the [ResponseStart]. *)
Lemma response_protocol fresh_id its id m n l :
  oks its = ResponseStart id m n :: l →
  assert_canonical_lifecycle (oks its) = Ok tt → is_Some (monitor announce_check ∅ l) →
  Forall (λ e, is_error e = false) l →
  ∃ g, monitor proto_check proto0 (outbound fresh_id its) = Some g ∧
    p_open g = ∅ ∧ (p_stopped g = true ↔ ∃ u, ResponseStop u ∈ l).
Proof.
  intros Hl Hv HA He. unfold outbound. induction its as [|[e|err] its IH]; [done| |].
  - change (oks (Ok e :: its)) with (e :: oks its) in *. injection Hl as -> Hl. subst l.
    unfold outbound_handle. cbn [encode_items handle_item handle_event].
    unfold mbind, emit_bind, mret, emit_ret, modify, push. cbn [app].
    set (s := set_enc_model _ _).
    rewrite (monitor_cons _ _ _ (set_p_flags true false false proto0)) by reflexivity.
    rewrite (monitor_cons _ _ _ (set_p_flags true false false proto0)) by reflexivity.
    apply (sim_run its (vstate true false false false ∅ ∅ ∅) ∅); [|exact Hv|done|done].
    eexists _, _, _, _, _. split; [done|]. split; [split; [done|by intros [? ?]]|].
    split; [|done]. by split; set_solver.
  - destruct (IH Hl Hv) as (g & Hg & Hrest). exists g. split; [|done].
    unfold outbound_handle. cbn [encode_items handle_item].
    unfold mbind, emit_bind, mret, emit_ret, push. cbn [app].
    by rewrite (monitor_cons _ _ _ proto0) by reflexivity.
Qed.
End Simulation.

(** ** What the response is made of *)
Section Content.
Context `{J : JsonApi}.

(** The items the encoder reads: up to the first [ResponseStop] that follows a
    [MessageStop]. *)
Fixpoint consumed (stopped : bool) (l : list (result StreamEvent StreamError))
    : list (result StreamEvent StreamError) :=
  match l with
  | [] => []
  | i :: l' =>
      i :: match i with
           | Ok (MessageStop _ _) => consumed true l'
           | Ok (ResponseStop _) => if stopped then [] else consumed false l'
           | _ => consumed stopped l'
           end
  end.

(** The deltas of a canonical stream and of a response. *)
Definition delta_in (e : StreamEvent) : option (Z * ContentBlockDelta) :=
  match e with
  | TextDelta i t => Some (i, DTextDelta t)
  | ReasoningDelta i t => Some (i, DThinkingDelta t)
  | ToolCallArgumentsDelta i t => Some (i, DInputJsonDelta t)
  | _ => None
  end.
Definition delta_out (e : OutboundEvent) : option (Z * ContentBlockDelta) :=
  match e with OContentBlockDelta i d => Some (i, d) | _ => None end.

Lemma pending_add_usage u s : pending_stop (add_usage u s) = pending_stop s.
Proof. done. Qed.
Lemma pending_override u s : pending_stop (override_usage u s) = pending_stop s.
Proof. unfold override_usage. by repeat case_match. Qed.

(** One item: its deltas, and what becomes of the pending stop. *)
Lemma handle_item_deltas i s :
  let '(complete, s', evs) := handle_item i s in
  omap delta_out evs = omap delta_in (oks [i]) ∧
  match i with
  | Ok (MessageStop r q) => complete = false ∧ pending_stop s' = Some (r, q)
  | Ok (ResponseStop _) => complete = bool_decide (is_Some (pending_stop s)) ∧ pending_stop s' = None
  | _ => complete = false ∧ pending_stop s' = pending_stop s
  end.
Proof.
  destruct i as [[]|e]; try done.
  - simpl. unfold mbind, emit_bind, modify, when, push, mret, emit_ret. by case_bool_decide.
  - simpl. unfold handle_response_stop, mbind, emit_bind, modify, gets, push, mret, emit_ret.
    destruct usage as [u|]; simpl; rewrite ?pending_override;
      by destruct (pending_stop s) as [[r q]|].
Qed.

Lemma outbound_deltas l s :
  omap delta_out (encode_items outbound_handle l s) =
  omap delta_in (oks (consumed (bool_decide (is_Some (pending_stop s))) l)).
Proof.
  revert s. induction l as [|i l IH]; intros s; [done|]. simpl. unfold outbound_handle at 1.
  pose proof (handle_item_deltas i s) as H. destruct (handle_item i s) as [[c s'] evs].
  destruct H as [Hd Hc]. rewrite omap_app, Hd.
  set (st := bool_decide (is_Some (pending_stop s))).
  assert (Hrest : omap delta_out (if c then [] else encode_items outbound_handle l s') =
    omap delta_in (oks match i with
      | Ok (MessageStop _ _) => consumed true l
      | Ok (ResponseStop _) => if st then [] else consumed false l
      | _ => consumed st l
      end)).
  { destruct i as [[]|]; destruct Hc as [-> Hp]; fold st; try (by rewrite IH, Hp).
    destruct st; [done|]. by rewrite IH, Hp. }
  by rewrite Hrest, <- omap_app, <- oks_app.
Qed.

(** The usage the response reports: the sum of the deltas, in [u32]
    arithmetic, unless the final [ResponseStop] overrides it. *)
Definition usages (l : list StreamEvent) : list Usage :=
  omap (λ e, match e with UsageDelta u => Some u | _ => None end) l.
Definition total (f : Usage → option Z) (l : list Usage) : Z :=
  wrap32 (foldr Z.add 0%Z ((λ u, default 0%Z (f u)) <$> l)).
Definition total_some (f : Usage → option Z) (l : list Usage) : option Z :=
  match omap f l with [] => None | vs => Some (wrap32 (foldr Z.add 0%Z vs)) end.
Definition reported (l : list Usage) (final : option Usage) : OutboundUsage := {|
  out_input_tokens := default (total input_tokens l) (final ≫= input_tokens);
  out_output_tokens := default (total output_tokens l) (final ≫= output_tokens);
  out_cache_creation_input_tokens :=
    match final ≫= cache_creation_input_tokens with
    | Some v => Some v | None => total_some cache_creation_input_tokens l end;
  out_cache_read_input_tokens :=
    match final ≫= cache_read_input_tokens with
    | Some v => Some v | None => total_some cache_read_input_tokens l end |}.

(** The last [MessageStop]. *)
Definition last_stop (l : list StreamEvent) : option (StopReason * option string) :=
  last (omap (λ e, match e with MessageStop r q => Some (r, q) | _ => None end) l).

Lemma foldl_u32_add l a : wrap32 a = a → foldl u32_add a l = wrap32 (a + foldr Z.add 0%Z l).
Proof.
  revert a. induction l as [|x l IH]; intros a Ha; simpl; [by rewrite Z.add_0_r|].
  rewrite IH by (apply wrap32_idemp). unfold u32_add. by rewrite wrap32_add_l, Z.add_assoc.
Qed.
Lemma foldl_add_some (l : list (option Z)) :
  foldl (λ o v, add_some v o) None l =
  match omap id l with [] => None | vs => Some (wrap32 (foldr Z.add 0%Z vs)) end.
Proof.
  assert (Hs : ∀ l a, wrap32 a = a → foldl (λ o v, add_some v o) (Some a) l =
    Some (wrap32 (a + foldr Z.add 0%Z (omap id l)))).
  { clear. induction l as [|[x|] l IH]; intros a Ha; simpl; [by rewrite Z.add_0_r, Ha| |by apply IH].
    rewrite IH by apply wrap32_idemp. unfold u32_add. by rewrite wrap32_add_l, Z.add_assoc. }
  induction l as [|[x|] l IH]; simpl; [done| |exact IH].
  by rewrite Hs, wrap32_add_l by apply wrap32_idemp.
Qed.

Definition add_usages (l : list Usage) (s : EncoderState) : EncoderState :=
  foldl (λ s u, add_usage u s) s l.

Lemma current_usage_add_usages l s :
  current_usage (add_usages l s) = {|
    out_input_tokens := foldl u32_add (enc_input_tokens s) ((λ u, default 0%Z (input_tokens u)) <$> l);
    out_output_tokens := foldl u32_add (enc_output_tokens s) ((λ u, default 0%Z (output_tokens u)) <$> l);
    out_cache_creation_input_tokens :=
      foldl (λ o v, add_some v o) (enc_cache_creation s) (cache_creation_input_tokens <$> l);
    out_cache_read_input_tokens :=
      foldl (λ o v, add_some v o) (enc_cache_read s) (cache_read_input_tokens <$> l) |}.
Proof. revert s. induction l as [|u l IH]; intros s; [done|]. csimpl. apply (IH (add_usage u s)). Qed.

Lemma reported_spec l s final :
  enc_input_tokens s = 0%Z → enc_output_tokens s = 0%Z →
  enc_cache_creation s = None → enc_cache_read s = None →
  current_usage (match final with Some u => override_usage u (add_usages l s) | None => add_usages l s end)
  = reported l final.
Proof.
  intros Hi Ho Hc Hr. pose proof (current_usage_add_usages l s) as H.
  rewrite Hi, Ho, Hc, Hr, !foldl_u32_add, !foldl_add_some in H by done.
  rewrite !omap_id_fmap, !Z.add_0_l in H. unfold reported.
  injection H as H1 H2 H3 H4. unfold current_usage, override_usage.
  destruct final as [[[] [] [] []]|]; simpl; f_equal; solve [done | exact H1 | exact H2 | exact H3 | exact H4].
Qed.

Lemma add_usage_cong u s s' :
  current_usage s = current_usage s' → current_usage (add_usage u s) = current_usage (add_usage u s').
Proof. destruct s, s'. unfold current_usage. simpl. by intros [= <- <- <- <-]. Qed.
Lemma override_usage_cong u s s' :
  current_usage s = current_usage s' →
  current_usage (override_usage u s) = current_usage (override_usage u s').
Proof.
  destruct s, s', u as [[] [] [] []]; unfold current_usage; simpl; by intros [= <- <- <- <-].
Qed.

(** The usage an item adds. *)
Definition item_usage (i : result StreamEvent StreamError) : list Usage :=
  match i with Ok (UsageDelta u) => [u] | _ => [] end.

Lemma handle_item_usage i s :
  (∀ u, i ≠ Ok (ResponseStop u)) →
  current_usage (final (handle_item i) s) = current_usage (add_usages (item_usage i) s).
Proof.
  intros Hi. unfold final. destruct i as [[]|e]; try done.
  - simpl. unfold mbind, emit_bind, modify, when, push, mret, emit_ret. by case_bool_decide.
  - by destruct (Hi usage).
Qed.

Lemma usages_cons i l : usages (oks (i :: l)) = item_usage i ++ usages (oks l).
Proof. by destruct i as [[]|]. Qed.
Lemma add_usages_app l k s : add_usages (l ++ k) s = add_usages k (add_usages l s).
Proof. apply foldl_app. Qed.
Lemma add_usages_cong l s s' :
  current_usage s = current_usage s' → current_usage (add_usages l s) = current_usage (add_usages l s').
Proof. revert s s'. induction l as [|u l IH]; intros s s' H; [done|]. by apply IH, add_usage_cong. Qed.

(** The pending stop after some items. *)
Definition pending_after (p : option (StopReason * option string)) (l : list StreamEvent) :=
  match last_stop l with Some x => Some x | None => p end.

Lemma pending_after_cons i l s :
  (∀ u, i ≠ Ok (ResponseStop u)) →
  pending_after (pending_stop (final (handle_item i) s)) (oks l) =
  pending_after (pending_stop s) (oks (i :: l)).
Proof.
  intros Hi. pose proof (handle_item_deltas i s) as H. unfold final.
  destruct (handle_item i s) as [[c s'] evs]. destruct H as [_ H]. simpl.
  unfold pending_after, last_stop.
  destruct i as [[]|]; try (destruct H as [_ ->]; done); [|by destruct (Hi usage)].
  destruct H as [_ ->]. change (oks (Ok ?e :: l)) with (e :: oks l). simpl.
  match goal with |- context [list_omap _ _ ?f (oks l)] => change (list_omap _ _ f (oks l)) with (omap f (oks l)) end.
  rewrite last_cons. by destruct (last _).
Qed.

(** Until the [ResponseStop] the encoder accumulates; then it reports. *)
Lemma outbound_until_stop pre post u r q s0 : ∀ s l,
  Forall (λ i, ∀ u', i ≠ Ok (ResponseStop u')) pre →
  pending_after (pending_stop s) (oks pre) = Some (r, q) →
  current_usage s = current_usage (add_usages l s0) →
  encode_items outbound_handle (pre ++ Ok (ResponseStop u) :: post) s =
  encode_items outbound_handle pre s ++
    [OMessageDelta (stop_reason_to_anthropic r) q
       (current_usage (match u with
                       | Some u => override_usage u (add_usages (l ++ usages (oks pre)) s0)
                       | None => add_usages (l ++ usages (oks pre)) s0 end)); OMessageStop].
Proof.
  induction pre as [|i pre IH]; intros s l Hpre Hp Hu.
  - unfold pending_after in Hp. simpl in Hp. rewrite app_nil_r. simpl.
    unfold outbound_handle at 1. simpl.
    unfold handle_response_stop, mbind, emit_bind, modify, gets, push, mret, emit_ret.
    destruct u as [u|]; simpl; rewrite ?pending_override, Hp; simpl; rewrite ?app_nil_r.
    + do 2 f_equal. by apply override_usage_cong.
    + do 2 f_equal. exact Hu.
  - inversion_clear Hpre as [|? ? Hi Hpre']. simpl. unfold outbound_handle at 1 3.
    pose proof (handle_item_usage i s Hi) as Hus. pose proof (pending_after_cons i pre s Hi) as Hpa.
    pose proof (handle_item_deltas i s) as Hd. unfold final in *.
    destruct (handle_item i s) as [[c s'] evs]. simpl in *.
    assert (c = false) as -> by (destruct i as [[]|]; try apply Hd; by destruct (Hi usage)).
    simpl. rewrite (IH s' (l ++ item_usage i) Hpre'), <- app_assoc.
    + rewrite app_assoc. change (match result_ok i with Some y => y :: oks pre | None => oks pre end)
        with (oks (i :: pre)). by rewrite usages_cons.
    + by rewrite Hpa.
    + rewrite Hus, add_usages_app. by apply add_usages_cong.
Qed.
End Content.

(** ** Properties *)
Section Properties.
Context `{J : JsonApi}.

(** C29: a canonical stream that meets the lifecycle contract, with every tool
    call announced once and stream errors anywhere, becomes a response that
    follows the Messages streaming protocol: it is accepted, event by event, by
    the protocol's automaton, leaves no block open, and is terminated by
    [message_stop] exactly when the stream has its [ResponseStop]. *)
Theorem anthropic_response_follows_protocol fresh_id its id m n l :
  oks its = ResponseStart id m n :: l →
  assert_canonical_lifecycle (oks its) = Ok tt → is_Some (monitor announce_check ∅ l) →
  Forall (λ e, is_error e = false) l →
  ∃ g, monitor proto_check proto0 (outbound fresh_id its) = Some g ∧
    p_open g = ∅ ∧ (p_stopped g = true ↔ ∃ u, ResponseStop u ∈ l).
Proof. apply response_protocol. Qed.

(** The response carries exactly the deltas of the canonical stream it has
    read (all of it, up to the [ResponseStop] that completes it): the same
    blocks, kinds and contents, in the same order. *)
Theorem anthropic_response_preserves_deltas fresh_id its :
  omap delta_out (outbound fresh_id its) = omap delta_in (oks (consumed false its)).
Proof. apply outbound_deltas. Qed.

(** At the first [ResponseStop] after a [MessageStop] the response reports
    the last stop reason and, for every counter, the sum of the usage deltas
    (in [u32] arithmetic) unless the [ResponseStop] overrides it; then it is
    over: what follows in the canonical stream is not read. *)
Theorem anthropic_response_reports_usage fresh_id pre u post r q :
  Forall (λ i, ∀ u', i ≠ Ok (ResponseStop u')) pre → last_stop (oks pre) = Some (r, q) →
  outbound fresh_id (pre ++ Ok (ResponseStop u) :: post) =
  outbound fresh_id pre ++
    [OMessageDelta (stop_reason_to_anthropic r) q (reported (usages (oks pre)) u); OMessageStop].
Proof.
  intros Hpre Hlast. unfold outbound.
  rewrite (outbound_until_stop pre post u r q (new_encoder fresh_id) _ []); [|done| |done].
  - simpl. by rewrite reported_spec.
  - unfold pending_after. by rewrite Hlast.
Qed.

(** Polling the encoded stream to its end terminates and yields the frames
    of the outbound events, in order, whatever the interleaving with
    [Pending]; events that cannot be serialised are dropped. *)
Theorem anthropic_encoder_polls to_json fresh_id src fuel :
  length src + length (omap (serialize_event to_json) (outbound fresh_id (items src))) < fuel →
  ecollect (handle to_json) fuel (encode fresh_id src) =
  Some (omap (serialize_event to_json) (outbound fresh_id (items src))).
Proof.
  unfold outbound. rewrite <- encode_items_omap.
  assert (Heq : ∀ i s, (let '(s', evs, c) := outbound_handle i s in
      (s', omap (serialize_event to_json) evs, c)) = handle to_json i s).
  { intros i s. unfold outbound_handle, handle. by destruct (handle_item i s) as [[c s'] evs]. }
  rewrite (encode_items_ext _ _ _ _ Heq).
  exact (ecollect_spec (handle to_json) fuel (encode fresh_id src)).
Qed.
End Properties.

(** ** A concrete response *)
Module Samples.
#[local] Instance encode_json : JsonApi := TreeJson [].
Definition counts (i o : Z) : Usage := {|
  input_tokens := Some i; output_tokens := Some o; cache_creation_input_tokens := None;
  cache_read_input_tokens := None; reasoning_tokens := None; estimated := false;
  provider_raw := None; safety_ratings := None |}.
Definition body : list (result StreamEvent StreamError) :=
  Ok <$> [MessageStart Assistant; ContentBlockStart 0 Text; TextDelta 0 "hi"; ContentBlockStop 0;
          ContentBlockStart 1 ToolCall; ToolCallStart 1 "call_1" "search";
          ToolCallArgumentsDelta 1 "{}"; ToolCallStop 1; ContentBlockStop 1;
          UsageDelta (counts 3 5); MessageStop ToolUse None; UsageDelta (counts 0 2)].
Definition sample : list (result StreamEvent StreamError) :=
  Ok (ResponseStart "r" "m" 0) :: Err StreamTimeout :: body ++ [Ok (ResponseStop None)].

Lemma anthropic_response_follows_protocol_witness :
  assert_canonical_lifecycle (oks sample) = Ok tt ∧
  ∃ g, monitor proto_check proto0 (outbound "f" sample) = Some g ∧ p_open g = ∅ ∧
    (p_stopped g = true ↔ ∃ u, ResponseStop u ∈ oks (body ++ [Ok (ResponseStop None)])).
Proof.
  assert (Hv : assert_canonical_lifecycle (oks sample) = Ok tt) by (vm_compute; reflexivity).
  split; [exact Hv|].
  apply (anthropic_response_follows_protocol "f" sample "r" "m" 0
    (oks (body ++ [Ok (ResponseStop None)]))); [reflexivity|exact Hv| |].
  - vm_compute. eexists. reflexivity.
  - repeat constructor.
Defined.

Lemma anthropic_response_reports_usage_witness :
  last_stop (oks body) = Some (ToolUse, None) ∧
  outbound "f" (body ++ Ok (ResponseStop None) :: [Ok (TextDelta 0 "late")]) =
  outbound "f" body ++
    [OMessageDelta "tool_use" None {| out_input_tokens := 3; out_output_tokens := 7;
       out_cache_creation_input_tokens := None; out_cache_read_input_tokens := None |}; OMessageStop].
Proof.
  assert (Hl : last_stop (oks body) = Some (ToolUse, None)) by (vm_compute; reflexivity).
  split; [exact Hl|].
  refine (anthropic_response_reports_usage "f" body None [Ok (TextDelta 0 "late")] ToolUse None _ Hl).
  unfold body. simpl. repeat constructor; discriminate.
Defined.

Lemma anthropic_encoder_polls_witness :
  ecollect (handle (λ ev, Some (event_name ev))) 40 (encode "f" (SPending :: (SItem <$> sample))) =
  Some (omap (serialize_event (λ ev, Some (event_name ev)))
    (outbound "f" (items (SPending :: (SItem <$> sample))))).
Proof.
  apply (anthropic_encoder_polls (λ ev, Some (event_name ev)) "f" (SPending :: (SItem <$> sample)) 40).
  vm_compute. lia.
Defined.
End Samples.
