(* ===== verification/AnthropicParse.v ===== *)
(** * Anthropic as an upstream
    (crates/providers/src/anthropic/response.rs, the Incoming types of wire.rs)

    The streaming parser keeps no block state but the set of open tool calls:
    each readable event of the upstream becomes at most three canonical events.
    Reading an event or a body into the Incoming types is serde's derived code,
    here the parameters [from_event] and [from_response]. *)
From S2P Require Import Prelude Text Json CoreTypes Emit Envelope Lifecycle Drain.
#[local] Open Scope string_scope.
#[local] Open Scope list_scope.
#[local] Open Scope nat_scope.

(** ** The wire *)
Record IncomingUsage := {
  in_input_tokens : option Z;
  in_output_tokens : option Z;
  in_cache_creation_input_tokens : option Z;
  in_cache_read_input_tokens : option Z;
}.

Inductive IncomingContentBlockDelta :=
| InTextDelta (text : string)
| InInputJsonDelta (partial_json : string)
| InThinkingDelta (thinking : string)
| InSignatureDelta (signature : string).

Section Wire.
Context `{J : JsonApi}.

Inductive IncomingContentBlock :=
| BText (text : string)
| BToolUse (id name : string) (input : value)
| BThinking (thinking : string) (signature : option string)
| BRedactedThinking (data : string).

Inductive IncomingContentBlockStart :=
| InText (text : string)
| InToolUse (id name : string) (input : value)
| InThinking (thinking : string)
| InRedactedThinking (data : string).

(** [IncomingMessageStart], [IncomingMessageDelta] and [IncomingErrorPayload]
    are unfolded into their events. *)
Inductive IncomingEvent :=
| InMessageStart (id model : string) (usage : option IncomingUsage)
| InContentBlockStart (index : Z) (content_block : IncomingContentBlockStart)
| InContentBlockDelta (index : Z) (delta : IncomingContentBlockDelta)
| InContentBlockStop (index : Z)
| InMessageDelta (stop_reason stop_sequence : option string) (usage : option IncomingUsage)
| InMessageStop
| InPing
| InError (ty message : string).

Record IncomingMessagesResponse := {
  resp_id : string;
  resp_model : string;
  resp_content : list IncomingContentBlock;
  resp_stop_reason : option string;
  resp_stop_sequence : option string;
  resp_usage : option IncomingUsage;
}.
End Wire.

(** ** The streaming parser *)
Section Parser.
Context `{J : JsonApi}.

Record StreamState := {
  stop_reason : option StopReason;
  stop_sequence : option string;
  accumulated_usage : Usage;
  open_tool_indices : gset Z;
  completed : bool;
}.
Definition default_stream_state : StreamState := {|
  stop_reason := None; stop_sequence := None; accumulated_usage := default_usage;
  open_tool_indices := ∅; completed := false |}.
Definition set_stop (r : option StopReason) (q : option string) (s : StreamState) : StreamState := {|
  stop_reason := r; stop_sequence := q; accumulated_usage := accumulated_usage s;
  open_tool_indices := open_tool_indices s; completed := completed s |}.
Definition set_usage (u : Usage) (s : StreamState) : StreamState := {|
  stop_reason := stop_reason s; stop_sequence := stop_sequence s; accumulated_usage := u;
  open_tool_indices := open_tool_indices s; completed := completed s |}.
Definition set_open_tools (t : gset Z) (s : StreamState) : StreamState := {|
  stop_reason := stop_reason s; stop_sequence := stop_sequence s;
  accumulated_usage := accumulated_usage s; open_tool_indices := t; completed := completed s |}.
Definition set_completed (s : StreamState) : StreamState := {|
  stop_reason := stop_reason s; stop_sequence := stop_sequence s;
  accumulated_usage := accumulated_usage s; open_tool_indices := open_tool_indices s;
  completed := true |}.

Definition map_usage (u : IncomingUsage) : Usage := {|
  input_tokens := in_input_tokens u; output_tokens := in_output_tokens u;
  cache_creation_input_tokens := in_cache_creation_input_tokens u;
  cache_read_input_tokens := in_cache_read_input_tokens u;
  reasoning_tokens := None; estimated := false; provider_raw := None; safety_ratings := None |}.

(** [if let Some(v) = delta.f { acc.f = Some(acc.f.unwrap_or(0).max(v)) }]. *)
Definition merge_field (acc delta : option Z) : option Z :=
  match delta with Some v => Some (Z.max (default 0%Z acc) v) | None => acc end.
Definition merge_usage (acc delta : Usage) : Usage := {|
  input_tokens := merge_field (input_tokens acc) (input_tokens delta);
  output_tokens := merge_field (output_tokens acc) (output_tokens delta);
  cache_creation_input_tokens :=
    merge_field (cache_creation_input_tokens acc) (cache_creation_input_tokens delta);
  cache_read_input_tokens := merge_field (cache_read_input_tokens acc) (cache_read_input_tokens delta);
  reasoning_tokens := reasoning_tokens acc; estimated := estimated acc;
  provider_raw := provider_raw acc; safety_ratings := safety_ratings acc |}.
Definition is_usage_empty (u : Usage) : bool :=
  negb (bool_decide (is_Some (input_tokens u))) && negb (bool_decide (is_Some (output_tokens u))) &&
  negb (bool_decide (is_Some (cache_creation_input_tokens u))) &&
  negb (bool_decide (is_Some (cache_read_input_tokens u))).

#[local] Abbreviation M := (emit StreamState StreamEvent).

(** The two places that report usage. *)
Definition report_usage (usage : option IncomingUsage) : M unit :=
  match usage with
  | Some u =>
      modify (λ s, set_usage (merge_usage (accumulated_usage s) (map_usage u)) s);;
      push (UsageDelta (map_usage u))
  | None => mret tt
  end.

Definition on_block_start (index : Z) (content_block : IncomingContentBlockStart) : M unit :=
  match content_block with
  | InText text =>
      push (ContentBlockStart index Text);;
      when (negb (str_is_empty text)) (push (TextDelta index text))
  | InToolUse id name _ =>
      push (ContentBlockStart index ToolCall);;
      push (ToolCallStart index id name);;
      modify (λ s, set_open_tools ({[index]} ∪ open_tool_indices s) s)
  | InThinking thinking =>
      push (ContentBlockStart index Reasoning);;
      when (negb (str_is_empty thinking)) (push (ReasoningDelta index thinking))
  | InRedactedThinking _ => push (ContentBlockStart index RedactedReasoning)
  end.

Definition on_block_delta (index : Z) (delta : IncomingContentBlockDelta) : M unit :=
  match delta with
  | InTextDelta text => push (TextDelta index text)
  | InInputJsonDelta partial_json => push (ToolCallArgumentsDelta index partial_json)
  | InThinkingDelta thinking => push (ReasoningDelta index thinking)
  | InSignatureDelta _ => mret tt
  end.

Definition on_block_stop (index : Z) : M unit :=
  tools ← gets open_tool_indices;
  modify (set_open_tools (tools ∖ {[index]}));;
  when (bool_decide (index ∈ tools)) (push (ToolCallStop index));;
  push (ContentBlockStop index).

Definition on_message_stop : M unit :=
  reason ← gets stop_reason;
  sequence ← gets stop_sequence;
  modify (set_stop None None);;
  push (MessageStop (default EndTurn reason) sequence);;
  usage ← gets accumulated_usage;
  modify (set_usage default_usage);;
  push (ResponseStop (Some usage));;
  modify set_completed.

Definition show_error (ty message : string) : string := ("upstream " ++ ty ++ ": " ++ message)%string.

(** The match of [parse_chunk]. *)
Definition handle_event (ev : IncomingEvent) : M unit :=
  match ev with
  | InMessageStart id model usage =>
      push (ResponseStart id model 0);;
      push (MessageStart Assistant);;
      report_usage usage
  | InContentBlockStart index content_block => on_block_start index content_block
  | InContentBlockDelta index delta => on_block_delta index delta
  | InContentBlockStop index => on_block_stop index
  | InMessageDelta reason sequence usage =>
      modify (λ s, set_stop
        (match reason with Some r => Some (stop_reason_from_anthropic r) | None => stop_reason s end)
        (match sequence with Some q => Some q | None => stop_sequence s end) s);;
      report_usage usage
  | InMessageStop => on_message_stop
  | InPing => mret tt
  | InError ty message => push (ErrorEvent (show_error ty message))
  end.

Context (from_event : string → result IncomingEvent string).
#[local] Abbreviation Item := (result StreamEvent StreamError).

Definition parse_chunk (data : string) : emit StreamState StreamEvent (result unit string) :=
  if is_blank data then mret (Ok tt) else
  match from_event data with
  | Err e => mret (Err ("anthropic SSE json parse: " ++ e)%string)
  | Ok ev => handle_event ev;; mret (Ok tt)
  end.

(** The closure of [flat_map]: an upstream item is an event or a transport
    error. *)
Definition on_item (i : result SseEvent string) (s : StreamState) : StreamState * list Item :=
  match i with
  | Err e => (s, if completed s then [] else [Err (UpstreamError e)])
  | Ok ev =>
      let '(answer, s', evts) := parse_chunk (data ev) s in
      (s', match answer with Ok _ => Ok <$> evts | Err e => [Err (DecodeError e)] end)
  end.
(** Nothing is emitted when the upstream ends. *)
Definition on_eof (s : StreamState) : StreamState * list Item := (s, []).

Definition parse_stream (l : list (result SseEvent string)) : list Item :=
  feed_all on_item on_eof l default_stream_state.
End Parser.

(** ** The non-streaming parser *)
Section Unary.
Context `{J : JsonApi} (to_string : value → option string)
  (from_response : string → result IncomingMessagesResponse string).
#[local] Abbreviation M := (emit unit StreamEvent).

(** The body of [for (idx, block) in resp.content.into_iter().enumerate()]. *)
Definition unary_block (index : Z) (block : IncomingContentBlock) : M unit :=
  match block with
  | BText text =>
      push (ContentBlockStart index Text);;
      when (negb (str_is_empty text)) (push (TextDelta index text));;
      push (ContentBlockStop index)
  | BToolUse id name input =>
      push (ContentBlockStart index ToolCall);;
      push (ToolCallStart index id name);;
      push (ToolCallArgumentsDelta index (default "{}" (to_string input)));;
      push (ToolCallStop index);;
      push (ContentBlockStop index)
  | BThinking thinking _ =>
      push (ContentBlockStart index Reasoning);;
      when (negb (str_is_empty thinking)) (push (ReasoningDelta index thinking));;
      push (ContentBlockStop index)
  | BRedactedThinking _ =>
      push (ContentBlockStart index RedactedReasoning);;
      push (ContentBlockStop index)
  end.
Definition unary_blocks (blocks : list IncomingContentBlock) : M unit :=
  for_each (imap (λ idx block, (as_u32 (Z.of_nat idx), block)) blocks) (λ '(i, b), unary_block i b).

Definition unary_response (resp : IncomingMessagesResponse) : M unit :=
  let usage := default default_usage (map_usage <$> resp_usage resp) in
  push (ResponseStart (resp_id resp) (resp_model resp) 0);;
  push (MessageStart Assistant);;
  when (negb (is_usage_empty usage)) (push (UsageDelta usage));;
  unary_blocks (resp_content resp);;
  push (MessageStop (default EndTurn (stop_reason_from_anthropic <$> resp_stop_reason resp))
          (resp_stop_sequence resp));;
  push (ResponseStop (if is_usage_empty usage then None else Some usage)).

(** The error envelope of a body, when it has one. *)
Definition error_envelope (body : string) : option value :=
  match from_str body with Ok v => get "error" v | Err _ => None end.

Definition parse_unary_inner (body : string) : result (list StreamEvent) string :=
  match error_envelope body with
  | Some err =>
      let ty := default "api_error" (get_str "type" err) in
      let msg := default "upstream error" (get_str "message" err) in
      Ok [ErrorEvent (show_error ty msg)]
  | None =>
      match from_response body with
      | Err e => Err ("anthropic unary json parse: " ++ e)%string
      | Ok resp => Ok (emitted (unary_response resp) tt)
      end
  end.
Definition parse_unary (body : string) : list (result StreamEvent StreamError) :=
  match parse_unary_inner body with
  | Ok evts => Ok <$> evts
  | Err e => [Err (DecodeError e)]
  end.
End Unary.

(** ** The protocol of the upstream

    The Messages streaming protocol, as an automaton over the readable events:
    [message_start] first and once, blocks under fresh indices, deltas of an
    open block's type, [message_delta] any number of times, [message_stop] once
    and with every block closed.  An error event ends it. *)
Record upstream := {
  u_started : bool;
  u_open : gmap Z ContentBlockKind;
  u_used : gset Z;
  u_stopped : bool;
  u_failed : bool;
}.
Definition upstream0 : upstream := {|
  u_started := false; u_open := ∅; u_used := ∅; u_stopped := false; u_failed := false |}.
Definition set_u_blocks (o : gmap Z ContentBlockKind) (u : gset Z) (g : upstream) : upstream := {|
  u_started := u_started g; u_open := o; u_used := u; u_stopped := u_stopped g; u_failed := u_failed g |}.
Definition set_u_flags (started stopped failed : bool) (g : upstream) : upstream := {|
  u_started := started; u_open := u_open g; u_used := u_used g; u_stopped := stopped; u_failed := failed |}.

Definition delta_kind (d : IncomingContentBlockDelta) : ContentBlockKind :=
  match d with
  | InTextDelta _ => Text
  | InInputJsonDelta _ => ToolCall
  | InThinkingDelta _ | InSignatureDelta _ => Reasoning
  end.

Section Protocol.
Context `{J : JsonApi}.

Definition start_kind (b : IncomingContentBlockStart) : ContentBlockKind :=
  match b with
  | InText _ => Text
  | InToolUse _ _ _ => ToolCall
  | InThinking _ => Reasoning
  | InRedactedThinking _ => RedactedReasoning
  end.

Definition up_check (g : upstream) (ev : IncomingEvent) : option upstream :=
  if u_failed g then Some g else
  match ev with
  | InPing => Some g
  | InError _ _ => Some (set_u_flags (u_started g) (u_stopped g) true g)
  | InMessageStart _ _ _ => if u_started g || u_stopped g then None else Some (set_u_flags true false false g)
  | InContentBlockStart i b =>
      if u_started g && negb (u_stopped g) && negb (bool_decide (i ∈ u_used g))
      then Some (set_u_blocks (<[i := start_kind b]> (u_open g)) ({[i]} ∪ u_used g) g) else None
  | InContentBlockDelta i d =>
      if bool_decide (u_open g !! i = Some (delta_kind d)) then Some g else None
  | InContentBlockStop i =>
      if bool_decide (is_Some (u_open g !! i))
      then Some (set_u_blocks (delete i (u_open g)) (u_used g) g) else None
  | InMessageDelta _ _ _ => if u_started g && negb (u_stopped g) then Some g else None
  | InMessageStop =>
      if u_started g && negb (u_stopped g) && bool_decide (u_open g = ∅)
      then Some (set_u_flags true true false g) else None
  end.

(** The events of the upstream the parser reads. *)
Context (from_event : string → result IncomingEvent string).
Definition readable (i : result SseEvent string) : option IncomingEvent :=
  match i with
  | Ok ev => if is_blank (data ev) then None else result_ok (from_event (data ev))
  | Err _ => None
  end.

(** One upstream item: a readable event is handled, another one changes nothing
    and says at most one error. *)
Lemma on_item_readable i s :
  match readable i with
  | Some ev => on_item from_event i s = (final (handle_event ev) s, Ok <$> emitted (handle_event ev) s)
  | None => (on_item from_event i s).1 = s ∧ oks (on_item from_event i s).2 = []
  end.
Proof.
  destruct i as [ev|e]; simpl; [|by destruct (completed s)].
  unfold parse_chunk. destruct (is_blank (data ev)); [done|]. destruct (from_event (data ev)) as [e|e]; [|done].
  simpl. unfold mbind, emit_bind, final, emitted. destruct (handle_event e s) as [[a s1] evs]. simpl.
  by rewrite app_nil_r.
Qed.

(** What the parser emits besides errors is what the readable events give. *)
Lemma feed_events l s :
  oks (feed (on_item from_event) l s).2 = emitted (for_each (omap readable l) handle_event) s.
Proof.
  revert s. induction l as [|i l IH]; intros s; [done|]. simpl.
  pose proof (on_item_readable i s) as H. destruct (readable i) as [ev|]; simpl.
  - rewrite H, emitted_bind, <- IH. destruct (feed _ l _) as [s2 k]. simpl. by rewrite oks_app, oks_Ok.
  - destruct (on_item from_event i s) as [s1 evs]. simpl in H. destruct H as [-> H].
    specialize (IH s). destruct (feed _ l s) as [s2 k]. simpl in *. rewrite oks_app, H. exact IH.
Qed.
Lemma parse_stream_events l :
  oks (parse_stream from_event l) = emitted (for_each (omap readable l) handle_event) default_stream_state.
Proof.
  rewrite <- feed_events. unfold parse_stream, feed_all. destruct (feed _ l _) as [s k]. simpl.
  by rewrite app_nil_r.
Qed.
End Protocol.

(** *** The invariant *)
Section Invariant.
Context `{J : JsonApi}.
Implicit Types (g : upstream) (s : StreamState) (v : ValidatorState).

Definition inv g s v : Prop :=
  if u_failed g then terminated_by_error v = true ∧ (open_blocks v = ∅ ∨ open_blocks v = u_open g)
  else
    (∃ c, (∀ i, i ∈ c → i ∈ u_used g) ∧
      v = vstate (u_started g) (u_started g) (u_stopped g) (u_stopped g) (u_open g) ∅ c) ∧
    (∀ i, is_Some (u_open g !! i) → i ∈ u_used g ∧ u_started g = true ∧ u_stopped g = false) ∧
    (∀ i, i ∈ open_tool_indices s ↔ u_open g !! i = Some ToolCall).

(** After an error event everything is accepted. *)
Lemma wp_failed {A} (m : emit StreamState StreamEvent A) g s v :
  u_failed g = true → inv g s v → wp check m (λ _ s' v', inv g s' v') s v.
Proof.
  unfold inv. intros -> [Ht Ho]. eapply wp_intro; [by apply monitor_terminated|].
  destruct (emitted m s); [done|]. destruct v; simpl in *; auto.
Qed.

Lemma wp_report_usage usage g s v :
  u_failed g = false → u_stopped g = false → inv g s v →
  wp check (report_usage usage) (λ _ s' v', inv g s' v') s v.
Proof.
  unfold inv. intros Hf Hs. rewrite Hf, Hs. intros ((c & Hc & ->) & Ho & Ht).
  unfold report_usage. destruct usage; wp_steps; [|by eauto].
  eapply wp_push; [apply check_usage|]. by eauto.
Qed.

Lemma lc_block_start i b g s v g' :
  u_failed g = false → up_check g (InContentBlockStart i b) = Some g' → inv g s v →
  wp check (on_block_start i b) (λ _ s' v', inv g' s' v') s v.
Proof.
  intros Hf Hg. unfold inv, up_check in *. rewrite Hf in *.
  destruct (u_started g && negb (u_stopped g)) eqn:Hst; [|done].
  apply andb_true_iff in Hst as [Hst Hsp%negb_true_iff]. rewrite Hst, Hsp in *.
  case_bool_decide as Hi; [done|]. injection Hg as <-. simpl. rewrite Hf, Hst, Hsp.
  intros ((c & Hc & ->) & Ho & Ht).
  assert (Hn : u_open g !! i = None) by (apply eq_None_not_Some; by intros ?%Ho%proj1).
  assert (Hic : i ∉ c) by (by intros ?%Hc).
  assert (Hinv : ∀ s', (∀ j, j ∈ open_tool_indices s' ↔ <[i := start_kind b]> (u_open g) !! j = Some ToolCall) →
    (∃ c', (∀ j, j ∈ c' → j ∈ {[i]} ∪ u_used g) ∧
      vstate true true false false (<[i := start_kind b]> (u_open g)) ∅ c =
      vstate true true false false (<[i := start_kind b]> (u_open g)) ∅ c') ∧
    (∀ j, is_Some (<[i := start_kind b]> (u_open g) !! j) → j ∈ {[i]} ∪ u_used g ∧ true = true ∧ false = false) ∧
    (∀ j, j ∈ open_tool_indices s' ↔ <[i := start_kind b]> (u_open g) !! j = Some ToolCall)).
  { intros s' Hs'. split_and!; [exists c; split; [set_solver|done]| |done].
    intros j [->|[? ?%Ho%proj1]]%lookup_insert_is_Some; set_solver. }
  assert (Hsame : start_kind b ≠ ToolCall → ∀ j, j ∈ open_tool_indices s ↔
    <[i := start_kind b]> (u_open g) !! j = Some ToolCall).
  { intros Hb j. rewrite Ht. destruct (decide (i = j)) as [<-|]; [|by rewrite lookup_insert_ne].
    rewrite lookup_insert_eq, Hn. naive_solver. }
  destruct b; simpl in *; wp_steps; (eapply wp_push; [by apply check_block_start|]); wp_steps; auto.
  - eapply wp_push; [apply check_text_delta, lookup_insert_eq|]; auto.
  - eapply wp_push; [apply check_tool_start, lookup_insert_eq|]. apply Hinv. intros j. simpl.
    rewrite elem_of_union, elem_of_singleton, Ht, lookup_insert_Some. naive_solver.
  - eapply wp_push; [apply check_reasoning_delta, lookup_insert_eq|]; auto.
Qed.

Lemma lc_block_delta i d g s v g' :
  u_failed g = false → up_check g (InContentBlockDelta i d) = Some g' → inv g s v →
  wp check (on_block_delta i d) (λ _ s' v', inv g' s' v') s v.
Proof.
  intros Hf Hg Hi. unfold up_check in Hg. rewrite Hf in Hg.
  case_bool_decide as Hk; [|done]. injection Hg as <-.
  pose proof Hi as Hi'. unfold inv in Hi. rewrite Hf in Hi. destruct Hi as ((c & _ & ->) & Ho & _).
  destruct (Ho i (ltac:(by eexists))) as (_ & Hst & Hsp). rewrite Hst, Hsp in *.
  destruct d; simpl in *; [eapply wp_push; [by apply check_text_delta|done]
    |eapply wp_push; [by apply check_tool_args|done]|eapply wp_push; [by apply check_reasoning_delta|done]|by apply wp_ret].
Qed.

Lemma lc_block_stop i g s v g' :
  u_failed g = false → up_check g (InContentBlockStop i) = Some g' → inv g s v →
  wp check (on_block_stop i) (λ _ s' v', inv g' s' v') s v.
Proof.
  intros Hf Hg. unfold inv, up_check in *. rewrite Hf in *.
  case_bool_decide as Hk; [|done]. injection Hg as <-. simpl. rewrite Hf.
  intros ((c & Hc & ->) & Ho & Ht). destruct (Ho i Hk) as (Hu & Hst & Hsp). rewrite Hst, Hsp in *.
  destruct Hk as [k Hk].
  assert (Hinv : (∃ c', (∀ j, j ∈ c' → j ∈ u_used g) ∧
      vstate true true false false (delete i (u_open g)) ∅ ({[i]} ∪ c) =
      vstate true true false false (delete i (u_open g)) ∅ c') ∧
    (∀ j, is_Some (delete i (u_open g) !! j) → j ∈ u_used g ∧ true = true ∧ false = false) ∧
    (∀ j, j ∈ open_tool_indices (set_open_tools (open_tool_indices s ∖ {[i]}) s) ↔
      delete i (u_open g) !! j = Some ToolCall)).
  { split_and!; [exists ({[i]} ∪ c); split; [set_solver|done]| |].
    - intros j [x [_ Hx]%lookup_delete_Some]. destruct (Ho j) as (? & _); [by eexists|done].
    - intros j. simpl. rewrite elem_of_difference, elem_of_singleton, Ht, lookup_delete_Some. naive_solver. }
  unfold on_block_stop. wp_steps.
  - case_bool_decide as Hi; [|done]. apply Ht in Hi as Hi'. simplify_eq.
    eapply wp_push; [by apply check_tool_stop|].
    eapply wp_push; [apply check_tool_block_stop; [done|set_solver]|].
    rewrite union_empty_r_L, difference_diag_L. exact Hinv.
  - case_bool_decide as Hi; [done|].
    eapply wp_push; [eapply check_block_stop; [done|]|exact Hinv]. intros ->. by apply Hi, Ht.
Qed.

Lemma lc_message_stop g s v g' :
  u_failed g = false → up_check g InMessageStop = Some g' → inv g s v →
  wp check on_message_stop (λ _ s' v', inv g' s' v') s v.
Proof.
  intros Hf Hg. unfold inv, up_check in *. rewrite Hf in *.
  destruct (u_started g && negb (u_stopped g)) eqn:Hst; [|done].
  apply andb_true_iff in Hst as [Hst Hsp%negb_true_iff]. rewrite Hst, Hsp in *.
  case_bool_decide as Ho; [|done]. injection Hg as <-. simpl. intros ((c & Hc & ->) & _ & Ht).
  unfold on_message_stop. wp_steps. eapply wp_push; [apply check_message_stop|]. wp_steps.
  eapply wp_push; [apply check_response_stop|]. wp_steps.
  rewrite Ho in *. split_and!; [by exists c| |done]. by intros i [? ?].
Qed.

Lemma lc_event ev g g' s v :
  up_check g ev = Some g' → inv g s v → wp check (handle_event ev) (λ _ s' v', inv g' s' v') s v.
Proof.
  intros Hg Hi. destruct (u_failed g) eqn:Hf.
  { unfold up_check in Hg. rewrite Hf in Hg. injection Hg as <-. by apply wp_failed. }
  destruct ev; simpl.
  - unfold up_check in Hg. rewrite Hf in Hg. destruct (u_started g || u_stopped g) eqn:Hst; [done|].
    apply orb_false_iff in Hst as [Hst Hsp]. injection Hg as <-.
    unfold inv in Hi. rewrite Hf, Hst, Hsp in Hi. destruct Hi as ((c & Hc & ->) & Ho & Ht).
    wp_steps. eapply wp_push; [apply check_response_start|]. wp_steps.
    eapply wp_push; [apply check_message_start|]. wp_steps.
    apply wp_report_usage; [done|done|]. unfold inv; simpl. split_and!; [by exists c| |done].
    intros i (? & ? & ?)%Ho. done.
  - by apply lc_block_start with g.
  - by apply lc_block_delta with g.
  - by apply lc_block_stop with g.
  - unfold up_check in Hg. rewrite Hf in Hg.
    destruct (u_started g && negb (u_stopped g)) eqn:Hst; [|done].
    apply andb_true_iff in Hst as [Hst Hsp%negb_true_iff]. injection Hg as <-.
    wp_steps. apply wp_report_usage; [done|done|]. unfold inv in *. rewrite Hf in *. exact Hi.
  - by apply lc_message_stop with g.
  - unfold up_check in Hg. rewrite Hf in Hg. injection Hg as <-. by apply wp_ret.
  - unfold up_check in Hg. rewrite Hf in Hg. injection Hg as <-.
    unfold inv in Hi. rewrite Hf in Hi. destruct Hi as ((c & Hc & ->) & Ho & Ht).
    eapply wp_push; [done|]. unfold inv; simpl. auto.
Qed.
End Invariant.

(** ** A response and its stream

    The events of a stream that carries the response: each block opened empty,
    filled by at most one delta, its signature in a delta of its own. *)
Section Equivalence.
Context `{J : JsonApi} (to_string : value → option string).

Definition block_events (i : Z) (b : IncomingContentBlock) : list IncomingEvent :=
  match b with
  | BText t =>
      InContentBlockStart i (InText "") ::
      (if str_is_empty t then [] else [InContentBlockDelta i (InTextDelta t)])
  | BToolUse id name input =>
      [InContentBlockStart i (InToolUse id name input);
       InContentBlockDelta i (InInputJsonDelta (default "{}" (to_string input)))]
  | BThinking t signature =>
      InContentBlockStart i (InThinking "") ::
      (if str_is_empty t then [] else [InContentBlockDelta i (InThinkingDelta t)]) ++
      match signature with Some x => [InContentBlockDelta i (InSignatureDelta x)] | None => [] end
  | BRedactedThinking d => [InContentBlockStart i (InRedactedThinking d)]
  end ++ [InContentBlockStop i].
Definition response_events (resp : IncomingMessagesResponse) : list IncomingEvent :=
  InMessageStart (resp_id resp) (resp_model resp) (resp_usage resp) ::
  mjoin (imap (λ idx, block_events (as_u32 (Z.of_nat idx))) (resp_content resp)) ++
  [InMessageDelta (resp_stop_reason resp) (resp_stop_sequence resp) None; InMessageStop].

(** An event without the usage it reports. *)
Definition without_usage (e : StreamEvent) : option StreamEvent :=
  match e with UsageDelta _ => None | ResponseStop _ => Some (ResponseStop None) | _ => Some e end.
Definition without_empty_usage (u : Usage) : StreamEvent → option StreamEvent :=
  if is_usage_empty u then without_usage else Some.

Lemma omap_keep {A} (l : list A) : omap Some l = l.
Proof. induction l as [|x l IH]; [done|]. simpl. exact (f_equal (cons x) IH). Qed.

(** What a block leaves of the state. *)
Definition same_report (s s' : StreamState) : Prop :=
  stop_reason s' = stop_reason s ∧ stop_sequence s' = stop_sequence s ∧
  accumulated_usage s' = accumulated_usage s ∧ open_tool_indices s' = ∅.

Lemma on_block_stop_runs i s T :
  open_tool_indices s = T → T ∖ {[i]} = ∅ →
  on_block_stop i s = (tt, set_open_tools ∅ s,
    if bool_decide (i ∈ T) then [ToolCallStop i; ContentBlockStop i] else [ContentBlockStop i]).
Proof.
  intros Ht Hd. unfold on_block_stop, mbind, emit_bind, gets, modify, when, push, mret, emit_ret. simpl.
  rewrite Ht, Hd. by case_bool_decide.
Qed.

Lemma block_streams i b s :
  open_tool_indices s = ∅ →
  emitted (for_each (block_events i b) handle_event) s = emitted (unary_block to_string i b) tt ∧
  same_report s (final (for_each (block_events i b) handle_event) s).
Proof.
  intros Ht.
  assert (Hstop : ∀ s, open_tool_indices s = ∅ →
    on_block_stop i s = (tt, set_open_tools ∅ s, [ContentBlockStop i])).
  { intros s' Hs'. rewrite (on_block_stop_runs i s' ∅ Hs') by set_solver. by case_bool_decide. }
  assert (Htool : on_block_stop i (set_open_tools ({[i]} ∪ open_tool_indices s) s) =
    (tt, set_open_tools ∅ s, [ToolCallStop i; ContentBlockStop i])).
  { rewrite Ht, union_empty_r_L, (on_block_stop_runs i _ {[i]} eq_refl) by apply difference_diag_L.
    by rewrite bool_decide_eq_true_2 by by apply elem_of_singleton. }
  destruct b as [t|id name input|t x|d]; unfold block_events, unary_block;
    [destruct (str_is_empty t)| |destruct (str_is_empty t), x|];
    simpl; unfold mbind, emit_bind, when, push, modify, gets, mret, emit_ret, same_report, emitted, final; simpl;
    rewrite ?Hstop, ?Htool by done; done.
Qed.

Lemma blocks_stream bs (f : nat → Z) s :
  open_tool_indices s = ∅ →
  emitted (for_each (mjoin (imap (λ idx, block_events (f idx)) bs)) handle_event) s =
    emitted (for_each (imap (λ idx b, (f idx, b)) bs) (λ '(i, b), unary_block to_string i b)) tt ∧
  same_report s (final (for_each (mjoin (imap (λ idx, block_events (f idx)) bs)) handle_event) s).
Proof.
  revert f s. induction bs as [|b bs IH]; intros f s Ht; [done|]. rewrite !imap_cons.
  change (mjoin (?x :: ?l)) with (x ++ mjoin l). cbn [for_each].
  destruct (for_each_app (block_events (f 0) b) (mjoin (imap (λ n, block_events (f (S n))) bs)) handle_event s) as [He Hf].
  destruct (block_streams (f 0) b s Ht) as [Hb (Hr1 & Hr2 & Hr3 & Hr4)].
  destruct (IH (λ n, f (S n)) (final (for_each (block_events (f 0) b) handle_event) s) Hr4) as [He' (Hs1 & Hs2 & Hs3 & Hs4)].
  unfold compose. rewrite He, Hf, emitted_bind, Hb, He'. split; [by destruct (final _ tt)|].
  split_and!; congruence.
Qed.

Definition usage_in_range (u : IncomingUsage) : Prop :=
  Forall (λ o, ∀ v : Z, o = Some v → is_u32 v)
    [in_input_tokens u; in_output_tokens u; in_cache_creation_input_tokens u; in_cache_read_input_tokens u].
Lemma merge_field_none o : (∀ v : Z, o = Some v → is_u32 v) → merge_field None o = o.
Proof. destruct o as [v|]; [|done]. intros H. specialize (H v eq_refl). unfold is_u32 in H. simpl. f_equal. lia. Qed.
Lemma merge_default u : usage_in_range u → merge_usage default_usage (map_usage u) = map_usage u.
Proof.
  intros (H1 & (H2 & (H3 & (H4 & _)%Forall_cons)%Forall_cons)%Forall_cons)%Forall_cons.
  unfold merge_usage, map_usage. simpl. by rewrite !merge_field_none.
Qed.

Lemma blocks_without_usage (l : list (Z * IncomingContentBlock)) :
  omap without_usage (emitted (for_each l (λ '(i, b), unary_block to_string i b)) tt) =
  emitted (for_each l (λ '(i, b), unary_block to_string i b)) tt.
Proof.
  induction l as [|[i b] l IH]; [done|]. cbn [for_each]. rewrite emitted_bind, omap_app.
  destruct (final _ tt). rewrite IH. f_equal.
  destruct b as [t|id name input|t x|d]; simpl; try destruct (str_is_empty t); done.
Qed.

Lemma tail_streams r q s :
  stop_reason s = None → stop_sequence s = None →
  emitted (for_each [InMessageDelta r q None; InMessageStop] handle_event) s =
  [MessageStop (default EndTurn (stop_reason_from_anthropic <$> r)) q; ResponseStop (Some (accumulated_usage s))].
Proof.
  intros Hr Hq. simpl. unfold on_message_stop, mbind, emit_bind, gets, modify, push, mret, emit_ret, emitted. simpl.
  rewrite Hr, Hq. by destruct r, q.
Qed.

Lemma start_streams id m usage :
  (∀ u, usage = Some u → usage_in_range u) →
  emitted (handle_event (InMessageStart id m usage)) default_stream_state =
    [ResponseStart id m 0; MessageStart Assistant] ++
      match usage with Some u => [UsageDelta (map_usage u)] | None => [] end ∧
  same_report (set_usage (default default_usage (map_usage <$> usage)) default_stream_state)
    (final (handle_event (InMessageStart id m usage)) default_stream_state).
Proof.
  intros Hu. destruct usage as [u|]; (split; [reflexivity|]); unfold same_report; simpl; [|done].
  unfold final; simpl. by rewrite merge_default by auto.
Qed.

Lemma response_streams resp :
  (∀ u, resp_usage resp = Some u → usage_in_range u) →
  emitted (unary_response to_string resp) tt =
  omap (without_empty_usage (default default_usage (map_usage <$> resp_usage resp)))
    (emitted (for_each (response_events resp) handle_event) default_stream_state).
Proof.
  intros Hu. unfold response_events, unary_response, unary_blocks. cbn [for_each].
  destruct (start_streams (resp_id resp) (resp_model resp) _ Hu) as [Hs1 (Hr1 & Hq1 & Ha1 & Ht1)].
  rewrite (emitted_bind (handle_event _)), Hs1. set (s1 := final (handle_event _) _) in *.
  cbn [set_usage stop_reason stop_sequence accumulated_usage default_stream_state] in Hr1, Hq1, Ha1.
  destruct (blocks_stream (resp_content resp) (λ n, as_u32 (Z.of_nat n)) s1 Ht1) as [Hb (Hr2 & Hq2 & Ha2 & _)].
  match goal with |- context [for_each (?l ++ ?k) handle_event] =>
    destruct (for_each_app l k handle_event s1) as [-> _] end.
  rewrite Hb, tail_streams, Ha2, Ha1 by congruence. clear.
  set (u := default default_usage _). set (blocks := imap _ _).
  rewrite !emitted_push_bind, emitted_bind, emitted_bind, !omap_app. destruct (final (when _ _) tt).
  assert (Hk : omap (without_empty_usage u) (emitted (for_each blocks (λ '(i, b), unary_block to_string i b)) tt) =
    emitted (for_each blocks (λ '(i, b), unary_block to_string i b)) tt).
  { unfold without_empty_usage. destruct (is_usage_empty u); [apply blocks_without_usage|apply omap_keep]. }
  rewrite Hk. unfold u, without_empty_usage. destruct (resp_usage resp) as [u'|]; [|done].
  simpl. by destruct (is_usage_empty (map_usage u')).
Qed.
End Equivalence.

(** A block of the response, under a fresh index. *)
Section UnaryLifecycle.
Context `{J : JsonApi} (to_string : value → option string).

Lemma lc_unary_block i b c (Q : unit → unit → ValidatorState → Prop) :
  i ∉ c → Q tt tt (vstate true true false false ∅ ∅ ({[i]} ∪ c)) →
  wp check (unary_block to_string i b) Q tt (vstate true true false false ∅ ∅ c).
Proof.
  intros Hi HQ. assert (Ho : (∅ : gmap Z ContentBlockKind) !! i = None) by done.
  assert (Hstop : ∀ k, k ≠ ToolCall →
    wp check (push (S := unit) (ContentBlockStop i)) Q tt (vstate true true false false (<[i := k]> ∅) ∅ c)).
  { intros k Hk. eapply wp_push; [eapply check_block_stop; [apply lookup_insert_eq|done]|].
    by rewrite insert_empty, delete_singleton_eq. }
  destruct b as [t|id name input|t x|d]; simpl; wp_steps; (eapply wp_push; [by apply check_block_start|]); wp_steps; auto.
  - eapply wp_push; [apply check_text_delta, lookup_insert_eq|]. auto.
  - eapply wp_push; [apply check_tool_start, lookup_insert_eq|]. wp_steps.
    eapply wp_push; [apply check_tool_args, lookup_insert_eq|]. wp_steps.
    eapply wp_push; [apply check_tool_stop, lookup_insert_eq|]. wp_steps.
    eapply wp_push; [apply check_tool_block_stop; [apply lookup_insert_eq|set_solver]|].
    by rewrite insert_empty, delete_singleton_eq, union_empty_r_L, difference_diag_L.
  - eapply wp_push; [apply check_reasoning_delta, lookup_insert_eq|]. auto.
Qed.

Lemma lc_unary_blocks (bs : list (Z * IncomingContentBlock)) :
  NoDup bs.*1 →
  wp check (for_each bs (λ '(i, b), unary_block to_string i b))
    (λ _ _ v, ∃ c, v = vstate true true false false ∅ ∅ c) tt (vstate true true false false ∅ ∅ ∅).
Proof.
  intros Hn. eapply wp_mono.
  - apply (wp_for_each check _ _ (λ l _ v, NoDup l.*1 ∧
      ∃ c, v = vstate true true false false ∅ ∅ c ∧ ∀ i, i ∈ l.*1 → i ∉ c)).
    + split; [done|]. exists ∅. set_solver.
    + intros [i b] l [] v ([Hi Hl]%NoDup_cons & c & -> & Hc). apply lc_unary_block; [apply Hc; set_solver|].
      split; [done|]. exists ({[i]} ∪ c). split; [done|]. csimpl in Hc. set_solver.
  - intros [] [] v (_ & c & -> & _). by exists c.
Qed.

Lemma block_indices_distinct (bs : list IncomingContentBlock) :
  (Z.of_nat (length bs) ≤ u32_max + 1)%Z →
  NoDup (imap (λ idx b, (as_u32 (Z.of_nat idx), b)) bs).*1.
Proof.
  intros Hn. rewrite fmap_imap. apply NoDup_alt. intros i j x.
  rewrite !list_lookup_imap. intros (b & Hb & Hx)%fmap_Some (b' & Hb' & Hx')%fmap_Some.
  apply lookup_lt_Some in Hb, Hb'. simpl in Hx, Hx'. rewrite Hx in Hx'.
  unfold as_u32 in Hx'. rewrite !wrap32_small in Hx' by (unfold is_u32; lia). lia.
Qed.

Lemma unary_response_accepted resp :
  (Z.of_nat (length (resp_content resp)) ≤ u32_max + 1)%Z →
  assert_canonical_lifecycle (emitted (unary_response to_string resp) tt) = Ok tt.
Proof.
  intros Hn.
  destruct (wp_elim check (unary_response to_string resp) (λ _ _ v, open_blocks v = ∅) tt default_state) as (v & Hv & Ho).
  2: by apply (assert_of_monitor _ v).
  unfold unary_response, unary_blocks. change default_state with (vstate false false false false ∅ ∅ ∅).
  wp_steps. eapply wp_push; [apply check_response_start|]. wp_steps.
  eapply wp_push; [apply check_message_start|].
  set (u := default default_usage _). apply wp_bind.
  assert (Hrest : wp check
    (for_each (imap (λ idx block, (as_u32 (Z.of_nat idx), block)) (resp_content resp)) (λ '(i, b), unary_block to_string i b);;
     push (MessageStop (default EndTurn (stop_reason_from_anthropic <$> resp_stop_reason resp)) (resp_stop_sequence resp));;
     push (ResponseStop (if is_usage_empty u then None else Some u)))
    (λ _ _ v, open_blocks v = ∅) tt (vstate true true false false ∅ ∅ ∅)).
  { apply wp_bind. eapply wp_mono; [by apply lc_unary_blocks, block_indices_distinct|].
    intros [] [] v (c & ->). wp_steps. eapply wp_push; [apply check_message_stop|].
    by eapply wp_push; [apply check_response_stop|]. }
  apply wp_when; intros _; [eapply wp_push; [apply check_usage|]|]; exact Hrest.
Qed.
End UnaryLifecycle.

(** ** Properties *)
Section Properties.
Context `{J : JsonApi} (from_event : string → result IncomingEvent string)
  (to_string : value → option string) (from_response : string → result IncomingMessagesResponse string).

Lemma parse_stream_accepted l g :
  steps up_check upstream0 (omap (readable from_event) l) = Some g → u_open g = ∅ →
  assert_canonical_lifecycle (oks (parse_stream from_event l)) = Ok tt.
Proof.
  intros Hg Ho. rewrite parse_stream_events.
  destruct (wp_elim check (for_each (omap (readable from_event) l) handle_event)
    (λ _ s v, inv g s v) default_stream_state default_state) as (v & Hv & Hi).
  - apply (wp_for_each_steps check up_check handle_event inv _ upstream0); [|done|].
    + intros ev p p' s v. apply lc_event.
    + unfold inv. simpl. split_and!; [by exists ∅|by intros i [? ?]|done].
  - apply (assert_of_monitor _ v); [done|]. unfold inv in Hi. destruct (u_failed g).
    + destruct Hi as [_ [?|?]]; congruence.
    + by destruct Hi as ((c & _ & ->) & _).
Qed.

(** C32: what the streaming parser makes of an upstream that follows the Messages
    streaming protocol meets the canonical lifecycle, with transport errors,
    unreadable and blank events anywhere in between, and whether or not the
    upstream got to its [message_stop]: all it takes is that every block it
    opened has been closed. *)
Theorem anthropic_parse_lifecycle l g :
  steps up_check upstream0 (omap (readable from_event) l) = Some g → u_open g = ∅ →
  assert_canonical_lifecycle (oks (parse_stream from_event l)) = Ok tt.
Proof. apply parse_stream_accepted. Qed.

(** A non-streaming body is answered by one error event when it is an error
    envelope, refused when it cannot be read, and otherwise read as the very
    events the streaming parser gives for a stream that carries the same
    response, up to the report of a usage that has no counter; those meet the
    canonical lifecycle when there are at most 2^32 blocks. *)
Theorem anthropic_unary_mirrors_stream body :
  match parse_unary_inner to_string from_response body with
  | Err e => error_envelope body = None ∧
      ∃ e', from_response body = Err e' ∧ e = ("anthropic unary json parse: " ++ e')%string
  | Ok events =>
      (∃ ty message, is_Some (error_envelope body) ∧ events = [ErrorEvent (show_error ty message)]) ∨
      ∃ resp, error_envelope body = None ∧ from_response body = Ok resp ∧
        ((Z.of_nat (length (resp_content resp)) ≤ u32_max + 1)%Z → assert_canonical_lifecycle events = Ok tt) ∧
        ∀ l, omap (readable from_event) l = response_events to_string resp →
          (∀ u, resp_usage resp = Some u → usage_in_range u) →
          events = omap (without_empty_usage (default default_usage (map_usage <$> resp_usage resp)))
                     (oks (parse_stream from_event l))
  end.
Proof.
  unfold parse_unary_inner. destruct (error_envelope body) as [err|]; [by left; eauto|].
  destruct (from_response body) as [resp|e] eqn:Hr; [|by eauto].
  right. exists resp. split_and!; [done|done|apply unary_response_accepted|].
  intros l Hl Hu. by rewrite parse_stream_events, Hl, <- response_streams.
Qed.
End Properties.

(** ** Concrete streams *)
Module Samples.
Definition counts (i o : Z) : IncomingUsage := {|
  in_input_tokens := Some i; in_output_tokens := Some o;
  in_cache_creation_input_tokens := None; in_cache_read_input_tokens := None |}.
(** The documents of the samples. *)
Section Documents.
Context `{J : JsonApi} `{V : !JsonValues J}.
Definition documents : list (string * IncomingEvent) :=
  [("start", InMessageStart "msg_1" "claude" (Some (counts 7 1)));
   ("text0", InContentBlockStart 0 (InText "")); ("hello", InContentBlockDelta 0 (InTextDelta "hello"));
   ("stop0", InContentBlockStop 0);
   ("tool1", InContentBlockStart 1 (InToolUse "tu_1" "search" json_null));
   ("args1", InContentBlockDelta 1 (InInputJsonDelta "{}")); ("stop1", InContentBlockStop 1);
   ("delta", InMessageDelta (Some "tool_use") None (Some (counts 7 25)));
   ("stop", InMessageStop); ("ping", InPing); ("overloaded", InError "overloaded_error" "busy")].
Definition read_event (s : string) : result IncomingEvent string :=
  match list_find (λ d, d.1 = s) documents with Some (_, d) => Ok d.2 | None => Err "expected value" end.
Definition sse (s : string) : result SseEvent string := Ok {| event := "message"; data := s |}.
Definition message : list (result SseEvent string) :=
  sse <$> ["start"; "ping"; " "; "text0"; "hello"; "garbage"; "stop0"; "tool1"; "args1"; "stop1"; "delta"; "stop"].

(** Unreadable text is an error item, a transport error after [message_stop] is
    dropped. *)
Lemma message_parses :
  parse_stream read_event (message ++ [Err "reset"]) =
  (Ok <$> [ResponseStart "msg_1" "claude" 0; MessageStart Assistant; UsageDelta (map_usage (counts 7 1));
           ContentBlockStart 0 Text; TextDelta 0 "hello"]) ++
  [Err (DecodeError "anthropic SSE json parse: expected value")] ++
  (Ok <$> [ContentBlockStop 0; ContentBlockStart 1 ToolCall; ToolCallStart 1 "tu_1" "search";
           ToolCallArgumentsDelta 1 "{}"; ToolCallStop 1; ContentBlockStop 1;
           UsageDelta (map_usage (counts 7 25)); MessageStop ToolUse None;
           ResponseStop (Some (map_usage (counts 7 25)))]).
Proof. vm_compute. reflexivity. Qed.


(** A usage object without any counter is reported by the streaming parser only. *)
Definition uncounted : IncomingMessagesResponse := {|
  resp_id := "msg_1"; resp_model := "claude"; resp_content := [BText "hello"];
  resp_stop_reason := Some "end_turn"; resp_stop_sequence := None;
  resp_usage := Some {| in_input_tokens := None; in_output_tokens := None;
    in_cache_creation_input_tokens := None; in_cache_read_input_tokens := None |} |}.
Lemma empty_usage_is_not_mirrored :
  last (emitted (unary_response (λ _, None) uncounted) tt) = Some (ResponseStop None) ∧
  last (emitted (for_each (response_events (λ _, None) uncounted) handle_event) default_stream_state) =
    Some (ResponseStop (Some default_usage)).
Proof. split; vm_compute; reflexivity. Qed.
End Documents.

#[local] Instance sample_json : JsonApi := TreeJson [].
Lemma anthropic_parse_lifecycle_witness :
  assert_canonical_lifecycle (oks (parse_stream read_event (message ++ [Err "reset"]))) = Ok tt.
Proof.
  eapply (anthropic_parse_lifecycle read_event (message ++ [Err "reset"])).
  - vm_compute. reflexivity.
  - vm_compute. reflexivity.
Defined.

(** An upstream error in the middle of a block is the last event, and an upstream
    that goes away in the middle of a block says nothing: either way the block is
    left open, which the lifecycle contract forbids. *)
Lemma interrupted_block_stays_open :
  assert_canonical_lifecycle (oks (parse_stream read_event (sse <$> ["start"; "text0"; "hello"; "overloaded"]))) =
    Err rule_1d ∧
  assert_canonical_lifecycle (oks (parse_stream read_event (sse <$> ["start"; "text0"; "hello"]))) = Err rule_1d.
Proof. split; vm_compute; reflexivity. Qed.
End Samples.
