(* ===== verification/AnthropicRelay.v ===== *)
(** * An Anthropic upstream behind an Anthropic client

    The composition of the parser of providers/src/anthropic/response.rs with
    the encoder of frontends/src/anthropic_messages/encode_stream.rs, for the
    requests that are not passed through: [relay] says, item by item, what the
    client is sent for what the upstream sent. *)
From S2P Require Import Prelude Text Json CoreTypes Emit Lifecycle Drain Sse AnthropicParse AnthropicEncode.
#[local] Open Scope string_scope.
#[local] Open Scope list_scope.
#[local] Open Scope nat_scope.

(** What the upstream has reported of the end of the message: the last stop
    reason and sequence, and the largest value of every counter. *)
Record report := { rep_reason : option string; rep_sequence : option string; rep_usage : IncomingUsage }.
Definition no_usage : IncomingUsage := {|
  in_input_tokens := None; in_output_tokens := None;
  in_cache_creation_input_tokens := None; in_cache_read_input_tokens := None |}.
Definition report0 : report := {| rep_reason := None; rep_sequence := None; rep_usage := no_usage |}.
(** The larger of two reports of a counter, which is not negative. *)
Definition larger (a b : option Z) : option Z :=
  match a, b with
  | Some x, Some y => Some (Z.max x y)
  | None, Some y => Some (Z.max 0 y)
  | _, None => a
  end.
Definition largest (a b : IncomingUsage) : IncomingUsage := {|
  in_input_tokens := larger (in_input_tokens a) (in_input_tokens b);
  in_output_tokens := larger (in_output_tokens a) (in_output_tokens b);
  in_cache_creation_input_tokens := larger (in_cache_creation_input_tokens a) (in_cache_creation_input_tokens b);
  in_cache_read_input_tokens := larger (in_cache_read_input_tokens a) (in_cache_read_input_tokens b) |}.
Definition report_counts (usage : option IncomingUsage) (r : report) : report :=
  match usage with
  | Some u => {| rep_reason := rep_reason r; rep_sequence := rep_sequence r; rep_usage := largest (rep_usage r) u |}
  | None => r
  end.
Definition report_stop (reason sequence : option string) (r : report) : report := {|
  rep_reason := match reason with Some _ => reason | None => rep_reason r end;
  rep_sequence := match sequence with Some _ => sequence | None => rep_sequence r end;
  rep_usage := rep_usage r |}.

(** The stop reasons that survive. *)
Definition known_reasons : list string := ["end_turn"; "max_tokens"; "tool_use"; "stop_sequence"; "content_filter"].
Definition relay_reason (r : option string) : string :=
  match r with Some s => if bool_decide (s ∈ known_reasons) then s else "end_turn" | None => "end_turn" end.
Definition relay_usage (u : IncomingUsage) : OutboundUsage := {|
  out_input_tokens := default 0%Z (in_input_tokens u); out_output_tokens := default 0%Z (in_output_tokens u);
  out_cache_creation_input_tokens := in_cache_creation_input_tokens u;
  out_cache_read_input_tokens := in_cache_read_input_tokens u |}.

Section Relay.
Context `{J : JsonApi}.

(** A block opened with contents is opened empty and filled by a delta. *)
Definition relay_start (i : Z) (b : IncomingContentBlockStart) : list OutboundEvent :=
  match b with
  | InText t =>
      OContentBlockStart i (PText "") ::
      (if str_is_empty t then [] else [OContentBlockDelta i (DTextDelta t)])
  | InToolUse id name _ => [OContentBlockStart i (PToolUse id name "")]
  | InThinking t =>
      OContentBlockStart i (PThinking "") ::
      (if str_is_empty t then [] else [OContentBlockDelta i (DThinkingDelta t)])
  | InRedactedThinking _ => [OContentBlockStart i (PRedactedThinking "")]
  end.
Definition relay_delta (i : Z) (d : IncomingContentBlockDelta) : list OutboundEvent :=
  match d with
  | InTextDelta t => [OContentBlockDelta i (DTextDelta t)]
  | InInputJsonDelta t => [OContentBlockDelta i (DInputJsonDelta t)]
  | InThinkingDelta t => [OContentBlockDelta i (DThinkingDelta t)]
  | InSignatureDelta _ => []
  end.
Definition relay_event (ev : IncomingEvent) : list OutboundEvent :=
  match ev with
  | InMessageStart id model _ => [OMessageStart id model default_outbound_usage; OPing]
  | InContentBlockStart i b => relay_start i b
  | InContentBlockDelta i d => relay_delta i d
  | InContentBlockStop i => [OContentBlockStop i]
  | InError ty message => [OError "api_error" (show_error ty message)]
  | InMessageDelta _ _ _ | InMessageStop | InPing => []
  end.
Definition relay_report (ev : IncomingEvent) (r : report) : report :=
  match ev with
  | InMessageStart _ _ usage => report_counts usage r
  | InMessageDelta reason sequence usage => report_counts usage (report_stop reason sequence r)
  | _ => r
  end.

Context (from_event : string → result IncomingEvent string).

(** What an item that is no readable event is answered with. *)
Definition relay_unreadable (i : result SseEvent string) : list OutboundEvent :=
  match i with
  | Err e => [OError "api_error" (show_stream_error (UpstreamError e))]
  | Ok ev =>
      if is_blank (data ev) then [] else
      match from_event (data ev) with
      | Err e => [OError "api_error" (show_stream_error (DecodeError ("anthropic SSE json parse: " ++ e)%string))]
      | Ok _ => []
      end
  end.

Fixpoint relay (r : report) (l : list (result SseEvent string)) : list OutboundEvent :=
  match l with
  | [] => []
  | i :: l' =>
      match readable from_event i with
      | None => relay_unreadable i ++ relay r l'
      | Some InMessageStop =>
          [OMessageDelta (relay_reason (rep_reason r)) (rep_sequence r) (relay_usage (rep_usage r)); OMessageStop]
      | Some ev => relay_event ev ++ relay (relay_report ev r) l'
      end
  end.

(** ** The composition is the relay *)
Record in_step (r : report) (s : StreamState) (e : EncoderState) : Prop := {
  is_reason : stop_reason s = stop_reason_from_anthropic <$> rep_reason r;
  is_sequence : stop_sequence s = rep_sequence r;
  is_usage : accumulated_usage s = map_usage (rep_usage r);
  is_completed : completed s = false;
  is_pending : pending_stop e = None;
  is_input : in_input_tokens (rep_usage r) = None → enc_input_tokens e = 0%Z;
  is_output : in_output_tokens (rep_usage r) = None → enc_output_tokens e = 0%Z;
  is_creation : in_cache_creation_input_tokens (rep_usage r) = None → enc_cache_creation e = None;
  is_read : in_cache_read_input_tokens (rep_usage r) = None → enc_cache_read e = None;
}.

Lemma in_step_start fresh : in_step report0 default_stream_state (new_encoder fresh).
Proof. by split. Qed.

Lemma relay_reason_spec r :
  stop_reason_to_anthropic (default EndTurn (stop_reason_from_anthropic <$> r)) = relay_reason r.
Proof.
  destruct r as [s|]; [|done]. unfold relay_reason, known_reasons. simpl. unfold stop_reason_from_anthropic.
  repeat case_bool_decide; subst; try done; exfalso; set_solver.
Qed.

(** Counters that were never reported are zero, resp. absent, at the end too. *)
Lemma relay_usage_spec r s e :
  in_step r s e → current_usage (override_usage (accumulated_usage s) e) = relay_usage (rep_usage r).
Proof.
  intros [_ _ -> _ _ Hi Ho Hc Hr]. unfold current_usage, override_usage, relay_usage, map_usage. simpl.
  destruct (rep_usage r) as [[] [] [] []]; simpl in *; f_equal; auto.
Qed.

Lemma merge_field_larger a b : merge_field a b = larger a b.
Proof. by destruct a, b. Qed.
Lemma larger_None a b : larger a b = None → a = None ∧ b = None.
Proof. by destruct a, b. Qed.
Lemma merge_usage_largest a b : merge_usage (map_usage a) (map_usage b) = map_usage (largest a b).
Proof. unfold merge_usage, map_usage, largest. simpl. by rewrite !merge_field_larger. Qed.

Lemma in_step_counts u r s e :
  in_step r s e →
  in_step (report_counts (Some u) r)
    (set_usage (merge_usage (accumulated_usage s) (map_usage u)) s) (add_usage (map_usage u) e).
Proof.
  intros [Hr Hq Hu Hc Hp Hi Ho Hcc Hcr]. split; simpl; try done.
  - by rewrite Hu, merge_usage_largest.
  - intros [Hn ->]%larger_None. by rewrite Hi.
  - intros [Hn ->]%larger_None. by rewrite Ho.
  - intros [Hn ->]%larger_None. by apply Hcc.
  - intros [Hn ->]%larger_None. by apply Hcr.
Qed.

Lemma in_step_stop a q r s e :
  in_step r s e →
  in_step (report_stop a q r)
    (set_stop (match a with Some x => Some (stop_reason_from_anthropic x) | None => stop_reason s end)
       (match q with Some x => Some x | None => stop_sequence s end) s) e.
Proof. intros []. split; simpl; try done; [by destruct a|by destruct q]. Qed.

(** The reports apart, the states stay in step when only the set of open tool
    calls, the identity and the block kinds change. *)
Lemma in_step_frame r s e s' e' :
  in_step r s e →
  stop_reason s' = stop_reason s → stop_sequence s' = stop_sequence s →
  accumulated_usage s' = accumulated_usage s → completed s' = completed s →
  pending_stop e' = pending_stop e → current_usage e' = current_usage e → in_step r s' e'.
Proof.
  intros [] ???? ? [= ????]. split; congruence || (intros; auto; etrans; [eassumption|]; auto).
Qed.

Lemma relay_step ev r s e :
  ev ≠ InMessageStop → in_step r s e →
  ∃ e', in_step (relay_report ev r) (final (AnthropicParse.handle_event ev) s) e' ∧
    ∀ rest, encode_items outbound_handle ((Ok <$> emitted (AnthropicParse.handle_event ev) s) ++ rest) e =
      relay_event ev ++ encode_items outbound_handle rest e'.
Proof.
  intros Hev Hs. destruct ev as [id model usage|index content_block|index delta|index|a q usage| | |ty m]; try done.
  - destruct usage as [u|].
    + eexists (add_usage (map_usage u) (set_enc_model model (set_enc_response_id id e))). split; [|done].
      apply in_step_counts. by eapply in_step_frame.
    + eexists (set_enc_model model (set_enc_response_id id e)). split; [|done]. by eapply in_step_frame.
  - exists (set_block_kinds (set_block_kind index (start_kind content_block) (block_kinds e)) e).
    destruct content_block as [t|id name input|t|d]; simpl; try destruct (str_is_empty t) eqn:Ht;
      (split; [by eapply in_step_frame|]); intros rest; simpl; rewrite ?Ht; done.
  - exists e. destruct delta; (split; [by eapply in_step_frame|]); done.
  - exists e. simpl. unfold on_block_stop, mbind, emit_bind, final, emitted. simpl.
    case_bool_decide; (split; [by eapply in_step_frame|done]).
  - apply (in_step_stop a q) in Hs. destruct usage as [u|].
    + exists (add_usage (map_usage u) e). split; [|done]. by apply in_step_counts.
    + by exists e.
  - exists e. by split.
  - exists e. by split.
Qed.

(** [message_stop] completes the response. *)
Lemma relay_stop r s e rest :
  in_step r s e →
  encode_items outbound_handle ((Ok <$> emitted on_message_stop s) ++ rest) e =
  [OMessageDelta (relay_reason (rep_reason r)) (rep_sequence r) (relay_usage (rep_usage r)); OMessageStop].
Proof.
  intros Hs. unfold on_message_stop, mbind, emit_bind, gets, modify, push, emitted. simpl.
  unfold outbound_handle at 1. simpl. unfold outbound_handle at 1. simpl.
  unfold handle_response_stop, mbind, emit_bind, gets, modify, push, mret, emit_ret. simpl.
  rewrite pending_override. simpl.
  rewrite (is_reason _ _ _ Hs), (is_sequence _ _ _ Hs), relay_reason_spec, <- (relay_usage_spec _ _ _ Hs).
  do 2 f_equal. by apply (override_usage_cong (accumulated_usage s)).
Qed.

Lemma relay_unread i r s e rest :
  readable from_event i = None → in_step r s e →
  encode_items outbound_handle ((on_item from_event i s).2 ++ rest) e =
  relay_unreadable i ++ encode_items outbound_handle rest e.
Proof.
  intros Hi Hs. destruct i as [ev|err]; simpl in *.
  - unfold parse_chunk. destruct (is_blank (data ev)); [done|]. by destruct (from_event (data ev)).
  - by rewrite (is_completed _ _ _ Hs).
Qed.

Lemma feed_relay l r s e :
  in_step r s e → encode_items outbound_handle (feed (on_item from_event) l s).2 e = relay r l.
Proof.
  revert r s e. induction l as [|i l IH]; intros r s e Hs; [done|]. cbn [feed relay].
  pose proof (on_item_readable from_event i s) as Hi.
  destruct (readable from_event i) as [ev|] eqn:Hr.
  - rewrite Hi. assert (Hev : ev = InMessageStop ∨ ev ≠ InMessageStop) by (destruct ev; auto).
    destruct Hev as [->|Hev].
    + destruct (feed _ l _) as [s2 k]. by apply relay_stop.
    + destruct (relay_step ev r s e Hev Hs) as (e' & Hs' & Henc).
      specialize (IH _ _ _ Hs'). destruct (feed _ l _) as [s2 k]. cbn [snd].
      rewrite Henc. simpl in IH. rewrite IH. by destruct ev.
  - destruct Hi as [Hi _]. pose proof (relay_unread i r s e (feed (on_item from_event) l s).2 Hr Hs) as Hu.
    specialize (IH _ _ _ Hs). destruct (on_item from_event i s) as [s1 evs]. simpl in Hi. subst s1.
    destruct (feed _ l s) as [s2 k]. simpl in *. by rewrite Hu, IH.
Qed.
End Relay.

(** ** The protocol is relayed *)
Definition kind_shape (k : ContentBlockKind) : shape :=
  match k with
  | ToolCall => SToolUse
  | Reasoning => SThinking
  | RedactedReasoning => SRedacted
  | _ => SText
  end.

Record same_blocks (g : upstream) (p : proto) : Prop := {
  sb_started : p_started p = u_started g;
  sb_open : p_open p = kind_shape <$> u_open g;
  sb_used : p_used p = u_used g;
  sb_delta : p_delta p = false;
  sb_stopped : p_stopped p = false;
}.

Section Protocol.
Context `{J : JsonApi} (from_event : string → result IncomingEvent string).

Lemma failed_absorbs evs g g' : u_failed g = true → steps up_check g evs = Some g' → u_failed g' = true.
Proof.
  intros Hf. apply (steps_invariant up_check (λ g, u_failed g = true)); [|done].
  intros ev q q' Hq. unfold up_check. rewrite Hq. congruence.
Qed.

(** Once the message has stopped, a conforming upstream has nothing to say. *)
Lemma stopped_absorbs evs g g' :
  u_stopped g = true → u_open g = ∅ → steps up_check g evs = Some g' → u_failed g' = false → g' = g.
Proof.
  intros Hs Ho. revert g Hs Ho. induction evs as [|ev evs IH]; intros g Hs Ho; simpl; [by intros [= ->]|].
  destruct (up_check g ev) as [g1|] eqn:Hg; [|done]. simpl. intros Hst Hf.
  assert (Hg0 : u_failed g = false).
  { destruct (u_failed g) eqn:H0; [|done]. unfold up_check in Hg. rewrite H0 in Hg. injection Hg as <-.
    by rewrite (failed_absorbs _ _ _ H0 Hst) in Hf. }
  unfold up_check in Hg. rewrite Hg0, Hs, Ho, ?andb_false_r, ?orb_true_r in Hg.
  destruct ev; simpl in Hg; try done.
  - injection Hg as <-. by apply IH.
  - injection Hg as <-. apply failed_absorbs in Hst; [congruence|done].
Qed.

Lemma relay_event_follows ev g g' p :
  ev ≠ InMessageStop → up_check g ev = Some g' → u_failed g' = false → u_failed g = false →
  same_blocks g p → u_stopped g = false →
  ∃ p', monitor proto_check p (relay_event ev) = Some p' ∧ same_blocks g' p' ∧ u_stopped g' = false.
Proof.
  intros Hev Hg Hf' Hf [Hst Ho Hu Hd Hsp] Hs. unfold up_check in Hg. rewrite Hf, Hs in Hg.
  assert (Hstart : ∀ i q, u_started g = true → i ∉ u_used g →
    proto_check p (OContentBlockStart i q) =
      Some (set_p_blocks (<[i := shape_of q]> (p_open p)) ({[i]} ∪ p_used p) p)).
  { intros i q Hs1 Hi. unfold proto_check. rewrite Hsp, Hst, Hs1, Hd, Hu. by rewrite bool_decide_eq_false_2. }
  destruct ev as [id model usage|i b|i d|i|a q usage| | |ty m]; try done; simpl in Hg.
  - destruct (u_started g) eqn:Hs1; [done|]. injection Hg as <-.
    eexists. split; [|split; [|done]].
    + simpl. unfold proto_check. rewrite Hsp, Hst. simpl. reflexivity.
    + by split.
  - rewrite andb_true_r in Hg. destruct (u_started g) eqn:Hs1; [|done].
    case_bool_decide as Hi; [done|]. injection Hg as <-. simpl in *.
    exists (set_p_blocks (<[i := kind_shape (start_kind b)]> (p_open p)) ({[i]} ∪ p_used p) p).
    split; [|split; [|done]].
    2: split; simpl; [congruence|by rewrite Ho, fmap_insert|by rewrite Hu|done|done].
    destruct b as [t|id name input|t|d]; simpl; rewrite Hstart by done; simpl;
      try done; destruct (str_is_empty t); [done| |done|]; simpl; unfold proto_check; simpl; rewrite Hsp;
      by rewrite bool_decide_eq_true_2 by apply lookup_insert_eq.
  - case_bool_decide as Hk; [|done]. injection Hg as <-. exists p. split; [|by split].
    destruct d; simpl in *; try done; unfold proto_check; rewrite Hsp;
      (rewrite bool_decide_eq_true_2; [done|by rewrite Ho, lookup_fmap, Hk]).
  - case_bool_decide as Hk; [|done]. injection Hg as <-. eexists. split; [|split; [|done]].
    + simpl. unfold proto_check. rewrite Hsp, bool_decide_eq_true_2; [reflexivity|]. by rewrite Ho, lookup_fmap, fmap_is_Some.
    + split; simpl; try done. by rewrite Ho, fmap_delete.
  - destruct (u_started g && true); [|done]. injection Hg as <-. by exists p.
  - injection Hg as <-. by exists p.
  - by injection Hg as <-.
Qed.

Lemma errors_pass l p :
  p_stopped p = false → Forall (λ o, match o with OError _ _ => True | _ => False end) l →
  monitor proto_check p l = Some p.
Proof.
  intros Hp. induction 1 as [|o l Ho _ IH]; [done|]. destruct o; try done.
  by rewrite (monitor_cons _ _ _ p) by (unfold proto_check; by rewrite Hp).
Qed.

Lemma relay_follows l r g g' p :
  steps up_check g (omap (readable from_event) l) = Some g' → u_failed g' = false → u_failed g = false →
  same_blocks g p → u_stopped g = false →
  ∃ p', monitor proto_check p (relay from_event r l) = Some p' ∧
    p_open p' = kind_shape <$> u_open g' ∧ p_stopped p' = u_stopped g'.
Proof.
  revert r g p. induction l as [|i l IH]; intros r g p Hl Hf' Hf Hp Hs.
  - injection Hl as <-. exists p. destruct Hp. simpl. by rewrite sb_stopped0, Hs.
  - simpl in Hl. cbn [relay]. destruct (readable from_event i) as [ev|] eqn:Hr.
    + simpl in Hl. destruct (up_check g ev) as [g1|] eqn:Hg; [|done]. simpl in Hl.
      assert (Hf1 : u_failed g1 = false).
      { destruct (u_failed g1) eqn:H1; [|done]. by rewrite (failed_absorbs _ _ _ H1 Hl) in Hf'. }
      assert (Hev : ev = InMessageStop ∨ ev ≠ InMessageStop) by (destruct ev; auto). destruct Hev as [->|Hev].
      * unfold up_check in Hg. rewrite Hf in Hg. destruct (u_started g && negb (u_stopped g)) eqn:Hst; [|done].
        simpl in Hg. case_bool_decide as Ho; [|done]. injection Hg as <-.
        apply andb_true_iff in Hst as [Hst _]. destruct Hp as [Hps Hpo Hpu Hpd Hpp].
        apply stopped_absorbs in Hl; [|done|done|done]. subst g'. eexists. simpl. unfold proto_check.
        rewrite Hpp, Hps, Hst, Hpd, Hpo, Ho. simpl. rewrite bool_decide_eq_true_2 by apply fmap_empty. simpl.
        split; [reflexivity|]. simpl. by rewrite Hpo, ?Ho.
      * destruct (relay_event_follows ev g g1 p Hev Hg Hf1 Hf Hp Hs) as (p1 & Hm & Hp1 & Hs1).
        destruct (IH (relay_report ev r) g1 p1 Hl Hf' Hf1 Hp1 Hs1) as (p' & Hm' & Hrest).
        exists p'. split; [|done]. assert (Hx : monitor proto_check p (relay_event ev ++
          relay from_event (relay_report ev r) l) = Some p') by (by rewrite monitor_app, Hm).
        by destruct ev.
    + destruct (IH r g p Hl Hf' Hf Hp Hs) as (p' & Hm & Hrest). exists p'. split; [|done].
      rewrite monitor_app, errors_pass; [done|by destruct Hp|].
      destruct i as [ev|err]; simpl in *; [|by repeat constructor].
      destruct (is_blank (data ev)); [done|]. destruct (from_event (data ev)); [done|]. by repeat constructor.
Qed.
End Protocol.

(** ** Properties *)
Section Properties.
Context `{J : JsonApi} (from_event : string → result IncomingEvent string).

(** C31: what the client is sent for an Anthropic upstream is, whatever the
    upstream sends, the relay of its items up to the first [message_stop]: the
    same blocks, texts, arguments and errors in the same order, signatures and
    redacted data left out, the last stop reason when it is a known one, the last
    stop sequence and the largest value of every counter. *)
Theorem anthropic_relay fresh l : outbound fresh (parse_stream from_event l) = relay from_event report0 l.
Proof.
  unfold outbound, parse_stream, feed_all.
  rewrite <- (feed_relay from_event l _ _ _ (in_step_start fresh)).
  destruct (feed _ l _) as [s k]. simpl. by rewrite app_nil_r.
Qed.

(** An upstream that follows the Messages streaming protocol is relayed as a
    response that follows it, with its blocks closed when the upstream's are, and
    terminated by [message_stop] exactly when the upstream is. *)
Theorem relay_follows_protocol fresh l g :
  steps up_check upstream0 (omap (readable from_event) l) = Some g → u_failed g = false → u_open g = ∅ →
  ∃ p, monitor proto_check proto0 (outbound fresh (parse_stream from_event l)) = Some p ∧
    p_open p = ∅ ∧ p_stopped p = u_stopped g.
Proof.
  intros Hg Hf Ho. unfold outbound, parse_stream, feed_all.
  destruct (relay_follows from_event l report0 upstream0 g proto0 Hg Hf eq_refl) as (p & Hp & Hpo & Hps);
    [by split|done|].
  exists p. rewrite Hpo, Ho, fmap_empty. split; [|done].
  rewrite <- Hp, <- (feed_relay from_event l _ _ _ (in_step_start fresh)).
  destruct (feed _ l _) as [s k]. simpl. by rewrite app_nil_r.
Qed.
End Properties.

Module Samples.
Import AnthropicParse.Samples.
#[local] Instance relay_json : JsonApi := TreeJson [].
Lemma relay_follows_protocol_witness :
  ∃ p, monitor proto_check proto0 (outbound "f" (parse_stream read_event (message ++ [Err "reset"]))) = Some p ∧
    p_open p = ∅ ∧ p_stopped p = true.
Proof.
  assert (Hg : ∃ g, steps up_check upstream0 (omap (readable read_event) (message ++ [Err "reset"])) = Some g ∧
    u_failed g = false ∧ u_open g = ∅ ∧ u_stopped g = true).
  { eexists. split; [vm_compute; reflexivity|]. split_and!; reflexivity. }
  destruct Hg as (g & Hg & Hf & Ho & Hs).
  destruct (relay_follows_protocol read_event "f" (message ++ [Err "reset"]) g Hg Hf Ho) as (p & Hp & Hpo & Hps).
  exists p. rewrite Hs in Hps. exact (conj Hp (conj Hpo Hps)).
Defined.

Section Lossy.
Context `{J : JsonApi} `{V : !JsonValues J}.
(** The counters of the relayed message: the largest reported. *)
Lemma relayed_usage :
  last (outbound "f" (parse_stream read_event message)) = Some OMessageStop ∧
  last (removelast (outbound "f" (parse_stream read_event message))) =
    Some (OMessageDelta "tool_use" None {| out_input_tokens := 7; out_output_tokens := 25;
      out_cache_creation_input_tokens := None; out_cache_read_input_tokens := None |}).
Proof. split; vm_compute; reflexivity. Qed.
End Lossy.
End Samples.
