(* ===== verification/ResponsesParse.v ===== *)
(** * The Responses-API parser (crates/providers/src/openai_compatible/responses_api/parse_stream.rs)

    From the events of an OpenAI Responses upstream to canonical events.  Unlike
    the other parsers this one reads the type of an event from its SSE name, and
    keeps the blocks the upstream has open, so that an upstream that breaks off
    still yields a closed response.  The JSON of the events is read through
    [JsonApi]. *)
From S2P Require Import Prelude Json CoreTypes Emit Envelope Lifecycle Drain.
#[local] Open Scope string_scope.
#[local] Open Scope list_scope.

(** ** The events *)

(** The labels of the match of [parse_event]. *)
Inductive EventType :=
| ECreated | EItemAdded | ETextDelta | EArgumentsDelta | EItemDone | ECompleted | EFailed | EError | EIgnored.
Definition event_type_of (name : string) : EventType :=
  if bool_decide (name = "response.created" ∨ name = "response.in_progress") then ECreated
  else if bool_decide (name = "response.output_item.added") then EItemAdded
  else if bool_decide (name = "response.output_text.delta") then ETextDelta
  else if bool_decide (name = "response.function_call_arguments.delta") then EArgumentsDelta
  else if bool_decide (name = "response.output_item.done") then EItemDone
  else if bool_decide (name = "response.completed") then ECompleted
  else if bool_decide (name = "response.failed") then EFailed
  else if bool_decide (name = "error") then EError
  else EIgnored.

(** ** The parser's state *)
Record ParserState := {
  emitted_response_start : bool;
  emitted_message_start : bool;
  emitted_message_stop : bool;
  emitted_response_stop : bool;
  stream_completed : bool;
  open_items : gmap Z ContentBlockKind;
}.
Definition default_parser_state : ParserState := {|
  emitted_response_start := false; emitted_message_start := false; emitted_message_stop := false;
  emitted_response_stop := false; stream_completed := false; open_items := ∅ |}.
Definition set_response_start (s : ParserState) : ParserState := {|
  emitted_response_start := true; emitted_message_start := emitted_message_start s;
  emitted_message_stop := emitted_message_stop s; emitted_response_stop := emitted_response_stop s;
  stream_completed := stream_completed s; open_items := open_items s |}.
Definition set_message_start (s : ParserState) : ParserState := {|
  emitted_response_start := emitted_response_start s; emitted_message_start := true;
  emitted_message_stop := emitted_message_stop s; emitted_response_stop := emitted_response_stop s;
  stream_completed := stream_completed s; open_items := open_items s |}.
Definition set_message_stop (s : ParserState) : ParserState := {|
  emitted_response_start := emitted_response_start s; emitted_message_start := emitted_message_start s;
  emitted_message_stop := true; emitted_response_stop := emitted_response_stop s;
  stream_completed := stream_completed s; open_items := open_items s |}.
Definition set_response_stop (s : ParserState) : ParserState := {|
  emitted_response_start := emitted_response_start s; emitted_message_start := emitted_message_start s;
  emitted_message_stop := emitted_message_stop s; emitted_response_stop := true;
  stream_completed := stream_completed s; open_items := open_items s |}.
Definition set_stream_completed (s : ParserState) : ParserState := {|
  emitted_response_start := emitted_response_start s; emitted_message_start := emitted_message_start s;
  emitted_message_stop := emitted_message_stop s; emitted_response_stop := emitted_response_stop s;
  stream_completed := true; open_items := open_items s |}.
Definition set_open_items (o : gmap Z ContentBlockKind) (s : ParserState) : ParserState := {|
  emitted_response_start := emitted_response_start s; emitted_message_start := emitted_message_start s;
  emitted_message_stop := emitted_message_stop s; emitted_response_stop := emitted_response_stop s;
  stream_completed := stream_completed s; open_items := o |}.

Section Parser.
Context `{J : JsonApi}.
#[local] Abbreviation M := (emit ParserState StreamEvent).

(** ** Finalization *)

(** [open_blocks.drain()], sorted by index; the keys of a map are distinct, so
    the order of the hash map does not matter. *)
Definition orphaned (s : ParserState) : list (Z * ContentBlockKind) :=
  sort_by (λ p q, (p.1 <=? q.1)%Z) (map_to_list (open_items s)).
(** A block's last events. *)
Definition close_block (p : Z * ContentBlockKind) : M unit :=
  when (bool_decide (p.2 = ToolCall)) (push (ToolCallStop p.1));;
  push (ContentBlockStop p.1).
(** [if !emitted_message_start { .. }], in the two places that have it. *)
Definition message_start_once : M unit :=
  message ← gets emitted_message_start;
  when (negb message) (modify set_message_start;; push (MessageStart Assistant)).
Definition finalize : M unit :=
  stopped ← gets emitted_response_stop;
  if (stopped : bool) then mret tt else
  started ← gets emitted_response_start;
  if negb started then mret tt else
  message_start_once;;
  orphans ← gets orphaned;
  modify (set_open_items ∅);;
  for_each orphans close_block;;
  message_stopped ← gets emitted_message_stop;
  when (negb message_stopped) (modify set_message_stop;; push (MessageStop EndTurn None));;
  modify set_response_stop;;
  push (ResponseStop None).

(** ** The fields of an event *)
Definition item_of (data : value) : value := default data (get "item" data).
Definition output_index_of (data : value) : Z := as_u32 (default 0%Z (get_u64 "output_index" data)).
Definition delta_of (data : value) : string := default "" (get_str "delta" data).
(** The items that are blocks. *)
Definition item_kind (data : value) : option ContentBlockKind :=
  let item_type := default "" (get_str "type" (item_of data)) in
  if bool_decide (item_type = "message") then Some Text
  else if bool_decide (item_type = "function_call") then Some ToolCall
  else None.
Definition usage_of (u : value) : Usage := {|
  input_tokens := as_u32 <$> get_u64 "input_tokens" u; output_tokens := as_u32 <$> get_u64 "output_tokens" u;
  cache_creation_input_tokens := None; cache_read_input_tokens := None; reasoning_tokens := None;
  estimated := false; provider_raw := None; safety_ratings := None |}.

(** ** The handlers *)
Definition on_created (data : value) : M unit :=
  started ← gets emitted_response_start;
  when (negb started)
    (modify set_response_start;;
     push (ResponseStart (default "unknown" (get_str "id" data)) (default "unknown" (get_str "model" data))
             (default 0%Z (get_u64 "created_at" data)))).

Definition on_item_added (data : value) : M unit :=
  let index := output_index_of data in
  message_start_once;;
  match item_kind data with
  | Some ToolCall =>
      push (ContentBlockStart index ToolCall);;
      push (ToolCallStart index (default "" (get_str "call_id" (item_of data)))
              (default "" (get_str "name" (item_of data))));;
      modify (λ s, set_open_items (<[index := ToolCall]> (open_items s)) s)
  | Some kind =>
      push (ContentBlockStart index kind);;
      modify (λ s, set_open_items (<[index := kind]> (open_items s)) s)
  | None => mret tt
  end.

Definition on_item_done (data : value) : M unit :=
  let index := output_index_of data in
  match item_kind data with
  | Some kind =>
      close_block (index, kind);;
      modify (λ s, set_open_items (delete index (open_items s)) s)
  | None => mret tt
  end.

Definition on_completed (data : value) : M unit :=
  let status := default "completed" (get_str "status" data) in
  push (MessageStop (if bool_decide (status = "incomplete") then ContentFilter else EndTurn) None);;
  modify set_message_stop;;
  push (ResponseStop (usage_of <$> get "usage" data));;
  modify set_response_stop.

(** [parse_event]. *)
Definition parse_event (ty : EventType) (data : value) : M unit :=
  match ty with
  | ECreated => on_created data
  | EItemAdded => on_item_added data
  | ETextDelta =>
      when (negb (str_is_empty (delta_of data))) (push (TextDelta (output_index_of data) (delta_of data)))
  | EArgumentsDelta =>
      when (negb (str_is_empty (delta_of data)))
        (push (ToolCallArgumentsDelta (output_index_of data) (delta_of data)))
  | EItemDone => on_item_done data
  | ECompleted => on_completed data
  | EFailed =>
      push (ErrorEvent (default "upstream response failed" (get2 "error" "message" data ≫= as_str)))
  | EError => push (ErrorEvent (default "unknown error" (get_str "message" data)))
  | EIgnored => mret tt
  end.

(** ** The stream *)
#[local] Abbreviation Item := (result StreamEvent StreamError).

(** The closure of [flat_map]. *)
Definition on_item (i : result SseEvent string) (s : ParserState) : ParserState * list Item :=
  match i with
  | Err e => (s, if stream_completed s then [] else [Err (UpstreamError e)])
  | Ok ev =>
      let s := if bool_decide (event ev = "response.completed" ∨ event ev = "response.failed")
               then set_stream_completed s else s in
      match from_str (data ev) with
      | Err e => (s, [Err (DecodeError ("json parse for " ++ event ev ++ ": " ++ e)%string)])
      | Ok parsed => let m := parse_event (event_type_of (event ev)) parsed in (final m s, Ok <$> emitted m s)
      end
  end.
(** The stream chained behind. *)
Definition on_eof (s : ParserState) : ParserState * list Item := (final finalize s, Ok <$> emitted finalize s).

Definition parse (l : list (result SseEvent string)) : list Item :=
  feed_all on_item on_eof l default_parser_state.
End Parser.

(** ** The protocol of the upstream

    [response.created] first; output items under fresh indices, deltas of an
    open item's type, an item done once and under its type;
    [response.completed] once and with every item done.  A failure ends it. *)
Record upstream := {
  u_started : bool;
  u_message : bool;
  u_open : gmap Z ContentBlockKind;
  u_used : gset Z;
  u_stopped : bool;
  u_failed : bool;
}.
Definition upstream0 : upstream := {|
  u_started := false; u_message := false; u_open := ∅; u_used := ∅; u_stopped := false; u_failed := false |}.
Definition set_u_items (o : gmap Z ContentBlockKind) (u : gset Z) (g : upstream) : upstream := {|
  u_started := u_started g; u_message := true; u_open := o; u_used := u;
  u_stopped := u_stopped g; u_failed := u_failed g |}.
Definition set_u_flags (started stopped failed : bool) (g : upstream) : upstream := {|
  u_started := started; u_message := u_message g; u_open := u_open g; u_used := u_used g;
  u_stopped := stopped; u_failed := failed |}.

Section Protocol.
Context `{J : JsonApi}.

Definition up_check (g : upstream) (ev : EventType * value) : option upstream :=
  let '(ty, data) := ev in
  let i := output_index_of data in
  let running := u_started g && negb (u_stopped g) in
  if u_failed g then Some g else
  match ty with
  | ECreated => if u_stopped g then None else Some (set_u_flags true false false g)
  | EItemAdded =>
      match item_kind data with
      | Some kind =>
          if running && negb (bool_decide (i ∈ u_used g))
          then Some (set_u_items (<[i := kind]> (u_open g)) ({[i]} ∪ u_used g) g) else None
      | None => if running then Some (set_u_items (u_open g) (u_used g) g) else None
      end
  | ETextDelta => if bool_decide (u_open g !! i = Some Text) then Some g else None
  | EArgumentsDelta => if bool_decide (u_open g !! i = Some ToolCall) then Some g else None
  | EItemDone =>
      match item_kind data with
      | Some kind =>
          if bool_decide (u_open g !! i = Some kind)
          then Some (set_u_items (delete i (u_open g)) (u_used g) g) else None
      | None => Some g
      end
  | ECompleted => if running && bool_decide (u_open g = ∅) then Some (set_u_flags true true false g) else None
  | EFailed | EError => Some (set_u_flags (u_started g) (u_stopped g) true g)
  | EIgnored => Some g
  end.

(** The events of the upstream the parser reads. *)
Definition readable (i : result SseEvent string) : option (EventType * value) :=
  match i with
  | Ok ev => pair (event_type_of (event ev)) <$> result_ok (from_str (data ev))
  | Err _ => None
  end.

End Protocol.

(** ** The lifecycle *)
Section Lifecycle.
Context `{J : JsonApi}.
Implicit Types (g : upstream) (s : ParserState) (v : ValidatorState).

(** The parser, the validator and the protocol agree.  After a failure the
    validator accepts everything; blocks it still has open are forgotten with
    the next event, which [finalize] gives unless one came before. *)
Definition inv g s v : Prop :=
  if u_failed g then
    terminated_by_error v = true ∧
    (open_blocks v = ∅ ∨ emitted_response_start s = true ∧ emitted_response_stop s = false)
  else
    (∃ c, (∀ i, i ∈ c → i ∈ u_used g) ∧
      v = vstate (u_started g) (u_message g) (u_stopped g) (u_stopped g) (u_open g) ∅ c) ∧
    (∀ i, is_Some (u_open g !! i) → i ∈ u_used g) ∧
    (u_open g ≠ ∅ → u_started g = true ∧ u_message g = true ∧ u_stopped g = false) ∧
    (u_started g = false → u_message g = false ∧ u_stopped g = false) ∧
    emitted_response_start s = u_started g ∧ emitted_message_start s = u_message g ∧
    emitted_message_stop s = u_stopped g ∧ emitted_response_stop s = u_stopped g ∧
    open_items s = u_open g.

Lemma inv0 : inv upstream0 default_parser_state default_state.
Proof. unfold inv. simpl. split_and!; try done; [by exists ∅|by intros i [? ?]]. Qed.

(** The end of a transport that signalled completion changes nothing else. *)
Lemma inv_completed g s v : inv g s v → inv g (set_stream_completed s) v.
Proof. done. Qed.

(** After an error event. *)
Definition ends (s : ParserState) : bool * bool := (emitted_response_start s, emitted_response_stop s).
Lemma ends_parse_event ev : quiet ends (parse_event ev.1 ev.2).
Proof.
  destruct ev as [ty data]. destruct ty; simpl;
    unfold on_created, on_item_added, on_item_done, close_block, message_start_once; quiet.
Qed.
Lemma failed_accepts g s v ev :
  u_failed g = true → inv g s v → wp check (parse_event ev.1 ev.2) (λ _ s' v', inv g s' v') s v.
Proof.
  unfold inv. intros -> [Ht Ho]. eapply wp_intro; [by apply monitor_terminated|].
  pose proof (ends_parse_event ev s) as Hq. destruct (emitted (parse_event ev.1 ev.2) s).
  - specialize (Hq eq_refl). injection Hq as -> ->. done.
  - split; [by destruct v|]. by left.
Qed.

Lemma lc_created data g s v g' :
  u_failed g = false → up_check g (ECreated, data) = Some g' → inv g s v →
  wp check (on_created data) (λ _ s' v', inv g' s' v') s v.
Proof.
  intros Hf Hg. unfold inv, up_check in *. rewrite Hf in *. simpl in *.
  destruct (u_stopped g) eqn:Hsp; [done|]. injection Hg as <-. simpl.
  intros ((c & Hc & ->) & Hu & Ho & Hn & Hrs & Hms & Hmp & Hrp & Hop).
  unfold on_created. wp_steps; rewrite Hrs in *; destruct (u_started g); try done; simpl.
  - destruct (Hn eq_refl) as [Hm _]. eapply wp_push; [apply check_response_start|]. simpl.
    split_and!; eauto. intros He. by destruct (Ho He) as (? & _).
  - split_and!; eauto.
Qed.

(** A first item starts the message. *)
Lemma starts_message g s v :
  u_failed g = false → u_started g = true → u_stopped g = false → inv g s v →
  wp check message_start_once (λ _ s' v', ∃ c, v' = vstate true true false false (u_open g) ∅ c ∧
    inv (set_u_items (u_open g) (u_used g) g) s' v') s v.
Proof.
  intros Hf Hst Hsp. unfold inv. simpl. rewrite Hf, Hst, Hsp.
  intros ((c & Hc & ->) & Hu & Ho & Hn & Hrs & Hms & Hmp & Hrp & Hop). unfold message_start_once.
  wp_steps; rewrite Hms in *; destruct (u_message g) eqn:Hm; try done; simpl.
  - eapply wp_push; [apply check_message_start|]. exists c. simpl. split_and!; eauto.
  - exists c. split_and!; eauto.
Qed.

Lemma lc_item_added data g s v g' :
  u_failed g = false → up_check g (EItemAdded, data) = Some g' → inv g s v →
  wp check (on_item_added data) (λ _ s' v', inv g' s' v') s v.
Proof.
  intros Hf Hg Hi. unfold up_check in Hg. rewrite Hf in Hg.
  destruct (u_started g && negb (u_stopped g)) eqn:Hrun; [|by destruct (item_kind data)]. simpl in Hg.
  apply andb_true_iff in Hrun as [Hst Hsp%negb_true_iff].
  unfold on_item_added. apply wp_bind. eapply wp_mono; [by apply starts_message|].
  clear s v Hi. intros [] s v (c & -> & Hi).
  set (i := output_index_of data) in *. destruct (item_kind data) as [kind|]; [|simplify_eq; by apply wp_ret].
  case_bool_decide as Hiu; [done|]. simpl in Hg. injection Hg as <-.
  unfold inv in *. simpl in *. rewrite Hf, Hst, Hsp in *.
  destruct Hi as ((c' & Hc & [= <-]) & Hu & Ho & _ & Hrs & Hms & Hmp & Hrp & Hop).
  assert (Hn : u_open g !! i = None) by (apply eq_None_not_Some; by intros ?%Hu).
  assert (Hic : i ∉ c) by (by intros ?%Hc).
  assert (Hu' : ∀ j, is_Some (<[i:=kind]> (u_open g) !! j) → j ∈ {[i]} ∪ u_used g).
  { intros j [->|[_ ?%Hu]]%lookup_insert_is_Some; set_solver. }
  assert (Hk : ∀ s', emitted_response_start s' = true → emitted_message_start s' = true →
    emitted_message_stop s' = false → emitted_response_stop s' = false → open_items s' = <[i:=kind]> (u_open g) →
    (∃ c', (∀ j, j ∈ c' → j ∈ {[i]} ∪ u_used g) ∧
       vstate true true false false (<[i:=kind]> (u_open g)) ∅ c =
       vstate true true false false (<[i:=kind]> (u_open g)) ∅ c') ∧
    (∀ j, is_Some (<[i:=kind]> (u_open g) !! j) → j ∈ {[i]} ∪ u_used g) ∧
    (<[i:=kind]> (u_open g) ≠ ∅ → true = true ∧ true = true ∧ false = false) ∧
    (true = false → true = false ∧ false = false) ∧
    emitted_response_start s' = true ∧ emitted_message_start s' = true ∧
    emitted_message_stop s' = false ∧ emitted_response_stop s' = false ∧ open_items s' = <[i:=kind]> (u_open g)).
  { intros s' ? ? ? ? ?. split_and!; try done. exists c. split; [|done]. intros j Hj. apply elem_of_union_r. by apply Hc. }
  destruct kind; wp_steps; (eapply wp_push; [by apply check_block_start|]); wp_steps; try (refine (Hk (set_open_items (<[i:=_]> (open_items s)) s) _ _ _ _ _); simpl; congruence).
  eapply wp_push; [apply check_tool_start, lookup_insert_eq|].
  refine (Hk (set_open_items (<[i:=_]> (open_items s)) s) _ _ _ _ _); simpl; congruence.
Qed.

Lemma lc_text_delta data g s v g' :
  u_failed g = false → up_check g (ETextDelta, data) = Some g' → inv g s v →
  wp check (parse_event ETextDelta data) (λ _ s' v', inv g' s' v') s v.
Proof.
  intros Hf Hg Hi. unfold up_check in Hg. rewrite Hf in Hg. simpl in Hg.
  case_bool_decide as Hk; [|done]. injection Hg as <-. pose proof Hi as Hi'.
  unfold inv in Hi'. rewrite Hf in Hi'. destruct Hi' as ((c & _ & ->) & _ & Ho & _).
  destruct Ho as (Hst & Hm & Hsp); [intros He; by rewrite He, lookup_empty in Hk|].
  rewrite Hst, Hm, Hsp in *. simpl. wp_steps; [|done]. by eapply wp_push; [apply check_text_delta|].
Qed.
Lemma lc_arguments_delta data g s v g' :
  u_failed g = false → up_check g (EArgumentsDelta, data) = Some g' → inv g s v →
  wp check (parse_event EArgumentsDelta data) (λ _ s' v', inv g' s' v') s v.
Proof.
  intros Hf Hg Hi. unfold up_check in Hg. rewrite Hf in Hg. simpl in Hg.
  case_bool_decide as Hk; [|done]. injection Hg as <-. pose proof Hi as Hi'.
  unfold inv in Hi'. rewrite Hf in Hi'. destruct Hi' as ((c & _ & ->) & _ & Ho & _).
  destruct Ho as (Hst & Hm & Hsp); [intros He; by rewrite He, lookup_empty in Hk|].
  rewrite Hst, Hm, Hsp in *. simpl. wp_steps; [|done]. by eapply wp_push; [apply check_tool_args|].
Qed.

(** Closing an open block, as an item done and [finalize] do. *)
Lemma lc_close i kind o c Q s :
  o !! i = Some kind →
  (∀ c', (∀ j, j ∈ c' → j = i ∨ j ∈ c) → Q tt s (vstate true true false false (delete i o) ∅ c')) →
  wp check (close_block (i, kind)) Q s (vstate true true false false o ∅ c).
Proof.
  intros Ho HQ. unfold close_block. simpl. wp_steps.
  - case_bool_decide; [|done]. subst. eapply wp_push; [by apply check_tool_stop|].
    eapply wp_push; [apply check_tool_block_stop; [done|set_solver]|].
    rewrite union_empty_r_L, difference_diag_L. apply HQ. set_solver.
  - case_bool_decide; [done|]. eapply wp_push; [by eapply check_block_stop|]. apply HQ. set_solver.
Qed.

Lemma lc_item_done data g s v g' :
  u_failed g = false → up_check g (EItemDone, data) = Some g' → inv g s v →
  wp check (on_item_done data) (λ _ s' v', inv g' s' v') s v.
Proof.
  intros Hf Hg Hi. unfold up_check in Hg. rewrite Hf in Hg. simpl in Hg. unfold on_item_done.
  set (i := output_index_of data) in *. destruct (item_kind data) as [kind|]; [|by simplify_eq].
  case_bool_decide as Hk; [|done]. injection Hg as <-.
  unfold inv in *. simpl. rewrite Hf in *.
  destruct Hi as ((c & Hc & ->) & Hu & Ho & Hn & Hrs & Hms & Hmp & Hrp & Hop).
  destruct Ho as (Hst & Hm & Hsp); [intros He; by rewrite He, lookup_empty in Hk|].
  rewrite Hst, Hm, Hsp in *. apply wp_bind. apply lc_close; [done|]. intros c' Hc'. apply wp_modify. simpl.
  split_and!; try done.
  - exists c'. split; [|done]. intros j [->|?]%Hc'; [by apply Hu|by apply Hc].
  - intros j [x [_ Hx]%lookup_delete_Some]. apply Hu. by eexists.
  - by rewrite Hop.
Qed.

Lemma lc_completed data g s v g' :
  u_failed g = false → up_check g (ECompleted, data) = Some g' → inv g s v →
  wp check (on_completed data) (λ _ s' v', inv g' s' v') s v.
Proof.
  intros Hf Hg Hi. unfold up_check in Hg. rewrite Hf in Hg. simpl in Hg.
  destruct (u_started g && negb (u_stopped g)) eqn:Hrun; [|done]. simpl in Hg.
  apply andb_true_iff in Hrun as [Hst Hsp%negb_true_iff].
  case_bool_decide as Hempty; [|done]. injection Hg as <-. unfold inv in *. simpl. rewrite Hf, Hst, Hsp, Hempty in *.
  destruct Hi as ((c & Hc & ->) & Hu & Ho & Hn & Hrs & Hms & Hmp & Hrp & Hop).
  unfold on_completed. wp_steps. eapply wp_push; [apply check_message_stop|]. wp_steps.
  eapply wp_push; [apply check_response_stop|]. simpl. split_and!; try done; eauto.
Qed.

Lemma accepts_error message g s v :
  u_failed g = false → inv g s v →
  wp check (push (ErrorEvent message))
    (λ _ s' v', inv (set_u_flags (u_started g) (u_stopped g) true g) s' v') s v.
Proof.
  intros Hf. unfold inv at 1. rewrite Hf. intros ((c & Hc & ->) & _ & Ho & _ & Hrs & _ & _ & Hrp & _).
  eapply wp_push; [reflexivity|]. unfold inv. simpl. split; [done|]. rewrite Hrs, Hrp.
  destruct (decide (u_open g = ∅)) as [|He]; [by left|right]. by destruct (Ho He) as (? & _ & ?).
Qed.

Lemma accepts_event ev g s v g' :
  up_check g ev = Some g' → inv g s v → wp check (parse_event ev.1 ev.2) (λ _ s' v', inv g' s' v') s v.
Proof.
  intros Hg Hi. destruct ev as [ty data]. destruct (u_failed g) eqn:Hf.
  { unfold up_check in Hg. rewrite Hf in Hg. injection Hg as <-. by apply (failed_accepts g s v (ty, data)). }
  destruct ty; cbn [fst snd];
    [by eapply lc_created|by eapply lc_item_added|by eapply lc_text_delta|by eapply lc_arguments_delta
    |by eapply lc_item_done|by eapply lc_completed|..];
    unfold up_check in Hg; rewrite Hf in Hg; simplify_eq; simpl;
    [by apply accepts_error|by apply accepts_error|by apply wp_ret].
Qed.

(** Finalization closes what is open. *)
Lemma closes_all l c s :
  NoDup l.*1 → wp check (for_each l close_block)
    (λ _ s' v', s' = s ∧ ∃ c', v' = vstate true true false false ∅ ∅ c') s
    (vstate true true false false (list_to_map l) ∅ c).
Proof.
  revert c. induction l as [|[i kind] l IH]; intros c Hnd; [by split; [|exists c]|].
  inversion_clear Hnd as [|? ? Hi Hl]. simpl for_each. apply wp_bind.
  apply lc_close; [apply lookup_insert_eq|]. intros c' _. simpl.
  rewrite delete_insert_eq, delete_id by by apply not_elem_of_list_to_map_1.
  by apply IH.
Qed.
Lemma orphaned_spec s : NoDup (orphaned s).*1 ∧ list_to_map (orphaned s) = open_items s.
Proof.
  unfold orphaned. set (l := sort_by _ _).
  assert (Hp : l ≡ₚ map_to_list (open_items s)) by apply sort_by_perm.
  assert (Hnd : NoDup l.*1) by (rewrite Hp; apply NoDup_fst_map_to_list).
  split; [done|]. by rewrite (list_to_map_proper _ _ Hnd Hp), list_to_map_to_list.
Qed.

Lemma speaks_bind {A B} (m : emit ParserState StreamEvent A) (k : A → emit ParserState StreamEvent B) s :
  (∀ a s, emitted (k a) s ≠ []) → emitted (m ≫= k) s ≠ [].
Proof. intros Hk. rewrite emitted_bind. intros [_ H]%app_eq_nil. by eapply Hk. Qed.
Lemma finalize_speaks s : emitted_response_start s = true → emitted_response_stop s = false → emitted finalize s ≠ [].
Proof.
  intros Hst Hsp. unfold finalize. rewrite emitted_gets_bind, Hsp, emitted_gets_bind, Hst. simpl.
  do 7 (apply speaks_bind; intros ??). done.
Qed.

Lemma finalize_accepted g s v :
  inv g s v → ∃ v', monitor check v (emitted finalize s) = Some v' ∧ open_blocks v' = ∅ ∧
    (u_failed g = false → seen_response_stop v' = seen_response_start v').
Proof.
  intros Hi. destruct (u_failed g) eqn:Hf.
  { unfold inv in Hi. rewrite Hf in Hi. destruct Hi as [Ht Ho].
    eexists. split; [by apply monitor_terminated|]. split; [|done]. destruct (emitted finalize s) eqn:He; [|by destruct v].
    destruct Ho as [|[Hst Hsp]]; [done|]. by destruct (finalize_speaks s Hst Hsp). }
  enough (Hwp : wp check finalize (λ _ _ v', open_blocks v' = ∅ ∧ seen_response_stop v' = seen_response_start v') s v).
  { destruct (wp_elim _ _ _ _ _ Hwp) as (v' & ? & ? & ?). eauto. }
  unfold finalize. pose proof Hi as Hi'. unfold inv in Hi'. rewrite Hf in Hi'.
  destruct Hi' as ((c & Hc & ->) & Hu & Ho & Hn & Hrs & Hms & Hmp & Hrp & Hop).
  apply wp_bind, wp_gets. rewrite Hrp. destruct (u_stopped g) eqn:Hsp.
  { apply wp_ret. simpl. split; [|by destruct (u_started g); [|destruct (Hn eq_refl)]].
    destruct (decide (u_open g = ∅)) as [|He]; [done|]. by destruct (Ho He) as (_ & _ & ?). }
  apply wp_bind, wp_gets. rewrite Hrs. destruct (u_started g) eqn:Hst.
  2: { apply wp_ret. simpl. split; [|done]. destruct (decide (u_open g = ∅)) as [|He]; [done|]. by destruct (Ho He) as (? & _). }
  simpl. apply wp_bind. eapply wp_mono; [apply starts_message; [done..|]|].
  { unfold inv. rewrite Hf, Hst, Hsp. split_and!; eauto. }
  clear s Hrs Hms Hmp Hrp Hop Hi Hc c. intros [] s v (c & -> & Hi). unfold inv in Hi. simpl in Hi. rewrite Hf, Hst, Hsp in Hi.
  destruct Hi as (_ & _ & _ & _ & _ & _ & Hmp & _ & Hop).
  apply wp_bind, wp_gets, wp_bind, wp_modify, wp_bind. destruct (orphaned_spec s) as [Hnd Hmap].
  rewrite <- Hop, <- Hmap. eapply wp_mono; [by apply closes_all|]. intros [] s' v' [-> [c' ->]].
  wp_steps; rewrite Hmp in *; [|done].
  eapply wp_push; [apply check_message_stop|]. wp_steps. by eapply wp_push; [apply check_response_stop|].
Qed.

(** One upstream item. *)
Lemma lc_item i g g' s v :
  match readable i with Some ev => up_check g ev = Some g' | None => g' = g end → inv g s v →
  ∃ v', monitor check v (oks (on_item i s).2) = Some v' ∧ inv g' (on_item i s).1 v'.
Proof.
  intros Hg Hi. destruct i as [ev|e]; simpl in *.
  2: { subst. exists v. by destruct (stream_completed s). }
  set (s1 := if bool_decide _ then _ else s). assert (Hi1 : inv g s1 v) by (by unfold s1; case_bool_decide).
  destruct (from_str (data ev)) as [d|e]; simpl in *; [|subst; by exists v].
  rewrite oks_Ok.
  destruct (wp_elim _ _ _ _ _ (accepts_event (event_type_of (event ev), d) g s1 v g' Hg Hi1)) as (v' & Hv & Hi').
  by exists v'.
Qed.

Lemma parse_accepted l g :
  steps up_check upstream0 (omap readable l) = Some g →
  ∃ v, monitor check default_state (oks (parse l)) = Some v ∧ open_blocks v = ∅ ∧
    (u_failed g = false → seen_response_stop v = seen_response_start v).
Proof.
  intros Hg. destruct (feed_monitor on_item on_eof (on_ok check)
    (λ l s v, ∃ p, steps up_check p (omap readable l) = Some g ∧ inv p s v)
    (λ v, open_blocks v = ∅ ∧ (u_failed g = false → seen_response_stop v = seen_response_start v))
    l default_parser_state default_state) as (v & Hm & Ho).
  - clear l Hg. intros i l s v (p & Hp & Hi). simpl in Hp.
    assert (∃ p', match readable i with Some ev => up_check p ev = Some p' | None => p' = p end ∧
      steps up_check p' (omap readable l) = Some g) as (p' & H1 & H2).
    { destruct (readable i) as [ev|]; [|by exists p]. simpl in Hp. apply bind_Some in Hp as (p' & ? & ?). eauto. }
    destruct (lc_item i p p' s v H1 Hi) as (v' & Hv & Hi'). exists v'. rewrite monitor_on_ok. split; [done|]. by exists p'.
  - intros s v (p & [= ->] & Hi). simpl. rewrite monitor_on_ok, oks_Ok. by apply (finalize_accepted g).
  - exists upstream0. split; [done|apply inv0].
  - rewrite monitor_on_ok in Hm. by exists v.
Qed.

(** *** The two ends of a response *)
(** How a response ends that the upstream completes, by its own account. *)
Definition stopped_by (data : value) : list StreamEvent :=
  [MessageStop (if bool_decide (get_str "status" data = Some "incomplete") then ContentFilter else EndTurn) None;
   ResponseStop (usage_of <$> get "usage" data)].
Definition created (evs : list (EventType * value)) : Prop := ∃ data, (ECreated, data) ∈ evs.
(** A response starts when the upstream announces one; it is stopped, its message
    first, as the upstream's [response.completed] says or, without one, at the
    very end. *)
Record begins_and_ends (evs : list (EventType * value)) (out : list StreamEvent) : Prop := {
  be_starts : (∃ id m n, ResponseStart id m n ∈ out) ↔ created evs;
  be_completed : ∀ data, (ECompleted, data) ∈ evs → ∃ pre post, out = pre ++ stopped_by data ++ post;
  be_cut_off : created evs → (∀ data, (ECompleted, data) ∉ evs) →
    ∃ pre, out = pre ++ [MessageStop EndTurn None; ResponseStop None];
}.

Definition is_created (ev : EventType * value) : bool := match ev.1 with ECreated => true | _ => false end.
Definition is_completed (ev : EventType * value) : bool := match ev.1 with ECompleted => true | _ => false end.
Definition is_start (e : StreamEvent) : bool := match e with ResponseStart _ _ _ => true | _ => false end.
(** The flags of the parser, and the starts it has given. *)
Definition flags (s : ParserState) : bool * bool * bool :=
  (emitted_response_start s, emitted_message_stop s, emitted_response_stop s).
Local Ltac run := unfold final, emitted, gets, modify, push, when, mbind, emit_bind, mret, emit_ret; simpl.
Lemma message_start_once_flags s : flags (final message_start_once s) = flags s ∧ existsb is_start (emitted message_start_once s) = false.
Proof. unfold message_start_once. run. by destruct (emitted_message_start s). Qed.
Lemma close_block_flags p s : final (close_block p) s = s ∧ existsb is_start (emitted (close_block p) s) = false.
Proof. destruct p as [i kind]. by destruct kind. Qed.
Lemma parse_event_flags ev s :
  flags (final (parse_event ev.1 ev.2) s) =
    (emitted_response_start s || is_created ev, emitted_message_stop s || is_completed ev,
     emitted_response_stop s || is_completed ev) ∧
  existsb is_start (emitted (parse_event ev.1 ev.2) s) = negb (emitted_response_start s) && is_created ev.
Proof.
  destruct ev as [ty data]. unfold is_created, is_completed.
  destruct ty; cbn [fst snd parse_event]; rewrite ?orb_true_r, ?orb_false_r, ?andb_false_r, ?andb_true_r.
  - unfold on_created, flags. run. by destruct (emitted_response_start s) eqn:Hs; simpl; rewrite ?Hs.
  - unfold on_item_added. rewrite final_bind, emitted_bind, existsb_app.
    destruct (message_start_once_flags s) as [Hf ->]. revert Hf.
    generalize (final message_start_once s). intros s' [= <- <- <-]. by destruct (item_kind data) as [[]|].
  - destruct (str_is_empty (delta_of data)); done.
  - destruct (str_is_empty (delta_of data)); done.
  - unfold on_item_done. destruct (item_kind data) as [kind|]; [|done].
    rewrite final_bind, emitted_bind, existsb_app.
    destruct (close_block_flags (output_index_of data, kind) s) as [-> ->]. done.
  - done.
  - done.
  - done.
  - done.
Qed.
(** An item of the transport, by the event it carries. *)
Lemma item_flags i s :
  let ev := readable i in
  flags (on_item i s).1 =
    (emitted_response_start s || from_option is_created false ev, emitted_message_stop s || from_option is_completed false ev,
     emitted_response_stop s || from_option is_completed false ev) ∧
  existsb is_start (oks (on_item i s).2) = negb (emitted_response_start s) && from_option is_created false ev.
Proof.
  destruct i as [ev|e]; simpl; [|rewrite !orb_false_r, andb_false_r; by destruct (stream_completed s)].
  set (s1 := if bool_decide _ then _ else s).
  assert (Hs : flags s1 = flags s) by (unfold s1; by case_bool_decide).
  destruct (from_str (data ev)) as [d|e]; simpl; [|by rewrite Hs, !orb_false_r, andb_false_r].
  rewrite oks_Ok. destruct (parse_event_flags (event_type_of (event ev), d) s1) as [H1 H2]. cbn [fst snd] in *.
  rewrite H1, H2. injection Hs as -> -> ->. done.
Qed.
Lemma feed_flags l s :
  let evs := omap readable l in
  flags (feed on_item l s).1 =
    (emitted_response_start s || existsb is_created evs, emitted_message_stop s || existsb is_completed evs,
     emitted_response_stop s || existsb is_completed evs) ∧
  existsb is_start (oks (feed on_item l s).2) = negb (emitted_response_start s) && existsb is_created evs.
Proof.
  revert s. induction l as [|i l IH]; intros s; simpl; [by rewrite !orb_false_r, andb_false_r|].
  destruct (item_flags i s) as [H1 H2]. destruct (on_item i s) as [s1 o1]. simpl in *. specialize (IH s1).
  destruct (feed on_item l s1) as [s2 o2]. simpl in *. destruct IH as [IH1 IH2].
  injection H1 as H11 H12 H13. rewrite oks_app, existsb_app, IH1, IH2, H2, H11, H12, H13.
  destruct (readable i) as [ev|]; simpl; rewrite ?orb_false_r, ?orb_assoc, ?andb_false_r; split; try done.
  by destruct (emitted_response_start s), (is_created ev), (existsb is_created _).
Qed.
Lemma existsb_event (p : EventType * value → bool) ty evs :
  (∀ ev, p ev = true ↔ ev.1 = ty) → existsb p evs = true ↔ ∃ data, (ty, data) ∈ evs.
Proof.
  intros Hp. rewrite existsb_exists. split.
  - intros ([ty' data] & Hin & H). apply Hp in H as [= ->]. exists data. by apply list_elem_of_In.
  - intros [data Hin]. exists (ty, data). split; [by apply list_elem_of_In|by apply Hp].
Qed.
Lemma starts_in l : existsb is_start l = true ↔ ∃ id m n, ResponseStart id m n ∈ l.
Proof.
  rewrite existsb_exists. split.
  - intros (e & Hin & He). destruct e; try done. do 3 eexists. by apply list_elem_of_In.
  - intros (id & m & n & Hin). eexists. split; [by apply list_elem_of_In|done].
Qed.
Lemma finalize_flags s :
  existsb is_start (emitted finalize s) = false ∧
  (emitted_response_start s = true → emitted_message_stop s = false → emitted_response_stop s = false →
   ∃ pre, emitted finalize s = pre ++ [MessageStop EndTurn None; ResponseStop None]).
Proof.
  assert (Hclose : ∀ ps s, existsb is_start (emitted (for_each ps close_block) s) = false ∧ final (for_each ps close_block) s = s).
  { induction ps as [|p ps IH]; intros s'; [done|]. simpl for_each. rewrite emitted_bind, final_bind, existsb_app.
    destruct (close_block_flags p s') as [-> ->]. apply IH. }
  unfold finalize. rewrite emitted_gets_bind. destruct (emitted_response_stop s) eqn:Hp; [by split|].
  rewrite emitted_gets_bind. destruct (emitted_response_start s) eqn:Hs; [|by split]. simpl.
  destruct (message_start_once_flags s) as [Hf Hn].
  rewrite emitted_bind, existsb_app, Hn. generalize dependent (final message_start_once s). intros s1 Hf.
  rewrite emitted_gets_bind, emitted_bind, existsb_app, emitted_bind, existsb_app. simpl.
  destruct (Hclose (orphaned s1) (set_open_items ∅ s1)) as [Hc1 Hc2]. change (final (modify (set_open_items ∅)) s1) with (set_open_items ∅ s1). rewrite Hc2, Hc1. simpl.
  injection Hf as _ Hm _. split.
  - run. by destruct (emitted_message_stop s1).
  - intros _ Hms _. rewrite Hms in Hm. eexists (_ ++ _). rewrite <- app_assoc. do 2 f_equal.
    run. by rewrite Hm.
Qed.

Lemma parse_begins_and_ends l : begins_and_ends (omap readable l) (oks (parse l)).
Proof.
  pose proof (existsb_event is_created ECreated (omap readable l)) as Hcr.
  pose proof (existsb_event is_completed ECompleted (omap readable l)) as Hco.
  specialize (Hcr (λ '(ty, _), ltac:(by destruct ty))). specialize (Hco (λ '(ty, _), ltac:(by destruct ty))).
  destruct (feed_flags l default_parser_state) as [Hflags Hstarts].
  assert (Hp : oks (parse l) = oks (feed on_item l default_parser_state).2 ++ emitted finalize (feed on_item l default_parser_state).1).
  { unfold parse, feed_all. destruct (feed on_item l _) as [s out]. simpl. by rewrite oks_app, oks_Ok. }
  destruct (finalize_flags (feed on_item l default_parser_state).1) as [Hno Hend]. simpl in *.
  injection Hflags as H1 H2 H3. rewrite H1, H2, H3 in Hend. split.
  - rewrite <- starts_in, Hp, existsb_app, Hno, orb_false_r, Hstarts. exact Hcr.
  - intros data Hin. clear -Hin. apply list_elem_of_omap in Hin as (i & Hi & Hr).
    apply list_elem_of_split in Hi as (l1 & l2 & ->). unfold parse, feed_all. rewrite feed_app. simpl.
    destruct (feed on_item l1 _) as [s1 o1]. destruct (on_item i s1) as [s2 o2] eqn:Hi.
    assert (Ho : oks o2 = stopped_by data).
    { destruct i as [ev|e]; [|done]. simpl in Hr, Hi. destruct (from_str (Drain.data ev)) as [d|e]; [|done].
      simpl in Hr. injection Hr as Hty ->. rewrite Hty in Hi. cbn [parse_event] in Hi.
      apply (f_equal snd) in Hi. cbn [snd] in Hi. rewrite <- Hi, oks_Ok.
      unfold stopped_by, on_completed. run.
      destruct (get_str "status" data) as [status|]; simpl; repeat case_bool_decide; congruence. }
    destruct (feed on_item l2 s2) as [s3 o3]. rewrite !oks_app, Ho. cbn [fst snd]. exists (oks o1), (oks (o3 ++ (on_eof s3).2)).
    by rewrite !oks_app, <- !app_assoc.
  - intros Hc Hn. apply Hcr in Hc. rewrite Hc in Hend.
    assert (Hnc : existsb is_completed (omap readable l) = false) by (apply not_true_is_false; intros [d Hd]%Hco; by eapply Hn).
    rewrite Hnc in Hend. destruct Hend as [pre Hpre]; [done..|]. rewrite Hp, Hpre. eexists. by rewrite app_assoc.
Qed.

(** C18: whatever a Responses upstream that follows its protocol sends, wherever
    it breaks off and whatever of it cannot be read, the events meet the canonical
    lifecycle: indices, order, every block closed.  A response starts exactly when
    the upstream announces one, and a response that starts is stopped, its message
    first: with the status and the usage of [response.completed], or else, failed
    or cut off, at the end of the stream as an ended turn. *)
Theorem responses_parse_lifecycle l g :
  steps up_check upstream0 (omap readable l) = Some g →
  assert_canonical_lifecycle (oks (parse l)) = Ok tt ∧ begins_and_ends (omap readable l) (oks (parse l)).
Proof.
  intros (v & Hm & Ho & _)%parse_accepted. split; [by apply (assert_of_monitor _ v)|apply parse_begins_and_ends].
Qed.
End Lifecycle.

(** ** Concrete upstreams *)
Module Samples.
Definition item (index : N) (fields : list (string * tree)) : tree :=
  TObj [("output_index", TNum index); ("item", TObj fields)].
Definition table : list (string * tree) :=
  [("created", TObj [("id", TStr "resp_1"); ("model", TStr "gpt"); ("created_at", TNum 7)]);
   ("message", item 0 [("type", TStr "message")]);
   ("hello", TObj [("output_index", TNum 0); ("delta", TStr "Hello")]);
   ("call", item 1 [("type", TStr "function_call"); ("call_id", TStr "call_1"); ("name", TStr "search")]);
   ("arguments", TObj [("output_index", TNum 1); ("delta", TStr "{}")]);
   ("completed", TObj [("status", TStr "completed")]);
   ("failed", TObj [("error", TObj [("message", TStr "overloaded")])])].
#[local] Instance sample_json : JsonApi := TreeJson table.
Definition sse (event data : string) : result SseEvent string :=
  Ok {| Drain.event := "response." ++ event; data := data |}.

(** Cut off in the middle of a tool call, by a transport error. *)
Definition broken : list (result SseEvent string) :=
  [sse "created" "created"; sse "output_item.added" "message"; sse "output_text.delta" "hello";
   sse "output_item.done" "message"; sse "output_item.added" "call"; sse "function_call_arguments.delta" "garbage";
   sse "function_call_arguments.delta" "arguments"; Err "connection reset"].
Lemma responses_parse_lifecycle_witness :
  assert_canonical_lifecycle (oks (parse broken)) = Ok tt ∧
  skipn 9 (parse broken) =
    [Err (UpstreamError "connection reset"); Ok (ToolCallStop 1); Ok (ContentBlockStop 1);
     Ok (MessageStop EndTurn None); Ok (ResponseStop None)].
Proof.
  destruct (steps up_check upstream0 (omap readable broken)) as [g|] eqn:Hg; [|exfalso; vm_compute in Hg; discriminate].
  split; [exact (proj1 (responses_parse_lifecycle broken g Hg))|reflexivity].
Defined.

(** A response that ends in a tool call. *)
Definition calling : list (result SseEvent string) :=
  [sse "created" "created"; sse "output_item.added" "call"; sse "function_call_arguments.delta" "arguments";
   sse "output_item.done" "call"; sse "completed" "completed"].
Definition stop_of `{J : JsonApi} (e : StreamEvent) : option StopReason :=
  match e with MessageStop r _ => Some r | _ => None end.
(** A response that ends in tool calls is reported as an ended turn. *)
Lemma tool_use_is_end_turn : omap stop_of (oks (parse calling)) = [EndTurn].
Proof. reflexivity. Qed.

(** [response.failed] stops neither the message nor the response; the end of the
    stream then ends them as if the turn had ended well. *)
Lemma failed_is_finalized :
  parse [sse "created" "created"; sse "failed" "failed"] =
    [Ok (ResponseStart "resp_1" "gpt" 7); Ok (ErrorEvent "overloaded"); Ok (MessageStart Assistant);
     Ok (MessageStop EndTurn None); Ok (ResponseStop None)].
Proof. reflexivity. Qed.
End Samples.
