(* ===== verification/GeminiScan.v ===== *)
(** * The Gemini stream scanner (crates/providers/src/gemini/stream.rs)

    A Gemini upstream streams one JSON array, not SSE: the scanner cuts the bytes,
    however they are split into chunks, into the objects of the array.  Decoding
    an object is serde_json's, a parameter. *)
From stdpp Require Import pretty.
From S2P Require Import Prelude CoreTypes Emit Drain.
#[local] Open Scope string_scope.
#[local] Open Scope list_scope.

(** ** Bytes *)
Definition byte : Type := Ascii.ascii.
Definition byte_of (n : nat) : byte := Ascii.ascii_of_nat n.
Definition quote : byte := byte_of 34.
Definition backslash : byte := byte_of 92.
Definition open_brace : byte := byte_of 123.
Definition close_brace : byte := byte_of 125.
Definition open_bracket : byte := byte_of 91.
Definition close_bracket : byte := byte_of 93.
Definition comma : byte := byte_of 44.
Definition is_json_whitespace (b : byte) : bool :=
  bool_decide (b ∈ [byte_of 32; byte_of 9; byte_of 10; byte_of 13]).

(** [format!("{byte:02x}")]. *)
Definition hex_digit (n : nat) : byte := if (n <? 10)%nat then byte_of (48 + n) else byte_of (87 + n).
Definition show_hex (b : byte) : string :=
  let n := Ascii.nat_of_ascii b in String (hex_digit (n / 16)) (String (hex_digit (n mod 16)) "").

(** ** The scanner *)
Record Scanner := {
  buf : list byte;
  started : bool;
  finished : bool;
  depth : Z;
  in_string : bool;
  escape_pending : bool;
}.
Definition new_scanner : Scanner := {|
  buf := []; started := false; finished := false; depth := 0; in_string := false; escape_pending := false |}.
Definition set_buf (x : list byte) (s : Scanner) : Scanner := {|
  buf := x; started := started s; finished := finished s; depth := depth s;
  in_string := in_string s; escape_pending := escape_pending s |}.
Definition set_started (s : Scanner) : Scanner := {|
  buf := buf s; started := true; finished := finished s; depth := depth s;
  in_string := in_string s; escape_pending := escape_pending s |}.
Definition set_finished (s : Scanner) : Scanner := {|
  buf := buf s; started := started s; finished := true; depth := depth s;
  in_string := in_string s; escape_pending := escape_pending s |}.
Definition set_depth (x : Z) (s : Scanner) : Scanner := {|
  buf := buf s; started := started s; finished := finished s; depth := x;
  in_string := in_string s; escape_pending := escape_pending s |}.
Definition set_in_string (x : bool) (s : Scanner) : Scanner := {|
  buf := buf s; started := started s; finished := finished s; depth := depth s;
  in_string := x; escape_pending := escape_pending s |}.
Definition set_escape_pending (x : bool) (s : Scanner) : Scanner := {|
  buf := buf s; started := started s; finished := finished s; depth := depth s;
  in_string := in_string s; escape_pending := x |}.

Section Scanner.
Context {R : Type} (from_slice : list byte → result R string).
#[local] Abbreviation Item := (result R StreamError).
#[local] Abbreviation M := (emit Scanner Item).

Definition decode (w : list byte) : Item :=
  match from_slice w with
  | Ok r => Ok r
  | Err e => Err (DecodeError ("failed to decode Gemini stream object: " ++ e)%string)
  end.

Definition before_array (b : byte) : M unit :=
  if is_json_whitespace b then mret tt
  else if bool_decide (b = open_bracket) then modify set_started
  else
    modify set_finished;;
    push (Err (DecodeError ("expected `[` at start of Gemini stream, got byte 0x" ++ show_hex b)%string)).

Definition between_objects (b : byte) : M unit :=
  if bool_decide (b = open_brace) then
    modify (set_depth 1);;
    modify (λ s, set_buf (buf s ++ [b]) s)
  else if bool_decide (b = close_bracket) then modify set_finished
  else if is_json_whitespace b || bool_decide (b = comma) then mret tt
  else push (Err (DecodeError ("unexpected byte 0x" ++ show_hex b ++ " between Gemini stream objects")%string)).

Definition in_literal (b : byte) : M unit :=
  escaped ← gets escape_pending;
  if (escaped : bool) then modify (set_escape_pending false)
  else if bool_decide (b = backslash) then modify (set_escape_pending true)
  else if bool_decide (b = quote) then modify (set_in_string false)
  else mret tt.

Definition in_object (b : byte) : M unit :=
  modify (λ s, set_buf (buf s ++ [b]) s);;
  literal ← gets in_string;
  if (literal : bool) then in_literal b
  else if bool_decide (b = quote) then modify (set_in_string true)
  else if bool_decide (b = open_brace) then modify (λ s, set_depth (u32_add (depth s) 1) s)
  else if bool_decide (b = close_brace) then
    modify (λ s, set_depth (wrap32 (depth s - 1)) s);;
    d ← gets depth;
    w ← gets buf;
    if bool_decide (d = 0%Z) then push (decode w);; modify (set_buf []) else mret tt
  else mret tt.

(** The body of [for &byte in chunk]. *)
Definition feed_byte (b : byte) : M unit :=
  s ← gets id;
  if finished s then mret tt
  else if negb (started s) then before_array b
  else if bool_decide (depth s = 0%Z) then between_objects b
  else in_object b.
Definition feed (chunk : list byte) : M unit := for_each chunk feed_byte.

(** [format!("{b}")] of a [bool]. *)
Definition show_bool (b : bool) : string := if b then "true" else "false".
Definition finalize (s : Scanner) : option StreamError :=
  if (0 <? depth s)%Z || in_string s then
    Some (DecodeError ("Gemini stream ended mid-object (depth=" ++ pretty (depth s) ++ ", in_string=" ++
                       show_bool (in_string s) ++ ")")%string)
  else None.

(** [into_response_stream]: the chunks of the body, or transport errors. *)
Definition on_chunk (i : result (list byte) string) (s : Scanner) : Scanner * list Item :=
  match i with
  | Err e => (s, [Err (UpstreamError e)])
  | Ok bytes => (final (feed bytes) s, emitted (feed bytes) s)
  end.
Definition on_eof (s : Scanner) : Scanner * list Item := (s, Err <$> option_list (finalize s)).
Definition into_response_stream (l : list (result (list byte) string)) : list Item :=
  feed_all on_chunk on_eof l new_scanner.

(** ** The bytes of an array of objects

    The grammar the scanner relies on.  [literal l]: after an opening quote, [l]
    runs to the quote that closes the literal.  [body d l]: [l] closes [d] open
    braces; brackets, commas and scalars are not looked at. *)
Inductive literal : list byte → Prop :=
| literal_end : literal [quote]
| literal_escape b l : literal l → literal (backslash :: b :: l)
| literal_plain b l : b ≠ quote → b ≠ backslash → literal l → literal (b :: l).
Inductive body : nat → list byte → Prop :=
| body_end : body 1 [close_brace]
| body_close d l : body (S d) l → body (S (S d)) (close_brace :: l)
| body_open d l : body (S (S d)) l → body (S d) (open_brace :: l)
| body_string d l k : literal l → body (S d) k → body (S d) (quote :: l ++ k)
| body_other d b l : b ≠ quote → b ≠ open_brace → b ≠ close_brace → body (S d) l → body (S d) (b :: l).
Definition object (o : list byte) : Prop := ∃ l, o = open_brace :: l ∧ body 1 l.

(** After the opening bracket: the objects, with white space and commas around
    them; then the stream ends ([false]: cleanly, with anything after the closing
    bracket, or with no bracket at all; [true]: in the middle of an object). *)
Inductive listing : list (list byte) → list byte → Prop :=
| no_objects : listing [] []
| skip_gap b os l : is_json_whitespace b ∨ b = comma → listing os l → listing os (b :: l)
| an_object o os l : object o → (Z.of_nat (length o) ≤ u32_max)%Z → listing os l → listing (o :: os) (o ++ l).
Inductive ending : list byte → bool → Prop :=
| ends_cut : ending [] false
| ends_closed junk : ending (close_bracket :: junk) false
| ends_torn p k :
    object (p ++ k) → (Z.of_nat (length (p ++ k)) ≤ u32_max)%Z → p ≠ [] → k ≠ [] → ending p true.

(** ** One byte at a time *)
Definition run (l : list byte) (s : Scanner) : Scanner * list Item := (final (feed l) s, emitted (feed l) s).
Lemma run_app l k s : run (l ++ k) s = let '(s1, e1) := run l s in let '(s2, e2) := run k s1 in (s2, e1 ++ e2).
Proof. unfold run, feed. by destruct (for_each_app l k feed_byte s) as [-> ->]. Qed.
Lemma run_step b l s s' e :
  feed_byte b s = (tt, s', e) → run (b :: l) s = let '(s2, e2) := run l s' in (s2, e ++ e2).
Proof. intros E. unfold run, feed; simpl. rewrite final_bind, emitted_bind. unfold final, emitted. by rewrite E. Qed.

(** Where the scanner stands between objects and inside one: [rest s k] when the
    bytes [k] complete the object that is open. *)
Definition gap : Scanner := set_started new_scanner.
Definition over : Scanner := set_finished gap.
Definition rest (s : Scanner) (k : list byte) : Prop :=
  started s = true ∧ finished s = false ∧
  ∃ d, depth s = Z.of_nat (S d) ∧
  if in_string s
  then ∃ a c, k = a ++ c ∧ body (S d) c ∧
       (if escape_pending s then ∃ b a', a = b :: a' ∧ literal a' else literal a)
  else escape_pending s = false ∧ body (S d) k.

Lemma body_bound d l : body d l → (d ≤ length l)%nat.
Proof. induction 1; simpl; rewrite ?length_app; lia. Qed.

Lemma body_nonempty d : ¬ body d [].
Proof. intros H. apply body_bound in H as Hb. inversion H; subst. Qed.
Lemma rest_nonempty s : ¬ rest s [].
Proof.
  intros (_ & _ & d & _ & H). destruct (in_string s).
  - destruct H as (a & c & Ha & Hc & _). destruct a, c; try done. by apply body_nonempty in Hc.
  - destruct H as [_ H]. by apply body_nonempty in H.
Qed.

(** The scanner inside an object, outside and inside a literal. *)
Definition inside (w : list byte) (d : nat) (q e : bool) : Scanner := {|
  buf := w; started := true; finished := false; depth := Z.of_nat (S d); in_string := q; escape_pending := e |}.

Lemma feed_literal w d b e :
  feed_byte b (inside w d true e) =
    (tt, inside (w ++ [b]) d (e || negb (bool_decide (b = quote)))
           (negb e && bool_decide (b = backslash)), []).
Proof.
  unfold feed_byte, in_object, in_literal, inside; simpl.
  destruct e; simpl; [done|].
  destruct (bool_decide_reflect (b = backslash)) as [->|]; [done|].
  by destruct (bool_decide_reflect (b = quote)).
Qed.
Lemma feed_quote w d : feed_byte quote (inside w d false false) = (tt, inside (w ++ [quote]) d true false, []).
Proof. done. Qed.
Lemma feed_open w d :
  (Z.of_nat (S (S d)) <= u32_max)%Z →
  feed_byte open_brace (inside w d false false) = (tt, inside (w ++ [open_brace]) (S d) false false, []).
Proof.
  intros H.
  assert (u32_add (Z.of_nat (S d)) 1 = Z.of_nat (S (S d))) as E by (rewrite u32_add_small; unfold is_u32; lia).
  unfold feed_byte, in_object, inside, gets, modify, mbind, emit_bind.
  cbn -[u32_add Z.of_nat bool_decide]. rewrite bool_decide_eq_false_2 by lia.
  rewrite (bool_decide_eq_false_2 (open_brace = quote)), bool_decide_eq_true_2 by done.
  cbn -[u32_add Z.of_nat]. by rewrite E.
Qed.
Lemma feed_close w d :
  (Z.of_nat (S d) <= u32_max)%Z →
  feed_byte close_brace (inside w d false false) =
    match d with
    | 0 => (tt, gap, [decode (w ++ [close_brace])])
    | S d' => (tt, inside (w ++ [close_brace]) d' false false, [])
    end.
Proof.
  intros H.
  assert (wrap32 (Z.of_nat (S d) - 1) = Z.of_nat d) as E by (rewrite wrap32_small; unfold is_u32; lia).
  unfold feed_byte, in_object, inside, gets, modify, when, push, mret, emit_ret, mbind, emit_bind.
  cbn -[wrap32 Z.of_nat Z.sub bool_decide]. rewrite bool_decide_eq_false_2 by lia.
  rewrite (bool_decide_eq_false_2 (close_brace = quote)), (bool_decide_eq_false_2 (close_brace = open_brace)),
    (bool_decide_eq_true_2 (close_brace = close_brace)) by done.
  cbn -[wrap32 Z.of_nat Z.sub bool_decide]. rewrite E. by destruct d.
Qed.
Lemma feed_other w d b :
  b ≠ quote → b ≠ open_brace → b ≠ close_brace →
  feed_byte b (inside w d false false) = (tt, inside (w ++ [b]) d false false, []).
Proof.
  intros H1 H2 H3. unfold feed_byte, in_object, inside; simpl.
  by rewrite !bool_decide_eq_false_2.
Qed.

(** A byte of an open object is kept; the last one emits what was kept. *)
Lemma rest_step s b k :
  rest s (b :: k) → (Z.of_nat (length k) < u32_max)%Z →
  (∃ s', feed_byte b s = (tt, s', []) ∧ rest s' k ∧ buf s' = buf s ++ [b]) ∨
  (k = [] ∧ feed_byte b s = (tt, gap, [decode (buf s ++ [b])])).
Proof.
  destruct s as [w st fi d q e]. unfold rest; simpl. intros (-> & -> & n & -> & H) Hk.
  destruct q.
  - left. fold (inside w n true e). rewrite feed_literal. eexists. split; [done|]. split; [|done].
    destruct H as (a & c & Ha & Hc & H). split_and!; try done. exists n. split; [done|].
    cbn. destruct e; cbn.
    + destruct H as (b' & a' & -> & H). simplify_list_eq. eauto 10.
    + inversion H; subst; simplify_list_eq.
      * by split.
      * exists (b0 :: l), c. split_and!; eauto.
      * rewrite !bool_decide_eq_false_2 by done. cbn. eexists _, c. by split_and!.
  - destruct H as [-> H]. fold (inside w n false false).
    assert (Z.of_nat (S n) <= u32_max)%Z by (apply body_bound in H; simpl in H; lia).
    inversion H; subst.
    + right. by rewrite feed_close.
    + left. rewrite feed_close by done. eexists. split_and!; try done. eexists. by split.
    + left. match goal with B : body (S (S n)) k |- _ => pose proof (body_bound _ _ B) end. rewrite feed_open by lia.
      eexists. split_and!; try done. eexists. by split.
    + left. rewrite feed_quote. eexists. split_and!; try done. exists n. split; [done|]. cbn. eauto 10.
    + left. rewrite feed_other by done. eexists. split_and!; try done. exists n. by split.
Qed.

(** The bytes of an object, up to its last. *)
Lemma rest_run s k :
  rest s k → (Z.of_nat (length k) ≤ u32_max)%Z → run k s = (gap, [decode (buf s ++ k)]).
Proof.
  revert s. induction k as [|b k IH]; intros s H Hk; [by apply rest_nonempty in H|].
  simpl in Hk. destruct (rest_step s b k H) as [(s' & E & H' & Hb)|[-> E]]; [lia| |]; rewrite (run_step _ _ _ _ _ E).
  - rewrite IH, Hb by (done || lia). by rewrite <- app_assoc.
  - done.
Qed.
Lemma rest_cut s p k :
  rest s (p ++ k) → k ≠ [] → (Z.of_nat (length (p ++ k)) ≤ u32_max)%Z →
  ∃ s', run p s = (s', []) ∧ rest s' k.
Proof.
  revert s. induction p as [|b p IH]; intros s H Hk Hl; [by exists s|].
  simpl in Hl. destruct (rest_step s b (p ++ k) H) as [(s' & E & H' & Hb)|[E' _]]; [lia| |].
  - rewrite (run_step _ _ _ _ _ E). destruct (IH s' H' Hk) as (s2 & -> & H2); [lia|]. by exists s2.
  - by destruct p.
Qed.
Lemma rest_finalize s k : rest s k → ∃ m, finalize s = Some (DecodeError m).
Proof.
  intros (_ & _ & d & E & _). unfold finalize. rewrite E.
  replace (0 <? Z.of_nat (S d))%Z with true by (symmetry; apply Z.ltb_lt; lia). eauto.
Qed.

(** An object opens from a gap. *)
Lemma gap_open l : body 1 l → feed_byte open_brace gap = (tt, inside [open_brace] 0 false false, []) ∧
  rest (inside [open_brace] 0 false false) l.
Proof. intros H. split; [done|]. split_and!; try done. by exists 0. Qed.
Lemma gap_object o : object o → (Z.of_nat (length o) ≤ u32_max)%Z → run o gap = (gap, [decode o]).
Proof.
  intros (l & -> & H) Hl. simpl in Hl. destruct (gap_open l H) as [E Hr].
  rewrite (run_step _ _ _ _ _ E), rest_run; [done|done|lia].
Qed.
Lemma gap_cut p k :
  object (p ++ k) → p ≠ [] → k ≠ [] → (Z.of_nat (length (p ++ k)) ≤ u32_max)%Z →
  ∃ s m, run p gap = (s, []) ∧ finalize s = Some (DecodeError m).
Proof.
  intros (l & E & H) Hp Hk Hl. destruct p as [|b p]; [done|]. simplify_list_eq. simpl in Hl.
  destruct (gap_open (p ++ k) H) as [E Hr]. rewrite (run_step _ _ _ _ _ E).
  destruct (rest_cut _ p k Hr Hk) as (s & -> & Hs); [lia|].
  destruct (rest_finalize s k Hs) as [m Hm]. by exists s, m.
Qed.
Lemma over_run l : run l over = (over, []).
Proof. induction l as [|b l IH]; [done|]. rewrite (run_step b l over over []) by done. by rewrite IH. Qed.
Lemma listing_run os l : listing os l → run l gap = (gap, decode <$> os).
Proof.
  induction 1 as [|b os l Hb H IH|o os l Ho Hl H IH]; [done| |].
  - assert (feed_byte b gap = (tt, gap, [])) as Eb; [|by rewrite (run_step _ _ _ _ _ Eb), IH].
    unfold feed_byte, between_objects, is_json_whitespace in *; simpl.
    destruct Hb as [Hb| ->]; [|done]. apply bool_decide_unpack in Hb. set_unfold in Hb.
    by destruct Hb as [->|[->|[->|[->|[]]]]].
  - by rewrite run_app, gap_object, IH by done.
Qed.
Definition torn_error (torn : bool) (errs : list Item) : Prop :=
  if torn then ∃ m, errs = [Err (DecodeError m)] else errs = [].
Lemma ending_run t torn :
  ending t torn → ∃ s, run t gap = (s, []) ∧ torn_error torn (Err <$> option_list (finalize s)).
Proof.
  destruct 1 as [|junk|p k Ho Hl Hp Hk].
  - by exists gap.
  - exists over. by rewrite (run_step _ _ _ over []), over_run by done.
  - destruct (gap_cut p k) as (s & m & E & Hs); [done..|]. exists s. split; [done|]. rewrite Hs. by exists m.
Qed.
Lemma prelude_run ws l : Forall is_json_whitespace ws → run (ws ++ open_bracket :: l) new_scanner = run l gap.
Proof.
  induction 1 as [|b ws Hb H IH]; simpl.
  - rewrite (run_step _ _ _ gap []) by done. by destruct (run l gap).
  - assert (feed_byte b new_scanner = (tt, new_scanner, [])) as Eb.
    { unfold feed_byte, before_array; simpl. by destruct (is_json_whitespace b). }
    rewrite (run_step _ _ _ _ _ Eb), IH. by destruct (run l gap).
Qed.

(** ** Whole bodies *)
(** The bytes that arrive, and what the scanner makes of them: its items but the
    transport errors, which are passed on as they come. *)
Definition arrived (i : result (list byte) string) : list byte := match i with Ok l => l | Err _ => [] end.
Definition transport (i : result (list byte) string) : list string := match i with Ok _ => [] | Err e => [e] end.
Definition scanned (i : Item) : option Item :=
  match i with Err (UpstreamError _) => None | _ => Some i end.
Definition passed_on (i : Item) : list string := match i with Err (UpstreamError e) => [e] | _ => [] end.

Lemma decode_scanned w : scanned (decode w) = Some (decode w).
Proof. unfold decode. by destruct (from_slice w). Qed.
Lemma feed_scanned l : emits (λ i, scanned i = Some i) (feed l).
Proof.
  apply emits_for_each. intros b. apply emits_bind; [apply emits_gets|]. intros s.
  unfold before_array, between_objects, in_object, in_literal.
  emits. apply emits_push, decode_scanned.
Qed.
Lemma omap_scanned l : Forall (λ i : Item, scanned i = Some i) l → omap scanned l = l.
Proof. induction 1 as [|i l H _ IH]; [done|]. csimpl. by rewrite H, IH. Qed.
Lemma passed_nothing l : Forall (λ i : Item, scanned i = Some i) l → l ≫= passed_on = [].
Proof. induction 1 as [|[?|[]] l H _ IH]; done. Qed.

(** Chunks are one run over the bytes, whatever their boundaries. *)
Lemma chunks_run l s :
  (Drain.feed on_chunk l s).1 = (run (l ≫= arrived) s).1 ∧
  omap scanned (Drain.feed on_chunk l s).2 = (run (l ≫= arrived) s).2 ∧
  (Drain.feed on_chunk l s).2 ≫= passed_on = l ≫= transport.
Proof.
  revert s. induction l as [|[bytes|e] l IH]; intros s; [done| |].
  - rewrite !bind_cons. cbn [Drain.feed on_chunk arrived transport app]. rewrite run_app.
    change (run bytes s) with (final (feed bytes) s, emitted (feed bytes) s). cbn iota beta.
    specialize (IH (final (feed bytes) s)).
    pose proof (feed_scanned bytes s) as Hs.
    destruct (Drain.feed on_chunk l _) as [s2 e2], (run (l ≫= arrived) _) as [s3 e3]. simpl in *.
    destruct IH as (-> & <- & <-).
    by rewrite omap_app, bind_app, omap_scanned, passed_nothing by done.
  - rewrite !bind_cons. cbn [Drain.feed on_chunk arrived transport app]. specialize (IH s). destruct (Drain.feed on_chunk l _) as [s2 e2], (run (l ≫= arrived) _) as [s3 e3].
    simpl in *. destruct IH as (-> & <- & <-). done.
Qed.

(** The objects that can be decoded. *)
Lemma torn_oks torn errs : torn_error torn errs → oks errs = [].
Proof. destruct torn; simpl; [by intros [m ->]|by intros ->]. Qed.
Lemma decode_ok o : result_ok (decode o) = result_ok (from_slice o).
Proof. unfold decode. by destruct (from_slice o). Qed.
Lemma oks_scanned (l : list Item) : oks (omap scanned l) = oks l.
Proof.
  unfold oks. induction l as [|[r|e] l IH]; [done| |].
  - csimpl. by rewrite IH.
  - destruct e; csimpl; by rewrite ?IH.
Qed.
Lemma oks_decode os : oks (decode <$> os) = omap (result_ok ∘ from_slice) os.
Proof. unfold oks. induction os as [|o os IH]; [done|]. csimpl. by rewrite decode_ok, IH. Qed.
Lemma scan_objects l ws os k t torn :
  Forall is_json_whitespace ws → listing os k → ending t torn →
  l ≫= arrived = ws ++ open_bracket :: k ++ t →
  oks (into_response_stream l) = omap (result_ok ∘ from_slice) os.
Proof.
  intros Hws Hk Ht E. destruct (ending_run t torn Ht) as (s & Es & Htorn).
  unfold into_response_stream, feed_all. destruct (chunks_run l new_scanner) as (H1 & H2 & _).
  rewrite E, (prelude_run ws _ Hws), run_app, (listing_run os k Hk), Es in H1, H2.
  destruct (Drain.feed on_chunk l new_scanner) as [s2 e2]. simpl in *. subst s2.
  by rewrite oks_app, (torn_oks _ _ Htorn), app_nil_r, <- oks_scanned, H2, app_nil_r, oks_decode.
Qed.

(** C14: an array of objects is cut into exactly its objects.  Whatever the chunk
    boundaries (inside an escape, a literal, between brackets) and whatever
    transport errors come in between, when the bytes that arrive are white space,
    the opening bracket, objects separated by white space and commas, and an end,
    the items are the decodings of the objects, in order, each exactly once, plus
    the transport errors, plus one final decode error exactly when the body ended
    in the middle of an object.  Braces, brackets and quotes inside literals are
    never taken for structure. *)
Theorem gemini_scan_frames (l : list (result (list byte) string)) ws os k t torn :
  Forall is_json_whitespace ws → listing os k → ending t torn →
  l ≫= arrived = ws ++ open_bracket :: k ++ t →
  ∃ errs, omap scanned (into_response_stream l) = (decode <$> os) ++ errs ∧ torn_error torn errs ∧
          into_response_stream l ≫= passed_on = l ≫= transport.
Proof.
  intros Hws Hk Ht E. destruct (ending_run t torn Ht) as (s & Es & Htorn).
  exists (Err <$> option_list (finalize s)).
  unfold into_response_stream, feed_all.
  destruct (chunks_run l new_scanner) as (H1 & H2 & H3).
  rewrite E, (prelude_run ws _ Hws), run_app, (listing_run os k Hk), Es in H1, H2.
  destruct (Drain.feed on_chunk l new_scanner) as [s2 e2]. simpl in *. subst s2.
  rewrite omap_app, bind_app, H2, H3, app_nil_r. split_and!; [|done|].
  - f_equal. apply omap_scanned. destruct torn; simpl in Htorn.
    + destruct Htorn as [m ->]. by constructor.
    + by rewrite Htorn.
  - rewrite <- (app_nil_r (l ≫= transport)) at 2. f_equal. destruct torn; simpl in Htorn.
    + by destruct Htorn as [m ->].
    + by rewrite Htorn.
Qed.

(** ** Any bytes at all *)
(** After the bytes [c]: the scanner is between objects, or keeps the bytes since
    the brace that opened one, which any completion of its state completes. *)
Definition sound (c : list byte) (s : Scanner) : Prop :=
  s = set_buf [] s ∧ depth s = 0%Z ∧ in_string s = false ∧ escape_pending s = false ∨
  ∃ p w d q e, s = inside w d q e ∧ c = p ++ w ∧ (S d ≤ length w)%nat ∧ (q = false → e = false) ∧
    ∀ k, rest (inside w d q e) k → object (w ++ k).
Definition framed (c : list byte) (i : Item) : Prop :=
  ∀ r, i = Ok r → ∃ p o q, c = p ++ o ++ q ∧ object o ∧ from_slice o = Ok r.

Lemma framed_app c b i : framed c i → framed (c ++ [b]) i.
Proof. intros H r Hr. destruct (H r Hr) as (p & o & q & -> & Ho). exists p, o, (q ++ [b]). by rewrite !app_assoc. Qed.
Lemma rest_inside w d q e k :
  rest (inside w d q e) k ↔
  if q then ∃ a c, k = a ++ c ∧ body (S d) c ∧ (if e then ∃ b a', a = b :: a' ∧ literal a' else literal a)
  else e = false ∧ body (S d) k.
Proof.
  unfold rest; cbn -[Z.of_nat]. split.
  - intros (_ & _ & n & H%(inj Z.of_nat) & Hn). by simplify_eq.
  - intros H. split_and!; try done. by exists d.
Qed.
Lemma rest_back w d q e s b k :
  (q = false → e = false) → (Z.of_nat (S (S d)) ≤ u32_max)%Z →
  feed_byte b (inside w d q e) = (tt, s, []) → rest s k → rest (inside w d q e) (b :: k).
Proof.
  intros He Hd E H. rewrite rest_inside. destruct q.
  - rewrite feed_literal in E. simplify_eq. rewrite rest_inside in H. destruct e; simpl in *.
    + destruct H as (a & c & -> & Hc & H). exists (b :: a), c. eauto 10.
    + destruct (bool_decide_reflect (b = quote)) as [->|Hq]; simpl in *.
      * destruct H as [_ H]. exists [quote], k. split_and!; try done. constructor.
      * destruct H as (a & c & -> & Hc & H). exists (b :: a), c. split_and!; try done.
        destruct (bool_decide_reflect (b = backslash)) as [->|]; simpl in H; [|by constructor].
        destruct H as (b' & a' & -> & H). by constructor.
  - rewrite (He eq_refl) in *. split; [done|].
    destruct (decide (b = quote)) as [->|Hq];
      [|destruct (decide (b = open_brace)) as [->|Ho]; [|destruct (decide (b = close_brace)) as [->|Hc]]].
    + rewrite feed_quote in E. simplify_eq. apply rest_inside in H as (a & c & -> & Hc & H). by constructor.
    + rewrite feed_open in E by done. simplify_eq. apply rest_inside in H as [_ H]. by constructor.
    + rewrite feed_close in E by lia. destruct d as [|d]; [done|]. simplify_eq.
      apply rest_inside in H as [_ H]. by constructor.
    + rewrite feed_other in E by done. simplify_eq. apply rest_inside in H as [_ H]. by constructor.
Qed.
(** What a byte does inside an object: a new state inside, or the object. *)
Lemma inside_step w d q e b :
  (q = false → e = false) → (Z.of_nat (S (S d)) ≤ u32_max)%Z →
  (∃ d' q' e', feed_byte b (inside w d q e) = (tt, inside (w ++ [b]) d' q' e', []) ∧ (d' ≤ S d)%nat ∧
     (q' = false → e' = false)) ∨
  (d = 0 ∧ q = false ∧ b = close_brace ∧ feed_byte b (inside w d q e) = (tt, gap, [decode (w ++ [b])])).
Proof.
  intros He Hd. destruct q.
  { left. rewrite feed_literal. eexists _, _, _. split; [done|]. split; [lia|].
    destruct e; [done|]. simpl. destruct (bool_decide_reflect (b = quote)) as [->|]; done. }
  rewrite (He eq_refl).
  destruct (decide (b = quote)) as [->|Hq];
    [|destruct (decide (b = open_brace)) as [->|Ho]; [|destruct (decide (b = close_brace)) as [->|Hc]]].
  - left. rewrite feed_quote. eexists _, _, _. split; [done|]. split; [lia|done].
  - left. rewrite feed_open by done. eexists _, _, _. split; [done|]. split; [lia|done].
  - rewrite feed_close by lia. destruct d as [|d]; [by right|].
    left. eexists _, _, _. split; [done|]. split; [lia|done].
  - left. rewrite feed_other by done. eexists _, _, _. split; [done|]. split; [lia|done].
Qed.
Lemma sound_gap c s : buf s = [] → depth s = 0%Z → in_string s = false → escape_pending s = false → sound c s.
Proof. intros H. left. split; [|done]. destruct s; simpl in H. by rewrite H. Qed.
Lemma outside_step c b s :
  buf s = [] → depth s = 0%Z → in_string s = false → escape_pending s = false →
  sound (c ++ [b]) (final (feed_byte b) s) ∧ Forall (framed (c ++ [b])) (emitted (feed_byte b) s).
Proof.
  destruct s as [w st fi d q e]; simpl. intros -> -> -> ->. unfold feed_byte; simpl.
  destruct fi; [split; [by apply sound_gap|constructor]|].
  destruct st; simpl; unfold before_array, between_objects, final, emitted.
  - destruct (bool_decide_reflect (b = open_brace)) as [->|]; simpl.
    { split; [|constructor]. right. exists c, [open_brace], 0, false, false. split_and!; try done.
      intros k [_ Hk]%rest_inside. by exists k. }
    repeat case_match; simpl; (split; [by apply sound_gap|]); repeat constructor; done.
  - repeat case_match; simpl; (split; [by apply sound_gap|]); repeat constructor; done.
Qed.
Lemma sound_step c b s :
  sound c s → (Z.of_nat (length c) + 2 ≤ u32_max)%Z →
  sound (c ++ [b]) (final (feed_byte b) s) ∧ Forall (framed (c ++ [b])) (emitted (feed_byte b) s).
Proof.
  intros [(E & H2 & H3 & H4)|(p & w & d & q & e & -> & -> & Hd & He & Hk)] Hc.
  { apply outside_step; [|done..]. by rewrite E. }
  rewrite length_app in Hc.
  destruct (inside_step w d q e b He) as [(d' & q' & e' & E & Hd' & He')|(-> & -> & -> & E)]; [lia| |];
    unfold final, emitted; rewrite E; simpl.
  - split; [|constructor]. right. exists p, (w ++ [b]), d', q', e'. rewrite length_app. split_and!; try done.
    + by rewrite app_assoc.
    + simpl. lia.
    + intros k Hr. rewrite <- app_assoc. apply Hk. eapply rest_back; [done| |done|done]. lia.
  - split; [by apply sound_gap|]. constructor; [|constructor]. intros r Hr.
    exists p, (w ++ [close_brace]), []. rewrite app_nil_r, app_assoc. split; [done|]. split.
    + apply Hk, rest_inside. split; [by apply He|]. constructor.
    + unfold decode in Hr. by destruct (from_slice _); simplify_eq.
Qed.
Lemma sound_run l c s :
  sound c s → (Z.of_nat (length (c ++ l)) + 1 ≤ u32_max)%Z → Forall (framed (c ++ l)) (run l s).2.
Proof.
  revert c s. induction l as [|b l IH]; intros c s H Hl; [constructor|].
  rewrite length_app in Hl; simpl in Hl.
  destruct (feed_byte b s) as [[[] s'] e] eqn:E. rewrite (run_step _ _ _ _ _ E).
  destruct (sound_step c b s H) as [Hs He]; [lia|].
  unfold final, emitted in Hs, He. rewrite E in Hs, He. simpl in Hs, He.
  specialize (IH (c ++ [b]) s' Hs). rewrite <- app_assoc in IH. cbn [app] in IH.
  destruct (run l s') as [s2 e2]. simpl. apply Forall_app. split.
  - eapply Forall_impl; [done|]. intros i Hi r Hr. destruct (Hi r Hr) as (p & o & q & Hc & Ho).
    exists p, o, (q ++ l). by rewrite !app_assoc, <- (app_assoc p), <- Hc, <- app_assoc.
  - apply IH. rewrite length_app. simpl. lia.
Qed.

(** Nothing is made up.  Whatever bytes a Gemini upstream sends (below 4 GiB), in
    whatever chunks, a response the scanner yields was decoded from a contiguous
    part of those bytes that is one balanced object: its first brace opens it, its
    last closes it, and the quotes and escapes in between are well formed. *)
Theorem gemini_scan_sound (l : list (result (list byte) string)) r :
  (Z.of_nat (length (l ≫= arrived)) < u32_max)%Z → Ok r ∈ into_response_stream l →
  ∃ p o q, l ≫= arrived = p ++ o ++ q ∧ object o ∧ from_slice o = Ok r.
Proof.
  intros Hl Hr. destruct (chunks_run l new_scanner) as (_ & H2 & _).
  assert (Forall (framed (l ≫= arrived)) (run (l ≫= arrived) new_scanner).2) as Hf.
  { apply (sound_run _ []); [by apply sound_gap|].
    change (Z.of_nat (length (l ≫= arrived)) + 1 ≤ u32_max)%Z. lia. }
  rewrite <- H2, Forall_forall in Hf. unfold into_response_stream, feed_all in Hr.
  destruct (Drain.feed on_chunk l new_scanner) as [s e]. simpl in *.
  apply elem_of_app in Hr as [Hr|Hr].
  - apply (Hf (Ok r)); [|done]. apply list_elem_of_omap. by exists (Ok r).
  - apply list_elem_of_fmap in Hr as (x & ? & _). done.
Qed.
End Scanner.

(** ** A body cut at odd places *)
Module Samples.
Definition bytes_of (s : string) : list byte := String.list_ascii_of_string s.
(** A decoder that keeps the text, and refuses an empty object. *)
Definition raw (w : list byte) : result string string :=
  if bool_decide (length w = 2) then Err "missing field" else Ok (String.string_of_list_ascii w).

(** A closing brace, a bracket and an escaped quote inside a literal; nested objects. *)
Definition text_object : string :=
  "{'text':'a}]" ++ String (byte_of 92) "'b'}".
Definition quoted (s : string) : list byte := (λ b, if bool_decide (b = byte_of 39) then quote else b) <$> bytes_of s.
Definition deep_object : string := "{'a':[{'b':{}},2]}".
(** The chunks cut the literal behind its backslash, and an error comes in between. *)
Definition chunks : list (result (list byte) string) :=
  [Ok (quoted " [{'text':'a}]" ++ [byte_of 92]); Err "reset"; Ok (quoted "'b'}");
   Ok (quoted (" , " ++ deep_object)); Ok (quoted "] done")].

(** Read the brackets of a concrete text; the literals are cut off by hand. *)
Ltac plain := repeat (apply literal_plain; [done..|]); constructor.
Ltac braces :=
  repeat first [apply body_end | apply body_close | apply body_open | apply body_other; [done..|]].
Lemma text_is_object : object (quoted text_object).
Proof.
  eexists. split; [reflexivity|].
  change (body 1 (quote :: quoted "text'" ++ quoted ":" ++
                  quote :: ((quoted "a}]" ++ backslash :: quote :: quoted "b'") ++ [close_brace]))).
  apply body_string; [plain|]. braces. apply body_string; [|braces].
  do 3 (apply literal_plain; [done..|]). apply literal_escape. plain.
Qed.
Lemma deep_is_object : object (quoted deep_object).
Proof.
  eexists. split; [reflexivity|].
  change (body 1 (quote :: quoted "a'" ++ quoted ":[{" ++ quote :: (quoted "b'" ++ quoted ":{}},2]}"))).
  apply body_string; [plain|]. braces. apply body_string; [plain|]. braces.
Qed.
Lemma chunks_arrive :
  chunks ≫= arrived =
    [byte_of 32] ++ open_bracket ::
    (quoted text_object ++ byte_of 32 :: comma :: byte_of 32 :: quoted deep_object ++ []) ++ close_bracket :: quoted " done".
Proof. reflexivity. Qed.
Lemma chunk_listing :
  listing [quoted text_object; quoted deep_object]
    (quoted text_object ++ byte_of 32 :: comma :: byte_of 32 :: quoted deep_object ++ []).
Proof.
  apply an_object; [apply text_is_object|done|].
  apply skip_gap; [by left|]. apply skip_gap; [by right|]. apply skip_gap; [by left|].
  apply an_object; [apply deep_is_object|done|]. constructor.
Qed.

(** The two objects, whole, and the transport error. *)
Lemma gemini_scan_frames_witness :
  omap scanned (into_response_stream raw chunks) =
    [decode raw (quoted text_object); decode raw (quoted deep_object)] ∧
  into_response_stream raw chunks ≫= passed_on = ["reset"].
Proof.
  destruct (gemini_scan_frames raw chunks [byte_of 32] [quoted text_object; quoted deep_object] _ _ false
              ltac:(by repeat constructor) chunk_listing (ends_closed _) chunks_arrive) as (errs & E & Ht & P).
  split; [|exact P]. rewrite E. unfold torn_error in Ht. by rewrite Ht.
Defined.
Lemma gemini_scan_sound_witness :
  ∃ p o q, chunks ≫= arrived = p ++ o ++ q ∧ object o ∧
    raw o = Ok (String.string_of_list_ascii (quoted deep_object)).
Proof. apply (gemini_scan_sound raw chunks); [done|]. vm_compute. set_solver. Defined.

(** A body that ends inside a literal; bytes that are not an array. *)
Example torn_body :
  into_response_stream raw [Ok (quoted "[{'a"); Ok (quoted "b")] =
    [Err (DecodeError "Gemini stream ended mid-object (depth=1, in_string=true)")].
Proof. vm_compute. reflexivity. Qed.
Example not_an_array :
  into_response_stream raw [Ok (quoted " {'a':1}]")] =
    [Err (DecodeError "expected `[` at start of Gemini stream, got byte 0x7b")].
Proof. vm_compute. reflexivity. Qed.
(** A stray byte is reported and the scan goes on; so is an object that cannot be decoded. *)
Example stray_byte :
  into_response_stream raw [Ok (quoted "[x{},{'a':1}")] =
    [Err (DecodeError "unexpected byte 0x78 between Gemini stream objects");
     Err (DecodeError "failed to decode Gemini stream object: missing field");
     Ok (String.string_of_list_ascii (quoted "{'a':1}"))].
Proof. vm_compute. reflexivity. Qed.
End Samples.
