(* ===== verification/Http.v ===== *)
(** * HTTP as the providers use it (crates/providers/src/http_client.rs and the
    reqwest calls of the providers)

    A request that is sent, and the answer: a status, the content type and the
    chunks of the body.  Connections, TLS and the tracing headers are reqwest's. *)
From S2P Require Import Prelude Fallback GeminiScan.
#[local] Open Scope string_scope.
#[local] Open Scope list_scope.

(** [RequestBuilder::header] appends: an earlier header of the same name stays. *)
Record HttpRequest := { url : string; headers : list (string * string); payload : list byte }.
(** [content_type] is [None] when the header is absent or no text. *)
Record HttpResponse := {
  status : Z;
  content_type : option string;
  chunks : list (result (list byte) string);
}.
(** [StatusCode::is_success]. *)
Definition is_success (code : Z) : bool := (200 <=? code)%Z && (code <? 300)%Z.
Lemma is_success_true c : (200 ≤ c < 300)%Z → is_success c = true.
Proof. intros H. apply andb_true_iff. split; [apply Z.leb_le|apply Z.ltb_lt]; lia. Qed.
Lemma is_success_false c : ¬ (200 ≤ c < 300)%Z → is_success c = false.
Proof.
  intros H. apply andb_false_iff. destruct (Z.leb_spec 200 c); [|by left]. right. apply Z.ltb_ge. lia.
Qed.
(** [response.bytes()]: the whole body, or the first transport error. *)
Definition read_bytes (l : list (result (list byte) string)) : result (list byte) string :=
  foldr (λ chunk rest, let? b := chunk in result_map (app b) rest) (Ok []) l.

(** [str::trim_end_matches('/')]. *)
Fixpoint trim_end_slashes (s : string) : string :=
  match s with
  | EmptyString => EmptyString
  | String c s' =>
      match trim_end_slashes s' with
      | EmptyString => if bool_decide (c = Ascii.ascii_of_nat 47) then EmptyString else String c EmptyString
      | t => String c t
      end
  end.

(** ** Default headers

    [HeaderName::from_bytes] and [HeaderValue::from_str] are parameters; the map
    keeps one value per name, at the place of the first. *)
Section Headers.
Context (header_name header_value : string → result string string).
Definition insert_header (k v : string) (hs : list (string * string)) : list (string * string) :=
  if existsb (λ h, bool_decide (h.1 = k)) hs
  then (λ h, if bool_decide (h.1 = k) then (k, v) else h) <$> hs
  else hs ++ [(k, v)].
Fixpoint default_header_map (l hs : list (string * string)) : result (list (string * string)) ProviderError :=
  match l with
  | [] => Ok hs
  | (k, v) :: l' =>
      let? name := map_err (λ e, Encode ("invalid header name: " ++ e)) (header_name k) in
      let? val := map_err (λ e, Encode ("invalid header value: " ++ e)) (header_value v) in
      default_header_map l' (insert_header name val hs)
  end.
End Headers.
