(* ===== verification/Passthrough.v ===== *)
(** * The raw Anthropic passthrough (crates/providers/src/anthropic/passthrough.rs)

    The model name of a JSON body is replaced in place: a scanner finds the bytes
    of the value of the top-level [model] and the rest is kept byte for byte.  The
    bodies are described by a grammar of JSON texts, and the scanner is proved
    against an operation on the members of an object.  serde_json, which handles
    the bodies the scanner gives up on, is a parameter. *)
From S2P Require Import Prelude Json Fallback GeminiScan ChatFlavors.
#[local] Open Scope string_scope.
#[local] Open Scope list_scope.
#[local] Open Scope nat_scope.

(** ** Bytes *)
Definition colon : byte := byte_of 58.
Definition minus : byte := byte_of 45.
Definition bytes (s : string) : list byte := String.list_ascii_of_string s.
Definition is_digit (b : byte) : bool :=
  let n := Ascii.nat_of_ascii b in (48 <=? n) && (n <=? 57).
(** [b'0'..=b'9' | b'-' | b'+' | b'.' | b'e' | b'E']. *)
Definition is_number_byte (b : byte) : bool :=
  is_digit b || bool_decide (b ∈ [minus; byte_of 43; byte_of 46; byte_of 101; byte_of 69]).

(** ** The scanner

    Positions are offsets in the body, which they may exceed; [body.get(i)] is
    [body !! i].  A loop is given fuel: [None] on the outside when it runs out. *)
Record Span := { start : nat; end_ : nat }.

Definition needs_no_json_escape (s : string) : bool :=
  forallb (λ b, let n := Ascii.nat_of_ascii b in
    (32 <=? n) && (n <=? 126) && negb (bool_decide (b = quote)) && negb (bool_decide (b = backslash))) (bytes s).

(** A step that can run out of fuel ([None]) or give up ([Some None]). *)
#[local] Notation "'let??' x ':=' c 'in' k" :=
  (match c with Some (Some x) => k | Some None => Some None | None => None end)
  (at level 200, x name, k at level 200).

(** [while let Some(&b) = body.get(i)], as long as [b] is one of [p]. *)
Fixpoint skip_while (p : byte → bool) (fuel : nat) (body : list byte) (i : nat) : option nat :=
  match fuel with
  | 0 => None
  | S fuel' =>
      match body !! i with
      | Some b => if p b then skip_while p fuel' body (S i) else Some i
      | None => Some i
      end
  end.
Definition skip_whitespace (fuel : nat) (body : list byte) (i : nat) : option nat :=
  skip_while is_json_whitespace fuel body i.

Fixpoint scan_string_end (fuel : nat) (body : list byte) (i : nat) : option (option nat) :=
  match fuel with
  | 0 => None
  | S fuel' =>
      match body !! i with
      | None => Some None
      | Some b =>
          if bool_decide (b = backslash) then scan_string_end fuel' body (i + 2)
          else if bool_decide (b = quote) then Some (Some i)
          else scan_string_end fuel' body (S i)
      end
  end.

(** The loop of [scan_balanced], from a position and a depth. *)
Fixpoint balanced_from (fuel : nat) (body : list byte) (open close : byte) (depth : Z) (i : nat)
    : option (option nat) :=
  match fuel with
  | 0 => None
  | S fuel' =>
      match body !! i with
      | None => Some None
      | Some b =>
          if bool_decide (b = open) then balanced_from fuel' body open close (u32_add depth 1) (S i)
          else if bool_decide (b = close) then
            let depth := wrap32 (depth - 1) in
            if bool_decide (depth = 0%Z) then Some (Some (S i))
            else balanced_from fuel' body open close depth (S i)
          else if bool_decide (b = quote) then
            let?? e := scan_string_end fuel' body (S i) in
            balanced_from fuel' body open close depth (S e)
          else balanced_from fuel' body open close depth (S i)
      end
  end.
Definition scan_balanced (fuel : nat) (body : list byte) (i : nat) (open close : byte) : option (option nat) :=
  balanced_from fuel body open close 0 i.

Definition scan_value_end (fuel : nat) (body : list byte) (i : nat) : option (option nat) :=
  match body !! i with
  | None => Some None
  | Some first =>
      if bool_decide (first = quote) then
        let?? e := scan_string_end fuel body (S i) in Some (Some (S e))
      else if bool_decide (first = open_brace) then scan_balanced fuel body i open_brace close_brace
      else if bool_decide (first = open_bracket) then scan_balanced fuel body i open_bracket close_bracket
      else if bool_decide (first = byte_of 116) || bool_decide (first = byte_of 110) then Some (Some (i + 4))
      else if bool_decide (first = byte_of 102) then Some (Some (i + 5))
      else if bool_decide (first = minus) || is_digit first then
        Some <$> skip_while is_number_byte fuel body i
      else Some None
  end.

(** [body.get(a..b)]. *)
Definition slice (body : list byte) (a b : nat) : option (list byte) :=
  if (a <=? b) && (b <=? length body) then Some (take (b - a) (drop a body)) else None.

(** The loop over the members, [steps] of them. *)
Fixpoint find_member (steps fuel : nat) (body field : list byte) (i : nat) : option (option Span) :=
  match steps with
  | 0 => None
  | S steps' =>
      let?? i := Some <$> skip_whitespace fuel body i in
      if bool_decide (body !! i = Some quote) then
        let key_start := S i in
        let?? key_end := scan_string_end fuel body key_start in
        let?? key := Some (slice body key_start key_end) in
        let?? i := Some <$> skip_whitespace fuel body (S key_end) in
        if negb (bool_decide (body !! i = Some colon)) then Some None
        else
          let?? value_start := Some <$> skip_whitespace fuel body (S i) in
          let?? value_end := scan_value_end fuel body value_start in
          if bool_decide (key = field) then
            Some (if bool_decide (body !! value_start = Some quote)
                  then Some {| start := value_start; end_ := value_end |} else None)
          else
            let?? i := Some <$> skip_whitespace fuel body value_end in
            if bool_decide (body !! i = Some comma) then find_member steps' fuel body field (S i)
            else Some None
      else Some None
  end.

Definition find_top_level_string_value_span (fuel : nat) (body field : list byte) : option (option Span) :=
  let?? i := Some <$> skip_whitespace fuel body 0 in
  if bool_decide (body !! i = Some open_brace) then find_member fuel fuel body field (S i) else Some None.

(** Enough fuel for any loop over the body. *)
Definition enough (body : list byte) : nat := S (S (length body)).

(** ** Rewriting the model *)
Section Rewrite.
Context (from_slice : list byte → result tree string) (to_vec : tree → result (list byte) string).

(** The round trip through serde_json, which the other providers always take. *)
Definition rewrite_by_value (what : string) (body : list byte) (upstream_model : string)
    : result (list byte) ProviderError :=
  let? value := map_err Decode (from_slice body) in
  match value with
  | TObj fs => map_err Encode (to_vec (TObj (insert_key "model" (TStr upstream_model) fs)))
  | _ => Err (Decode (what ++ " request body must be a JSON object")%string)
  end.

Definition quoted_bytes (s : string) : list byte := quote :: bytes s ++ [quote].

(** [None]: the scanner did not return. *)
Definition rewrite_model (body : list byte) (upstream_model : string)
    : option (result (list byte) ProviderError) :=
  span ← (if needs_no_json_escape upstream_model
          then find_top_level_string_value_span (enough body) body (bytes "model") else Some None);
  Some match span with
       | Some s => Ok (take (start s) body ++ quoted_bytes upstream_model ++ drop (end_ s) body)
       | None => rewrite_by_value "Anthropic Messages" body upstream_model
       end.
End Rewrite.

(** ** The loops on what is left of the body *)
Fixpoint leading (p : byte → bool) (l : list byte) : nat :=
  match l with b :: l' => if p b then S (leading p l') else 0 | [] => 0 end.
Fixpoint string_length (escaped : bool) (l : list byte) : option nat :=
  match l with
  | [] => None
  | b :: l' =>
      if escaped then S <$> string_length false l'
      else if bool_decide (b = backslash) then S <$> string_length true l'
      else if bool_decide (b = quote) then Some 0
      else S <$> string_length false l'
  end.
Inductive Mode := Outside | InString | Escaped.
Fixpoint container_length (open close : byte) (m : Mode) (d : Z) (l : list byte) : option nat :=
  match l with
  | [] => None
  | b :: l' =>
      match m with
      | Escaped => S <$> container_length open close InString d l'
      | InString =>
          let m' := if bool_decide (b = backslash) then Escaped else if bool_decide (b = quote) then Outside else InString in
          S <$> container_length open close m' d l'
      | Outside =>
          if bool_decide (b = open) then S <$> container_length open close Outside (u32_add d 1) l'
          else if bool_decide (b = close) then
            if bool_decide (wrap32 (d - 1) = 0%Z) then Some 1
            else S <$> container_length open close Outside (wrap32 (d - 1)) l'
          else S <$> container_length open close (if bool_decide (b = quote) then InString else Outside) d l'
      end
  end.
Definition value_length (l : list byte) : option nat :=
  match l with
  | [] => None
  | b :: l' =>
      if bool_decide (b = quote) then (λ n, S (S n)) <$> string_length false l'
      else if bool_decide (b = open_brace) then container_length open_brace close_brace Outside 0 l
      else if bool_decide (b = open_bracket) then container_length open_bracket close_bracket Outside 0 l
      else if bool_decide (b = byte_of 116) || bool_decide (b = byte_of 110) then Some 4
      else if bool_decide (b = byte_of 102) then Some 5
      else if bool_decide (b = minus) || is_digit b then Some (leading is_number_byte l)
      else None
  end.

Lemma drop_at (body : list byte) i : drop i body = match body !! i with Some b => b :: drop (S i) body | None => [] end.
Proof.
  destruct (body !! i) as [b|] eqn:E; [by apply drop_S|].
  apply drop_ge. by apply lookup_ge_None.
Qed.

Lemma skip_while_leading p fuel body i :
  length body - i < fuel → skip_while p fuel body i = Some (i + leading p (drop i body)).
Proof.
  revert i. induction fuel as [|fuel IH]; intros i H; [lia|]. simpl. rewrite drop_at.
  destruct (body !! i) as [b|] eqn:E; simpl; [|f_equal; lia].
  apply lookup_lt_Some in E. destruct (p b); [rewrite IH by lia|]; f_equal; lia.
Qed.

(** Both sides add offsets to the same length, if there is one. *)
Ltac offsets :=
  simpl;
  repeat match goal with
  | |- context [string_length ?e ?l] => destruct (string_length e l); simpl
  | |- context [container_length ?o ?c ?m ?d ?l] => destruct (container_length o c m d l); simpl
  end; repeat f_equal; (done || lia).

Lemma scan_string_end_length fuel body i :
  length body - i < fuel → scan_string_end fuel body i = Some (Nat.add i <$> string_length false (drop i body)).
Proof.
  revert i. induction fuel as [|fuel IH]; intros i H; [lia|]. simpl. rewrite drop_at.
  destruct (body !! i) as [b|] eqn:E; simpl; [|done]. apply lookup_lt_Some in E.
  case_bool_decide; [|case_bool_decide].
  - rewrite IH by lia. rewrite (drop_at body (S i)). replace (i + 2) with (S (S i)) by lia.
    destruct (body !! S i) eqn:E'; simpl; [offsets|].
    apply lookup_ge_None in E'. by rewrite drop_ge by lia.
  - simpl. f_equal; f_equal; lia.
  - rewrite IH by lia. offsets.
Qed.

Lemma container_string o c d l :
  container_length o c InString d l =
    match string_length false l with
    | Some e => Nat.add (S e) <$> container_length o c Outside d (drop (S e) l)
    | None => None
    end ∧
  container_length o c Escaped d l =
    match string_length true l with
    | Some e => Nat.add (S e) <$> container_length o c Outside d (drop (S e) l)
    | None => None
    end.
Proof.
  induction l as [|b l [IH1 IH2]]; [done|]. simpl. split.
  - case_bool_decide; [|case_bool_decide].
    + rewrite IH2. destruct (string_length true l); simpl; [|done]. by rewrite <- option_fmap_compose.
    + simpl. by rewrite drop_0.
    + rewrite IH1. destruct (string_length false l); simpl; [|done]. by rewrite <- option_fmap_compose.
  - rewrite IH1. destruct (string_length false l); simpl; [|done]. by rewrite <- option_fmap_compose.
Qed.

Lemma balanced_length fuel body o c d i :
  length body - i < fuel →
  balanced_from fuel body o c d i = Some (Nat.add i <$> container_length o c Outside d (drop i body)).
Proof.
  revert i d. induction fuel as [|fuel IH]; intros i d H; [lia|]. cbn [balanced_from]. rewrite drop_at.
  destruct (body !! i) as [b|] eqn:E; cbn [container_length]; [|done]. apply lookup_lt_Some in E.
  case_bool_decide; [rewrite IH by lia; offsets|].
  case_bool_decide; [case_bool_decide; [offsets|rewrite IH by lia; offsets]|].
  case_bool_decide; [|rewrite IH by lia; offsets].
  rewrite scan_string_end_length by lia. rewrite (proj1 (container_string o c d (drop (S i) body))).
  destruct (string_length false (drop (S i) body)) as [e|]; cbn [fmap option_fmap option_map]; [|done].
  rewrite IH by lia. rewrite drop_drop. replace (S (S i + e)) with (S i + S e) by lia.
  destruct (container_length o c Outside d (drop (S i + S e) body)); simpl; f_equal; f_equal; lia.
Qed.

Lemma scan_value_end_length fuel body i :
  length body < fuel → scan_value_end fuel body i = Some (Nat.add i <$> value_length (drop i body)).
Proof.
  intros H. unfold scan_value_end. rewrite drop_at. destruct (body !! i) as [b|] eqn:E; [|done]. cbn [value_length].
  replace (b :: drop (S i) body) with (drop i body) by (by rewrite drop_at, E).
  case_bool_decide.
  { rewrite scan_string_end_length by lia. destruct (string_length false (drop (S i) body)); simpl; [|done].
    f_equal; f_equal; lia. }
  do 2 (case_bool_decide; [unfold scan_balanced; by rewrite balanced_length by lia|]).
  destruct (_ || _); [done|]. case_bool_decide; [done|]. destruct (_ || _); [|done]. by rewrite skip_while_leading by lia.
Qed.

(** ** A grammar of JSON texts

    Strings are as [literal] has them; numbers are any run of the bytes numbers
    are made of. *)
Definition spaces (w : list byte) : Prop := Forall (λ b, is_json_whitespace b = true) w.
Record Member := {
  lead : list byte;
  key : list byte;
  after_key : list byte;
  before_value : list byte;
  text : list byte;
  trail : list byte;
}.
Definition member_text (m : Member) : list byte :=
  lead m ++ quote :: key m ++ quote :: after_key m ++ colon :: before_value m ++ text m ++ trail m.
Record Element := { before : list byte; item : list byte; after : list byte }.
Definition element_text (e : Element) : list byte := before e ++ item e ++ after e.
(** The texts, separated by commas. *)
Fixpoint commas (l : list (list byte)) : list byte :=
  match l with [] => [] | [t] => t | t :: l' => t ++ comma :: commas l' end.
Definition object_text (ms : list Member) : list byte :=
  open_brace :: commas (member_text <$> ms) ++ [close_brace].
Definition array_text (es : list Element) : list byte :=
  open_bracket :: commas (element_text <$> es) ++ [close_bracket].

Inductive json_text : list byte → Prop :=
| text_string l : literal l → json_text (quote :: l)
| text_number b l : b = minus ∨ is_digit b = true → Forall (λ b, is_number_byte b = true) l → json_text (b :: l)
| text_true : json_text (bytes "true")
| text_false : json_text (bytes "false")
| text_null : json_text (bytes "null")
| text_array es : json_elements es → json_text (array_text es)
| text_no_elements w : spaces w → json_text (open_bracket :: w ++ [close_bracket])
| text_object ms : json_members ms → json_text (object_text ms)
| text_no_members w : spaces w → json_text (open_brace :: w ++ [close_brace])
with json_elements : list Element → Prop :=
| elements_nil : json_elements []
| elements_cons e es :
    spaces (before e) → spaces (after e) → json_text (item e) → json_elements es → json_elements (e :: es)
with json_members : list Member → Prop :=
| members_nil : json_members []
| members_cons m ms :
    spaces (lead m) → literal (key m ++ [quote]) → spaces (after_key m) → spaces (before_value m) →
    spaces (trail m) → json_text (text m) → json_members ms → json_members (m :: ms).
Scheme json_text_mut := Minimality for json_text Sort Prop
  with json_elements_mut := Minimality for json_elements Sort Prop
  with json_members_mut := Minimality for json_members Sort Prop.
Combined Scheme json_mut from json_text_mut, json_elements_mut, json_members_mut.

(** ** Texts a bracket counter walks over *)
Definition transparent (o c : byte) (v : list byte) : Prop :=
  ∀ d k, (1 ≤ d)%Z → (d + Z.of_nat (length v) ≤ u32_max)%Z →
    container_length o c Outside d (v ++ k) = Nat.add (length v) <$> container_length o c Outside d k.

Lemma transparent_nil o c : transparent o c [].
Proof. intros d k _ _. simpl. by destruct (container_length o c Outside d k). Qed.
Lemma transparent_app o c v w : transparent o c v → transparent o c w → transparent o c (v ++ w).
Proof.
  intros Hv Hw d k Hd Hl. rewrite length_app in Hl |- *. rewrite <- app_assoc, Hv, Hw by lia.
  destruct (container_length o c Outside d k); simpl; [|done]. f_equal; lia.
Qed.
Definition plain (o c b : byte) : Prop := b ≠ o ∧ b ≠ c ∧ b ≠ quote.
Lemma transparent_plain o c v : Forall (plain o c) v → transparent o c v.
Proof.
  induction 1 as [|b v (Ho & Hc & Hq) _ IH]; [apply transparent_nil|]. intros d k Hd Hl. simpl in Hl |- *.
  rewrite !bool_decide_eq_false_2, IH by (done || lia). by destruct (container_length o c Outside d k).
Qed.
Lemma transparent_wrap o c v :
  o ≠ c → transparent o c v → transparent o c (o :: v ++ [c]).
Proof.
  intros Hoc Hv d k Hd Hl. simpl in Hl |- *. rewrite length_app in Hl |- *. simpl in Hl |- *.
  rewrite bool_decide_eq_true_2 by done. rewrite u32_add_small by (unfold is_u32; lia).
  rewrite <- app_assoc, Hv by lia. simpl. rewrite (bool_decide_eq_false_2 (c = o)), (bool_decide_eq_true_2 (c = c)) by done.
  replace (d + 1 - 1)%Z with d by lia. rewrite wrap32_small, bool_decide_eq_false_2 by (unfold is_u32; lia).
  destruct (container_length o c Outside d k); simpl; [|done]. f_equal; lia.
Qed.
Lemma string_length_literal l k : literal l → string_length false (l ++ k) = Some (length l - 1) ∧ 0 < length l.
Proof.
  induction 1 as [|b l _ [IH Hl]|b l Hq Hb _ [IH Hl]]; simpl.
  - split; [done|lia].
  - rewrite IH. split; [simpl; f_equal; lia|lia].
  - rewrite !bool_decide_eq_false_2, IH by done. split; [simpl; f_equal; lia|lia].
Qed.
Lemma transparent_string o c l : o ≠ quote → c ≠ quote → literal l → transparent o c (quote :: l).
Proof.
  intros Ho Hc Hl d k _ _. simpl. rewrite !(bool_decide_eq_false_2 (quote = _)) by done.
  rewrite (proj1 (container_string o c d (l ++ k))). destruct (string_length_literal l k Hl) as [-> Hpos].

  replace (S (length l - 1)) with (length l) by lia. rewrite drop_app_length. by destruct (container_length o c Outside d k).
Qed.

(** The two kinds of brackets the scanner counts. *)
Definition brackets (p : byte * byte) : Prop :=
  p = (open_brace, close_brace) ∨ p = (open_bracket, close_bracket).
Definition soft (b : byte) : bool :=
  is_json_whitespace b || is_number_byte b || bool_decide (b ∈ bytes "truefalsnull:,").
Lemma soft_plain b p : soft b = true → brackets p → plain p.1 p.2 b.
Proof.
  intros H [->| ->]; split_and!; intros ->; revert H; by vm_compute.
Qed.
Lemma transparent_soft p v : brackets p → Forall (λ b, soft b = true) v → transparent p.1 p.2 v.
Proof. intros Hp H. apply transparent_plain. eapply Forall_impl; [exact H|]. intros b Hb. by apply soft_plain. Qed.
Lemma spaces_soft w : spaces w → Forall (λ b, soft b = true) w.
Proof. intros H. eapply Forall_impl; [exact H|]. intros b Hb. unfold soft. by rewrite Hb. Qed.
Lemma numbers_soft w : Forall (λ b, is_number_byte b = true) w → Forall (λ b, soft b = true) w.
Proof. intros H. eapply Forall_impl; [exact H|]. intros b Hb. unfold soft. by rewrite Hb, orb_true_r. Qed.
Lemma number_head b : b = minus ∨ is_digit b = true → is_number_byte b = true.
Proof. intros [->|H]; [done|]. unfold is_number_byte. by rewrite H. Qed.

Section Transparent.
Context (p : byte * byte) (Hp : brackets p).
#[local] Abbreviation through := (transparent p.1 p.2).
Lemma through_brackets v : through v → through (open_brace :: v ++ [close_brace]) ∧ through (open_bracket :: v ++ [close_bracket]).
Proof.
  intros Hv. destruct Hp as [E|E]; rewrite E in *; cbn [fst snd] in *; split.
  1, 4: by apply transparent_wrap.
  - apply (transparent_app _ _ [open_bracket]), transparent_app; [|done|]; by apply transparent_plain; repeat constructor.
  - apply (transparent_app _ _ [open_brace]), transparent_app; [|done|]; by apply transparent_plain; repeat constructor.
Qed.
Lemma through_string l : literal l → through (quote :: l).
Proof. destruct Hp as [-> | ->]; by apply transparent_string. Qed.
Lemma through_soft v : Forall (λ b, soft b = true) v → through v.
Proof. by apply transparent_soft. Qed.
Lemma through_commas l : Forall (λ t, through t) l → through (commas l).
Proof.
  induction 1 as [|t l Ht _ IH]; [apply transparent_nil|]. destruct l as [|u l]; [done|]. cbn [commas].
  apply transparent_app; [done|]. apply (transparent_app _ _ [comma]); [|done]. apply through_soft. by repeat constructor.
Qed.
Lemma through_json :
  (∀ v, json_text v → through v) ∧
  (∀ es, json_elements es → Forall (λ t, through t) (element_text <$> es)) ∧
  (∀ ms, json_members ms → Forall (λ t, through t) (member_text <$> ms)).
Proof.
  apply json_mut.
  - apply through_string.
  - intros b l Hb Hl. apply through_soft, numbers_soft. constructor; [by apply number_head|done].
  - apply through_soft. by repeat constructor.
  - apply through_soft. by repeat constructor.
  - apply through_soft. by repeat constructor.
  - intros es _ IH. by apply through_brackets, through_commas.
  - intros w Hw. by apply through_brackets, through_soft, spaces_soft.
  - intros ms _ IH. by apply through_brackets, through_commas.
  - intros w Hw. by apply through_brackets, through_soft, spaces_soft.
  - constructor.
  - intros e es Hb Ha _ Hi _ IH. constructor; [|done].
    apply transparent_app; [by apply through_soft, spaces_soft|].
    apply transparent_app; [done|by apply through_soft, spaces_soft].
  - constructor.
  - intros m ms Hl Hk Ha Hb Ht _ Hv _ IH. constructor; [|done]. unfold member_text.
    apply transparent_app; [by apply through_soft, spaces_soft|].
    replace (quote :: key m ++ quote :: after_key m ++ colon :: before_value m ++ text m ++ trail m)
      with ((quote :: key m ++ [quote]) ++ (after_key m ++ [colon] ++ before_value m) ++ text m ++ trail m)
      by (simpl; rewrite <- ?app_assoc; simpl; by rewrite <- ?app_assoc).
    apply transparent_app; [by apply through_string|].
    apply transparent_app; [|apply transparent_app; [done|by apply through_soft, spaces_soft]].
    apply through_soft. rewrite !Forall_app. split_and!; [by apply spaces_soft|by repeat constructor|by apply spaces_soft].
Qed.
End Transparent.

(** ** Where a value ends *)
(** What follows a value does not continue a number. *)
Definition delimited (k : list byte) : Prop := ∀ b, head k = Some b → is_number_byte b = false.
Lemma leading_all q v k : Forall (λ b, q b = true) v → (∀ b, head k = Some b → q b = false) → leading q (v ++ k) = length v.
Proof.
  intros Hv Hk. induction Hv as [|b v Hb _ IH]; simpl; [|by rewrite Hb, IH].
  destruct k as [|b k]; [done|]. simpl. by rewrite Hk.
Qed.

Lemma container_value o c v k :
  o ≠ c → transparent o c v → (Z.of_nat (length (o :: v ++ [c])) ≤ u32_max)%Z →
  container_length o c Outside 0 ((o :: v ++ [c]) ++ k) = Some (length (o :: v ++ [c])).
Proof.
  intros Hoc Hv Hl. simpl in Hl |- *. rewrite length_app in Hl |- *. simpl in Hl |- *.
  rewrite bool_decide_eq_true_2 by done. rewrite u32_add_small by (unfold is_u32, u32_max; lia).
  rewrite <- app_assoc, Hv by lia. simpl. rewrite (bool_decide_eq_false_2 (c = o)), (bool_decide_eq_true_2 (c = c)) by done.
  simpl. repeat f_equal; lia.
Qed.

Lemma braces_value v k :
  transparent open_brace close_brace v → (Z.of_nat (length (open_brace :: v ++ [close_brace])) ≤ u32_max)%Z →
  value_length ((open_brace :: v ++ [close_brace]) ++ k) = Some (length (open_brace :: v ++ [close_brace])).
Proof. intros Hv Hl. rewrite <- (container_value open_brace close_brace v k) by done. reflexivity. Qed.
Lemma square_value v k :
  transparent open_bracket close_bracket v → (Z.of_nat (length (open_bracket :: v ++ [close_bracket])) ≤ u32_max)%Z →
  value_length ((open_bracket :: v ++ [close_bracket]) ++ k) = Some (length (open_bracket :: v ++ [close_bracket])).
Proof. intros Hv Hl. rewrite <- (container_value open_bracket close_bracket v k) by done. reflexivity. Qed.

Lemma value_length_text v k :
  json_text v → delimited k → (Z.of_nat (length v) ≤ u32_max)%Z → value_length (v ++ k) = Some (length v).
Proof.
  intros H Hk Hl. pose proof (or_introl eq_refl : brackets (open_brace, close_brace)) as Hb.
  pose proof (or_intror eq_refl : brackets (open_bracket, close_bracket)) as Hs.
  destruct H as [l Hlit|b l Hn Hl'| | | |es Hes|w Hw|ms Hms|w Hw].
  - simpl. destruct (string_length_literal l k Hlit) as [-> Hpos]. simpl. f_equal. lia.
  - assert (value_length ((b :: l) ++ k) = Some (leading is_number_byte ((b :: l) ++ k))) as ->.
    { destruct Hn as [->|Hd]; [done|]. destruct b as [[] [] [] [] [] [] [] []]; (done || by vm_compute in Hd). }
    rewrite leading_all; [done| |done]. constructor; [by apply number_head|done].
  - done.
  - done.
  - done.
  - apply square_value; [|done]. apply (through_commas _ Hs), (through_json _ Hs). done.
  - apply square_value; [|done]. by apply (through_soft _ Hs), spaces_soft.
  - apply braces_value; [|done]. apply (through_commas _ Hb), (through_json _ Hb). done.
  - apply braces_value; [|done]. by apply (through_soft _ Hb), spaces_soft.
Qed.

(** ** The scanner on an object *)
Definition set_text (v : list byte) (m : Member) : Member := {|
  lead := lead m; key := key m; after_key := after_key m; before_value := before_value m; text := v; trail := trail m |}.
(** The value of the first member spelled [field] is replaced, if it is a string. *)
Fixpoint replace_value (field new : list byte) (ms : list Member) : option (list Member) :=
  match ms with
  | [] => None
  | m :: ms' =>
      if bool_decide (key m = field) then
        if bool_decide (head (text m) = Some quote) then Some (set_text new m :: ms') else None
      else cons m <$> replace_value field new ms'
  end.

Lemma skip_spaces fuel body i w k :
  length body < fuel → drop i body = w ++ k → spaces w → (∀ b, head k = Some b → is_json_whitespace b = false) →
  skip_whitespace fuel body i = Some (i + length w).
Proof.
  intros Hf Hd Hw Hk. unfold skip_whitespace. rewrite skip_while_leading by lia. by rewrite Hd, leading_all.
Qed.
Lemma drop_past (body : list byte) i w k : drop i body = w ++ k → drop (i + length w) body = k.
Proof. intros H. by rewrite <- drop_drop, H, drop_app_length. Qed.
Lemma drop_next (body : list byte) i b k : drop i body = b :: k → body !! i = Some b ∧ drop (S i) body = k.
Proof.
  intros H. rewrite drop_at in H. destruct (body !! i); [|done]. by injection H as -> ->.
Qed.
Lemma text_head v b : json_text v → head v = Some b → is_json_whitespace b = false.
Proof.
  intros H. destruct H as [| b' l Hn _| | | | | | |]; simpl; intros [= <-]; try done.
  destruct Hn as [->|Hd]; [done|]. destruct b' as [[] [] [] [] [] [] [] []]; (done || by vm_compute in Hd).
Qed.
Lemma text_nonempty v : json_text v → v ≠ [].
Proof. by destruct 1. Qed.

(** A member as what precedes its value, the value, and the space after it. *)
Definition up_to_value (m : Member) : list byte :=
  lead m ++ quote :: key m ++ quote :: after_key m ++ colon :: before_value m.
Lemma member_split m : member_text m = up_to_value m ++ text m ++ trail m.
Proof. unfold member_text, up_to_value. repeat (rewrite <- app_assoc; simpl). done. Qed.
Lemma set_text_split new m : member_text (set_text new m) = up_to_value m ++ new ++ trail m.
Proof. by rewrite member_split. Qed.

Lemma lookup_head (body : list byte) i w k : drop i body = w ++ k → w ≠ [] → body !! i = head w.
Proof. intros H Hw. destruct w as [|b w]; [done|]. by apply drop_next in H as [-> _]. Qed.
Lemma drop_bound (body : list byte) i w k : drop i body = w ++ k → w ≠ [] → i + length w ≤ length body.
Proof. intros H Hw. apply (f_equal length) in H. rewrite length_drop, length_app in H. destruct w; simpl in *; [done|lia]. Qed.

Lemma slice_prefix (body : list byte) i w b k : drop i body = w ++ b :: k → slice body i (i + length w) = Some w.
Proof.
  intros H. pose proof (f_equal length H) as Hl. rewrite length_drop, length_app in Hl. simpl in Hl. unfold slice.
  rewrite (proj2 (Nat.leb_le _ _)), (proj2 (Nat.leb_le _ _)) by lia. cbn [andb].
  rewrite H. replace (i + length w - i) with (length w) by lia. by rewrite take_app_length.
Qed.

Section Members.
Context (fuel : nat) (body field : list byte).
Hypotheses (Hfuel : length body < fuel) (Hwidth : (Z.of_nat (length body) ≤ u32_max)%Z).

Lemma find_member_step steps m ms i k :
  json_members (m :: ms) → drop i body = member_text m ++ k → (head k = Some comma ∨ head k = Some close_brace) →
  find_member (S steps) fuel body field i =
    if bool_decide (key m = field) then
      Some (if bool_decide (head (text m) = Some quote)
            then Some {| start := i + length (up_to_value m); end_ := i + length (up_to_value m) + length (text m) |} else None)
    else if bool_decide (head k = Some comma) then find_member steps fuel body field (S (i + length (member_text m)))
    else Some None.
Proof.
  intros Hm Hd Hk. inversion Hm as [|? ? Hl Hkey Ha Hb Ht Hv _]; subst.
  assert (∀ b, head k = Some b → is_json_whitespace b = false ∧ is_number_byte b = false) as Hk'.
  { intros b E. destruct Hk as [Hk|Hk]; rewrite Hk in E; injection E as <-; done. }
  cbn [find_member]. unfold member_text in Hd. repeat (rewrite <- app_assoc in Hd; simpl in Hd).
  rewrite (skip_spaces _ _ _ _ _ Hfuel Hd Hl) by (by intros ? [= <-]). cbn [fmap option_fmap option_map].
  apply drop_past in Hd. set (i1 := i + length (lead m)) in *.
  destruct (drop_next _ _ _ _ Hd) as [E1 D1]. rewrite E1, bool_decide_eq_true_2 by done.
  rewrite scan_string_end_length by lia. rewrite D1.
  destruct (string_length_literal _ (after_key m ++ colon :: before_value m ++ text m ++ trail m ++ k) Hkey) as [E2 _].
  rewrite <- app_assoc in E2. cbn [app] in E2. rewrite E2. cbn [fmap option_fmap option_map].
  rewrite length_app, Nat.add_sub.
  set (i2 := S i1 + length (key m)).
  rewrite (slice_prefix _ _ _ _ _ D1 : slice body (S i1) i2 = _).
  apply drop_past in D1. fold i2 in D1. destruct (drop_next _ _ _ _ D1) as [_ D2].
  rewrite (skip_spaces _ _ _ _ _ Hfuel D2 Ha) by (by intros ? [= <-]). cbn [fmap option_fmap option_map].
  apply drop_past in D2. destruct (drop_next _ _ _ _ D2) as [E3 D3]. rewrite E3, bool_decide_eq_true_2 by done. cbn [negb].
  rewrite (skip_spaces _ _ _ _ _ Hfuel D3 Hb).
  2:{ intros b Hh. apply (text_head _ _ Hv). by destruct (text m); [by apply text_nonempty in Hv|]. }
  cbn [fmap option_fmap option_map]. apply drop_past in D3.
  set (vs := S (S i2 + length (after_key m)) + length (before_value m)) in *.
  assert (vs = i + length (up_to_value m)) as Evs.
  { unfold vs, i2, i1, up_to_value. repeat (rewrite ?length_app; simpl). lia. }
  rewrite scan_value_end_length by done. rewrite D3.
  rewrite value_length_text; [|done| |].
  2:{ intros b. destruct (trail m) as [|t0 tr] eqn:Et; [by intros; apply Hk'|]. simpl. intros [= <-].
      apply Forall_inv in Ht. by destruct t0 as [[] [] [] [] [] [] [] []]. }
  2:{ pose proof (drop_bound _ _ _ _ D3 (text_nonempty _ Hv)). lia. }
  cbn [fmap option_fmap option_map]. rewrite (lookup_head _ _ _ _ D3 (text_nonempty _ Hv)).
  rewrite Evs. replace (Nat.add (i + length (up_to_value m)) (length (text m))) with (vs + length (text m)) by lia.
  apply drop_past in D3. rewrite (skip_spaces _ _ _ _ _ Hfuel D3 Ht) by (intros; by apply Hk').
  cbn [fmap option_fmap option_map]. case_bool_decide; [done|].
  apply drop_past in D3. assert (k ≠ []) as Hne by (by intros ->; destruct Hk).
  rewrite (lookup_head body _ k [] ltac:(by rewrite app_nil_r) Hne). case_bool_decide; [|done]. f_equal.
  rewrite member_split, !length_app. lia.
Qed.

Lemma commas_cons t l : l ≠ [] → commas (t :: l) = t ++ comma :: commas l.
Proof. by destruct l. Qed.

(** The bytes with the span replaced. *)
Definition spliced (new : list byte) (s : Span) : list byte := take (start s) body ++ new ++ drop (end_ s) body.
Lemma splice_member new m i k :
  drop i body = member_text m ++ k →
  spliced new {| start := i + length (up_to_value m); end_ := i + length (up_to_value m) + length (text m) |} =
  take i body ++ member_text (set_text new m) ++ k.
Proof.
  intros Hd. rewrite member_split, <- !app_assoc in Hd. rewrite set_text_split, <- !app_assoc. unfold spliced. simpl.
  rewrite (drop_past _ _ _ _ (drop_past _ _ _ _ Hd)).
  rewrite <- (take_take_drop body i (length (up_to_value m))), Hd, take_app_length. by rewrite <- app_assoc.
Qed.

Lemma replaced_head new ms ms' : replace_value field new ms = Some ms' → ms' ≠ [].
Proof.
  destruct ms as [|m ms]; simpl; [done|]. repeat case_bool_decide; try done; [by intros [= <-]|].
  destruct (replace_value field new ms); simpl; [by intros [= <-]|done].
Qed.

Lemma find_member_replaces new ms steps i k :
  json_members ms → ms ≠ [] → length ms ≤ steps → drop i body = commas (member_text <$> ms) ++ close_brace :: k →
  match replace_value field new ms with
  | Some ms' => ∃ s, find_member steps fuel body field i = Some (Some s) ∧
      spliced new s = take i body ++ commas (member_text <$> ms') ++ close_brace :: k
  | None => find_member steps fuel body field i = Some None
  end.
Proof.
  revert steps i. induction ms as [|m ms IH]; intros steps i Hm Hne Hs Hd; [done|].
  destruct steps as [|steps]; [simpl in Hs; lia|]. simpl in Hs.
  assert (∃ q, drop i body = member_text m ++ q ∧ (ms = [] ∧ q = close_brace :: k ∨
    ms ≠ [] ∧ q = comma :: commas (member_text <$> ms) ++ close_brace :: k)) as (q & Hq & Hms).
  { destruct ms as [|m' ms]; eexists; (split; [|by auto]); [done|].
    rewrite fmap_cons, commas_cons, <- app_assoc in Hd by done. exact Hd. }
  rewrite (find_member_step steps m ms i q Hm Hq) by (by destruct Hms as [[_ ->]|[_ ->]]; auto).
  cbn [replace_value]. case_bool_decide as Hkey; [case_bool_decide|].
  - eexists. split; [done|]. rewrite (splice_member new m i q Hq). f_equal.
    destruct Hms as [[-> ->]|[Hms ->]]; [done|]. rewrite !fmap_cons, commas_cons by (by destruct ms).
    by rewrite <- app_assoc.
  - done.
  - destruct Hms as [[-> ->]|[Hms ->]]; [done|]. rewrite bool_decide_eq_true_2 by done.
    pose proof (proj2 (drop_next _ _ _ _ (drop_past _ _ _ _ Hq))) as Hn. inversion Hm as [|? ? _ _ _ _ _ _ Hm']; subst.
    specialize (IH steps _ Hm' Hms ltac:(lia) Hn). destruct (replace_value field new ms) as [ms'|] eqn:E; [|done].
    destruct IH as (s & -> & Hsp). exists s. split; [done|]. rewrite Hsp.
    pose proof (replaced_head _ _ _ E). rewrite fmap_cons, commas_cons by (by destruct ms').
    replace (S (i + length (member_text m))) with (i + length (member_text m ++ [comma])) by (rewrite length_app; simpl; lia).
    rewrite <- take_take_drop, Hq.
    replace (member_text m ++ comma :: commas (member_text <$> ms) ++ close_brace :: k)
      with ((member_text m ++ [comma]) ++ commas (member_text <$> ms) ++ close_brace :: k) by (by rewrite <- app_assoc).
    rewrite take_app_length. by rewrite <- !app_assoc.
Qed.
End Members.

(** ** Any body *)
Lemma string_length_bound e l n : string_length e l = Some n → n < length l.
Proof.
  revert e n. induction l as [|b l IH]; intros e n; [done|]. simpl.
  destruct e; [|case_bool_decide; [|case_bool_decide; [intros [= <-]; lia|]]].
  all: intros (n' & H' & ->)%fmap_Some; apply IH in H'; lia.
Qed.

Lemma find_member_returns steps fuel body field i :
  length body < fuel → length body - i < steps →
  ∃ r, find_member steps fuel body field i = Some r ∧ ∀ s, r = Some s → start s < end_ s ∧ end_ s ≤ length body.
Proof.
  intros Hf. revert i. induction steps as [|steps IH]; intros i Hs; [lia|]. cbn [find_member].
  unfold skip_whitespace. rewrite skip_while_leading by lia. cbn [fmap option_fmap option_map].
  set (i1 := i + _). case_bool_decide; [|by eexists].
  rewrite scan_string_end_length by lia. destruct (string_length false _) as [n|]; cbn [fmap option_fmap option_map]; [|by eexists].
  set (i2 := S i1 + n). destruct (slice body (S i1) i2) as [key|]; [|by eexists].
  rewrite skip_while_leading by lia. cbn [fmap option_fmap option_map]. set (i3 := S i2 + _).
  case_bool_decide; cbn [negb]; [|by eexists].
  rewrite skip_while_leading by lia. cbn [fmap option_fmap option_map]. set (vs := S i3 + _).
  rewrite scan_value_end_length by lia. destruct (value_length (drop vs body)) as [len|] eqn:Hv;
    cbn [fmap option_fmap option_map]; [|by eexists].
  case_bool_decide.
  - eexists. split; [done|]. case_bool_decide as Hq; [|done]. intros s [= <-]. cbn [start end_].
    rewrite drop_at, Hq in Hv. cbn [value_length] in Hv. rewrite bool_decide_eq_true_2 in Hv by done.
    apply fmap_Some in Hv as (len' & Hv & ->). apply string_length_bound in Hv. rewrite length_drop in Hv. lia.
  - rewrite skip_while_leading by lia. cbn [fmap option_fmap option_map].
    case_bool_decide as Hc; [|by eexists]. apply lookup_lt_Some in Hc. apply IH. unfold i1, i2, i3, vs in *. lia.
Qed.

Lemma find_span_returns body field :
  ∃ r, find_top_level_string_value_span (enough body) body field = Some r ∧
  ∀ s, r = Some s → start s < end_ s ∧ end_ s ≤ length body.
Proof.
  unfold find_top_level_string_value_span, skip_whitespace, enough. rewrite skip_while_leading by lia.
  cbn [fmap option_fmap option_map]. case_bool_decide; [|by eexists]. apply find_member_returns; lia.
Qed.

Lemma members_length (ms : list Member) : length ms ≤ length (commas (member_text <$> ms)).
Proof.
  induction ms as [|m ms IH]; [done|]. rewrite fmap_cons. destruct ms as [|m' ms].
  - cbn [fmap list_fmap commas]. unfold member_text. rewrite length_app. simpl. lia.
  - rewrite commas_cons by done. rewrite length_app. cbn [length] in *. lia.
Qed.

(** ** What the rewriting does *)
Section Properties.
Context (from_slice : list byte → result tree string) (to_vec : tree → result (list byte) string).
#[local] Abbreviation rewrite := (rewrite_model from_slice to_vec).
#[local] Abbreviation slow := (rewrite_by_value from_slice to_vec "Anthropic Messages").

Lemma rewrite_model_members w ms k m :
  spaces w → json_members ms → (Z.of_nat (length (w ++ object_text ms ++ k)) ≤ u32_max)%Z →
  rewrite (w ++ object_text ms ++ k) m =
    Some match (if needs_no_json_escape m then replace_value (bytes "model") (quoted_bytes m) ms else None) with
         | Some ms' => Ok (w ++ object_text ms' ++ k)
         | None => slow (w ++ object_text ms ++ k) m
         end.
Proof.
  intros Hw Hm Hl. unfold rewrite_model. destruct (needs_no_json_escape m); [|done].
  set (body := w ++ object_text ms ++ k) in *. assert (length body < enough body) as Hf by (unfold enough; lia).
  assert (drop 0 body = w ++ open_brace :: commas (member_text <$> ms) ++ close_brace :: k) as Hd.
  { rewrite drop_0. unfold body, object_text. cbn [app]. by rewrite <- ?app_assoc. }
  unfold find_top_level_string_value_span. rewrite (skip_spaces _ _ _ _ _ Hf Hd Hw) by (by intros ? [= <-]).
  cbn [fmap option_fmap option_map]. apply drop_past, drop_next in Hd as [-> Hd]. rewrite bool_decide_eq_true_2 by done.
  destruct ms as [|m0 ms].
  { unfold enough at 1. cbn [find_member]. unfold skip_whitespace. rewrite skip_while_leading, Hd by lia. simpl.
    rewrite Nat.add_0_r. apply drop_next in Hd as [E _]. simpl in E. by rewrite E. }
  pose proof (find_member_replaces (enough body) body (bytes "model") Hf Hl (quoted_bytes m) (m0 :: ms) (enough body)
    (S (0 + length w)) k Hm ltac:(done)) as H.
  assert (length (m0 :: ms) ≤ enough body) as Hs.
  { transitivity (length (commas (member_text <$> m0 :: ms))); [apply members_length|].
    unfold enough, body, object_text. rewrite !length_app. simpl. rewrite length_app. lia. }
  specialize (H Hs Hd). destruct (replace_value _ _ _) as [ms'|]; [|by rewrite H].
  destruct H as (s & -> & Hsp). cbn [mbind option_bind]. do 2 f_equal. unfold spliced in Hsp. rewrite Hsp. unfold body, object_text.
  replace (S (0 + length w)) with (length (w ++ [open_brace])) by (rewrite length_app; simpl; lia).
  replace (w ++ (open_brace :: commas (member_text <$> m0 :: ms) ++ [close_brace]) ++ k)
    with ((w ++ [open_brace]) ++ commas (member_text <$> m0 :: ms) ++ close_brace :: k)
    by (simpl; by rewrite <- !app_assoc).
  rewrite take_app_length. simpl. by rewrite <- !app_assoc.
Qed.

(** C33: the fast path is an operation on the members of the object.  On any JSON
    object, whatever its spelling and whatever follows it, rewriting the model
    replaces the text of the first member spelled [model], if it is a string, and
    keeps every other byte; when there is none, or when the model's name needs
    escaping, the body goes through serde_json. *)
Theorem rewrite_model_on_objects w ms k m :
  spaces w → json_members ms → (Z.of_nat (length (w ++ object_text ms ++ k)) ≤ u32_max)%Z →
  rewrite (w ++ object_text ms ++ k) m =
    Some match (if needs_no_json_escape m then replace_value (bytes "model") (quoted_bytes m) ms else None) with
         | Some ms' => Ok (w ++ object_text ms' ++ k)
         | None => slow (w ++ object_text ms ++ k) m
         end.
Proof. apply rewrite_model_members. Qed.

(** The rewriting returns on every body, and when the scanner finds a value its
    span lies inside the body, so that the slices are in range. *)
Theorem rewrite_model_returns body m :
  is_Some (rewrite body m) ∧
  ∀ s, find_top_level_string_value_span (enough body) body (bytes "model") = Some (Some s) →
    start s < end_ s ∧ end_ s ≤ length body.
Proof.
  destruct (find_span_returns body (bytes "model")) as (r & Hr & Hs). split.
  - unfold rewrite_model. destruct (needs_no_json_escape m); [rewrite Hr|]; by eexists.
  - intros s. rewrite Hr. intros [= ->]. by apply Hs.
Qed.

(** ** What a reader of the body sees

    serde_json's objects are maps: a member replaces an earlier one of its name. *)
Context (unescape : list byte → string) (read : list byte → tree).
#[local] Abbreviation name m := (unescape (key m)).
Definition fields_of (ms : list Member) : list (string * tree) :=
  foldl (λ fs m, insert_key (name m) (read (text m)) fs) [] ms.

Lemma get_insert_key k k' v fs :
  tree_get k (TObj (insert_key k' v fs)) = if bool_decide (k = k') then Some v else tree_get k (TObj fs).
Proof.
  unfold insert_key. case_bool_decide as H; [subst|].
  - apply get_last, has_remove.
  - by rewrite get_snoc, get_remove by done.
Qed.
Lemma get_fields k fs ms :
  tree_get k (TObj (foldl (λ fs m, insert_key (name m) (read (text m)) fs) fs ms)) =
  foldl (λ o m, if bool_decide (k = name m) then Some (read (text m)) else o) (tree_get k (TObj fs)) ms.
Proof.
  revert fs. induction ms as [|m ms IH]; intros fs; [done|]. cbn [foldl]. by rewrite IH, get_insert_key.
Qed.
Lemma foldl_others k o ms :
  filter (λ m, name m = k) ms = [] →
  foldl (λ o m, if bool_decide (k = name m) then Some (read (text m)) else o) o ms = o.
Proof.
  revert o. induction ms as [|m ms IH]; intros o; [done|]. rewrite filter_cons. case_decide as H; [done|]. intros Hf.
  cbn [foldl]. rewrite bool_decide_eq_false_2 by (by intros ->). by apply IH.
Qed.
Lemma replace_value_split field new ms ms' :
  replace_value field new ms = Some ms' →
  ∃ a x b, ms = a ++ x :: b ∧ ms' = a ++ set_text new x :: b ∧ key x = field.
Proof.
  revert ms'. induction ms as [|m ms IH]; intros ms'; [done|]. cbn [replace_value]. case_bool_decide as Hk.
  - case_bool_decide; [|done]. intros [= <-]. by exists [], m, ms.
  - intros (ms1 & H & ->)%fmap_Some. destruct (IH _ H) as (a & x & b & -> & -> & Hx). by exists (m :: a), x, b.
Qed.

(** C34: the fast path is the slow path.  When one member of the body names the
    model, what serde_json reads of the spliced body has, under every key, what
    the round trip through serde_json would have sent. *)
Theorem fast_path_is_slow_path w ms k m ms' :
  spaces w → json_members ms → (Z.of_nat (length (w ++ object_text ms ++ k)) ≤ u32_max)%Z →
  needs_no_json_escape m = true → replace_value (bytes "model") (quoted_bytes m) ms = Some ms' →
  length (filter (λ x, name x = "model") ms) = 1 →
  unescape (bytes "model") = "model" → read (quoted_bytes m) = TStr m →
  (∀ l, l = ms ∨ l = ms' → from_slice (w ++ object_text l ++ k) = Ok (TObj (fields_of l))) →
  ∃ fast sent received,
    rewrite (w ++ object_text ms ++ k) m = Some (Ok fast) ∧
    slow (w ++ object_text ms ++ k) m = map_err Encode (to_vec (TObj sent)) ∧
    from_slice fast = Ok (TObj received) ∧
    ∀ key, tree_get key (TObj received) = tree_get key (TObj sent).
Proof.
  intros Hw Hm Hl He Hr Hone Hu Hread Hs. exists (w ++ object_text ms' ++ k), (insert_key "model" (TStr m) (fields_of ms)), (fields_of ms').
  split_and!.
  - by rewrite rewrite_model_members, He, Hr by done.
  - unfold rewrite_by_value. by rewrite Hs by auto.
  - apply Hs; auto.
  - intros q. rewrite get_insert_key. unfold fields_of. rewrite !get_fields.
    apply replace_value_split in Hr as (a & x & b & -> & -> & Hx).
    rewrite filter_app, filter_cons, decide_True, length_app in Hone by (by rewrite Hx). simpl in Hone.
    rewrite !foldl_app. cbn [foldl set_text key text]. rewrite Hx, Hu, Hread. case_bool_decide; [|done].
    subst q. apply foldl_others, nil_length_inv. lia.
Qed.
End Properties.

(** ** A body, spelled with spaces, an escaped quote and a nested [model] *)
Module Samples.
(** In the samples a single quote stands for a double quote. *)
Definition spelled (s : string) : list byte :=
  (λ b, if bool_decide (b = Ascii.ascii_of_nat 39) then quote else b) <$> bytes s.
Definition member (l k a b t r : string) : Member := {|
  lead := spelled l; key := spelled k; after_key := spelled a; before_value := spelled b; text := spelled t; trail := spelled r |}.
Definition nested : Member := member "" "model" "" "" "'x\'}]'" "".
Definition one_item : Element := {| before := []; item := object_text [nested]; after := spelled " " |}.
Definition messages : Member := {|
  lead := spelled " "; key := bytes "messages"; after_key := []; before_value := spelled " ";
  text := array_text [one_item]; trail := [] |}.
Definition model : Member := member " " "model" " " " " "'claude'" " ".
Definition number : Member := member "" "n" "" "" "-1.5e3" "".
Definition members : list Member := [messages; model; number].
Definition body : list byte := spelled " " ++ object_text members ++ spelled " ".

Example the_body : body = spelled " { 'messages': [{'model':'x\'}]'} ], 'model' : 'claude' ,'n':-1.5e3} ".
Proof. reflexivity. Qed.
Example the_model_is_replaced from_slice to_vec :
  rewrite_model from_slice to_vec body "opus" =
    Some (Ok (spelled " { 'messages': [{'model':'x\'}]'} ], 'model' : 'opus' ,'n':-1.5e3} ")).
Proof. reflexivity. Qed.

(** The scanner stops at the value it looks for: a body cut after it is spliced
    as if it were whole, although the comment on the scanner says that malformed
    JSON is left to serde_json. *)
Example cut_body_is_spliced from_slice to_vec :
  rewrite_model from_slice to_vec (spelled "{'model':'claude','messages':[nul") "opus" =
    Some (Ok (spelled "{'model':'opus','messages':[nul")).
Proof. reflexivity. Qed.
(** Of two members named [model] only the first is replaced. *)
Example second_model_is_kept from_slice to_vec :
  rewrite_model from_slice to_vec (spelled "{'model':'a','model':'b'}") "opus" =
    Some (Ok (spelled "{'model':'opus','model':'b'}")).
Proof. reflexivity. Qed.

Ltac spell_literal :=
  first [apply literal_end | apply literal_escape; spell_literal | apply literal_plain; [done|done|spell_literal]].
Lemma text_ok : json_text (spelled "'x\'}]'") ∧ json_text (spelled "'claude'") ∧ json_text (spelled "-1.5e3").
Proof.
  split_and!; [apply text_string; cbn; spell_literal..|]. apply text_number; [by left|by repeat constructor].
Qed.
Lemma member_ok m ms :
  spaces (lead m) → literal (key m ++ [quote]) → spaces (after_key m) → spaces (before_value m) →
  spaces (trail m) → json_text (text m) → json_members ms → json_members (m :: ms).
Proof. by constructor. Qed.
Lemma members_ok : json_members members.
Proof.
  destruct text_ok as (Hx & Hc & Hn).
  assert (json_text (text messages)) as Ht.
  { apply text_array. constructor; [by repeat constructor..| |constructor].
    apply text_object. apply member_ok; [by repeat constructor|cbn; spell_literal|by repeat constructor..|done|constructor]. }
  apply member_ok; [by repeat constructor|cbn; spell_literal|by repeat constructor..|done|].
  apply member_ok; [by repeat constructor|cbn; spell_literal|by repeat constructor..|done|].
  apply member_ok; [by repeat constructor|cbn; spell_literal|by repeat constructor..|done|constructor].
Qed.

Definition unquote (l : list byte) : string := String.string_of_list_ascii (take (length l - 2) (drop 1 l)).
Definition read (l : list byte) : tree := TStr (unquote l).
Definition reader : list byte → result tree string := λ l,
  if bool_decide (l = body) then Ok (TObj (fields_of String.string_of_list_ascii read members))
  else if bool_decide (l = spelled " " ++ object_text [messages; set_text (quoted_bytes "opus") model; number] ++ spelled " ")
  then Ok (TObj (fields_of String.string_of_list_ascii read [messages; set_text (quoted_bytes "opus") model; number]))
  else Err "unexpected".

Lemma rewrite_model_on_objects_witness :
  rewrite_model reader (λ _, Err "") (spelled " " ++ object_text members ++ spelled " ") "opus" =
    Some (Ok (spelled " " ++ object_text [messages; set_text (quoted_bytes "opus") model; number] ++ spelled " ")).
Proof.
  refine (eq_trans (rewrite_model_on_objects reader (λ _, Err "") (spelled " ") members (spelled " ") "opus" _ members_ok _) _).
  - by repeat constructor.
  - by vm_compute.
  - reflexivity.
Defined.

Lemma fast_path_is_slow_path_witness :
  ∃ fast sent received,
    rewrite_model reader (λ _, Err "") body "opus" = Some (Ok fast) ∧
    rewrite_by_value reader (λ _, Err "") "Anthropic Messages" body "opus" = Err (Encode "") ∧
    reader fast = Ok (TObj received) ∧ tree_get "model" (TObj received) = tree_get "model" (TObj sent).
Proof.
  destruct (fast_path_is_slow_path reader (λ _, Err "") String.string_of_list_ascii read (spelled " ") members (spelled " ") "opus"
    [messages; set_text (quoted_bytes "opus") model; number]) as (f & s & r & H1 & H2 & H3 & H4);
    [by repeat constructor|exact members_ok|by vm_compute|reflexivity|reflexivity|by vm_compute|reflexivity|reflexivity| |].
  - intros l [-> | ->]; reflexivity.
  - exists f, s, r. split_and!; [exact H1|exact H2|exact H3|apply H4].
Defined.
End Samples.
