(* ===== verification/GeminiWire.v ===== *)
(** * The Gemini wire types (crates/providers/src/gemini/wire.rs)

    The DTOs of the Generate Content API, shared by the request builder and the
    response parser.  [safety_settings] is always absent and the [index] and
    [total_token_count] fields of responses are never read; they are kept as the
    wire has them.  Their JSON is serde's derived code. *)
From S2P Require Import Prelude Float64 Json CoreTypes.

Record InlineData := { mime_type : string; inline_bytes : string }.
Record FileData := { file_mime_type : string; file_uri : string }.
Record ThinkingConfig := { thinking_budget : option Z; include_thoughts : option bool }.
Record SafetySetting := { setting_category : string; threshold : string }.
(** [wire::SafetyRating], with strings where the canonical one is typed. *)
Record WireRating := { wire_category : string; wire_probability : string; blocked : option bool }.
Record UsageMetadata := {
  prompt_token_count : option Z;
  candidates_token_count : option Z;
  total_token_count : option Z;
  thoughts_token_count : option Z;
}.
Record PromptFeedback := { block_reason : option string; feedback_ratings : list WireRating }.

Section Wire.
Context `{J : JsonApi}.

Record FunctionCall := { fc_name : string; args : option value; fc_id : option string }.
Record FunctionResponse := { fr_name : string; fr_response : value; fr_id : option string }.
Record FunctionDeclaration := {
  fd_name : string; fd_description : option string; parameters : option value }.
(** [Tool]. *)
Record ToolWrapper := { function_declarations : list FunctionDeclaration }.

Record Part := {
  text : option string;
  thought : option bool;
  inline_data : option InlineData;
  file_data : option FileData;
  function_call : option FunctionCall;
  function_response : option FunctionResponse;
}.
(** [Part::default()]. *)
Definition default_part : Part := {|
  text := None; thought := None; inline_data := None; file_data := None;
  function_call := None; function_response := None |}.
Record Content := { content_role : string; parts : list Part }.

Record GenerationConfig := {
  gc_temperature : option f64;
  gc_top_p : option f64;
  gc_top_k : option Z;
  max_output_tokens : option Z;
  gc_stop_sequences : option (list string);
  response_mime_type : option string;
  response_schema : option value;
  gc_thinking_config : option ThinkingConfig;
}.
Record GenerateContentRequest := {
  contents : list Content;
  system_instruction : option Content;
  gemini_tools : option (list ToolWrapper);
  generation_config : option GenerationConfig;
  safety_settings : option (list SafetySetting);
}.

Record Candidate := {
  candidate_content : Content;
  finish_reason : option string;
  candidate_ratings : list WireRating;
  candidate_index : option Z;
  citation_metadata : option value;
}.
Record GenerateContentResponse := {
  candidates : list Candidate;
  prompt_feedback : option PromptFeedback;
  usage_metadata : option UsageMetadata;
}.
End Wire.
Arguments Part {J}.
Arguments Content {J}.
Arguments Candidate {J}.
Arguments GenerateContentResponse {J}.
