(* ===== verification/ChatEncode.v ===== *)
(** * The OpenAI Chat stream encoder
    (crates/frontends/src/openai_chat/encode_stream.rs)

    [handle] is the method of [OaiChatEncoderStream] on one canonical item: the
    chunks it pushes and whether [[DONE]] has been sent.  The wire types are
    those of [openai_chat/wire.rs], without the constant tags. *)
From S2P Require Import Prelude Json CoreTypes Emit Drain Sse.
#[local] Open Scope string_scope.
#[local] Open Scope list_scope.
#[local] Open Scope nat_scope.

(** ** The wire *)
Record UsageOut := { prompt_tokens : Z; completion_tokens : Z; total_tokens : Z }.
Record ToolCallFunctionDeltaOut := { fn_name : option string; fn_arguments : option string }.
Record ToolCallDeltaOut := {
  tool_index : Z; tool_id : option string; tool_ty : option string;
  tool_function : ToolCallFunctionDeltaOut;
}.
Record DeltaOut := {
  delta_role : option string;
  delta_content : option string;
  delta_tool_calls : list ToolCallDeltaOut;
}.
Record ChoiceOut := { choice_delta : DeltaOut; finish_reason : option string }.
Record ChunkOut := {
  chunk_id : string; chunk_created : Z; chunk_model : string;
  chunk_choices : list ChoiceOut; chunk_usage : option UsageOut;
}.

Definition default_delta : DeltaOut :=
  {| delta_role := None; delta_content := None; delta_tool_calls := [] |}.

(** A frame: a chunk, an error object or the terminator. *)
Inductive Frame := FChunk (c : ChunkOut) | FError (message : string) | FDone.

(** ** The encoder *)
Record EncoderState := { response_id : string; model : string; created : Z }.

(** [EncoderState::new]: [now] is the wall clock in seconds. *)
Definition new_encoder (clock_override : option Z) (now : Z) : EncoderState :=
  {| response_id := ""; model := ""; created := default now clock_override |}.

Definition make_chunk (state : EncoderState) (delta : DeltaOut) (finish : option string) : ChunkOut := {|
  chunk_id := response_id state; chunk_created := created state; chunk_model := model state;
  chunk_choices := [{| choice_delta := delta; finish_reason := finish |}]; chunk_usage := None |}.

Section Encoder.
Context `{J : JsonApi} (clock_override : option Z).
Notation M := (emit EncoderState Frame).

Definition make_usage_chunk (state : EncoderState) (usage : Usage) : ChunkOut := {|
  chunk_id := response_id state; chunk_created := created state; chunk_model := model state;
  chunk_choices := [];
  chunk_usage := Some {|
    prompt_tokens := default 0%Z (input_tokens usage);
    completion_tokens := default 0%Z (output_tokens usage);
    total_tokens := u32_add (default 0%Z (input_tokens usage)) (default 0%Z (output_tokens usage)) |} |}.

Definition push_delta (delta : DeltaOut) (finish : option string) : M unit :=
  state ← gets id;
  push (FChunk (make_chunk state delta finish)).

Definition role_delta : DeltaOut :=
  {| delta_role := Some "assistant"; delta_content := None; delta_tool_calls := [] |}.
Definition content_delta (text : string) : DeltaOut :=
  {| delta_role := None; delta_content := Some text; delta_tool_calls := [] |}.
Definition tool_delta (tc : ToolCallDeltaOut) : DeltaOut :=
  {| delta_role := None; delta_content := None; delta_tool_calls := [tc] |}.

Definition handle_event (ev : StreamEvent) : M bool :=
  match ev with
  | ResponseStart id model created_at_unix =>
      modify (λ s, {| response_id := id; model := model;
        created := match clock_override with None => created_at_unix | Some _ => created s end |});;
      push_delta role_delta None;;
      mret false
  | MessageStart _ | ContentBlockStart _ _ => mret false
  | ToolCallStart index id name =>
      push_delta (tool_delta {| tool_index := index; tool_id := Some id; tool_ty := Some "function";
        tool_function := {| fn_name := Some name; fn_arguments := Some "" |} |}) None;;
      mret false
  | TextDelta _ text => push_delta (content_delta text) None;; mret false
  | ReasoningDelta _ _ => mret false
  | ToolCallArgumentsDelta index json_fragment =>
      push_delta (tool_delta {| tool_index := index; tool_id := None; tool_ty := None;
        tool_function := {| fn_name := None; fn_arguments := Some json_fragment |} |}) None;;
      mret false
  | ToolCallStop _ | ContentBlockStop _ => mret false
  | UsageDelta _ => mret false
  | MessageStop stop_reason _ =>
      push_delta default_delta (Some (finish_reason_from_canonical stop_reason));; mret false
  | ResponseStop usage =>
      match usage with
      | Some u => state ← gets id; push (FChunk (make_usage_chunk state u))
      | None => mret tt
      end;;
      push FDone;;
      mret true
  | ErrorEvent message => push (FError message);; mret false
  | RawProviderEvent _ => mret false
  end.

Definition handle_item (item : result StreamEvent StreamError) : M bool :=
  match item with
  | Ok ev => handle_event ev
  | Err e => push (FError (show_stream_error e));; push FDone;; mret true
  end.

(** ** The bytes and the poll loop *)
(** serde on a chunk or an error object: [None] when it fails. *)
Context (to_json : Frame → option string).

Definition frame_bytes (f : Frame) : string :=
  match f with
  | FDone => "data: [DONE]" ++ newline ++ newline
  | _ => data_only_serialized (to_json f)
  end.

Definition handle (item : result StreamEvent StreamError) (s : EncoderState)
    : EncoderState * list string * bool :=
  let '(complete, s', frames) := handle_item item s in (s', frame_bytes <$> frames, complete).

Definition poll_next : encoder → poll (option string) * encoder := encoder_poll handle.
Definition encode (now : Z) (src : list (source_poll (result StreamEvent StreamError))) : encoder :=
  einit (O := string) (new_encoder clock_override now) src.

Definition chat_handle (item : result StreamEvent StreamError) (s : EncoderState)
    : EncoderState * list Frame * bool :=
  let '(complete, s', frames) := handle_item item s in (s', frames, complete).
(** The frames of a stream of items: the poll loop's reference. *)
Definition chat_outbound (now : Z) (l : list (result StreamEvent StreamError)) : list Frame :=
  encode_items chat_handle l (new_encoder clock_override now).

(** The items the encoder reads: up to the first stream error or
    [ResponseStop]. *)
Fixpoint read (l : list (result StreamEvent StreamError)) : list (result StreamEvent StreamError) :=
  match l with
  | [] => []
  | i :: l' => i :: match i with Err _ | Ok (ResponseStop _) => [] | _ => read l' end
  end.
Definition ends (i : result StreamEvent StreamError) : bool :=
  match i with Err _ | Ok (ResponseStop _) => true | _ => false end.
End Encoder.

(** ** What the response is made of *)
Section Content.
Context `{J : JsonApi} (clock_override : option Z).

(** The content a frame carries: texts and tool-call deltas. *)
Definition frame_deltas (f : Frame) : list (string + ToolCallDeltaOut) :=
  match f with
  | FChunk c =>
      ch ← chunk_choices c;
      option_list (inl <$> delta_content (choice_delta ch)) ++
      (inr <$> delta_tool_calls (choice_delta ch))
  | _ => []
  end.
Definition tool_call (index : Z) (id name : option string) (arguments : string) : ToolCallDeltaOut := {|
  tool_index := index; tool_id := id; tool_ty := (λ _, "function") <$> id;
  tool_function := {| fn_name := name; fn_arguments := Some arguments |} |}.
Definition event_deltas (e : StreamEvent) : list (string + ToolCallDeltaOut) :=
  match e with
  | TextDelta _ t => [inl t]
  | ToolCallStart i id name => [inr (tool_call i (Some id) (Some name) "")]
  | ToolCallArgumentsDelta i args => [inr (tool_call i None None args)]
  | _ => []
  end.

Definition frame_usage (f : Frame) : option UsageOut :=
  match f with FChunk c => chunk_usage c | _ => None end.
Definition event_usage (e : StreamEvent) : option UsageOut :=
  match e with
  | ResponseStop (Some u) => chunk_usage (make_usage_chunk {| response_id := ""; model := ""; created := 0 |} u)
  | _ => None
  end.

(** The header of a chunk. *)
Definition header (f : Frame) : option (string * string * Z) :=
  match f with FChunk c => Some (chunk_id c, chunk_model c, chunk_created c) | _ => None end.
Definition state_header (s : EncoderState) : string * string * Z := (response_id s, model s, created s).
Definition is_response_start (i : result StreamEvent StreamError) : bool :=
  match i with Ok (ResponseStart _ _ _) => true | _ => false end.

(** One item. *)
Lemma handle_item_spec i s :
  let '(complete, s', frames) := handle_item clock_override i s in
  complete = ends i ∧
  frames ≫= frame_deltas = oks [i] ≫= event_deltas ∧
  omap frame_usage frames = omap event_usage (oks [i]) ∧
  (∃ pre, frames = pre ++ (if ends i then [FDone] else []) ∧ FDone ∉ pre) ∧
  (is_response_start i = false → s' = s ∧ Forall (λ h, h = state_header s) (omap header frames)).
Proof.
  assert (H : ∀ f : Frame, f ≠ FDone → ∃ pre, [f] = pre ++ [] ∧ FDone ∉ pre).
  { intros f Hf. exists [f]. split; [done|]. set_solver. }
  destruct i as [[]|e]; simpl; unfold mbind, emit_bind, push_delta, gets, push, modify, mret, emit_ret;
    simpl; try (split_and!; [done..|by apply H|by repeat constructor]);
    try (split_and!; [done..|exists []; by split; [|apply not_elem_of_nil]|by repeat constructor]).
  - destruct usage as [u|]; simpl.
    + split_and!; [done..| |by repeat constructor].
      exists [FChunk (make_usage_chunk s u)]. split; [done|]. set_solver.
    + split_and!; [done..| |by repeat constructor]. exists []. split; [done|]. set_solver.
  - split_and!; [done..| |by repeat constructor].
    exists [FError (show_stream_error e)]. split; [done|]. set_solver.
Qed.

Lemma outbound_read l s :
  let frames := encode_items (chat_handle clock_override) l s in
  frames ≫= frame_deltas = oks (read l) ≫= event_deltas ∧
  omap frame_usage frames = omap event_usage (oks (read l)) ∧
  (∃ pre, frames = pre ++ (if existsb ends l then [FDone] else []) ∧ FDone ∉ pre) ∧
  (Forall (λ i, is_response_start i = false) l →
   Forall (λ h, h = state_header s) (omap header frames)).
Proof.
  revert s. induction l as [|i l IH]; intros s.
  { simpl. split_and!; [done..| |by constructor]. exists []. split; [done|]. set_solver. }
  cbn [encode_items existsb]. unfold chat_handle at 1 3 5 7. pose proof (handle_item_spec i s) as H.
  destruct (handle_item clock_override i s) as [[c s'] frames].
  destruct H as (-> & Hd & Hu & (pre & Hpre & Hnd) & Hh).
  assert (Hread : oks (read (i :: l)) = oks [i] ++ (if ends i then [] else oks (read l)))
    by (by destruct i as [[]|]).
  cbv zeta. rewrite Hread. destruct (ends i); cbn [orb].
  - rewrite !app_nil_r. split_and!; [done..|by exists pre|].
    intros Hf. inversion_clear Hf as [|? ? Hi _]. by apply Hh.
  - destruct (IH s') as (IHd & IHu & (pre' & Hpre' & Hnd') & IHh).
    rewrite !bind_app, !omap_app, Hd, Hu, IHd, IHu. rewrite app_nil_r in Hpre. subst pre.
    split_and!; [done..| |].
    + exists (frames ++ pre'). rewrite Hpre', app_assoc. split; [done|]. set_solver.
    + intros Hf. inversion_clear Hf as [|? ? Hi Hl]. destruct (Hh Hi) as [-> Hh'].
      apply Forall_app. split; [done|by apply IHh].
Qed.
End Content.

(** ** Properties *)
Section Properties.
Context `{J : JsonApi} (clock_override : option Z).

(** The response ends with [[DONE]], sent once and last, exactly when the
    canonical stream has a [ResponseStop] or fails. *)
Theorem chat_response_ends_with_done now l :
  ∃ pre, chat_outbound clock_override now l = pre ++ (if existsb ends l then [FDone] else []) ∧
    FDone ∉ pre.
Proof. apply (outbound_read clock_override l). Qed.

(** The chunks carry exactly the text and tool-call deltas of the canonical
    stream up to its end, in order; reasoning is not sent. *)
Theorem chat_response_preserves_deltas now l :
  chat_outbound clock_override now l ≫= frame_deltas = oks (read l) ≫= event_deltas.
Proof. apply (outbound_read clock_override l). Qed.

(** Every chunk of a response carries the id, the model and the creation
    time of its [ResponseStart], or the overriding clock. *)
Theorem chat_response_headers now id m n l :
  Forall (λ i, is_response_start i = false) l →
  Forall (λ h, h = (id, m, default n clock_override))
    (omap header (chat_outbound clock_override now (Ok (ResponseStart id m n) :: l))).
Proof.
  intros Hl. unfold chat_outbound. simpl. unfold chat_handle at 1. simpl.
  unfold mbind, emit_bind, push_delta, gets, push, modify, mret, emit_ret. simpl.
  destruct (outbound_read clock_override l {| response_id := id; model := m;
    created := match clock_override with None => n | Some _ => default now clock_override end |})
    as (_ & _ & _ & Hh).
  unfold state_header in Hh. simpl in Hh. destruct clock_override; (constructor; [done|]; by apply Hh).
Qed.

(** The only token usage a client sees is that of the final
    [ResponseStop]: usage deltas are dropped. *)
Theorem chat_response_usage now l :
  omap frame_usage (chat_outbound clock_override now l) = omap event_usage (oks (read l)).
Proof. apply (outbound_read clock_override l). Qed.
End Properties.

(** ** A concrete response *)
Module Samples.
#[local] Instance chat_json : JsonApi := TreeJson [].
Definition sample : list (result StreamEvent StreamError) :=
  [Ok (MessageStart Assistant); Ok (TextDelta 0 "hi"); Ok (MessageStop EndTurn None);
   Err StreamTimeout].

Lemma chat_response_headers_witness :
  Forall (λ i, is_response_start i = false) sample ∧
  Forall (λ h, h = ("r", "m", 7%Z)) (omap header (chat_outbound None 0 (Ok (ResponseStart "r" "m" 7) :: sample))).
Proof.
  assert (Hs : Forall (λ i, is_response_start i = false) sample) by (repeat constructor).
  split; [exact Hs|]. exact (chat_response_headers None 0 "r" "m" 7 sample Hs).
Defined.
End Samples.
