(* ===== verification/ResponsesEncode.v ===== *)
(** * The OpenAI Responses stream encoder
    (crates/frontends/src/openai_responses/encode_stream.rs)

    [handle_event] is the method of [OaiResponsesEncoderStream] on one canonical
    event: the outbound items it queues, events or encoding errors, and whether
    the stream is complete.  The wire types are those of
    [openai_responses/wire.rs], without the constant tags; their JSON is
    serde's, a parameter. *)
From stdpp Require Import pretty.
From S2P Require Import Prelude Json CoreTypes Emit Lifecycle Drain Sse.
#[local] Open Scope string_scope.
#[local] Open Scope list_scope.
#[local] Open Scope nat_scope.

(** ** The wire *)
Record UsageOut := { u_input_tokens : Z; u_output_tokens : Z; u_total_tokens : Z }.
Inductive OutputContent :=
| OutputText (text : string)
| OutputReasoning (text : string) (summary : option string).
Inductive OutputItem :=
| ItemMessage (id status : string) (content : list OutputContent)
| ItemFunctionCall (id call_id name arguments status : string)
| ItemReasoning (id status : string) (content : list OutputContent).
Record ResponseObject := {
  ro_id : string; ro_status : string; ro_model : string; ro_created_at : Z;
  ro_output : list OutputItem; ro_usage : option UsageOut;
}.

(** The payloads of the streaming events. *)
Inductive ResponsesEvent :=
| RCreated (r : ResponseObject)
| ROutputItemAdded (output_index : Z) (item : OutputItem)
| RContentPartAdded (item_id : string) (output_index content_index : Z) (part : OutputContent)
| RTextDelta (item_id : string) (output_index content_index : Z) (delta : string)
| RTextDone (item_id : string) (output_index content_index : Z) (text : string)
| RContentPartDone (item_id : string) (output_index content_index : Z) (part : OutputContent)
| ROutputItemDone (output_index : Z) (item : OutputItem)
| RArgsDelta (item_id : string) (output_index : Z) (delta : string)
| RArgsDone (item_id : string) (output_index : Z) (arguments : string)
| RReasoningDelta (item_id : string) (output_index : Z) (delta : string)
| RReasoningDone (item_id : string) (output_index : Z) (text : string)
| RCompleted (r : ResponseObject)
| RErrorEvent (message : string).

Definition event_name (ev : ResponsesEvent) : string :=
  match ev with
  | RCreated _ => "response.created"
  | ROutputItemAdded _ _ => "response.output_item.added"
  | RContentPartAdded _ _ _ _ => "response.content_part.added"
  | RTextDelta _ _ _ _ => "response.output_text.delta"
  | RTextDone _ _ _ _ => "response.output_text.done"
  | RContentPartDone _ _ _ _ => "response.content_part.done"
  | ROutputItemDone _ _ => "response.output_item.done"
  | RArgsDelta _ _ _ => "response.function_call_arguments.delta"
  | RArgsDone _ _ _ => "response.function_call_arguments.done"
  | RReasoningDelta _ _ _ => "response.reasoning.delta"
  | RReasoningDone _ _ _ => "response.reasoning.done"
  | RCompleted _ => "response.completed"
  | RErrorEvent _ => "error"
  end.

(** What the encoder queues: an event, or [FrontendError::Encode]. *)
#[local] Abbreviation Outbound := (result ResponsesEvent string).

(** ** The encoder's state *)
Record EncoderState := {
  re_response_id : string;
  re_model : string;
  re_created_at : Z;
  output_index : Z;
  text_buf : gmap Z string;
  reasoning_buf : gmap Z string;
  tool_args_buf : gmap Z string;
  item_ids : gmap Z string;
  tool_meta : gmap Z (string * string);
  canonical_to_output : gmap Z Z;
  final_status : option string;
  re_input_tokens : Z;
  re_output_tokens : Z;
}.

Definition set_re_response_id (x : string) (s : EncoderState) : EncoderState :=
  {|
     re_response_id := x; re_model := re_model s; re_created_at := re_created_at s;
     output_index := output_index s; text_buf := text_buf s; reasoning_buf := reasoning_buf
     s; tool_args_buf := tool_args_buf s; item_ids := item_ids s; tool_meta := tool_meta s;
     canonical_to_output := canonical_to_output s; final_status := final_status s;
     re_input_tokens := re_input_tokens s; re_output_tokens := re_output_tokens s |}.
Definition set_re_model (x : string) (s : EncoderState) : EncoderState :=
  {|
     re_response_id := re_response_id s; re_model := x; re_created_at := re_created_at s;
     output_index := output_index s; text_buf := text_buf s; reasoning_buf := reasoning_buf
     s; tool_args_buf := tool_args_buf s; item_ids := item_ids s; tool_meta := tool_meta s;
     canonical_to_output := canonical_to_output s; final_status := final_status s;
     re_input_tokens := re_input_tokens s; re_output_tokens := re_output_tokens s |}.
Definition set_re_created_at (x : Z) (s : EncoderState) : EncoderState :=
  {|
     re_response_id := re_response_id s; re_model := re_model s; re_created_at := x;
     output_index := output_index s; text_buf := text_buf s; reasoning_buf := reasoning_buf
     s; tool_args_buf := tool_args_buf s; item_ids := item_ids s; tool_meta := tool_meta s;
     canonical_to_output := canonical_to_output s; final_status := final_status s;
     re_input_tokens := re_input_tokens s; re_output_tokens := re_output_tokens s |}.
Definition set_output_index (x : Z) (s : EncoderState) : EncoderState :=
  {|
     re_response_id := re_response_id s; re_model := re_model s; re_created_at :=
     re_created_at s; output_index := x; text_buf := text_buf s; reasoning_buf :=
     reasoning_buf s; tool_args_buf := tool_args_buf s; item_ids := item_ids s; tool_meta :=
     tool_meta s; canonical_to_output := canonical_to_output s; final_status := final_status
     s; re_input_tokens := re_input_tokens s; re_output_tokens := re_output_tokens s |}.
Definition set_text_buf (x : gmap Z string) (s : EncoderState) : EncoderState :=
  {|
     re_response_id := re_response_id s; re_model := re_model s; re_created_at :=
     re_created_at s; output_index := output_index s; text_buf := x; reasoning_buf :=
     reasoning_buf s; tool_args_buf := tool_args_buf s; item_ids := item_ids s; tool_meta :=
     tool_meta s; canonical_to_output := canonical_to_output s; final_status := final_status
     s; re_input_tokens := re_input_tokens s; re_output_tokens := re_output_tokens s |}.
Definition set_reasoning_buf (x : gmap Z string) (s : EncoderState) : EncoderState :=
  {|
     re_response_id := re_response_id s; re_model := re_model s; re_created_at :=
     re_created_at s; output_index := output_index s; text_buf := text_buf s; reasoning_buf
     := x; tool_args_buf := tool_args_buf s; item_ids := item_ids s; tool_meta := tool_meta
     s; canonical_to_output := canonical_to_output s; final_status := final_status s;
     re_input_tokens := re_input_tokens s; re_output_tokens := re_output_tokens s |}.
Definition set_tool_args_buf (x : gmap Z string) (s : EncoderState) : EncoderState :=
  {|
     re_response_id := re_response_id s; re_model := re_model s; re_created_at :=
     re_created_at s; output_index := output_index s; text_buf := text_buf s; reasoning_buf
     := reasoning_buf s; tool_args_buf := x; item_ids := item_ids s; tool_meta := tool_meta
     s; canonical_to_output := canonical_to_output s; final_status := final_status s;
     re_input_tokens := re_input_tokens s; re_output_tokens := re_output_tokens s |}.
Definition set_item_ids (x : gmap Z string) (s : EncoderState) : EncoderState :=
  {|
     re_response_id := re_response_id s; re_model := re_model s; re_created_at :=
     re_created_at s; output_index := output_index s; text_buf := text_buf s; reasoning_buf
     := reasoning_buf s; tool_args_buf := tool_args_buf s; item_ids := x; tool_meta :=
     tool_meta s; canonical_to_output := canonical_to_output s; final_status := final_status
     s; re_input_tokens := re_input_tokens s; re_output_tokens := re_output_tokens s |}.
Definition set_tool_meta (x : gmap Z (string * string)) (s : EncoderState) : EncoderState :=
  {|
     re_response_id := re_response_id s; re_model := re_model s; re_created_at :=
     re_created_at s; output_index := output_index s; text_buf := text_buf s; reasoning_buf
     := reasoning_buf s; tool_args_buf := tool_args_buf s; item_ids := item_ids s; tool_meta
     := x; canonical_to_output := canonical_to_output s; final_status := final_status s;
     re_input_tokens := re_input_tokens s; re_output_tokens := re_output_tokens s |}.
Definition set_canonical_to_output (x : gmap Z Z) (s : EncoderState) : EncoderState :=
  {|
     re_response_id := re_response_id s; re_model := re_model s; re_created_at :=
     re_created_at s; output_index := output_index s; text_buf := text_buf s; reasoning_buf
     := reasoning_buf s; tool_args_buf := tool_args_buf s; item_ids := item_ids s; tool_meta
     := tool_meta s; canonical_to_output := x; final_status := final_status s;
     re_input_tokens := re_input_tokens s; re_output_tokens := re_output_tokens s |}.
Definition set_final_status (x : option string) (s : EncoderState) : EncoderState :=
  {|
     re_response_id := re_response_id s; re_model := re_model s; re_created_at :=
     re_created_at s; output_index := output_index s; text_buf := text_buf s; reasoning_buf
     := reasoning_buf s; tool_args_buf := tool_args_buf s; item_ids := item_ids s; tool_meta
     := tool_meta s; canonical_to_output := canonical_to_output s; final_status := x;
     re_input_tokens := re_input_tokens s; re_output_tokens := re_output_tokens s |}.
Definition set_re_input_tokens (x : Z) (s : EncoderState) : EncoderState :=
  {|
     re_response_id := re_response_id s; re_model := re_model s; re_created_at :=
     re_created_at s; output_index := output_index s; text_buf := text_buf s; reasoning_buf
     := reasoning_buf s; tool_args_buf := tool_args_buf s; item_ids := item_ids s; tool_meta
     := tool_meta s; canonical_to_output := canonical_to_output s; final_status :=
     final_status s; re_input_tokens := x; re_output_tokens := re_output_tokens s |}.
Definition set_re_output_tokens (x : Z) (s : EncoderState) : EncoderState :=
  {|
     re_response_id := re_response_id s; re_model := re_model s; re_created_at :=
     re_created_at s; output_index := output_index s; text_buf := text_buf s; reasoning_buf
     := reasoning_buf s; tool_args_buf := tool_args_buf s; item_ids := item_ids s; tool_meta
     := tool_meta s; canonical_to_output := canonical_to_output s; final_status :=
     final_status s; re_input_tokens := re_input_tokens s; re_output_tokens := x |}.

(** [EncoderState::new()]. *)
Definition new_encoder : EncoderState := {|
  re_response_id := ""; re_model := ""; re_created_at := 0; output_index := 0;
  text_buf := ∅; reasoning_buf := ∅; tool_args_buf := ∅; item_ids := ∅; tool_meta := ∅;
  canonical_to_output := ∅; final_status := None; re_input_tokens := 0; re_output_tokens := 0 |}.

(** [format!("{n}")], and the ids of the output items. *)
Definition show_u32 (n : Z) : string := pretty n.
Definition msg_id (oi : Z) : string := ("msg_" ++ show_u32 oi)%string.
Definition rs_id (oi : Z) : string := ("rs_" ++ show_u32 oi)%string.
Definition fc_id (oi : Z) : string := ("fc_" ++ show_u32 oi)%string.

(** [openai_responses/mapping.rs]. *)
Definition status_from_stop_reason (reason : StopReason) : string :=
  match reason with ContentFilter => "incomplete" | _ => "completed" end.

(** [buf.entry(oi).or_default().push_str(text)]. *)
Definition append_at (oi : Z) (text : string) (buf : gmap Z string) : gmap Z string :=
  <[oi := (default "" (buf !! oi) ++ text)%string]> buf.

Section Encoder.
Context `{J : JsonApi} (clock_override : option Z).
#[local] Abbreviation M := (emit EncoderState Outbound).

Definition next_output_index : M Z :=
  idx ← gets output_index;
  modify (λ s, set_output_index (u32_add (output_index s) 1) s);;
  mret idx.
Definition push_event (ev : ResponsesEvent) : M unit := push (Ok ev).
Definition push_encode_error (what : string) (index : Z) : M unit :=
  push (Err (what ++ " for unknown content block index: " ++ show_u32 index)%string).
(** [item_ids.get(&oi).cloned().unwrap_or_default()]. *)
Definition item_id_of (oi : Z) : M string := gets (λ s, default "" (item_ids s !! oi)).

(** The output index of a block, in a handler that needs it. *)
Definition with_output (what : string) (index : Z) (k : Z → M unit) : M unit :=
  found ← gets (λ s, canonical_to_output s !! index);
  match found with
  | Some oi => k oi
  | None => push_encode_error what index
  end.

(** The bindings of a new item. *)
Definition bind_item (index oi : Z) (item_id : string) (s : EncoderState) : EncoderState :=
  set_item_ids (<[oi := item_id]> (item_ids s))
    (set_canonical_to_output (<[index := oi]> (canonical_to_output s)) s).

Definition handle_response_start (id model : string) (created_at_unix : Z) : M unit :=
  modify (set_re_response_id ("resp_" ++ id)%string);;
  modify (set_re_model model);;
  when (negb (bool_decide (is_Some clock_override))) (modify (set_re_created_at created_at_unix));;
  rid ← gets re_response_id;
  created ← gets re_created_at;
  push_event (RCreated {| ro_id := rid; ro_status := "in_progress"; ro_model := model;
    ro_created_at := created; ro_output := []; ro_usage := None |}).

Definition handle_block_start (index : Z) (kind : ContentBlockKind) : M unit :=
  match kind with
  | Text =>
      oi ← next_output_index;
      modify (bind_item index oi (msg_id oi));;
      modify (λ s, set_text_buf (<[oi := ""]> (text_buf s)) s);;
      push_event (ROutputItemAdded oi (ItemMessage (msg_id oi) "in_progress" []));;
      push_event (RContentPartAdded (msg_id oi) oi 0 (OutputText ""))
  | Reasoning =>
      oi ← next_output_index;
      modify (bind_item index oi (rs_id oi));;
      modify (λ s, set_reasoning_buf (<[oi := ""]> (reasoning_buf s)) s);;
      push_event (ROutputItemAdded oi (ItemReasoning (rs_id oi) "in_progress" []))
  | _ => mret tt
  end.

Definition handle_text_delta (index : Z) (text : string) : M unit :=
  with_output "text delta" index (λ oi,
    item_id ← item_id_of oi;
    push_event (RTextDelta item_id oi 0 text);;
    modify (λ s, set_text_buf (append_at oi text (text_buf s)) s)).
Definition handle_reasoning_delta (index : Z) (text : string) : M unit :=
  with_output "reasoning delta" index (λ oi,
    item_id ← item_id_of oi;
    push_event (RReasoningDelta item_id oi text);;
    modify (λ s, set_reasoning_buf (append_at oi text (reasoning_buf s)) s)).

Definition handle_tool_start (index : Z) (id name : string) : M unit :=
  oi ← next_output_index;
  modify (bind_item index oi (fc_id oi));;
  modify (λ s, set_tool_args_buf (<[oi := ""]> (tool_args_buf s)) s);;
  modify (λ s, set_tool_meta (<[oi := (id, name)]> (tool_meta s)) s);;
  push_event (ROutputItemAdded oi (ItemFunctionCall (fc_id oi) id name "" "in_progress")).
Definition handle_tool_args (index : Z) (json_fragment : string) : M unit :=
  with_output "tool call argument delta" index (λ oi,
    item_id ← item_id_of oi;
    push_event (RArgsDelta item_id oi json_fragment);;
    modify (λ s, set_tool_args_buf (append_at oi json_fragment (tool_args_buf s)) s)).
Definition handle_tool_stop (index : Z) : M unit :=
  with_output "tool call stop" index (λ oi,
    item_id ← item_id_of oi;
    args ← gets (λ s, default "" (tool_args_buf s !! oi));
    modify (λ s, set_tool_args_buf (delete oi (tool_args_buf s)) s);;
    meta ← gets (λ s, default ("", "") (tool_meta s !! oi));
    modify (λ s, set_tool_meta (delete oi (tool_meta s)) s);;
    push_event (RArgsDone item_id oi args);;
    push_event (ROutputItemDone oi (ItemFunctionCall item_id meta.1 meta.2 args "completed"))).

Definition handle_block_stop (index : Z) : M unit :=
  found ← gets (λ s, canonical_to_output s !! index);
  match found with
  | None => mret tt
  | Some oi =>
      modify (λ s, set_canonical_to_output (delete index (canonical_to_output s)) s);;
      item_id ← item_id_of oi;
      buffered ← gets (λ s, text_buf s !! oi);
      match buffered with
      | Some text =>
          modify (λ s, set_text_buf (delete oi (text_buf s)) s);;
          push_event (RTextDone item_id oi 0 text);;
          push_event (RContentPartDone item_id oi 0 (OutputText text));;
          push_event (ROutputItemDone oi (ItemMessage item_id "completed" [OutputText text]))
      | None =>
          reasoning ← gets (λ s, reasoning_buf s !! oi);
          match reasoning with
          | Some text =>
              modify (λ s, set_reasoning_buf (delete oi (reasoning_buf s)) s);;
              push_event (RReasoningDone item_id oi text);;
              push_event (ROutputItemDone oi (ItemReasoning item_id "completed" [OutputReasoning text None]))
          | None => mret tt
          end
      end
  end.

Definition add_usage (u : Usage) (s : EncoderState) : EncoderState :=
  let s := set_re_input_tokens (u32_add (re_input_tokens s) (default 0%Z (input_tokens u))) s in
  set_re_output_tokens (u32_add (re_output_tokens s) (default 0%Z (output_tokens u))) s.
Definition override_usage (u : Usage) (s : EncoderState) : EncoderState :=
  let s := match input_tokens u with Some it => set_re_input_tokens it s | None => s end in
  match output_tokens u with Some ot => set_re_output_tokens ot s | None => s end.

(** The object of [response.completed]. *)
Definition completed_response (s : EncoderState) : ResponseObject := {|
  ro_id := re_response_id s; ro_status := default "completed" (final_status s);
  ro_model := re_model s; ro_created_at := re_created_at s; ro_output := [];
  ro_usage := Some {| u_input_tokens := re_input_tokens s; u_output_tokens := re_output_tokens s;
    u_total_tokens := u32_add (re_input_tokens s) (re_output_tokens s) |} |}.
Definition handle_response_stop (usage : option Usage) : M bool :=
  match usage with Some u => modify (override_usage u) | None => mret tt end;;
  resp ← gets completed_response;
  push_event (RCompleted resp);;
  mret true.

(** The match of [handle]; the answer is whether the stream is complete. *)
Definition handle_event (ev : StreamEvent) : M bool :=
  match ev with
  | ResponseStart id model created_at_unix => handle_response_start id model created_at_unix;; mret false
  | ContentBlockStart index kind => handle_block_start index kind;; mret false
  | TextDelta index text => handle_text_delta index text;; mret false
  | ReasoningDelta index text => handle_reasoning_delta index text;; mret false
  | ToolCallStart index id name => handle_tool_start index id name;; mret false
  | ToolCallArgumentsDelta index json_fragment => handle_tool_args index json_fragment;; mret false
  | ContentBlockStop index => handle_block_stop index;; mret false
  | ToolCallStop index => handle_tool_stop index;; mret false
  | UsageDelta usage => modify (add_usage usage);; mret false
  | MessageStop stop_reason _ =>
      modify (set_final_status (Some (status_from_stop_reason stop_reason)));; mret false
  | ResponseStop usage => handle_response_stop usage
  | ErrorEvent message => push_event (RErrorEvent message);; mret false
  | MessageStart _ | RawProviderEvent _ => mret false
  end.
Definition handle_item (item : result StreamEvent StreamError) : M bool :=
  match item with
  | Ok ev => handle_event ev
  | Err e => push_event (RErrorEvent (show_stream_error e));; mret false
  end.

(** ** The bytes and the poll loop *)
Context (to_json : ResponsesEvent → option string).
(** What is queued for an outbound item: nothing when serialisation fails. *)
Definition frame_of (o : Outbound) : option (result string string) :=
  match o with
  | Ok ev => Ok <$> event_serialized (event_name ev) (to_json ev)
  | Err e => Some (Err e)
  end.
Definition handle (item : result StreamEvent StreamError) (s : EncoderState)
    : EncoderState * list (result string string) * bool :=
  let '(complete, s', evs) := handle_item item s in (s', omap frame_of evs, complete).

(** [OaiResponsesEncoderStream::new]. *)
Definition start_state : EncoderState :=
  match clock_override with Some ts => set_re_created_at ts new_encoder | None => new_encoder end.
Definition poll_next : encoder → poll (option (result string string)) * encoder := encoder_poll handle.
Definition encode (src : list (source_poll (result StreamEvent StreamError))) : encoder :=
  einit (O := result string string) start_state src.
End Encoder.

(** The outbound items of a stream, before serialisation. *)
Definition outbound_handle `{J : JsonApi} (clock : option Z) (item : result StreamEvent StreamError)
    (s : EncoderState) : EncoderState * list Outbound * bool :=
  let '(complete, s', evs) := handle_item clock item s in (s', evs, complete).
Definition outbound `{J : JsonApi} (clock : option Z) (l : list (result StreamEvent StreamError))
    : list Outbound :=
  encode_items (outbound_handle clock) l (start_state clock).

(** ** The protocol of the wire

    What a Responses client relies on: [response.created] first; output items
    numbered from 0, each announced in progress, filled by deltas of its own id
    and type, and finished by the done events that repeat exactly what the
    deltas spelled; [response.completed] last, with no item unfinished; no
    encoding error. *)
Inductive stage := MAdded | MOpen | MTextDone | MPartDone.
Inductive item_state :=
| IMessage (st : stage) (text : string)
| IReasoning (finished : bool) (text : string)
| ICall (call_id name : string) (finished : bool) (arguments : string).
#[export] Instance stage_eq_dec : EqDecision stage.
Proof. solve_decision. Defined.
#[export] Instance output_content_eq_dec : EqDecision OutputContent.
Proof. solve_decision. Defined.
#[export] Instance output_item_eq_dec : EqDecision OutputItem.
Proof. solve_decision. Defined.

Record proto := { rp_created : bool; rp_next : Z; rp_open : gmap Z item_state; rp_completed : bool }.
Definition proto0 : proto := {| rp_created := false; rp_next := 0; rp_open := ∅; rp_completed := false |}.
Definition set_rp_open (o : gmap Z item_state) (g : proto) : proto :=
  {| rp_created := rp_created g; rp_next := rp_next g; rp_open := o; rp_completed := rp_completed g |}.

(** A new item, in its initial form. *)
Definition initial_state (oi : Z) (item : OutputItem) : option item_state :=
  match item with
  | ItemMessage id status [] =>
      if bool_decide (id = msg_id oi ∧ status = "in_progress") then Some (IMessage MAdded "") else None
  | ItemReasoning id status [] =>
      if bool_decide (id = rs_id oi ∧ status = "in_progress") then Some (IReasoning false "") else None
  | ItemFunctionCall id call_id name arguments status =>
      if bool_decide (id = fc_id oi ∧ arguments = "" ∧ status = "in_progress")
      then Some (ICall call_id name false "") else None
  | _ => None
  end.
(** The item a finished state stands for. *)
Definition final_item (oi : Z) (st : item_state) : option OutputItem :=
  match st with
  | IMessage MPartDone text => Some (ItemMessage (msg_id oi) "completed" [OutputText text])
  | IReasoning true text => Some (ItemReasoning (rs_id oi) "completed" [OutputReasoning text None])
  | ICall call_id name true args => Some (ItemFunctionCall (fc_id oi) call_id name args "completed")
  | _ => None
  end.

(** An event of an open item: its next state. *)
Definition item_step (oi : Z) (st : item_state) (ev : ResponsesEvent) : option item_state :=
  match ev, st with
  | RContentPartAdded id _ 0%Z (OutputText ""), IMessage MAdded text =>
      if bool_decide (id = msg_id oi) then Some (IMessage MOpen text) else None
  | RTextDelta id _ 0%Z d, IMessage MOpen text =>
      if bool_decide (id = msg_id oi) then Some (IMessage MOpen (text ++ d)) else None
  | RTextDone id _ 0%Z t, IMessage MOpen text =>
      if bool_decide (id = msg_id oi ∧ t = text) then Some (IMessage MTextDone text) else None
  | RContentPartDone id _ 0%Z (OutputText t), IMessage MTextDone text =>
      if bool_decide (id = msg_id oi ∧ t = text) then Some (IMessage MPartDone text) else None
  | RReasoningDelta id _ d, IReasoning false text =>
      if bool_decide (id = rs_id oi) then Some (IReasoning false (text ++ d)) else None
  | RReasoningDone id _ t, IReasoning false text =>
      if bool_decide (id = rs_id oi ∧ t = text) then Some (IReasoning true text) else None
  | RArgsDelta id _ d, ICall call_id name false args =>
      if bool_decide (id = fc_id oi) then Some (ICall call_id name false (args ++ d)) else None
  | RArgsDone id _ a, ICall call_id name false args =>
      if bool_decide (id = fc_id oi ∧ a = args) then Some (ICall call_id name true args) else None
  | _, _ => None
  end%string.
Definition event_index (ev : ResponsesEvent) : option Z :=
  match ev with
  | RContentPartAdded _ oi _ _ | RTextDelta _ oi _ _ | RTextDone _ oi _ _ | RContentPartDone _ oi _ _
  | RArgsDelta _ oi _ | RArgsDone _ oi _ | RReasoningDelta _ oi _ | RReasoningDone _ oi _ => Some oi
  | _ => None
  end.

Definition proto_check (g : proto) (o : Outbound) : option proto :=
  if rp_completed g then None else
  match o with
  | Err _ => None
  | Ok (RErrorEvent _) => Some g
  | Ok (RCreated _) =>
      if rp_created g then None
      else Some {| rp_created := true; rp_next := rp_next g; rp_open := rp_open g; rp_completed := false |}
  | Ok (ROutputItemAdded oi item) =>
      if rp_created g && bool_decide (oi = rp_next g)
      then st ← initial_state oi item;
           Some {| rp_created := true; rp_next := rp_next g + 1; rp_open := <[oi := st]> (rp_open g);
                   rp_completed := false |}%Z
      else None
  | Ok (ROutputItemDone oi item) =>
      st ← rp_open g !! oi;
      if bool_decide (final_item oi st = Some item) then Some (set_rp_open (delete oi (rp_open g)) g) else None
  | Ok (RCompleted _) =>
      if rp_created g && bool_decide (dom (rp_open g) = ∅)
      then Some {| rp_created := true; rp_next := rp_next g; rp_open := rp_open g; rp_completed := true |}
      else None
  | Ok ev =>
      oi ← event_index ev;
      st ← rp_open g !! oi;
      st' ← item_step oi st ev;
      Some (set_rp_open (<[oi := st']> (rp_open g)) g)
  end.

(** Every tool call is announced once and stopped once, with its arguments in
    between: what the wire needs beyond the canonical lifecycle. *)
Definition calls_check `{J : JsonApi} (st : gset Z * gset Z) (ev : StreamEvent) : option (gset Z * gset Z) :=
  let '(A, D) := st in
  match ev with
  | ToolCallStart i _ _ => if bool_decide (i ∈ A) then None else Some ({[i]} ∪ A, D)
  | ToolCallArgumentsDelta i _ => if bool_decide (i ∈ A ∧ i ∉ D) then Some (A, D) else None
  | ToolCallStop i => if bool_decide (i ∈ A ∧ i ∉ D) then Some (A, {[i]} ∪ D) else None
  | _ => Some (A, D)
  end.

(** ** A conforming canonical stream is a conforming response *)
Section Simulation.
Context `{J : JsonApi} (clock : option Z).
Implicit Types (o : gmap Z ContentBlockKind) (t c A D : gset Z) (s : EncoderState) (g : proto).

(** The output item of a canonical block: what the encoder and the client know
    of it. *)
Definition slot_ok (k : option ContentBlockKind) (announced stopped : bool) s g (out : option Z) : Prop :=
  match k, out with
  | Some Text, Some oi => ∃ x, rp_open g !! oi = Some (IMessage MOpen x) ∧
      text_buf s !! oi = Some x ∧ item_ids s !! oi = Some (msg_id oi)
  | Some Reasoning, Some oi => ∃ x, rp_open g !! oi = Some (IReasoning false x) ∧
      text_buf s !! oi = None ∧ reasoning_buf s !! oi = Some x ∧ item_ids s !! oi = Some (rs_id oi)
  | Some ToolCall, Some oi =>
      announced = true ∧ text_buf s !! oi = None ∧ reasoning_buf s !! oi = None ∧
      if stopped then rp_open g !! oi = None
      else ∃ call_id name x, rp_open g !! oi = Some (ICall call_id name false x) ∧
        tool_args_buf s !! oi = Some x ∧ tool_meta s !! oi = Some (call_id, name) ∧
        item_ids s !! oi = Some (fc_id oi)
  | Some ToolCall, None => announced = false
  | Some Text, None | Some Reasoning, None => False
  | _, None => True
  | _, Some _ => False
  end.

(** Two states agree on an output item. *)
Definition same_at s s' g g' (oi : Z) : Prop :=
  rp_open g' !! oi = rp_open g !! oi ∧ text_buf s' !! oi = text_buf s !! oi ∧
  reasoning_buf s' !! oi = reasoning_buf s !! oi ∧ tool_args_buf s' !! oi = tool_args_buf s !! oi ∧
  tool_meta s' !! oi = tool_meta s !! oi ∧ item_ids s' !! oi = item_ids s !! oi.
Lemma slot_frame k a st s s' g g' out :
  slot_ok k a st s g out → (∀ oi, out = Some oi → same_at s s' g g' oi) → slot_ok k a st s' g' out.
Proof.
  intros Hs Hf. destruct out as [oi|]; [|done]. destruct (Hf oi eq_refl) as (H1 & H2 & H3 & H4 & H5 & H6).
  unfold slot_ok in *. by rewrite ?H1, ?H2, ?H3, ?H4, ?H5, ?H6.
Qed.

Record rel o t c A D s g : Prop := {
  r_slots : ∀ i, slot_ok (o !! i) (bool_decide (i ∈ A)) (bool_decide (i ∈ D)) s g (canonical_to_output s !! i);
  r_inj : ∀ i j oi, canonical_to_output s !! i = Some oi → canonical_to_output s !! j = Some oi → i = j;
  r_owned : ∀ oi, is_Some (rp_open g !! oi) → ∃ i, canonical_to_output s !! i = Some oi;
  r_next : output_index s = rp_next g ∧ (0 ≤ rp_next g)%Z;
  r_below : ∀ i oi, canonical_to_output s !! i = Some oi → (oi < rp_next g)%Z;
  r_fresh : ∀ oi, is_Some (text_buf s !! oi) ∨ is_Some (reasoning_buf s !! oi) → (oi < rp_next g)%Z;
  r_announced : ∀ i, i ∈ A → is_Some (o !! i) ∨ i ∈ c;
  r_stopped : D ⊆ A;
  r_tools : t ⊆ D;
  r_disjoint : ∀ i, is_Some (o !! i) → i ∉ c;
}.
Definition live g : Prop := rp_created g = true ∧ rp_completed g = false.

Lemma same_at_refl s g oi : same_at s s g g oi.
Proof. by split_and!. Qed.
Lemma slot_flags k A A' D D' (j : Z) s g out :
  (j ∈ A' ↔ j ∈ A) → (j ∈ D' ↔ j ∈ D) →
  slot_ok k (bool_decide (j ∈ A)) (bool_decide (j ∈ D)) s g out →
  slot_ok k (bool_decide (j ∈ A')) (bool_decide (j ∈ D')) s g out.
Proof. intros HA HD. by rewrite (bool_decide_ext _ _ HA), (bool_decide_ext _ _ HD). Qed.
Lemma slot_none a d s g out : slot_ok None a d s g out → out = None.
Proof. by destruct out. Qed.

(** An event of the open item [oi] of block [i]. *)
Lemma rel_touch i oi o t t' c A D D' s s' g g' :
  rel o t c A D s g → canonical_to_output s !! i = Some oi →
  canonical_to_output s' = canonical_to_output s → output_index s' = output_index s →
  rp_next g' = rp_next g → (∀ oi', oi' ≠ oi → same_at s s' g g' oi') →
  (∀ j, j ≠ i → j ∈ D' ↔ j ∈ D) → D' ⊆ A → t' ⊆ D' →
  slot_ok (o !! i) (bool_decide (i ∈ A)) (bool_decide (i ∈ D')) s' g' (Some oi) →
  rel o t' c A D' s' g'.
Proof.
  intros [] Hi Hc Ho Hn Hsame HD HDA Ht Hslot. split; rewrite ?Hc, ?Ho, ?Hn; try done.
  - intros j. destruct (decide (j = i)) as [->|Hne]; [by rewrite Hi|].
    apply (slot_flags _ A _ D); [done|by apply HD|]. eapply slot_frame; [apply r_slots0|]. intros oi' Hj. apply Hsame. intros ->.
    by apply Hne, (r_inj0 _ _ oi).
  - intros oi' Hs. destruct (decide (oi' = oi)) as [->|Hne]; [eauto|].
    apply r_owned0. by destruct (Hsame oi' Hne) as (<- & _).
  - intros oi' Hs. destruct (decide (oi' = oi)) as [->|Hne]; [by eapply r_below0|].
    apply r_fresh0. by destruct (Hsame oi' Hne) as (_ & <- & <- & _).
Qed.

(** A new item, for block [i]. *)
Lemma rel_new i o o' t c A A' D s s' g g' :
  rel o t c A D s g → canonical_to_output s !! i = None →
  canonical_to_output s' = <[i := rp_next g]> (canonical_to_output s) →
  output_index s' = (rp_next g + 1)%Z → rp_next g' = (rp_next g + 1)%Z →
  (∀ oi', oi' ≠ rp_next g → same_at s s' g g' oi') →
  (∀ j, j ≠ i → o' !! j = o !! j ∧ (j ∈ A' ↔ j ∈ A)) → A ⊆ A' →
  is_Some (o' !! i) → i ∉ c →
  slot_ok (o' !! i) (bool_decide (i ∈ A')) (bool_decide (i ∈ D)) s' g' (Some (rp_next g)) →
  rel o' t c A' D s' g'.
Proof.
  intros [] Hi Hc Ho Hn Hsame Hoff HA Hoi Hic Hslot. pose proof r_next0 as [_ Hpos].
  assert (Hlt : ∀ j oi, canonical_to_output s !! j = Some oi → oi ≠ rp_next g)
    by (intros j oi Hj; pose proof (r_below0 _ _ Hj); lia).
  split; rewrite ?Hc, ?Ho, ?Hn; try done; [..|by etrans|].
  - intros j. destruct (decide (j = i)) as [->|Hne]; [by rewrite lookup_insert_eq|].
    rewrite lookup_insert_ne by done. destruct (Hoff j Hne) as [-> HAj].
    apply (slot_flags _ A _ D); [done..|]. eapply slot_frame; [apply r_slots0|]. intros oi' Hj. by eapply Hsame, Hlt.
  - intros j k oi. destruct (decide (j = i)) as [->|Hj], (decide (k = i)) as [->|Hk];
      rewrite ?lookup_insert_eq, ?lookup_insert_ne by done; try done.
    + intros [= <-] H. by destruct (Hlt _ _ H).
    + intros H [= <-]. by destruct (Hlt _ _ H).
    + apply r_inj0.
  - intros oi Hs. destruct (decide (oi = rp_next g)) as [->|Hne].
    + exists i. apply lookup_insert_eq.
    + destruct (r_owned0 oi) as [j Hj]; [by destruct (Hsame oi Hne) as (<- & _)|].
      exists j. rewrite lookup_insert_ne; [done|]. congruence.
  - lia.
  - intros j oi. destruct (decide (j = i)) as [->|Hj].
    + rewrite lookup_insert_eq. intros [= <-]. lia.
    + rewrite lookup_insert_ne by done. intros ?%r_below0. lia.
  - intros oi Hs. destruct (decide (oi = rp_next g)) as [->|Hne]; [lia|].
    enough (oi < rp_next g)%Z by lia. apply r_fresh0. by destruct (Hsame oi Hne) as (_ & <- & <- & _).
  - intros j Hj. destruct (decide (j = i)) as [->|Hne]; [by left|].
    destruct (Hoff j Hne) as [-> HAj]. by apply r_announced0, HAj.
  - intros j. destruct (decide (j = i)) as [->|Hne]; [done|]. destruct (Hoff j Hne) as [-> _]. apply r_disjoint0.
Qed.

(** A block that is no item (yet). *)
Lemma rel_blank i k o t c A D s g :
  rel o t c A D s g → o !! i = None → i ∉ c → k ≠ Text → k ≠ Reasoning →
  rel (<[i := k]> o) t c A D s g.
Proof.
  intros [] Hi Hc Hk Hk'. split; try done.
  - intros j. destruct (decide (j = i)) as [->|Hne]; [|by rewrite lookup_insert_ne].
    rewrite lookup_insert_eq. specialize (r_slots0 i). rewrite Hi in r_slots0.
    apply slot_none in r_slots0 as ->. destruct k; try done. simpl. apply bool_decide_eq_false.
    intros [[? ?]|?]%r_announced0; congruence.
  - intros j Hj. destruct (decide (j = i)) as [->|Hne]; [left; by rewrite lookup_insert_eq|].
    rewrite lookup_insert_ne by done. by apply r_announced0.
  - intros j. destruct (decide (j = i)) as [->|Hne]; [done|]. rewrite lookup_insert_ne by done. apply r_disjoint0.
Qed.

(** The end of block [i]. *)
Lemma rel_close i o t t' c A D s s' g g' :
  rel o t c A D s g → canonical_to_output s' = delete i (canonical_to_output s) →
  output_index s' = output_index s → rp_next g' = rp_next g →
  (∀ oi, canonical_to_output s !! i ≠ Some oi → same_at s s' g g' oi) →
  (∀ oi, canonical_to_output s !! i = Some oi → rp_open g' !! oi = None) → t' ⊆ t →
  rel (delete i o) t' ({[i]} ∪ c) A D s' g'.
Proof.
  intros [] Hc Ho Hn Hsame Hopen Ht. split; rewrite ?Hc, ?Ho, ?Hn; try done; [..|by etrans|].
  - intros j. destruct (decide (j = i)) as [->|Hne].
    + by rewrite !lookup_delete_eq.
    + rewrite !lookup_delete_ne by done. eapply slot_frame; [apply r_slots0|]. intros oi Hj. apply Hsame.
      intros Hi. by apply Hne, (r_inj0 _ _ oi).
  - intros j k oi [_ Hj]%lookup_delete_Some [_ Hk]%lookup_delete_Some. by eapply r_inj0.
  - intros oi Hs. destruct (decide (canonical_to_output s !! i = Some oi)) as [Hi|Hi].
    { rewrite (Hopen oi Hi) in Hs. by destruct Hs. }
    destruct (r_owned0 oi) as [j Hj]; [by destruct (Hsame oi Hi) as (<- & _)|].
    exists j. rewrite lookup_delete_ne; [done|]. congruence.
  - intros j oi [_ Hj]%lookup_delete_Some. by eapply r_below0.
  - intros oi Hs. destruct (decide (canonical_to_output s !! i = Some oi)) as [Hi|Hi]; [by eapply r_below0|].
    apply r_fresh0. by destruct (Hsame oi Hi) as (_ & <- & <- & _).
  - intros j Hj. destruct (decide (j = i)) as [->|Hne]; [right; set_solver|].
    rewrite lookup_delete_ne by done. destruct (r_announced0 j Hj); [by left|right; set_solver].
  - intros j [x [Hne Hj]%lookup_delete_Some]. pose proof (r_disjoint0 j (mk_is_Some _ _ Hj)). set_solver.
Qed.

(** *** The handlers *)
Ltac run := unfold with_output, item_id_of, push_event, next_output_index, mbind, emit_bind, gets, modify,
  push, mret, emit_ret; cbn -[lookup insert delete u32_add].
Ltac same := unfold append_at; split_and!; simpl;
  repeat first [rewrite lookup_insert_ne by done | rewrite lookup_delete_ne by done]; done.

(** A handler's run, in step with the client and the next validator state. *)
Definition steps_to (m : emit EncoderState Outbound unit) s g (fresh : Z) (P : EncoderState → proto → Prop) : Prop :=
  ∃ s' evs g', m s = (tt, s', evs) ∧ monitor proto_check g evs = Some g' ∧ live g' ∧
    (rp_next g' ≤ rp_next g + fresh)%Z ∧ P s' g'.

Lemma check_item g ev oi st st' :
  rp_completed g = false → event_index ev = Some oi → rp_open g !! oi = Some st →
  item_step oi st ev = Some st' → proto_check g (Ok ev) = Some (set_rp_open (<[oi := st']> (rp_open g)) g).
Proof.
  intros Hco Hoi Hg Hst. unfold proto_check. rewrite Hco. destruct ev; try done;
    unfold mbind, option_bind; by rewrite Hoi, Hg, Hst.
Qed.
Lemma check_item_done g oi st item :
  rp_completed g = false → rp_open g !! oi = Some st → final_item oi st = Some item →
  proto_check g (Ok (ROutputItemDone oi item)) = Some (set_rp_open (delete oi (rp_open g)) g).
Proof.
  intros Hco Hg Hst. unfold proto_check. rewrite Hco, Hg. simpl. by rewrite bool_decide_eq_true_2.
Qed.
Lemma check_item_added g oi st item :
  live g → oi = rp_next g → initial_state oi item = Some st →
  proto_check g (Ok (ROutputItemAdded oi item)) = Some
    {| rp_created := true; rp_next := rp_next g + 1; rp_open := <[oi := st]> (rp_open g); rp_completed := false |}%Z.
Proof.
  intros [Hcr Hco] -> Hst. unfold proto_check. rewrite Hco, Hcr, bool_decide_eq_true_2 by done. simpl. by rewrite Hst.
Qed.
(** The event of an item, with its id and contents as expected. *)
Ltac accepts := simpl; rewrite ?bool_decide_eq_true_2 by done; reflexivity.

Lemma step_text_delta i x o t c A D s g :
  rel o t c A D s g → live g → o !! i = Some Text →
  steps_to (handle_text_delta i x) s g 0 (rel o t c A D).
Proof.
  intros Hr [Hcr Hco] Hi. pose proof (r_slots _ _ _ _ _ _ _ Hr i) as Hs. rewrite Hi in Hs.
  destruct (canonical_to_output s !! i) as [oi|] eqn:Hc; [|done]. destruct Hs as (y & Hg & Ht & Hid).
  unfold steps_to, handle_text_delta. run. rewrite Hc. cbn -[lookup insert]. rewrite Hid.
  eexists _, _, (set_rp_open (<[oi := IMessage MOpen (y ++ x)%string]> (rp_open g)) g).
  split_and!; [done| |done|simpl; lia|].
  - erewrite monitor_cons by (eapply check_item; [done|done|exact Hg|accepts]). done.
  - eapply (rel_touch i oi); [exact Hr|exact Hc|done..| |done|apply Hr|apply Hr|]; [intros oi' Hne; same|].
    rewrite Hi. exists (y ++ x)%string. unfold append_at. simpl. by rewrite !lookup_insert_eq, Ht.
Qed.
Lemma step_reasoning_delta i x o t c A D s g :
  rel o t c A D s g → live g → o !! i = Some Reasoning →
  steps_to (handle_reasoning_delta i x) s g 0 (rel o t c A D).
Proof.
  intros Hr [Hcr Hco] Hi. pose proof (r_slots _ _ _ _ _ _ _ Hr i) as Hs. rewrite Hi in Hs.
  destruct (canonical_to_output s !! i) as [oi|] eqn:Hc; [|done]. destruct Hs as (y & Hg & Ht & Hrs & Hid).
  unfold steps_to, handle_reasoning_delta. run. rewrite Hc. cbn -[lookup insert]. rewrite Hid.
  eexists _, _, (set_rp_open (<[oi := IReasoning false (y ++ x)%string]> (rp_open g)) g).
  split_and!; [done| |done|simpl; lia|].
  - erewrite monitor_cons by (eapply check_item; [done|done|exact Hg|accepts]). done.
  - eapply (rel_touch i oi); [exact Hr|exact Hc|done..| |done|apply Hr|apply Hr|]; [intros oi' Hne; same|].
    rewrite Hi. exists (y ++ x)%string. unfold append_at. simpl. by rewrite !lookup_insert_eq, Hrs.
Qed.

(** An announced tool call that has not stopped. *)
Lemma open_call i o t c A D s g :
  rel o t c A D s g → o !! i = Some ToolCall → i ∈ A → i ∉ D →
  ∃ oi call_id name x, canonical_to_output s !! i = Some oi ∧
    text_buf s !! oi = None ∧ reasoning_buf s !! oi = None ∧
    rp_open g !! oi = Some (ICall call_id name false x) ∧ tool_args_buf s !! oi = Some x ∧
    tool_meta s !! oi = Some (call_id, name) ∧ item_ids s !! oi = Some (fc_id oi).
Proof.
  intros Hr Hi HA HD. pose proof (r_slots _ _ _ _ _ _ _ Hr i) as Hs. rewrite Hi in Hs.
  rewrite bool_decide_eq_true_2, (bool_decide_eq_false_2 (i ∈ D)) in Hs by done.
  destruct (canonical_to_output s !! i) as [oi|]; [|done].
  destruct Hs as (_ & Ht & Hre & call_id & name & x & Hs). exists oi, call_id, name, x. tauto.
Qed.
Lemma step_tool_args i x o t c A D s g :
  rel o t c A D s g → live g → o !! i = Some ToolCall → i ∈ A → i ∉ D →
  steps_to (handle_tool_args i x) s g 0 (rel o t c A D).
Proof.
  intros Hr [Hcr Hco] Hi HA HD.
  destruct (open_call i _ _ _ _ _ _ _ Hr Hi HA HD) as (oi & cid & nm & y & Hc & Ht & Hre & Hg & Ha & Hm & Hid).
  unfold steps_to, handle_tool_args. run. rewrite Hc. cbn -[lookup insert]. rewrite Hid.
  eexists _, _, (set_rp_open (<[oi := ICall cid nm false (y ++ x)%string]> (rp_open g)) g).
  split_and!; [done| |done|simpl; lia|].
  - erewrite monitor_cons by (eapply check_item; [done|done|exact Hg|accepts]). done.
  - eapply (rel_touch i oi); [exact Hr|exact Hc|done..| |done|apply Hr|apply Hr|]; [intros oi' Hne; same|].
    rewrite Hi, bool_decide_eq_true_2, bool_decide_eq_false_2 by done. simpl. split_and!; [done..|].
    exists cid, nm, (y ++ x)%string. unfold append_at. by rewrite !lookup_insert_eq, Ha.
Qed.
Lemma step_tool_stop i o t c A D s g :
  rel o t c A D s g → live g → o !! i = Some ToolCall → i ∈ A → i ∉ D →
  steps_to (handle_tool_stop i) s g 0 (rel o ({[i]} ∪ t) c A ({[i]} ∪ D)).
Proof.
  intros Hr [Hcr Hco] Hi HA HD.
  destruct (open_call i _ _ _ _ _ _ _ Hr Hi HA HD) as (oi & cid & nm & y & Hc & Ht & Hre & Hg & Ha & Hm & Hid).
  unfold steps_to, handle_tool_stop. run. rewrite Hc. cbn -[lookup insert delete]. rewrite Hid, Ha, Hm. cbn -[lookup insert delete].
  eexists _, _, (set_rp_open (delete oi (<[oi := ICall cid nm true y]> (rp_open g))) g).
  split_and!; [done| |done|simpl; lia|].
  - erewrite monitor_cons by (eapply check_item; [done|done|exact Hg|accepts]).
    erewrite monitor_cons by (eapply check_item_done; [done|apply lookup_insert_eq|done]). done.
  - eapply (rel_touch i oi); [exact Hr|exact Hc|done..| | | | |].
    + intros oi' Hne. same.
    + intros j Hj. rewrite elem_of_union, elem_of_singleton. tauto.
    + pose proof (r_stopped _ _ _ _ _ _ _ Hr). intros j [->%elem_of_singleton|?]%elem_of_union; auto.
    + pose proof (r_tools _ _ _ _ _ _ _ Hr). intros j. rewrite !elem_of_union. intros [?|?]; auto.
    + rewrite Hi, !bool_decide_eq_true_2 by (done || apply elem_of_union; left; by apply elem_of_singleton).
      simpl. split_and!; [done..|]. apply lookup_delete_eq.
Qed.

Lemma unbound i o t c A D s g :
  rel o t c A D s g → o !! i = None → canonical_to_output s !! i = None.
Proof.
  intros Hr Hi. pose proof (r_slots _ _ _ _ _ _ _ Hr i) as Hs. rewrite Hi in Hs. by apply slot_none in Hs.
Qed.
(** The next output index is free. *)
Lemma next_free o t c A D s g :
  rel o t c A D s g → text_buf s !! rp_next g = None ∧ reasoning_buf s !! rp_next g = None.
Proof.
  intros Hr. split; apply eq_None_not_Some; intros Hs.
  - pose proof (r_fresh _ _ _ _ _ _ _ Hr (rp_next g) (or_introl Hs)). lia.
  - pose proof (r_fresh _ _ _ _ _ _ _ Hr (rp_next g) (or_intror Hs)). lia.
Qed.

Lemma step_block_start i k o t c A D s g :
  rel o t c A D s g → live g → (rp_next g < u32_max)%Z → o !! i = None → i ∉ c →
  steps_to (handle_block_start i k) s g 1 (rel (<[i := k]> o) t c A D).
Proof.
  intros Hr Hl Hn Hi Hc. pose proof (unbound i _ _ _ _ _ _ _ Hr Hi) as Hu.
  pose proof (next_free _ _ _ _ _ _ _ Hr) as [Hft Hfr]. pose proof (r_next _ _ _ _ _ _ _ Hr) as [Ho Hpos].
  assert (Hadd : u32_add (output_index s) 1 = (rp_next g + 1)%Z)
    by (rewrite Ho; apply u32_add_small; unfold is_u32; lia).
  assert (Hoff : ∀ j, j ≠ i → <[i := k]> o !! j = o !! j ∧ (j ∈ A ↔ j ∈ A))
    by (intros j Hj; by rewrite lookup_insert_ne).
  destruct (decide (k = Text ∨ k = Reasoning)) as [Hk|Hk].
  - destruct Hk as [-> | ->]; unfold steps_to, handle_block_start; run; rewrite Ho, <- Ho, Hadd, Ho.
    + eexists _, _, _. split_and!; [reflexivity| | | |].
      * erewrite monitor_cons by (eapply check_item_added; [done|done|accepts]).
        erewrite monitor_cons by (eapply check_item; [done|done|apply lookup_insert_eq|accepts]). reflexivity.
      * done.
      * simpl. lia.
      * eapply (rel_new i); [exact Hr|exact Hu|done..| |exact Hoff|done|rewrite lookup_insert_eq; by eexists|done|].
        -- intros oi' Hne. same.
        -- rewrite lookup_insert_eq. exists "". simpl. by rewrite !lookup_insert_eq.
    + eexists _, _, _. split_and!; [reflexivity| | | |].
      * erewrite monitor_cons by (eapply check_item_added; [done|done|accepts]). reflexivity.
      * done.
      * simpl. lia.
      * eapply (rel_new i); [exact Hr|exact Hu|done..| |exact Hoff|done|rewrite lookup_insert_eq; by eexists|done|].
        -- intros oi' Hne. same.
        -- rewrite lookup_insert_eq. exists "". simpl. by rewrite !lookup_insert_eq.
  - exists s, [], g. split_and!; [by destruct k; naive_solver|done|done|lia|].
    apply rel_blank; auto.
Qed.

Lemma step_tool_start i id name o t c A D s g :
  rel o t c A D s g → live g → (rp_next g < u32_max)%Z → o !! i = Some ToolCall → i ∉ A →
  steps_to (handle_tool_start i id name) s g 1 (rel o t c ({[i]} ∪ A) D).
Proof.
  intros Hr Hl Hn Hi HA. pose proof (next_free _ _ _ _ _ _ _ Hr) as [Hft Hfr].
  pose proof (r_next _ _ _ _ _ _ _ Hr) as [Ho Hpos].
  assert (Hu : canonical_to_output s !! i = None).
  { pose proof (r_slots _ _ _ _ _ _ _ Hr i) as Hs. rewrite Hi, bool_decide_eq_false_2 in Hs by done.
    destruct (canonical_to_output s !! i); [by destruct Hs|done]. }
  assert (Hadd : u32_add (output_index s) 1 = (rp_next g + 1)%Z)
    by (rewrite Ho; apply u32_add_small; unfold is_u32; lia).
  assert (HD : i ∉ D) by (intros ?%(r_stopped _ _ _ _ _ _ _ Hr); done).
  unfold steps_to, handle_tool_start. run. rewrite Hadd, Ho.
  eexists _, _, _. split_and!; [reflexivity| | | |].
  - erewrite monitor_cons by (eapply check_item_added; [done|done|accepts]). reflexivity.
  - done.
  - simpl. lia.
  - eapply (rel_new i); [exact Hr|exact Hu|done..| | | | | |].
    + intros oi' Hne. same.
    + intros j Hj. split; [done|]. rewrite elem_of_union, elem_of_singleton. tauto.
    + apply union_subseteq_r.
    + rewrite Hi. by eexists.
    + eapply (r_disjoint _ _ _ _ _ _ _ Hr). rewrite Hi. by eexists.
    + rewrite Hi, bool_decide_eq_true_2, bool_decide_eq_false_2
        by (done || apply elem_of_union; left; by apply elem_of_singleton).
      simpl. split_and!; [done..|]. exists id, name, "". by rewrite !lookup_insert_eq.
Qed.

Lemma step_block_stop i k o t t' c A D s g :
  rel o t c A D s g → live g → o !! i = Some k → (k = ToolCall → i ∈ D) → t' ⊆ t →
  steps_to (handle_block_stop i) s g 0 (rel (delete i o) t' ({[i]} ∪ c) A D).
Proof.
  intros Hr Hl Hi HD Ht. pose proof Hl as [Hcr Hco].
  pose proof (r_slots _ _ _ _ _ _ _ Hr i) as Hs. rewrite Hi in Hs.
  unfold steps_to, handle_block_stop. run.
  destruct (canonical_to_output s !! i) as [oi|] eqn:Hc; cbn -[lookup insert delete].
  - destruct k; try done.
    + destruct Hs as (x & Hg & Hb & Hid). rewrite Hb, Hid. cbn -[lookup insert delete].
      eexists _, _, _. split_and!; [reflexivity| | | |].
      * erewrite monitor_cons by (eapply check_item; [done|done|exact Hg|accepts]).
        erewrite monitor_cons by (eapply check_item; [done|done|apply lookup_insert_eq|accepts]).
        erewrite monitor_cons by (eapply check_item_done; [done|apply lookup_insert_eq|done]). reflexivity.
      * done.
      * simpl. lia.
      * eapply (rel_close i); [exact Hr|done..| | |done]; rewrite Hc.
        -- intros oi' Hne. assert (oi' ≠ oi) by congruence. same.
        -- intros oi' [= <-]. apply lookup_delete_eq.
    + destruct Hs as (_ & Hb & Hrb & Hg). rewrite bool_decide_eq_true_2 in Hg by auto.
      rewrite Hb. cbn -[lookup insert delete]. rewrite Hrb. cbn -[lookup insert delete].
      eexists _, _, _. split_and!; [reflexivity|reflexivity|done|lia|].
      eapply (rel_close i); [exact Hr|done..| | |done]; rewrite Hc; [intros oi' Hne; same|].
      by intros oi' [= <-].
    + destruct Hs as (x & Hg & Hb & Hrb & Hid). rewrite Hb. cbn -[lookup insert delete]. rewrite Hrb, Hid. cbn -[lookup insert delete].
      eexists _, _, _. split_and!; [reflexivity| | | |].
      * erewrite monitor_cons by (eapply check_item; [done|done|exact Hg|accepts]).
        erewrite monitor_cons by (eapply check_item_done; [done|apply lookup_insert_eq|done]). reflexivity.
      * done.
      * simpl. lia.
      * eapply (rel_close i); [exact Hr|done..| | |done]; rewrite Hc.
        -- intros oi' Hne. assert (oi' ≠ oi) by congruence. same.
        -- intros oi' [= <-]. apply lookup_delete_eq.
  - eexists _, _, _. split_and!; [reflexivity|reflexivity|done|lia|].
    eapply (rel_close i); [exact Hr| |done..| | |done]; rewrite ?Hc; try done.
    + symmetry. by apply delete_id.
Qed.

(** The encoder, the client and the validator. *)
Definition sim (v : ValidatorState) (AD : gset Z * gset Z) s g : Prop :=
  ∃ ms mstop o t c, v = vstate true ms mstop false o t c ∧ rel o t c AD.1 AD.2 s g ∧ live g.

(** What the counters and the final status are does not matter. *)
Lemma rel_final o t c A D s s' g :
  rel o t c A D s g → canonical_to_output s' = canonical_to_output s → output_index s' = output_index s →
  (∀ oi, same_at s s' g g oi) → rel o t c A D s' g.
Proof.
  intros [] Hc Ho Hsame. split; rewrite ?Hc, ?Ho; try done.
  - intros i. eapply slot_frame; [apply r_slots0|]. intros oi _. apply Hsame.
  - intros oi. destruct (Hsame oi) as (_ & -> & -> & _). apply r_fresh0.
Qed.
Lemma step_silent f s g P : live g → P (f s) g → steps_to (modify f) s g 1 P.
Proof. intros Hl HP. exists (f s), [], g. split_and!; [done..|lia|done]. Qed.
Lemma step_more m s g P : steps_to m s g 0 P → steps_to m s g 1 P.
Proof. intros (s' & evs & g' & ? & ? & ? & ? & ?). exists s', evs, g'. split_and!; [done..|lia|done]. Qed.

(** A handler that keeps the relation to the blocks the validator then has. *)
Lemma sim_of m e v' AD' s g ms mstop o t c :
  handle_event clock e = (m;; mret false) → v' = vstate true ms mstop false o t c →
  steps_to m s g 1 (rel o t c AD'.1 AD'.2) →
  ∃ s' evs g', handle_event clock e s = (false, s', evs) ∧ monitor proto_check g evs = Some g' ∧
    (rp_next g' ≤ rp_next g + 1)%Z ∧ sim v' AD' s' g'.
Proof.
  intros He -> (s' & evs & g' & Hm & Hg & Hl & Hn & HP). exists s', evs, g'. rewrite He.
  split_and!; [|done..|by eexists _, _, _, _, _].
  unfold mbind, emit_bind. rewrite Hm. unfold mret, emit_ret. by rewrite app_nil_r.
Qed.

(** An event other than [ResponseStop] and [ErrorEvent] keeps the simulation
    and does not complete the response. *)
Lemma item_sim_step e v v' AD AD' s g :
  sim v AD s g → (rp_next g < u32_max)%Z →
  step_event default_strict v e = Ok v' → calls_check AD e = Some AD' →
  is_error e = false → (∀ u, e ≠ ResponseStop u) →
  ∃ s' evs g', handle_event clock e s = (false, s', evs) ∧ monitor proto_check g evs = Some g' ∧
    (rp_next g' ≤ rp_next g + 1)%Z ∧ sim v' AD' s' g'.
Proof.
  destruct AD as [A D]. intros (ms & mstop & o & t & c & -> & Hr & Hl) Hn Hv HA He Hnr.
  assert (Hquiet : steps_to (mret tt) s g 1 (rel o t c A D))
    by (exists s, [], g; split_and!; [done..|lia|done]).
  pose proof (λ m, sim_of m e v' AD' s g) as Hgo.
  destruct e; try done; simpl in HA; simplify_eq;
    unfold step_event, step_delta, check_delta_kind, check_post_message_stop, check_post_response_stop in Hv;
    simpl in Hv.
  - (* MessageStart *) destruct mstop, ms; simplify_eq/=. by apply (Hgo (mret tt) true false o t c).
  - (* ContentBlockStart *) destruct mstop, ms; simplify_eq/=.
    case_bool_decide as Ho; [done|]. case_bool_decide; [done|]. simplify_eq.
    eapply Hgo; [done|done|]. apply step_block_start; try done. by apply eq_None_not_Some.
  - (* TextDelta *) destruct mstop; simplify_eq/=.
    destruct (o !! index) as [k|] eqn:Hi; [|done]. case_bool_decide; simplify_eq/=.
    eapply Hgo; [done|done|]. by apply step_more, step_text_delta.
  - (* ReasoningDelta *) destruct mstop; simplify_eq/=.
    destruct (o !! index) as [k|] eqn:Hi; [|done]. case_bool_decide; simplify_eq/=.
    eapply Hgo; [done|done|]. by apply step_more, step_reasoning_delta.
  - (* ToolCallStart *) destruct mstop; simplify_eq/=.
    destruct (o !! index) as [k|] eqn:Hi; [|done]. case_bool_decide; simplify_eq/=.
    case_bool_decide; simplify_eq. eapply Hgo; [done|done|]. by apply step_tool_start.
  - (* ToolCallArgumentsDelta *) destruct mstop; simplify_eq/=.
    destruct (o !! index) as [k|] eqn:Hi; [|done]. case_bool_decide; simplify_eq/=.
    case_bool_decide; simplify_eq. destruct_and!. eapply Hgo; [done|done|].
    by apply step_more, step_tool_args.
  - (* ToolCallStop *) destruct mstop; simplify_eq/=.
    destruct (o !! index) as [k|] eqn:Hi; [|done]. case_bool_decide; simplify_eq/=.
    case_bool_decide; simplify_eq. destruct_and!. eapply Hgo; [done|done|].
    by apply step_more, step_tool_stop.
  - (* ContentBlockStop *) destruct mstop; simplify_eq/=.
    destruct (o !! index) as [k|] eqn:Hi; [|done].
    destruct (bool_decide (k = ToolCall) && negb (bool_decide (index ∈ t))) eqn:Hk; simplify_eq.
    eapply Hgo; [done|done|]. eapply step_more, step_block_stop; [done..| |].
    + intros ->. apply (r_tools _ _ _ _ _ _ _ Hr). rewrite bool_decide_eq_true_2 in Hk by done.
      by apply negb_false_iff, bool_decide_eq_true in Hk.
    + case_bool_decide; [apply subseteq_difference_l|]; done.
  - (* UsageDelta *) simplify_eq/=. eapply Hgo; [done|done|]. apply step_silent; [done|].
    eapply rel_final; [done..|]. intros oi. same.
  - (* MessageStop *) destruct mstop; simplify_eq/=. eapply Hgo; [done|done|]. apply step_silent; [done|].
    eapply rel_final; [done..|]. intros oi. same.
  - (* ResponseStop *) by destruct (Hnr usage).
  - (* RawProviderEvent *) simplify_eq/=. by apply (Hgo (mret tt) ms mstop o t c).
Qed.

(** Without open blocks no item is unfinished. *)
Lemma rel_closed t c A D s g : rel ∅ t c A D s g → rp_open g = ∅.
Proof.
  intros Hr. apply map_empty. intros oi. apply eq_None_not_Some. intros Hs.
  destruct (r_owned _ _ _ _ _ _ _ Hr oi Hs) as [i Hi]. by rewrite (unbound i _ _ _ _ _ _ _ Hr) in Hi.
Qed.
Lemma run_response_stop u s :
  ∃ s' r, handle_response_stop u s = (true, s', [Ok (RCompleted r)]).
Proof. by destruct u; eexists _, _. Qed.
Lemma check_completed g r :
  live g → rp_open g = ∅ → ∃ g', proto_check g (Ok (RCompleted r)) = Some g' ∧
    rp_open g' = ∅ ∧ rp_completed g' = true.
Proof.
  intros [Hcr Hco] Ho. unfold proto_check. rewrite Hco, Hcr, Ho, bool_decide_eq_true_2 by apply dom_empty_L.
  by eexists.
Qed.

(** The response to a conforming stream, from a simulated state. *)
Lemma item_sim_run its : ∀ v AD s g,
  sim v AD s g → (rp_next g + Z.of_nat (length (oks its)) ≤ u32_max)%Z →
  validate_from default_strict v (oks its) = Ok tt →
  is_Some (monitor calls_check AD (oks its)) → Forall (λ e, is_error e = false) (oks its) →
  ∃ g', monitor proto_check g (encode_items (outbound_handle clock) its s) = Some g' ∧
    rp_open g' = ∅ ∧ (rp_completed g' = true ↔ ∃ u, ResponseStop u ∈ oks its).
Proof.
  induction its as [|[e|err] its IH]; intros v AD s g Hsim Hn Hv HA He.
  - destruct Hsim as (ms & mstop & o & t & c & -> & Hr & [_ Hco]).
    simpl in Hv. case_bool_decide as Hempty; [|done]. simpl in Hempty. subst o.
    exists g. split_and!; [done|by eapply rel_closed|]. rewrite Hco. split; [done|].
    by intros [u Hu%not_elem_of_nil].
  - change (oks (Ok e :: its)) with (e :: oks its) in *. inversion_clear He as [|? ? He1 He2].
    assert (Halive : terminated_by_error v = false) by (by destruct Hsim as (? & ? & ? & ? & ? & -> & _)).
    simpl in Hv, HA. rewrite Halive in Hv. cbn [length] in Hn.
    destruct (step_event default_strict v e) as [v'|] eqn:Hstep; [|done]. simpl in Hv.
    destruct (calls_check AD e) as [AD'|] eqn:HAe; [|by destruct HA].
    assert (Hcases : (∃ u, e = ResponseStop u) ∨ ∀ u, e ≠ ResponseStop u)
      by (destruct e; eauto; right; congruence).
    destruct Hcases as [[u ->]|Hne].
    + destruct Hsim as (ms & mstop & o & t & c & -> & Hr & Hl).
      simpl in Hstep. destruct mstop; [|done]. simplify_eq/=.
      assert (o = ∅) as -> by (refine (stopped_no_open _ _ _ _ He2 Hv); reflexivity).
      unfold outbound_handle. cbn [encode_items handle_item handle_event].
      destruct (run_response_stop u s) as (s' & r & ->). rewrite app_nil_r.
      destruct (check_completed g r Hl (rel_closed _ _ _ _ _ _ Hr)) as (g' & Hg & Ho & Hc).
      exists g'. rewrite (monitor_cons _ _ _ g') by done. split_and!; [done..|]. split; [|done].
      intros _. exists u. by apply list_elem_of_here.
    + destruct (item_sim_step e v v' AD AD' s g) as (s' & evs & g' & Hh & Hg & Hn' & Hsim'); [done|lia|done..|].
      unfold outbound_handle. cbn [encode_items handle_item]. rewrite Hh.
      destruct (IH v' AD' s' g') as (g2 & Hg2 & Hopen & Hstop); [done|lia|done..|].
      exists g2. rewrite monitor_app, Hg. split_and!; [done..|]. rewrite Hstop.
      split; intros [u Hu]; exists u; [by apply list_elem_of_further|].
      apply elem_of_cons in Hu as [<-|]; [naive_solver|done].
  - destruct (IH v AD s g Hsim Hn Hv HA He) as (g2 & Hg2 & Hrest).
    unfold outbound_handle. cbn [encode_items handle_item]. exists g2.
    destruct Hsim as (? & ? & ? & ? & ? & _ & _ & [_ Hco]).
    unfold mbind, emit_bind, push_event, push, mret, emit_ret. cbn [app].
    by rewrite (monitor_cons _ _ _ g) by (unfold proto_check; by rewrite Hco).
Qed.

(** Before the stream begins: no block, no item. *)
Lemma rel_start ts s g :
  canonical_to_output s = ∅ → output_index s = 0%Z → text_buf s = ∅ → reasoning_buf s = ∅ →
  g = {| rp_created := ts; rp_next := 0; rp_open := ∅; rp_completed := false |} →
  rel ∅ ∅ ∅ ∅ ∅ s g.
Proof.
  intros Hc Ho Ht Hre ->. split; rewrite ?Hc, ?Ho, ?Ht, ?Hre; simpl; try done; [by intros oi [? ?]|by intros oi [[? ?]|[? ?]]].
Qed.
Lemma responses_protocol its id m n l :
  oks its = ResponseStart id m n :: l →
  assert_canonical_lifecycle (oks its) = Ok tt → is_Some (monitor calls_check (∅, ∅) l) →
  Forall (λ e, is_error e = false) l → (Z.of_nat (length l) ≤ u32_max)%Z →
  ∃ g, monitor proto_check proto0 (outbound clock its) = Some g ∧
    rp_open g = ∅ ∧ (rp_completed g = true ↔ ∃ u, ResponseStop u ∈ l).
Proof.
  intros Hl Hv HA He Hn. unfold outbound. induction its as [|[e|err] its IH]; [done| |].
  - change (oks (Ok e :: its)) with (e :: oks its) in *. injection Hl as -> Hl. subst l.
    unfold outbound_handle. cbn [encode_items handle_item handle_event].
    set (g := {| rp_created := true; rp_next := 0; rp_open := ∅; rp_completed := false |}).
    assert (Hrun : ∃ s' r, (handle_response_start clock id m n;; mret false) (start_state clock) =
      (false, s', [Ok (RCreated r)]) ∧ rel ∅ ∅ ∅ ∅ ∅ s' g).
    { unfold start_state. destruct clock; eexists _, _; (split; [done|]); by apply (rel_start true). }
    destruct Hrun as (s' & r & -> & Hr). cbn [app].
    rewrite (monitor_cons _ _ _ g) by reflexivity.
    apply (item_sim_run its (vstate true false false false ∅ ∅ ∅) (∅, ∅)); [|simpl; lia|exact Hv|done|done].
    by eexists _, _, _, _, _.
  - destruct (IH Hl Hv) as (g & Hg & Hrest). exists g. split; [|done].
    unfold outbound_handle. cbn [encode_items handle_item].
    unfold mbind, emit_bind, mret, emit_ret, push_event, push. cbn [app].
    by rewrite (monitor_cons _ _ _ proto0) by reflexivity.
Qed.
End Simulation.

(** ** What the client receives *)

(** C11: a canonical stream that opens with [ResponseStart], passes the
    lifecycle check, announces and stops each tool call once and carries no
    error event is encoded as a well-formed Responses stream: no encoding error,
    [response.created] first, output items numbered in order from 0, every
    delta inside its own item under the item's id, every done event and every
    finished item repeating exactly what the item's deltas spelled, no item
    left unfinished, and [response.completed] exactly when the stream had a
    [ResponseStop]. *)
Theorem responses_response_follows_protocol `{J : JsonApi} (clock : option Z)
    (its : list (result StreamEvent StreamError)) id m n l :
  oks its = ResponseStart id m n :: l →
  assert_canonical_lifecycle (oks its) = Ok tt →
  is_Some (monitor calls_check (∅, ∅) l) →
  Forall (λ e, is_error e = false) l →
  (Z.of_nat (length l) ≤ u32_max)%Z →
  ∃ g, monitor proto_check proto0 (outbound clock its) = Some g ∧
    rp_open g = ∅ ∧ (rp_completed g = true ↔ ∃ u, ResponseStop u ∈ l).
Proof. apply responses_protocol. Qed.

Module Samples.
#[local] Instance responses_json : JsonApi := TreeJson [].
Definition counts (i o : Z) : Usage := {|
  input_tokens := Some i; output_tokens := Some o; cache_creation_input_tokens := None;
  cache_read_input_tokens := None; reasoning_tokens := None; estimated := false;
  provider_raw := None; safety_ratings := None |}.
Definition body : list (result StreamEvent StreamError) :=
  Ok <$> [MessageStart Assistant; ContentBlockStart 0 Reasoning; ReasoningDelta 0 "hm"; ContentBlockStop 0;
          ContentBlockStart 4 ToolCall; ContentBlockStart 2 Text; TextDelta 2 "h"; ToolCallStart 4 "call_1" "search";
          TextDelta 2 "i"; ToolCallArgumentsDelta 4 "{}"; ContentBlockStop 2; ToolCallStop 4; ContentBlockStop 4;
          UsageDelta (counts 3 5); MessageStop ToolUse None].
Definition sample : list (result StreamEvent StreamError) :=
  Ok (ResponseStart "r" "m" 7) :: Err StreamTimeout :: body ++ [Ok (ResponseStop None)].

(** What the wire carries for it. *)
Example sample_response : outbound (Some 9%Z) sample = [
  Ok (RCreated {| ro_id := "resp_r"; ro_status := "in_progress"; ro_model := "m"; ro_created_at := 9;
    ro_output := []; ro_usage := None |});
  Ok (RErrorEvent (show_stream_error StreamTimeout));
  Ok (ROutputItemAdded 0 (ItemReasoning "rs_0" "in_progress" []));
  Ok (RReasoningDelta "rs_0" 0 "hm"); Ok (RReasoningDone "rs_0" 0 "hm");
  Ok (ROutputItemDone 0 (ItemReasoning "rs_0" "completed" [OutputReasoning "hm" None]));
  Ok (ROutputItemAdded 1 (ItemMessage "msg_1" "in_progress" []));
  Ok (RContentPartAdded "msg_1" 1 0 (OutputText ""));
  Ok (RTextDelta "msg_1" 1 0 "h");
  Ok (ROutputItemAdded 2 (ItemFunctionCall "fc_2" "call_1" "search" "" "in_progress"));
  Ok (RTextDelta "msg_1" 1 0 "i"); Ok (RArgsDelta "fc_2" 2 "{}");
  Ok (RTextDone "msg_1" 1 0 "hi"); Ok (RContentPartDone "msg_1" 1 0 (OutputText "hi"));
  Ok (ROutputItemDone 1 (ItemMessage "msg_1" "completed" [OutputText "hi"]));
  Ok (RArgsDone "fc_2" 2 "{}");
  Ok (ROutputItemDone 2 (ItemFunctionCall "fc_2" "call_1" "search" "{}" "completed"));
  Ok (RCompleted {| ro_id := "resp_r"; ro_status := "completed"; ro_model := "m"; ro_created_at := 9;
    ro_output := []; ro_usage := Some {| u_input_tokens := 3; u_output_tokens := 5; u_total_tokens := 8 |} |})].
Proof. vm_compute. reflexivity. Qed.

Lemma responses_response_follows_protocol_witness :
  assert_canonical_lifecycle (oks sample) = Ok tt ∧
  ∃ g, monitor proto_check proto0 (outbound None sample) = Some g ∧ rp_open g = ∅ ∧
    (rp_completed g = true ↔ ∃ u, ResponseStop u ∈ oks (body ++ [Ok (ResponseStop None)])).
Proof.
  assert (Hv : assert_canonical_lifecycle (oks sample) = Ok tt) by (vm_compute; reflexivity).
  split; [exact Hv|].
  apply (responses_response_follows_protocol None sample "r" "m" 7
    (oks (body ++ [Ok (ResponseStop None)]))); [reflexivity|exact Hv| | |].
  - vm_compute. eexists. reflexivity.
  - repeat constructor.
  - vm_compute. discriminate.
Defined.
End Samples.
