(* ===== verification/UnaryPath.v ===== *)
(** * The non-streaming path
    (collect_stream of crates/gateway/src/handlers/mod.rs, crates/core/src/response.rs
    and the encode_unary.rs of the three front ends)

    A request that did not ask for a stream is answered by collecting the
    canonical stream into one [CanonicalResponse] and encoding that in the
    dialect of the client.  The wire types are those of the front ends' wire.rs,
    without the constant tags; their JSON is serde's, a parameter. *)
From stdpp Require Import pretty.
From S2P Require Import Prelude Json CoreTypes Emit Lifecycle ChatUnary Fallback Request GatewayErrors AnthropicEncode ResponsesEncode.
#[local] Open Scope string_scope.
#[local] Open Scope list_scope.
#[local] Open Scope nat_scope.

(** ** Collecting a stream *)
Section Collect.
Context `{J : JsonApi} `{V : !JsonValues J}.

Record CanonicalResponse := {
  cr_id : string; cr_model : string; cr_content : list ContentBlock;
  cr_stop_reason : StopReason; cr_stop_sequence : option string; cr_usage : option Usage }.

(** The local variables of [collect_stream]. *)
Record Collector := {
  response : CanonicalResponse;
  tool_names : gmap Z (string * string);
  tool_args : gmap Z string;
  text_buf : gmap Z string;
}.
(** [fresh] is the [ResponseId::new()] drawn before the loop. *)
Definition collector_start (fresh : string) : Collector := {|
  response := {| cr_id := fresh; cr_model := ""; cr_content := []; cr_stop_reason := EndTurn;
                 cr_stop_sequence := None; cr_usage := None |};
  tool_names := ∅; tool_args := ∅; text_buf := ∅ |}.

Definition set_response (r : CanonicalResponse) (s : Collector) : Collector :=
  {| response := r; tool_names := tool_names s; tool_args := tool_args s; text_buf := text_buf s |}.
Definition set_buffers (n : gmap Z (string * string)) (a t : gmap Z string) (s : Collector) : Collector :=
  {| response := response s; tool_names := n; tool_args := a; text_buf := t |}.
Definition set_start (id model : string) (r : CanonicalResponse) : CanonicalResponse := {|
  cr_id := id; cr_model := model; cr_content := cr_content r; cr_stop_reason := cr_stop_reason r;
  cr_stop_sequence := cr_stop_sequence r; cr_usage := cr_usage r |}.
Definition add_content (l : list ContentBlock) (r : CanonicalResponse) : CanonicalResponse := {|
  cr_id := cr_id r; cr_model := cr_model r; cr_content := cr_content r ++ l;
  cr_stop_reason := cr_stop_reason r; cr_stop_sequence := cr_stop_sequence r; cr_usage := cr_usage r |}.
Definition set_stop (reason : StopReason) (sequence : option string) (r : CanonicalResponse)
    : CanonicalResponse := {|
  cr_id := cr_id r; cr_model := cr_model r; cr_content := cr_content r;
  cr_stop_reason := reason; cr_stop_sequence := sequence; cr_usage := cr_usage r |}.
Definition set_usage (u : Usage) (r : CanonicalResponse) : CanonicalResponse := {|
  cr_id := cr_id r; cr_model := cr_model r; cr_content := cr_content r;
  cr_stop_reason := cr_stop_reason r; cr_stop_sequence := cr_stop_sequence r; cr_usage := Some u |}.

(** [map.entry(index).or_default().push_str(s)]. *)
Definition push_str (i : Z) (s : string) (m : gmap Z string) : gmap Z string :=
  <[i := (default "" (m !! i) ++ s)%string]> m.

(** The blocks a [ContentBlockStop] pushes. *)
Definition text_content (text : string) : ContentBlock := TextBlock text ∅.
Definition tool_content (call : string * string) (args : string) : ContentBlock :=
  ToolCallB {| tc_id := call.1; tc_name := call.2;
    arguments := Complete (match from_str args with Ok v => v | Err _ => json_null end);
    tc_extensions := ∅ |}.

(** The body of the loop. *)
Definition collect_event (s : Collector) (ev : StreamEvent) : result Collector HandlerError :=
  match ev with
  | ResponseStart rid m _ => Ok (set_response (set_start rid m (response s)) s)
  | TextDelta index text =>
      Ok (set_buffers (tool_names s) (tool_args s) (push_str index text (text_buf s)) s)
  | ContentBlockStop index =>
      let texts := match text_buf s !! index with Some text => [text_content text] | None => [] end in
      let '(calls, args) :=
        match tool_names s !! index with
        | Some call =>
            ([tool_content call (default "" (tool_args s !! index))], delete index (tool_args s))
        | None => ([], tool_args s)
        end in
      Ok (set_buffers (delete index (tool_names s)) args (delete index (text_buf s))
            (set_response (add_content (texts ++ calls) (response s)) s))
  | ToolCallStart index tc_id name =>
      Ok (set_buffers (<[index := (tc_id, name)]> (tool_names s)) (tool_args s) (text_buf s) s)
  | ToolCallArgumentsDelta index json_fragment =>
      Ok (set_buffers (tool_names s) (push_str index json_fragment (tool_args s)) (text_buf s) s)
  | MessageStop sr ss => Ok (set_response (set_stop sr ss (response s)) s)
  | UsageDelta u | ResponseStop (Some u) => Ok (set_response (set_usage u (response s)) s)
  | ErrorEvent message => Err (Provider (Upstream 200 message))
  | _ => Ok s
  end.
Fixpoint collect_loop (s : Collector) (stream : list (result StreamEvent StreamError))
    : result Collector HandlerError :=
  match stream with
  | [] => Ok s
  | ev :: stream' =>
      let? ev := map_err (λ e, Provider (Decode (show_stream_error e))) ev in
      let? s := collect_event s ev in
      collect_loop s stream'
  end.
Definition collect_stream (fresh : string) (stream : list (result StreamEvent StreamError))
    : result CanonicalResponse HandlerError :=
  result_map response (collect_loop (collector_start fresh) stream).
End Collect.
Arguments CanonicalResponse {J}.
Arguments Collector {J}.

(** ** The wire *)
(** crates/frontends/src/anthropic_messages/wire.rs *)
Section AnthropicWire.
Context `{J : JsonApi}.
Inductive OutboundContentBlock :=
| OutText (text : string)
| OutToolUse (id name : string) (input : value)
| OutThinking (thinking : string)
| OutRedactedThinking (data : string).
Record MessagesResponse := {
  mr_id : string; mr_content : list OutboundContentBlock; mr_model : string;
  mr_stop_reason : string; mr_stop_sequence : option string; mr_usage : OutboundUsage }.
End AnthropicWire.
(** crates/frontends/src/openai_chat/wire.rs *)
Record UnaryToolCall := { utc_id : string; utc_name : string; utc_arguments : string }.
Record UnaryMessage := { um_content : option string; um_tool_calls : list UnaryToolCall }.
Record UnaryChoice := { uc_index : Z; uc_message : UnaryMessage; uc_finish_reason : string }.
Record ChatUsageOut := { cu_prompt_tokens : Z; cu_completion_tokens : Z; cu_total_tokens : Z }.
Record ChatCompletionOut := {
  cc_id : string; cc_created : Z; cc_model : string; cc_choices : list UnaryChoice;
  cc_usage : option ChatUsageOut }.

(** ** The encoders *)
(** [serde_json::to_vec(&wire)], with its error mapped. *)
Definition to_bytes {T B} (to_vec : T → result B string) (wire : T) : result B FrontendError :=
  map_err EncodeFailure (to_vec wire).

Section Encode.
Context `{J : JsonApi} `{V : !JsonValues J}.

(** anthropic_messages/encode_unary.rs *)
Definition tool_input (a : ToolCallArguments) : value :=
  match a with
  | Complete v => v
  | Streaming data => match from_str data with Ok v => v | Err _ => json_string data end
  end.
Definition anthropic_block (b : ContentBlock) : option OutboundContentBlock :=
  match b with
  | TextBlock text _ => Some (OutText text)
  | ToolCallB tc => Some (OutToolUse (tc_id tc) (tc_name tc) (tool_input (arguments tc)))
  | ReasoningBlock text _ => Some (OutThinking text)
  | RedactedReasoningBlock data _ => Some (OutRedactedThinking data)
  | _ => None
  end.
Definition anthropic_usage (u : option Usage) : OutboundUsage :=
  match u with
  | Some u => {|
      out_input_tokens := default 0%Z (input_tokens u);
      out_output_tokens := default 0%Z (output_tokens u);
      out_cache_creation_input_tokens := cache_creation_input_tokens u;
      out_cache_read_input_tokens := cache_read_input_tokens u |}
  | None => default_outbound_usage
  end.
Definition anthropic_unary (r : CanonicalResponse) : MessagesResponse := {|
  mr_id := cr_id r; mr_content := omap anthropic_block (cr_content r); mr_model := cr_model r;
  mr_stop_reason := stop_reason_to_anthropic (cr_stop_reason r);
  mr_stop_sequence := cr_stop_sequence r; mr_usage := anthropic_usage (cr_usage r) |}.

(** The arguments as the two OpenAI front ends print them. *)
Definition printed_arguments (a : ToolCallArguments) : string :=
  match a with Complete v => to_json_string v | Streaming data => data end.

(** openai_chat/encode_unary.rs: the loop pushes to two vectors. *)
Definition chat_block (acc : list string * list UnaryToolCall) (b : ContentBlock)
    : list string * list UnaryToolCall :=
  match b with
  | TextBlock text _ => (acc.1 ++ [text], acc.2)
  | ToolCallB tc =>
      (acc.1, acc.2 ++ [{| utc_id := tc_id tc; utc_name := tc_name tc;
                           utc_arguments := printed_arguments (arguments tc) |}])
  | _ => acc
  end.
Definition chat_usage (u : Usage) : ChatUsageOut := {|
  cu_prompt_tokens := default 0%Z (input_tokens u);
  cu_completion_tokens := default 0%Z (output_tokens u);
  cu_total_tokens := u32_add (default 0%Z (input_tokens u)) (default 0%Z (output_tokens u)) |}.
(** [now] is the wall clock in seconds. *)
Definition chat_unary (clock_override : option Z) (now : Z) (r : CanonicalResponse) : ChatCompletionOut :=
  let '(text_parts, tool_calls) := foldl chat_block ([], []) (cr_content r) in {|
  cc_id := cr_id r; cc_created := default now clock_override; cc_model := cr_model r;
  cc_choices := [{|
    uc_index := 0;
    uc_message := {|
      um_content := match text_parts with [] => None | _ => Some (concat_strings text_parts) end;
      um_tool_calls := tool_calls |};
    uc_finish_reason := finish_reason_from_canonical (cr_stop_reason r) |}];
  cc_usage := chat_usage <$> cr_usage r |}.

(** openai_responses/encode_unary.rs: the items, the pending fragments and the
    item counter. *)
Record Flusher := { output : list OutputItem; text_parts : list string; msg_index : Z }.
Definition push_item (item : OutputItem) (s : Flusher) : Flusher := {|
  output := output s ++ [item]; text_parts := text_parts s; msg_index := u32_add (msg_index s) 1 |}.
Definition flush_text (s : Flusher) : Flusher :=
  match text_parts s with
  | [] => s
  | parts =>
      push_item (ItemMessage ("msg_" ++ pretty (msg_index s))%string "completed"
                   [OutputText (concat_strings parts)])
        {| output := output s; text_parts := []; msg_index := msg_index s |}
  end.
Definition responses_block (s : Flusher) (b : ContentBlock) : Flusher :=
  match b with
  | TextBlock text _ =>
      {| output := output s; text_parts := text_parts s ++ [text]; msg_index := msg_index s |}
  | ToolCallB tc =>
      let s := flush_text s in
      push_item (ItemFunctionCall ("fc_" ++ pretty (msg_index s))%string (tc_id tc) (tc_name tc)
                   (printed_arguments (arguments tc)) "completed") s
  | ReasoningBlock text _ =>
      let s := flush_text s in
      push_item (ItemReasoning ("rs_" ++ pretty (msg_index s))%string "completed"
                   [OutputReasoning text None]) s
  | _ => s
  end.
Definition responses_usage (u : Usage) : UsageOut := {|
  u_input_tokens := default 0%Z (input_tokens u);
  u_output_tokens := default 0%Z (output_tokens u);
  u_total_tokens := u32_add (default 0%Z (input_tokens u)) (default 0%Z (output_tokens u)) |}.
Definition flusher_start : Flusher := {| output := []; text_parts := []; msg_index := 0 |}.
Definition responses_unary (clock_override : option Z) (now : Z) (r : CanonicalResponse) : ResponseObject := {|
  ro_id := ("resp_" ++ cr_id r)%string;
  ro_status := status_from_stop_reason (cr_stop_reason r);
  ro_model := cr_model r;
  ro_created_at := default now clock_override;
  ro_output := output (flush_text (foldl responses_block flusher_start (cr_content r)));
  ro_usage := responses_usage <$> cr_usage r |}.
End Encode.

(** ** Reference: the blocks of a stream *)
Section Reference.
Context `{J : JsonApi} `{V : !JsonValues J}.

(** What an event adds to block [i], and the block it adds to. *)
Definition text_in (i : Z) (e : StreamEvent) : option string :=
  match e with TextDelta j t => if decide (i = j) then Some t else None | _ => None end.
Definition arguments_in (i : Z) (e : StreamEvent) : option string :=
  match e with ToolCallArgumentsDelta j t => if decide (i = j) then Some t else None | _ => None end.
Definition call_in (i : Z) (e : StreamEvent) : option (string * string) :=
  match e with ToolCallStart j id n => if decide (i = j) then Some (id, n) else None | _ => None end.
Definition adds_to (e : StreamEvent) : option Z :=
  match e with TextDelta i _ | ToolCallArgumentsDelta i _ | ToolCallStart i _ _ => Some i | _ => None end.
Definition stop_in (e : StreamEvent) : option Z :=
  match e with ContentBlockStop i => Some i | _ => None end.
Definition response_start_in (e : StreamEvent) : option (string * string) :=
  match e with ResponseStart id m _ => Some (id, m) | _ => None end.
Definition message_stop_in (e : StreamEvent) : option (StopReason * option string) :=
  match e with MessageStop r s => Some (r, s) | _ => None end.
Definition usage_in (e : StreamEvent) : option Usage :=
  match e with UsageDelta u => Some u | ResponseStop u => u | _ => None end.

(** The fragments of block [i], joined; [None] when there is none. *)
Definition joined (l : list string) : option string :=
  match l with [] => None | _ => Some (concat_strings l) end.
(** The content a finished block has: its text, or the last tool call
    announced in it with its arguments. *)
Definition block_content (evts : list StreamEvent) (i : Z) : list ContentBlock :=
  match joined (omap (text_in i) evts) with Some t => [text_content t] | None => [] end ++
  match last (omap (call_in i) evts) with
  | Some call => [tool_content call (default "" (joined (omap (arguments_in i) evts)))]
  | None => []
  end.
(** The collected response: the blocks in the order they were closed, the last
    identity, stop reason and usage reported. *)
Definition collected (fresh : string) (evts : list StreamEvent) : CanonicalResponse := {|
  cr_id := default fresh (fst <$> last (omap response_start_in evts));
  cr_model := default "" (snd <$> last (omap response_start_in evts));
  cr_content := omap stop_in evts ≫= block_content evts;
  cr_stop_reason := default EndTurn (fst <$> last (omap message_stop_in evts));
  cr_stop_sequence := default None (snd <$> last (omap message_stop_in evts));
  cr_usage := last (omap usage_in evts) |}.

(** The first failure of a stream: an error of the transport, or an error event. *)
Definition failure (item : result StreamEvent StreamError) : option HandlerError :=
  match item with
  | Ok (ErrorEvent message) => Some (Provider (Upstream 200 message))
  | Ok _ => None
  | Err e => Some (Provider (Decode (show_stream_error e)))
  end.

Lemma joined_snoc l t : joined (l ++ [t]) = Some (default "" (joined l) ++ t)%string.
Proof.
  destruct l as [|x l]; [simpl; by rewrite string_app_nil_r|].
  change (joined ((x :: l) ++ [t])) with (Some (concat_strings ((x :: l) ++ [t]))).
  rewrite concat_strings_app. simpl concat_strings at 2. by rewrite string_app_nil_r.
Qed.
Lemma omap_snoc {A B} (f : A → option B) l x :
  omap f (l ++ [x]) = omap f l ++ match f x with Some y => [y] | None => [] end.
Proof. rewrite omap_app. simpl. by destruct (f x). Qed.
Lemma last_omap_snoc {A B} (f : A → option B) l x :
  last (omap f (l ++ [x])) = match f x with Some y => Some y | None => last (omap f l) end.
Proof. rewrite omap_snoc. destruct (f x); [apply last_snoc|by rewrite app_nil_r]. Qed.
Lemma block_content_snoc l e i : adds_to e ≠ Some i → block_content (l ++ [e]) i = block_content l i.
Proof.
  intros He. unfold block_content. rewrite !omap_snoc.
  assert (text_in i e = None ∧ call_in i e = None ∧ arguments_in i e = None) as (-> & -> & ->).
  { destruct e; simpl in *; repeat case_decide; simplify_eq; auto. }
  by rewrite !app_nil_r.
Qed.
Lemma blocks_content_snoc l e (ks : list Z) :
  (∀ i, i ∈ ks → adds_to e ≠ Some i) → (ks ≫= block_content (l ++ [e])) = (ks ≫= block_content l).
Proof.
  induction ks as [|i ks IH]; intros He; [done|]. csimpl.
  rewrite block_content_snoc by (apply He; left). f_equal. apply IH. intros j Hj. apply He. by right.
Qed.

(** What an accepted event tells about the blocks. *)
Lemma step_event_blocks v e v' :
  step_event default_strict v e = Ok v' →
  match adds_to e with Some i => i ∈ dom (open_blocks v) | None => True end ∧
  match e with
  | ContentBlockStart i k => i ∉ closed_indices v ∧ open_blocks v' = <[i := k]> (open_blocks v) ∧
      closed_indices v' = closed_indices v
  | ContentBlockStop i => i ∈ dom (open_blocks v) ∧ open_blocks v' = delete i (open_blocks v) ∧
      closed_indices v' = {[i]} ∪ closed_indices v
  | _ => open_blocks v' = open_blocks v ∧ closed_indices v' = closed_indices v
  end.
Proof.
  destruct v as [rs ms mstop rstop o t c tb], e; simpl;
    unfold step_delta, check_post_message_stop, check_post_response_stop, check_delta_kind; simpl;
    intros H; repeat case_match; simplify_eq/=; repeat case_bool_decide; simplify_eq/=;
    split_and!; try done; apply elem_of_dom; eauto.
Qed.
Lemma step_event_terminated v e v' :
  step_event default_strict v e = Ok v' → Lifecycle.is_error e = false → terminated_by_error v' = terminated_by_error v.
Proof.
  destruct v as [rs ms mstop rstop o t c tb], e; simpl;
    unfold step_delta, check_post_message_stop, check_post_response_stop, check_delta_kind; simpl;
    intros H; repeat case_match; by simplify_eq/=.
Qed.

Lemma collected_content_snoc l e :
  (∀ i, i ∈ omap stop_in l → adds_to e ≠ Some i) →
  (omap stop_in (l ++ [e]) ≫= block_content (l ++ [e])) =
  (omap stop_in l ≫= block_content l) ++
  match stop_in e with Some i => block_content l i | None => [] end.
Proof.
  intros Hl. rewrite omap_snoc, bind_app, blocks_content_snoc by done. f_equal.
  destruct e; try done. simpl. by rewrite app_nil_r, block_content_snoc.
Qed.

Lemma step_event_disjoint v e v' :
  step_event default_strict v e = Ok v' → dom (open_blocks v) ## closed_indices v →
  dom (open_blocks v') ## closed_indices v' ∧ closed_indices v ⊆ closed_indices v'.
Proof.
  intros Hv Hd. destruct (step_event_blocks v e v' Hv) as [_ Hstep].
  destruct e; simpl in Hstep; destruct_and?;
    repeat match goal with H : open_blocks v' = _ |- _ => rewrite H | H : closed_indices v' = _ |- _ => rewrite H end;
    try done.
  - rewrite dom_insert_L. split; [|done]. apply disjoint_union_l. split; [|done].
    by apply disjoint_singleton_l.
  - rewrite dom_delete_L. split; [|apply union_subseteq_r]. intros i Hi%elem_of_difference.
    destruct Hi as [Hi Hni]. rewrite elem_of_union. intros [?|Hc]; [done|exact (Hd i Hi Hc)].
Qed.

(** The buffers of the blocks that are not closed hold their fragments. *)
Definition buffers_hold (p : list StreamEvent) (closed : gset Z) (s : Collector) : Prop :=
  ∀ i, i ∉ closed →
    text_buf s !! i = joined (omap (text_in i) p) ∧
    tool_names s !! i = last (omap (call_in i) p) ∧
    tool_args s !! i = joined (omap (arguments_in i) p).
Lemma buffers_step p v s e v' s' :
  buffers_hold p (closed_indices v) s → step_event default_strict v e = Ok v' →
  dom (open_blocks v) ## closed_indices v →
  collect_event s e = Ok s' → buffers_hold (p ++ [e]) (closed_indices v') s'.
Proof.
  intros Hb Hv Hd Hs i Hi. destruct (step_event_blocks v e v' Hv) as [_ Hstep].
  destruct (step_event_disjoint v e v' Hv Hd) as [_ Hsub].
  destruct (Hb i) as (Ht & Hn & Ha); [by intros ?%Hsub|].
  rewrite last_omap_snoc, !omap_snoc.
  destruct e as [| | |j| |j|j| |j| | |u| |]; try destruct u; simpl in Hs; simplify_eq/=;
    rewrite ?app_nil_r; try done; try (case_decide as Hij; [subst j|]); rewrite ?joined_snoc, ?app_nil_r;
    unfold push_str; rewrite ?lookup_insert_eq, ?lookup_insert_ne by done; rewrite <- ?Ht, <- ?Ha; try done.
  destruct Hstep as (_ & _ & Hcl). assert (j ≠ i) by (intros ->; apply Hi; rewrite Hcl; set_solver).
  destruct (tool_names s !! j); simplify_eq/=; by rewrite !lookup_delete_ne.
Qed.

(** The collector after the events [p], accepted by the validator up to [v]. *)
Record collects_to (fresh : string) (p : list StreamEvent) (v : ValidatorState) (s : Collector) : Prop := {
  ct_response : response s = collected fresh p;
  ct_buffers : buffers_hold p (closed_indices v) s;
  ct_stops : ∀ i, i ∈ omap stop_in p → i ∈ closed_indices v;
  ct_disjoint : dom (open_blocks v) ## closed_indices v;
  ct_running : terminated_by_error v = false;
}.

Lemma collected_snoc fresh p v s e s' :
  response s = collected fresh p → buffers_hold p (closed_indices v) s →
  (∀ i, i ∈ omap stop_in p → adds_to e ≠ Some i) → (∀ i, stop_in e = Some i → i ∉ closed_indices v) →
  collect_event s e = Ok s' → response s' = collected fresh (p ++ [e]).
Proof.
  intros Hr Hb Hfree Hopen Hs. unfold collected. rewrite !last_omap_snoc, (collected_content_snoc p e Hfree).
  destruct e as [| | | | | | | |j| | |u| |]; simpl in Hs; try destruct u; simplify_eq/=;
    rewrite ?Hr, ?app_nil_r; try done.
  destruct (Hb j) as (Ht & Hn & Ha); [by apply Hopen|]. unfold block_content at 2.
  rewrite Ht, Hn, Ha in Hs. destruct (last (omap (call_in j) p)); simplify_eq/=; by rewrite Hr.
Qed.

Lemma collect_event_ok s e : Lifecycle.is_error e = false → ∃ s', collect_event s e = Ok s'.
Proof.
  destruct e as [| | | | | | | |j| | |[]| |]; simpl; intros; try done; try (by eexists).
  destruct (tool_names s !! j); by eexists.
Qed.

Lemma collects_step fresh p v s e v' :
  collects_to fresh p v s → step_event default_strict v e = Ok v' → Lifecycle.is_error e = false →
  ∃ s', collect_event s e = Ok s' ∧ collects_to fresh (p ++ [e]) v' s'.
Proof.
  intros [Hr Hb Hs Hd Ht] Hv He. destruct (step_event_blocks v e v' Hv) as [Hadd Hstep].
  destruct (step_event_disjoint v e v' Hv Hd) as [Hd' Hsub].
  destruct (collect_event_ok s e He) as [s' Hs']. exists s'. split; [done|]. split; [|..|done|].
  - apply (collected_snoc fresh p v s e s'); [done|done| |intros i Hi|done].
    + intros i Hi Heq. rewrite Heq in Hadd. exact (Hd i Hadd (Hs i Hi)).
    + destruct e; simplify_eq/=. intros Hc. exact (Hd i (proj1 Hstep) Hc).
  - by apply (buffers_step p v s e v' s').
  - intros i. rewrite omap_snoc, elem_of_app. intros [Hi%Hs|Hi]; [by apply Hsub|].
    destruct e; simpl in Hi; try (by apply not_elem_of_nil in Hi). apply list_elem_of_singleton in Hi as ->.
    destruct Hstep as (_ & _ & ->). set_solver.
  - by rewrite (step_event_terminated v e v' Hv He).
Qed.

Lemma collect_loop_collects fresh l p v s :
  collects_to fresh p v s → Forall (λ e, Lifecycle.is_error e = false) l →
  validate_from default_strict v l = Ok tt →
  ∃ s', collect_loop s (Ok <$> l) = Ok s' ∧ response s' = collected fresh (p ++ l).
Proof.
  revert p v s. induction l as [|e l IH]; intros p v s Hc Hl Hv.
  - exists s. rewrite app_nil_r. split; [done|apply Hc].
  - inversion_clear Hl as [|? ? He Hl']. simpl in Hv. rewrite (ct_running _ _ _ _ Hc) in Hv.
    destruct (step_event default_strict v e) as [v'|] eqn:Hstep; [|done].
    destruct (collects_step fresh p v s e v' Hc Hstep He) as (s' & Hs' & Hc').
    destruct (IH (p ++ [e]) v' s' Hc' Hl' Hv) as (s'' & Hs'' & Hr). exists s''.
    simpl. rewrite Hs'. simpl. by rewrite cons_middle, app_assoc.
Qed.

Lemma collect_loop_fails s l e :
  head (omap failure l) = Some e → collect_loop s l = Err e.
Proof.
  revert s. induction l as [|[ev|err] l IH]; intros s H; simplify_eq/=; [|done].
  destruct (Lifecycle.is_error ev) eqn:He.
  - by destruct ev; simplify_eq/=.
  - destruct (collect_event_ok s ev He) as [s' ->]. apply IH. by destruct ev.
Qed.
Lemma collect_loop_no_failure l :
  head (omap failure l) = None →
  l = Ok <$> oks l ∧ Forall (λ e, Lifecycle.is_error e = false) (oks l).
Proof.
  induction l as [|[ev|err] l IH]; intros H; [by split; [|constructor]| |done].
  destruct (Lifecycle.is_error ev) eqn:He; [by destruct ev|].
  destruct IH as [Hl Hok]; [by destruct ev|]. split; [|by constructor].
  unfold oks in *. csimpl. by f_equal.
Qed.

(** A stream is collected into exactly one answer.  Its first failure,
    whether an error of the transport or an error event, is the error the client
    gets, whatever came before.  A stream without failure that meets the
    lifecycle contract yields the blocks in the order they were closed, each
    with all its text or with its tool call and the arguments parsed from all
    its fragments ([null] when they are no JSON), under the last identity, stop
    reason and usage reported; reasoning blocks are dropped. *)
Theorem collect_stream_spec fresh l :
  match head (omap failure l) with
  | Some e => collect_stream fresh l = Err e
  | None => assert_canonical_lifecycle (oks l) = Ok tt → collect_stream fresh l = Ok (collected fresh (oks l))
  end.
Proof.
  unfold collect_stream. destruct (head (omap failure l)) as [e|] eqn:Hf.
  { by rewrite (collect_loop_fails _ l e). }
  intros Hv. destruct (collect_loop_no_failure l Hf) as [Hl Hok].
  destruct (collect_loop_collects fresh (oks l) [] default_state (collector_start fresh)) as (s' & Hs' & Hr);
    [|done|done|].
  { split; simpl; [done|by intros i _|set_solver|set_solver|done]. }
  rewrite Hl, Hs'. simpl. by rewrite Hr, <- Hl.
Qed.
End Reference.

(** ** From an upstream's Chat response to the client's message *)
Section Client.
Context `{J : JsonApi} `{V : !JsonValues J}.

(** What the two OpenAI dialects read off a block. *)
Definition block_text (b : ContentBlock) : option string :=
  match b with TextBlock text _ => Some text | _ => None end.
Definition block_call (b : ContentBlock) : option UnaryToolCall :=
  match b with
  | ToolCallB tc => Some {| utc_id := tc_id tc; utc_name := tc_name tc;
                            utc_arguments := printed_arguments (arguments tc) |}
  | _ => None
  end.
Lemma chat_blocks l acc :
  foldl chat_block acc l = (acc.1 ++ omap block_text l, acc.2 ++ omap block_call l).
Proof.
  revert acc. induction l as [|b l IH]; intros [ts cs]; simpl; [by rewrite !app_nil_r|].
  rewrite IH. by destruct b; simpl; rewrite <- ?app_assoc.
Qed.

(** A run of text, or an item of its own under its number. *)
Inductive piece := Run (text : string) | Single (item : Z → OutputItem).
Definition block_piece (b : ContentBlock) : option piece :=
  match b with
  | TextBlock text _ => Some (Run text)
  | ToolCallB tc => Some (Single (λ i, ItemFunctionCall ("fc_" ++ pretty i)%string (tc_id tc) (tc_name tc)
                                      (printed_arguments (arguments tc)) "completed"))
  | ReasoningBlock text _ =>
      Some (Single (λ i, ItemReasoning ("rs_" ++ pretty i)%string "completed" [OutputReasoning text None]))
  | _ => None
  end.
(** Adjacent texts are one piece. *)
Fixpoint merge_texts (l : list piece) : list piece :=
  match l with
  | [] => []
  | Single f :: l' => Single f :: merge_texts l'
  | Run t :: l' =>
      match merge_texts l' with
      | Run u :: l'' => Run (t ++ u)%string :: l''
      | l'' => Run t :: l''
      end
  end.
Definition piece_item (i : Z) (p : piece) : OutputItem :=
  match p with
  | Run text => ItemMessage ("msg_" ++ pretty i)%string "completed" [OutputText text]
  | Single f => f i
  end.
(** The pieces numbered from [i]. *)
Fixpoint numbered (i : Z) (l : list piece) : list OutputItem :=
  match l with [] => [] | p :: l' => piece_item i p :: numbered (u32_add i 1) l' end.

Lemma merge_run ts (l : list piece) :
  ts ≠ [] → match l with Run _ :: _ => False | _ => True end →
  merge_texts ((Run <$> ts) ++ l) = Run (concat_strings ts) :: merge_texts l.
Proof.
  intros Hts Hl. destruct ts as [|t ts]; [done|]. clear Hts. revert t.
  induction ts as [|u ts IH]; intros t.
  - simpl. rewrite string_app_nil_r. destruct l as [|[?|f] l]; done.
  - change ((Run <$> t :: u :: ts) ++ l) with (Run t :: ((Run <$> u :: ts) ++ l) : list piece).
    cbn [merge_texts]. by rewrite IH.
Qed.
(** Flushing the pending fragments emits them as one piece. *)
Lemma flush_numbered s (l : list piece) :
  match l with Run _ :: _ => False | _ => True end →
  output s ++ numbered (msg_index s) (merge_texts ((Run <$> text_parts s) ++ l)) =
  output (flush_text s) ++ numbered (msg_index (flush_text s)) (merge_texts l) ∧
  text_parts (flush_text s) = [].
Proof.
  intros Hl. unfold flush_text. destruct (text_parts s) as [|t ts] eqn:Hs; [done|].
  rewrite merge_run by done. cbn. by rewrite <- app_assoc.
Qed.
(** An item of its own ends the run of text before it. *)
Lemma item_numbered s f (l : list piece) :
  let s1 := flush_text s in let s2 := push_item (f (msg_index s1)) s1 in
  output s2 ++ numbered (msg_index s2) (merge_texts ((Run <$> text_parts s2) ++ l)) =
  output s ++ numbered (msg_index s) (merge_texts ((Run <$> text_parts s) ++ Single f :: l)).
Proof.
  destruct (flush_numbered s (Single f :: l)) as [-> Hf]; [done|]. cbn. rewrite Hf. by rewrite <- app_assoc.
Qed.
Lemma responses_blocks l s :
  output (flush_text (foldl responses_block s l)) =
  output s ++ numbered (msg_index s) (merge_texts ((Run <$> text_parts s) ++ omap block_piece l)).
Proof.
  revert s. induction l as [|b l IH]; intros s.
  - cbn [foldl omap list_omap]. destruct (flush_numbered s []) as [H _]; [done|].
    etrans; [|symmetry; exact H]. by rewrite app_nil_r.
  - change (foldl responses_block s (b :: l)) with (foldl responses_block (responses_block s b) l).
    rewrite IH. destruct b as [t| | | |tc| |t| |]; try reflexivity.
    + cbn -[merge_texts fmap]. by rewrite fmap_app, <- app_assoc.
    + exact (item_numbered s _ (omap block_piece l)).
    + exact (item_numbered s _ (omap block_piece l)).
Qed.

(** A block of an upstream's response, collected. *)
Definition unary_content (b : UnaryBlock) : ContentBlock :=
  match b with
  | UText text => text_content text
  | UTool id name args => tool_content (id, name) args
  end.
(** The arguments of a tool call as JSON, [null] when they are none. *)
Definition parsed (args : string) : value :=
  match from_str args with Ok v => v | Err _ => json_null end.
Definition unary_text_of (b : UnaryBlock) : option string :=
  match b with UText text => Some text | _ => None end.
Definition unary_call_of (b : UnaryBlock) : option UnaryToolCall :=
  match b with
  | UTool id name args => Some {| utc_id := id; utc_name := name; utc_arguments := to_json_string (parsed args) |}
  | _ => None
  end.
Definition unary_anthropic (b : UnaryBlock) : OutboundContentBlock :=
  match b with UText text => OutText text | UTool id name args => OutToolUse id name (parsed args) end.
Definition unary_piece (b : UnaryBlock) : piece :=
  match b with
  | UText text => Run text
  | UTool id name args => Single (λ i, ItemFunctionCall ("fc_" ++ pretty i)%string id name
                                   (to_json_string (parsed args)) "completed")
  end.

Lemma collect_rendered b i r l :
  collect_loop {| response := r; tool_names := ∅; tool_args := ∅; text_buf := ∅ |}
    ((Ok <$> render_block i b) ++ l) =
  collect_loop {| response := add_content [unary_content b] r; tool_names := ∅; tool_args := ∅; text_buf := ∅ |} l.
Proof.
  destruct b; cbn [render_block fmap list_fmap app collect_loop map_err collect_event];
    unfold push_str, set_buffers, set_response; cbn [tool_names tool_args text_buf response];
    rewrite ?lookup_empty, ?lookup_insert_eq, ?insert_empty, ?delete_empty, ?delete_singleton_eq; done.
Qed.
Lemma add_content_app l k r : add_content k (add_content l r) = add_content (l ++ k) r.
Proof. unfold add_content. simpl. by rewrite app_assoc. Qed.
Lemma collect_blocks bs i r l :
  collect_loop {| response := r; tool_names := ∅; tool_args := ∅; text_buf := ∅ |}
    ((Ok <$> render_blocks i bs) ++ l) =
  collect_loop {| response := add_content (unary_content <$> bs) r; tool_names := ∅; tool_args := ∅; text_buf := ∅ |} l.
Proof.
  revert i r. induction bs as [|b bs IH]; intros i r; simpl.
  - destruct r. unfold add_content. simpl. by rewrite app_nil_r.
  - rewrite fmap_app, <- app_assoc, collect_rendered, IH. by rewrite add_content_app.
Qed.

(** The answer to a response with the given choices. *)
Definition unary_answer (usage_of : value → Usage) (v : value) (choices : list value) : CanonicalResponse := {|
  cr_id := default "unknown" (get_str "id" v); cr_model := default "unknown" (get_str "model" v);
  cr_content := unary_content <$> (choices ≫= choice_blocks);
  cr_stop_reason := last_reason choices EndTurn; cr_stop_sequence := None;
  cr_usage := usage_of <$> get "usage" v |}.
Lemma collect_unary_response usage_of fresh v choices :
  collect_stream fresh (Ok <$> unary_response usage_of v choices) = Ok (unary_answer usage_of v choices).
Proof.
  unfold collect_stream, unary_response, collector_start. rewrite !fmap_app. cbn [fmap list_fmap app collect_loop map_err collect_event].
  unfold set_response. cbn [response tool_names tool_args text_buf]. rewrite collect_blocks.
  unfold unary_answer. destruct (get "usage" v); reflexivity.
Qed.

Lemma unary_texts (bs : list UnaryBlock) : omap block_text (unary_content <$> bs) = omap unary_text_of bs.
Proof. induction bs as [|[] bs IH]; csimpl; by rewrite ?IH. Qed.
Lemma unary_calls (bs : list UnaryBlock) : omap block_call (unary_content <$> bs) = omap unary_call_of bs.
Proof. induction bs as [|[] bs IH]; csimpl; by rewrite ?IH. Qed.
Lemma unary_anthropic_blocks (bs : list UnaryBlock) :
  omap anthropic_block (unary_content <$> bs) = unary_anthropic <$> bs.
Proof. induction bs as [|[] bs IH]; csimpl; by rewrite ?IH. Qed.
Lemma unary_pieces (bs : list UnaryBlock) : omap block_piece (unary_content <$> bs) = unary_piece <$> bs.
Proof. induction bs as [|[] bs IH]; csimpl; by rewrite ?IH. Qed.

(** A non-streaming Chat response, through the canonical stream and back.
    A body that is refused or carries an error object gives the client exactly
    that error.  The texts and tool calls of any other body reach every client
    complete and in order: an Anthropic client gets one block for each, a Chat
    client the joined text and the list of calls, a Responses client the items
    numbered in order with adjacent texts joined; with the upstream's identity,
    last finish reason and usage. *)
Theorem unary_response_reaches_client usage_of fresh body clock now :
  match from_str body with
  | Err e => collect_stream fresh (parse_unary usage_of body) =
             Err (Provider (Decode ("decode error: json parse: " ++ e)%string))
  | Ok v =>
      match get "error" v, get_array "choices" v with
      | Some err, _ => collect_stream fresh (parse_unary usage_of body) =
                       Err (Provider (Upstream 200 (default "upstream error" (get_str "message" err))))
      | None, None => collect_stream fresh (parse_unary usage_of body) =
                      Err (Provider (Decode "decode error: missing choices"))
      | None, Some choices =>
          let blocks := choices ≫= choice_blocks in
          ∃ r, collect_stream fresh (parse_unary usage_of body) = Ok r ∧
          mr_content (anthropic_unary r) = (unary_anthropic <$> blocks) ∧
          cc_choices (chat_unary clock now r) = [{|
            uc_index := 0;
            uc_message := {|
              um_content := joined (omap unary_text_of blocks);
              um_tool_calls := omap unary_call_of blocks |};
            uc_finish_reason := finish_reason_from_canonical (last_reason choices EndTurn) |}] ∧
          ro_output (responses_unary clock now r) = numbered 0 (merge_texts (unary_piece <$> blocks)) ∧
          mr_stop_reason (anthropic_unary r) = stop_reason_to_anthropic (last_reason choices EndTurn) ∧
          mr_usage (anthropic_unary r) = anthropic_usage (usage_of <$> get "usage" v) ∧
          cc_usage (chat_unary clock now r) = (chat_usage <$> (usage_of <$> get "usage" v)) ∧
          ro_usage (responses_unary clock now r) = (responses_usage <$> (usage_of <$> get "usage" v))
      end
  end.
Proof.
  unfold parse_unary, parse_unary_with. destruct (from_str body) as [v|e]; [|done].
  destruct (get "error" v) as [err|]; [done|]. destruct (get_array "choices" v) as [choices|]; [|done].
  rewrite unary_events_response, collect_unary_response. eexists. split; [done|].
  unfold anthropic_unary, chat_unary, responses_unary. rewrite chat_blocks, responses_blocks. cbn [unary_answer cr_content cr_usage cr_stop_reason cc_choices mr_content ro_output app text_parts output msg_index flusher_start fst snd].
  split_and!; [apply unary_anthropic_blocks| |by rewrite <- unary_pieces|done..].
  by rewrite unary_texts, unary_calls.
Qed.
End Client.

(** ** Concrete streams *)
Module Samples.
#[local] Instance sample_json : JsonApi := TreeJson [("{}", TObj [])].

Definition reasoning_stream : list (result StreamEvent StreamError) := Ok <$>
  [ResponseStart "r" "m" 0; MessageStart Assistant;
   ContentBlockStart 0 Reasoning; ReasoningDelta 0 "because"; ContentBlockStop 0;
   ContentBlockStart 1 Text; TextDelta 1 "so"; ContentBlockStop 1;
   ContentBlockStart 2 ToolCall; ToolCallStart 2 "c" "f"; ToolCallArgumentsDelta 2 "{}"; ToolCallStop 2;
   ContentBlockStop 2; MessageStop ToolUse None; ResponseStop None].

(** A canonical stream with a reasoning block: the block does not reach a
    client that does not stream, though the Anthropic and Responses encoders
    have a form for it. *)
Lemma unary_drops_reasoning :
  assert_canonical_lifecycle (oks reasoning_stream) = Ok tt ∧
  match collect_stream "x" reasoning_stream with
  | Ok r => mr_content (anthropic_unary r) = [OutText "so"; OutToolUse "c" "f" (TObj [])]
  | Err _ => False
  end ∧
  anthropic_block (ReasoningBlock "because" ∅) = Some (OutThinking "because").
Proof. split_and!; reflexivity. Qed.

(** An upstream that answers 200 with an error object: the client gets the
    error under status 200. *)
Lemma unary_error_is_answered_200 :
  (GatewayErrors.status <$> (into_response (Provider (Upstream 200 "upstream error")))) = Some 200%Z.
Proof. reflexivity. Qed.
End Samples.
