(* ===== verification/GeminiParse.v ===== *)
(** * The Gemini response parser
    (crates/providers/src/gemini/response.rs and the response half of mod.rs)

    The wire objects of the scanner become canonical events; a unary body becomes
    a canonical response, which [complete] turns into events again.  The clock and
    the drawn identifiers are parameters ([fresh i] is the identifier drawn for
    the tool call that opens block [i]; [response_id] and [unary_id] the two drawn
    for a response), as are base64 and the JSON of ratings. *)
From S2P Require Import Prelude Json CoreTypes Emit Lifecycle Drain Fallback Request UnaryPath GeminiWire GeminiScan.
#[local] Open Scope string_scope.
#[local] Open Scope list_scope.
#[local] Open Scope nat_scope.

(** ** Shared helpers *)
Definition map_finish_reason (reason : option string) (has_tool_call : bool) : StopReason :=
  if has_tool_call then ToolUse else
  match reason with
  | Some r =>
      if bool_decide (r = "STOP") then EndTurn
      else if bool_decide (r = "MAX_TOKENS") then MaxTokens
      else if bool_decide (r = "SAFETY") then ContentFilter
      else if bool_decide (r = "RECITATION") then ContentFilter
      else OtherReason r
  | None => EndTurn
  end.
Definition wire_to_canonical_safety_ratings (wire : list WireRating) : list SafetyRating :=
  (λ r, {| category := category_from_string (wire_category r);
           probability := level_from_string (wire_probability r) |}) <$> wire.

Inductive OpenBlock := OpenText (index : Z) | OpenReasoning (index : Z).
Definition open_index (b : OpenBlock) : Z := match b with OpenText i | OpenReasoning i => i end.

Section Parser.
Context `{J : JsonApi} `{V : !JsonValues J}.
Context (response_id : string) (now_unix : Z) (fresh : Z → string).
#[local] Abbreviation Event := (@StreamEvent J).

(** [n.max(0) as u32]. *)
Definition token_count (n : Z) : Z := as_u32 (Z.max n 0).
Definition usage_metadata_to_usage (meta : UsageMetadata) : Usage := {|
  input_tokens := token_count <$> prompt_token_count meta;
  output_tokens := token_count <$> candidates_token_count meta;
  cache_creation_input_tokens := None; cache_read_input_tokens := None;
  reasoning_tokens := token_count <$> thoughts_token_count meta;
  estimated := false; provider_raw := None; safety_ratings := None |}.
Definition with_ratings (r : list SafetyRating) (u : Usage) : Usage := {|
  input_tokens := input_tokens u; output_tokens := output_tokens u;
  cache_creation_input_tokens := cache_creation_input_tokens u;
  cache_read_input_tokens := cache_read_input_tokens u;
  reasoning_tokens := reasoning_tokens u; estimated := estimated u;
  provider_raw := provider_raw u; safety_ratings := Some r |}.

(** ** The streaming parser *)
Record StreamState := {
  model : string;
  started : bool;
  stopped : bool;
  next_block_index : Z;
  open_block : option OpenBlock;
  has_tool_call : bool;
  last_usage : option UsageMetadata;
  last_safety_ratings : option (list SafetyRating);
}.
Definition new_state (m : string) : StreamState := {|
  model := m; started := false; stopped := false; next_block_index := 0; open_block := None;
  has_tool_call := false; last_usage := None; last_safety_ratings := None |}.
Definition set_started (s : StreamState) : StreamState := {|
  model := model s; started := true; stopped := stopped s; next_block_index := next_block_index s;
  open_block := open_block s; has_tool_call := has_tool_call s; last_usage := last_usage s;
  last_safety_ratings := last_safety_ratings s |}.
Definition set_stopped (s : StreamState) : StreamState := {|
  model := model s; started := started s; stopped := true; next_block_index := next_block_index s;
  open_block := open_block s; has_tool_call := has_tool_call s; last_usage := last_usage s;
  last_safety_ratings := last_safety_ratings s |}.
Definition set_next (i : Z) (s : StreamState) : StreamState := {|
  model := model s; started := started s; stopped := stopped s; next_block_index := i;
  open_block := open_block s; has_tool_call := has_tool_call s; last_usage := last_usage s;
  last_safety_ratings := last_safety_ratings s |}.
Definition set_open (b : option OpenBlock) (s : StreamState) : StreamState := {|
  model := model s; started := started s; stopped := stopped s; next_block_index := next_block_index s;
  open_block := b; has_tool_call := has_tool_call s; last_usage := last_usage s;
  last_safety_ratings := last_safety_ratings s |}.
Definition set_tool_call (s : StreamState) : StreamState := {|
  model := model s; started := started s; stopped := stopped s; next_block_index := next_block_index s;
  open_block := open_block s; has_tool_call := true; last_usage := last_usage s;
  last_safety_ratings := last_safety_ratings s |}.
Definition set_reports (u : option UsageMetadata) (r : option (list SafetyRating)) (s : StreamState)
    : StreamState := {|
  model := model s; started := started s; stopped := stopped s; next_block_index := next_block_index s;
  open_block := open_block s; has_tool_call := has_tool_call s; last_usage := u;
  last_safety_ratings := r |}.
#[local] Abbreviation M := (emit StreamState Event).

Definition close_open_block : M unit :=
  b ← gets open_block;
  modify (set_open None);;
  match b with Some block => push (ContentBlockStop (open_index block)) | None => mret tt end.
Definition alloc_index : M Z :=
  i ← gets next_block_index; modify (set_next (u32_add i 1));; mret i.
Definition open_text_block : M unit :=
  index ← alloc_index; push (ContentBlockStart index Text);; modify (set_open (Some (OpenText index))).
Definition open_reasoning_block : M unit :=
  index ← alloc_index; push (ContentBlockStart index Reasoning);; modify (set_open (Some (OpenReasoning index))).
Definition ensure_text_block : M unit :=
  b ← gets open_block;
  match b with
  | Some (OpenText _) => mret tt
  | Some (OpenReasoning _) => close_open_block;; open_text_block
  | None => open_text_block
  end.
Definition ensure_reasoning_block : M unit :=
  b ← gets open_block;
  match b with
  | Some (OpenReasoning _) => mret tt
  | Some (OpenText _) => close_open_block;; open_reasoning_block
  | None => open_reasoning_block
  end.
Definition call_id (index : Z) (fc : FunctionCall) : string :=
  match fc_id fc with Some i => i | None => fresh index end.
Definition emit_tool_call (fc : FunctionCall) : M unit :=
  modify set_tool_call;;
  index ← alloc_index;
  push (ContentBlockStart index ToolCall);;
  push (ToolCallStart index (call_id index fc) (fc_name fc));;
  push (ToolCallArgumentsDelta index (match args fc with Some v => to_json_string v | None => "{}" end));;
  push (ToolCallStop index);;
  push (ContentBlockStop index).
Definition is_thought (p : Part) : bool := bool_decide (thought p = Some true).
Definition handle_part (part : Part) : M unit :=
  match function_call part with
  | Some fc => close_open_block;; emit_tool_call fc
  | None =>
      match text part with
      | None => mret tt
      | Some t =>
          if is_thought part then
            ensure_reasoning_block;;
            b ← gets open_block;
            match b with Some (OpenReasoning index) => push (ReasoningDelta index t) | _ => mret tt end
          else
            ensure_text_block;;
            b ← gets open_block;
            match b with Some (OpenText index) => push (TextDelta index t) | _ => mret tt end
      end
  end.
Definition take_final_usage : M (option Usage) :=
  u ← gets last_usage;
  ratings ← gets last_safety_ratings;
  modify (set_reports None None);;
  mret match usage_metadata_to_usage <$> u, ratings with
       | Some u, Some r => Some (with_ratings r u)
       | Some u, None => Some u
       | None, Some r => Some (with_ratings r default_usage)
       | None, None => None
       end.
Definition stop (reason : StopReason) : M unit :=
  push (MessageStop reason None);;
  usage ← take_final_usage;
  push (ResponseStop usage);;
  modify set_stopped.

Definition start_once : M unit :=
  b ← gets started;
  when (negb b) (
    modify set_started;;
    m ← gets model;
    push (ResponseStart response_id m now_unix);;
    push (MessageStart Assistant)).
Definition capture_usage (u : option UsageMetadata) : M unit :=
  match u with
  | Some u => modify (λ s, set_reports (Some u) (last_safety_ratings s) s)
  | None => mret tt
  end.
Definition handle_candidate (c : Candidate) : M unit :=
  when (negb (bool_decide (candidate_ratings c = [])))
    (modify (λ s, set_reports (last_usage s)
                    (Some (wire_to_canonical_safety_ratings (candidate_ratings c))) s));;
  for_each (parts (candidate_content c)) handle_part;;
  match finish_reason c with
  | Some reason =>
      close_open_block;;
      has ← gets has_tool_call;
      stop (map_finish_reason (Some reason) has)
  | None => mret tt
  end.
Definition handle (resp : GenerateContentResponse) : M unit :=
  b ← gets stopped;
  if (b : bool) then mret tt else
  start_once;;
  capture_usage (usage_metadata resp);;
  match candidates resp with
  | [] => mret tt
  | candidate :: _ => handle_candidate candidate
  end.
Definition finalize : M unit :=
  s ← gets (λ s, s);
  if negb (started s) || stopped s then mret tt else
  close_open_block;;
  stop (if has_tool_call s then ToolUse else EndTurn).

(** [GeminiStreamParser]: the hand-rolled stream over the scanner's items. *)
#[local] Abbreviation Item := (result Event StreamError).
Definition on_item (i : result GenerateContentResponse StreamError) (s : StreamState) : StreamState * list Item :=
  match i with
  | Ok resp => (final (handle resp) s, Ok <$> emitted (handle resp) s)
  | Err e => (s, [Err e])
  end.
Definition on_eof (s : StreamState) : StreamState * list Item :=
  (final finalize s, Ok <$> emitted finalize s).
Definition poll_next : parser → poll (option Item) * parser := parser_poll on_item on_eof.
(** What polling it to the end yields. *)
Definition parse_streaming (l : list (result GenerateContentResponse StreamError)) (m : string) : list Item :=
  feed_all on_item on_eof l (new_state m).

(** ** The parser as one program *)
Definition program (l : list GenerateContentResponse) : M unit := for_each l handle;; finalize.
Lemma feed_program l s :
  (Drain.feed on_item l s).1 = final (for_each (oks l) handle) s ∧
  oks (Drain.feed on_item l s).2 = emitted (for_each (oks l) handle) s.
Proof.
  revert s. induction l as [|[resp|e] l IH]; intros s; [done| |]; cbn [Drain.feed on_item].
  - specialize (IH (final (handle resp) s)). destruct (Drain.feed on_item l _) as [s2 k]. simpl in *.
    rewrite final_bind, emitted_bind, oks_app, oks_Ok. by destruct IH as [-> ->].
  - specialize (IH s). destruct (Drain.feed on_item l s) as [s2 k]. simpl in *. done.
Qed.
Lemma parse_streaming_program l m : oks (parse_streaming l m) = emitted (program (oks l)) (new_state m).
Proof.
  unfold parse_streaming, feed_all, program. destruct (feed_program l (new_state m)) as [H1 H2].
  destruct (Drain.feed on_item l (new_state m)) as [s k]. simpl in *.
  by rewrite oks_app, oks_Ok, emitted_bind, H2, H1.
Qed.
(** Transport and decode errors are passed on, and nothing else fails. *)
Definition errors (i : Item) : list StreamError := match i with Err e => [e] | Ok _ => [] end.
Lemma parse_streaming_errors l m :
  parse_streaming l m ≫= errors = l ≫= (λ i, match i with Err e => [e] | Ok _ => [] end).
Proof.
  assert (∀ k : list Event, (Ok <$> k) ≫= errors = []) as Hok by (induction k; done).
  apply (feed_collects _ _ (λ k, k ≫= errors)); [done|intros; apply bind_app| |intros; apply Hok].
  intros [resp|e] s; [apply Hok|done].
Qed.

(** ** The lifecycle *)
Section Lifecycle.
Implicit Types (s : StreamState) (v : ValidatorState).

Definition parts_of (resp : GenerateContentResponse) : list Part :=
  from_option (λ c, parts (candidate_content c)) [] (head (candidates resp)).
Definition open_map s : gmap Z ContentBlockKind :=
  match open_block s with
  | Some (OpenText i) => {[i := Text]}
  | Some (OpenReasoning i) => {[i := Reasoning]}
  | None => ∅
  end.
(** In the middle of a message, with room for the blocks of [n] more parts. *)
Definition running (n : nat) s v : Prop :=
  started s = true ∧ stopped s = false ∧ (0 ≤ next_block_index s)%Z ∧
  (next_block_index s + Z.of_nat n ≤ u32_max)%Z ∧
  (∀ b, open_block s = Some b → (open_index b < next_block_index s)%Z) ∧
  ∃ c, v = vstate true true false false (open_map s) ∅ c ∧ ∀ i, i ∈ c → (i < next_block_index s)%Z.
Definition over s v : Prop :=
  started s = true ∧ stopped s = true ∧ ∃ c, v = vstate true true true true ∅ ∅ c.
Definition inv (n : nat) s v : Prop :=
  over s v ∨ running n s v ∨
  (v = default_state ∧ started s = false ∧ stopped s = false ∧ next_block_index s = 0%Z ∧
   open_block s = None ∧ (Z.of_nat n ≤ u32_max)%Z).

Lemma running_weaken n k s v : running n s v → (k ≤ n)%nat → running k s v.
Proof. unfold running. naive_solver lia. Qed.

(** No block is open. *)
Definition idle (n : nat) s v : Prop := running n s v ∧ open_block s = None.
Lemma contract_close n s v : running n s v → wp check close_open_block (λ _ s' v', idle n s' v' ∧ has_tool_call s' = has_tool_call s) s v.
Proof.
  intros (Hst & Hsp & Hn & Hb & Ho & c & -> & Hc). unfold close_open_block, idle, running, open_map.
  wp_steps. destruct (open_block s) as [[i|i]|] eqn:E; simpl.
  1, 2: specialize (Ho _ eq_refl); simpl in Ho;
    (eapply wp_push; [by eapply check_block_stop; [apply lookup_insert_eq|]|]); simpl;
    (split; [|done]); (split; [|done]); split_and!; try done;
    (exists ({[i]} ∪ c); split; [by rewrite delete_singleton_eq|]); set_solver by lia.
  apply wp_ret. simpl. split; [|done]. split; [|done]. split_and!; eauto.
Qed.
Lemma contract_open n s v kind (mk : Z → OpenBlock) :
  (∀ i, open_index (mk i) = i ∧ open_map (set_open (Some (mk i)) s) = {[i := kind]}) →
  idle (S n) s v →
  wp check (index ← alloc_index; push (ContentBlockStart index kind);; modify (set_open (Some (mk index))))
    (λ _ s' v', running n s' v' ∧ ∃ i, open_block s' = Some (mk i)) s v.
Proof.
  intros Hmk [(Hst & Hsp & Hn & Hb & Ho & c & -> & Hc) He]. unfold alloc_index.
  wp_steps. unfold open_map. rewrite He.
  eapply wp_push; [apply check_block_start; [done|intros H%Hc; lia]|]. wp_steps.
  destruct (Hmk (next_block_index s)) as [Hi Hm].
  split; [|by eexists]. unfold running; simpl.
  rewrite u32_add_small by (unfold is_u32; lia). split_and!; try done; try lia.
  - intros b [= <-]. lia.
  - exists c. split; [|intros i ?%Hc; lia]. unfold open_map in *. simpl in *. by rewrite Hm.
Qed.
Lemma contract_text_block n s v :
  running (S n) s v → wp check ensure_text_block (λ _ s' v', running n s' v' ∧ ∃ i, open_block s' = Some (OpenText i)) s v.
Proof.
  intros H. unfold ensure_text_block. apply wp_bind, wp_gets. destruct (open_block s) as [[i|i]|] eqn:E.
  - apply wp_ret. split; [eapply running_weaken; [done|lia]|eauto].
  - apply wp_bind. eapply wp_mono; [by apply contract_close|]. intros [] s' v' [H' _]. by apply contract_open.
  - by apply contract_open.
Qed.
Lemma contract_reasoning_block n s v :
  running (S n) s v →
  wp check ensure_reasoning_block (λ _ s' v', running n s' v' ∧ ∃ i, open_block s' = Some (OpenReasoning i)) s v.
Proof.
  intros H. unfold ensure_reasoning_block. apply wp_bind, wp_gets. destruct (open_block s) as [[i|i]|] eqn:E.
  - apply wp_bind. eapply wp_mono; [by apply contract_close|]. intros [] s' v' [H' _]. by apply contract_open.
  - apply wp_ret. split; [eapply running_weaken; [done|lia]|eauto].
  - by apply contract_open.
Qed.
Lemma contract_tool_call n fc s v : idle (S n) s v → wp check (emit_tool_call fc) (λ _ s' v', running n s' v') s v.
Proof.
  intros [(Hst & Hsp & Hn & Hb & Ho & c & -> & Hc) He]. unfold emit_tool_call, alloc_index, open_map. rewrite He.
  wp_steps.
  eapply wp_push; [apply check_block_start; [done|intros H%Hc; lia]|]. wp_steps.
  eapply wp_push; [apply check_tool_start, lookup_insert_eq|]. wp_steps.
  eapply wp_push; [apply check_tool_args, lookup_insert_eq|]. wp_steps.
  eapply wp_push; [apply check_tool_stop, lookup_insert_eq|]. wp_steps.
  eapply wp_push; [apply check_tool_block_stop; [apply lookup_insert_eq|set_solver]|].
  unfold running, open_map; simpl. rewrite He, u32_add_small by (unfold is_u32; lia).
  split_and!; try done; try lia.
  exists ({[next_block_index s]} ∪ c). split; [|set_solver by lia].
  by rewrite delete_insert_eq, delete_empty, union_empty_r_L, difference_diag_L.
Qed.
Lemma contract_part n p s v : running (S n) s v → wp check (handle_part p) (λ _ s' v', running n s' v') s v.
Proof.
  intros H. unfold handle_part. destruct (function_call p) as [fc|].
  { apply wp_bind. eapply wp_mono; [by apply contract_close|]. intros [] s' v' [H' _]. by apply contract_tool_call. }
  destruct (text p) as [t|]; [|apply wp_ret; eapply running_weaken; [done|lia]].
  destruct (is_thought p); apply wp_bind.
  - eapply wp_mono; [by apply contract_reasoning_block|]. intros [] s' v' (H' & i & E). apply wp_bind, wp_gets. rewrite E.
    pose proof H' as (_ & _ & _ & _ & _ & c & -> & _). eapply wp_push; [|exact H'].
    apply check_reasoning_delta. unfold open_map. rewrite E. apply lookup_insert_eq.
  - eapply wp_mono; [by apply contract_text_block|]. intros [] s' v' (H' & i & E). apply wp_bind, wp_gets. rewrite E.
    pose proof H' as (_ & _ & _ & _ & _ & c & -> & _). eapply wp_push; [|exact H'].
    apply check_text_delta. unfold open_map. rewrite E. apply lookup_insert_eq.
Qed.
Lemma contract_stop n reason s v : idle n s v → wp check (stop reason) (λ _ s' v', over s' v') s v.
Proof.
  intros [(Hst & Hsp & Hn & Hb & Ho & c & -> & Hc) He]. unfold stop, take_final_usage, open_map. rewrite He.
  wp_steps. eapply wp_push; [apply check_message_stop|]. wp_steps.
  eapply wp_push; [apply check_response_stop|]. wp_steps. unfold over. simpl. eauto.
Qed.

Lemma running_reports n s v u r : running n s v → running n (set_reports u r s) v.
Proof. done. Qed.
Lemma contract_candidate n c s v :
  running (length (parts (candidate_content c)) + n) s v → wp check (handle_candidate c) (λ _ s' v', inv n s' v') s v.
Proof.
  intros H. unfold handle_candidate. apply wp_bind.
  eapply (wp_mono _ _ (λ _ s' v', running (length (parts (candidate_content c)) + n) s' v')).
  { apply wp_when; intros _; [by apply wp_modify|done]. }
  clear s v H. intros [] s v H. apply wp_bind.
  eapply wp_mono; [by apply (wp_for_each _ _ _ (λ l s v, running (length l + n) s v)); [done|intros; by apply contract_part]|].
  clear s v H. intros [] s v H. simpl in H. destruct (finish_reason c); [|apply wp_ret; unfold inv; auto].
  apply wp_bind. eapply wp_mono; [by apply contract_close|]. intros [] s' v' [H' _]. apply wp_bind, wp_gets.
  eapply wp_mono; [by eapply contract_stop|]. intros. by left.
Qed.
Lemma contract_handle n resp s v :
  inv (length (parts_of resp) + n) s v → wp check (handle resp) (λ _ s' v', inv n s' v') s v.
Proof.
  intros H. unfold handle. apply wp_bind, wp_gets.
  destruct (stopped s) eqn:Hs.
  { apply wp_ret. destruct H as [H|[(_ & ? & _)|(_ & _ & ? & _)]]; [by left|congruence..]. }
  apply wp_bind.
  apply (wp_mono _ _ (λ _ s' v', running (length (parts_of resp) + n) s' v')).
  { unfold start_once. apply wp_bind, wp_gets. destruct H as [(_ & ? & _)|[H|(-> & Hst & Hsp & Hn & Ho & Hb)]]; [congruence| |].
    - destruct H as (Hst & H). rewrite Hst. by apply wp_ret.
    - rewrite Hst. unfold when. simpl. wp_steps.
      change default_state with (vstate false false false false ∅ ∅ ∅).
      eapply wp_push; [apply check_response_start|]. wp_steps. eapply wp_push; [apply check_message_start|].
      unfold running, open_map; simpl. rewrite Ho, Hn. split_and!; try done. exists ∅. set_solver. }
  clear s v H Hs. intros [] s v H. apply wp_bind.
  apply (wp_mono _ _ (λ _ s' v', running (length (parts_of resp) + n) s' v')).
  { unfold capture_usage. destruct (usage_metadata resp); [by apply wp_modify|by apply wp_ret]. }
  clear s v H. intros [] s v H. unfold parts_of in H. destruct (candidates resp) as [|c l].
  - apply wp_ret. by right; left.
  - by apply contract_candidate.
Qed.
Lemma contract_finalize s v : inv 0 s v → wp check finalize (λ _ _ v', open_blocks v' = ∅) s v.
Proof.
  intros H. unfold finalize. apply wp_bind, wp_gets.
  destruct H as [(Hst & Hsp & c & ->)|[H|(-> & Hst & _)]].
  - rewrite Hsp, orb_true_r. by apply wp_ret.
  - pose proof H as (Hst & Hsp & _). rewrite Hst, Hsp. simpl. apply wp_bind.
    eapply wp_mono; [by apply contract_close|]. intros [] s' v' [H' _].
    eapply wp_mono; [by eapply contract_stop|]. by intros [] s2 v2 (_ & _ & c & ->).
  - rewrite Hst. by apply wp_ret.
Qed.
End Lifecycle.

Lemma program_accepted l m :
  (Z.of_nat (length (l ≫= parts_of)) ≤ u32_max)%Z →
  assert_canonical_lifecycle (emitted (program l) (new_state m)) = Ok tt.
Proof.
  intros Hl.
  enough (wp check (program l) (λ _ _ v', open_blocks v' = ∅) (new_state m) default_state) as Hwp.
  { destruct (wp_elim _ _ _ _ _ Hwp) as (v' & Hv & Ho). by apply (assert_of_monitor _ v'). }
  apply wp_bind. eapply wp_mono.
  - apply (wp_for_each _ _ _ (λ k s v, inv (length (k ≫= parts_of)) s v)).
    + right; right. done.
    + intros resp k' s v H. csimpl in H. rewrite length_app in H. by apply contract_handle.
  - intros [] s v H. by apply contract_finalize.
Qed.

(** C15: whatever a Gemini upstream streams (any objects, in any order, errors in
    between, cut off or not, finishing twice or never), the canonical events keep
    the lifecycle contract: one start, one message, blocks opened under new
    indices, filled with deltas of their kind and closed, one stop; the errors are
    those that came in, in order; and polling ends, pending polls or not, with these
    items.  There may be up to 2^32 - 1 parts. *)
Theorem gemini_stream_lifecycle l m :
  (Z.of_nat (length (oks l ≫= parts_of)) ≤ u32_max)%Z →
  assert_canonical_lifecycle (oks (parse_streaming l m)) = Ok tt ∧
  parse_streaming l m ≫= errors = l ≫= (λ i, match i with Err e => [e] | Ok _ => [] end) ∧
  ∀ src fuel, items src = l → length src + length (parse_streaming l m) < fuel →
    collect on_item on_eof fuel (init (new_state m) src) = Some (parse_streaming l m).
Proof.
  intros Hl. split_and!; [|apply parse_streaming_errors|].
  - rewrite parse_streaming_program. by apply program_accepted.
  - intros src fuel <-. apply collect_init.
Qed.

(** ** The unary parser *)
Context (unary_id : string) (b64_decode : string → result string unit) (ratings_value : list WireRating → value).

(** The variables of [candidate_to_blocks]. *)
Record BlockState := {
  blocks : list ContentBlock;
  called : bool;
  acc_text : option string;
  acc_reasoning : option string;
}.
Definition set_blocks (b : list ContentBlock) (c : bool) (t r : option string) : BlockState :=
  {| blocks := b; called := c; acc_text := t; acc_reasoning := r |}.
Definition flush_text (s : BlockState) : BlockState :=
  set_blocks (blocks s ++ option_list ((λ t, TextBlock t ∅) <$> acc_text s)) (called s) None (acc_reasoning s).
Definition flush_reasoning (s : BlockState) : BlockState :=
  set_blocks (blocks s ++ option_list ((λ t, ReasoningBlock t ∅) <$> acc_reasoning s)) (called s) (acc_text s) None.
Definition flush (s : BlockState) : BlockState := flush_reasoning (flush_text s).
Definition add_block (b : ContentBlock) (s : BlockState) : BlockState :=
  set_blocks (blocks s ++ [b]) (called s) (acc_text s) (acc_reasoning s).
Definition next_index (s : BlockState) : Z := Z.of_nat (length (blocks s)).
Definition call_block (index : Z) (fc : FunctionCall) : ContentBlock :=
  ToolCallB {| tc_id := call_id index fc; tc_name := fc_name fc;
               arguments := Complete (default (json_object []) (args fc)); tc_extensions := ∅ |}.
(** The body of the loop over the parts. *)
Definition block_part (s : BlockState) (part : Part) : BlockState :=
  match function_call part with
  | Some fc =>
      let s := flush s in
      set_blocks (blocks s ++ [call_block (next_index s) fc]) true (acc_text s) (acc_reasoning s)
  | None =>
      match text part, inline_data part, file_data part with
      | Some t, _, _ =>
          if is_thought part then
            let s := flush_text s in
            set_blocks (blocks s) (called s) (acc_text s) (Some (default "" (acc_reasoning s) ++ t)%string)
          else
            let s := flush_reasoning s in
            set_blocks (blocks s) (called s) (Some (default "" (acc_text s) ++ t)%string) (acc_reasoning s)
      | None, Some inline, _ =>
          let s := flush s in
          match b64_decode (inline_bytes inline) with
          | Ok decoded => add_block (ImageBlock (Base64 (mime_type inline) decoded) ∅) s
          | Err _ => s
          end
      | None, None, Some file => add_block (ImageBlock (Url (file_uri file)) ∅) (flush s)
      | None, None, None => s
      end
  end.
Definition candidate_to_blocks (c : Candidate) : BlockState :=
  flush (foldl block_part (set_blocks [] false None None) (parts (candidate_content c))).

Definition insert_extension (key : string) (v : value) (block : ContentBlock) : ContentBlock :=
  match block with
  | TextBlock t e => TextBlock t (<[key := v]> e)
  | ImageBlock s e => ImageBlock s (<[key := v]> e)
  | AudioBlock s e => AudioBlock s (<[key := v]> e)
  | FileBlock s e => FileBlock s (<[key := v]> e)
  | ToolCallB b => ToolCallB {| tc_id := tc_id b; tc_name := tc_name b; arguments := arguments b;
                                tc_extensions := <[key := v]> (tc_extensions b) |}
  | ToolResultB b => ToolResultB {| tool_call_id := tool_call_id b; tr_content := tr_content b;
                                    is_error := is_error b; tr_extensions := <[key := v]> (tr_extensions b) |}
  | ReasoningBlock t e => ReasoningBlock t (<[key := v]> e)
  | RedactedReasoningBlock d e => RedactedReasoningBlock d (<[key := v]> e)
  | UnsupportedBlock _ _ => block
  end.
Definition attach_extensions (l : list ContentBlock) (ratings : list WireRating) (citations : option value)
    : list ContentBlock :=
  match l with
  | [] => []
  | b :: l =>
      let b := if bool_decide (ratings = []) then b
               else insert_extension "gemini.safety_ratings" (ratings_value ratings) b in
      let b := match citations with
               | Some v => insert_extension "gemini.citation_metadata" v b
               | None => b
               end in
      b :: l
  end.
Definition unary_usage (meta : option UsageMetadata) (ratings : list SafetyRating) : option Usage :=
  let usage := (λ m, let u := usage_metadata_to_usage m in
                     if bool_decide (length ratings = 0) then u else with_ratings ratings u) <$> meta in
  match usage with
  | Some u => Some u
  | None => if bool_decide (length ratings = 0) then None else Some (with_ratings ratings default_usage)
  end.
Definition parse_unary (resp : GenerateContentResponse) (m : string) : CanonicalResponse :=
  let candidate := head (candidates resp) in
  let b := from_option candidate_to_blocks (set_blocks [] false None None) candidate in
  let wire_ratings := from_option candidate_ratings [] candidate in
  let canonical_ratings := wire_to_canonical_safety_ratings wire_ratings in
  {| cr_id := unary_id; cr_model := m;
     cr_content := attach_extensions (blocks b) wire_ratings (candidate ≫= citation_metadata);
     cr_stop_reason := map_finish_reason (candidate ≫= finish_reason) (called b);
     cr_stop_sequence := None;
     cr_usage := unary_usage (usage_metadata resp) canonical_ratings |}.

(** ** The unary response as a stream (mod.rs) *)
Definition block_to_events (index : Z) (block : ContentBlock) : list Event :=
  match block with
  | TextBlock t _ =>
      [ContentBlockStart index Text] ++ (if bool_decide (t = "") then [] else [TextDelta index t]) ++
      [ContentBlockStop index]
  | ReasoningBlock t _ =>
      [ContentBlockStart index Reasoning] ++ (if bool_decide (t = "") then [] else [ReasoningDelta index t]) ++
      [ContentBlockStop index]
  | ToolCallB tc =>
      [ContentBlockStart index ToolCall; ToolCallStart index (tc_id tc) (tc_name tc);
       ToolCallArgumentsDelta index (match arguments tc with Complete v => to_json_string v | Streaming d => d end);
       ToolCallStop index; ContentBlockStop index]
  | _ => []
  end.
Definition canonical_response_to_events (resp : CanonicalResponse) : list Event :=
  [ResponseStart response_id (cr_model resp) now_unix; MessageStart Assistant] ++
  mjoin (imap (λ i, block_to_events (as_u32 (Z.of_nat i))) (cr_content resp)) ++
  [MessageStop (cr_stop_reason resp) (cr_stop_sequence resp); ResponseStop (cr_usage resp)].
Context (from_slice : list byte → result GenerateContentResponse string).
Definition unary_bytes_to_canonical_stream (body : list byte) (m : string) : list Item :=
  match from_slice body with
  | Ok resp => Ok <$> canonical_response_to_events (parse_unary resp m)
  | Err e => [Err (DecodeError ("failed to decode Gemini unary response: " ++ e)%string)]
  end.


(** ** What a stream says

    The events around the content, and the content: the blocks in the order they
    were opened (the latest first), with what their deltas add up to.  A delta for
    any block but the latest is lost. *)
Inductive said := SaidText (t : string) | SaidReasoning (t : string) | SaidCall (call : option (string * string)) (a : string).
Record Digest := { frame : list Event; told : list (Z * said) }.
Definition extend (i : Z) (f : said → said) (l : list (Z * said)) : list (Z * said) :=
  match l with
  | (j, x) :: l' => if bool_decide (i = j) then (j, f x) :: l' else l
  | [] => []
  end.
Definition listen (d : Digest) (ev : Event) : Digest :=
  let tell l := {| frame := frame d; told := l |} in
  match ev with
  | ContentBlockStart i Text => tell ((i, SaidText "") :: told d)
  | ContentBlockStart i Reasoning => tell ((i, SaidReasoning "") :: told d)
  | ContentBlockStart i ToolCall => tell ((i, SaidCall None "") :: told d)
  | TextDelta i t =>
      tell (extend i (λ x, match x with SaidText u => SaidText (u ++ t) | _ => x end) (told d))
  | ReasoningDelta i t =>
      tell (extend i (λ x, match x with SaidReasoning u => SaidReasoning (u ++ t) | _ => x end) (told d))
  | ToolCallStart i call name =>
      tell (extend i (λ x, match x with SaidCall _ a => SaidCall (Some (call, name)) a | _ => x end) (told d))
  | ToolCallArgumentsDelta i a =>
      tell (extend i (λ x, match x with SaidCall c b => SaidCall c (b ++ a) | _ => x end) (told d))
  | ToolCallStop _ | ContentBlockStop _ => d
  | _ => {| frame := frame d ++ [ev]; told := told d |}
  end.
Definition digest (l : list Event) : Digest := foldl listen {| frame := []; told := [] |} l.

Lemma extend_head i x l f : extend i f ((i, x) :: l) = (i, f x) :: l.
Proof. simpl. by rewrite bool_decide_eq_true_2. Qed.
Definition heard (d : Digest) (ev : Event) : option Digest := Some (listen d ev).
Lemma monitor_heard l d : monitor heard d l = Some (foldl listen d l).
Proof. revert d. induction l as [|e l IH]; intros d; [done|]. simpl. apply IH. Qed.

(** What the blocks of a unary response say. *)
Definition block_said (b : ContentBlock) : option said :=
  match b with
  | TextBlock t _ => Some (SaidText t)
  | ReasoningBlock t _ => Some (SaidReasoning t)
  | ToolCallB tc =>
      Some (SaidCall (Some (tc_id tc, tc_name tc))
              (match arguments tc with Complete v => to_json_string v | Streaming d => d end))
  | _ => None
  end.
Definition blocks_told (l : list ContentBlock) : list (Z * said) :=
  rev (mjoin (imap (λ i b, option_list (pair (as_u32 (Z.of_nat i)) <$> block_said b)) l)).
Lemma listen_block i b d :
  foldl listen d (block_to_events i b) =
    {| frame := frame d; told := option_list (pair i <$> block_said b) ++ told d |}.
Proof.
  destruct b as [t e|s e|s e|s e|tc|tr|t e|t e|o r]; simpl; try (by destruct d).
  - case_bool_decide as Ht; simpl; [by subst|]. by rewrite bool_decide_eq_true_2.
  - do 2 (rewrite bool_decide_eq_true_2 by done; simpl). done.
  - case_bool_decide as Ht; simpl; [by subst|]. by rewrite bool_decide_eq_true_2.
Qed.
Lemma listen_blocks (f : nat → Z) l d :
  foldl listen d (mjoin (imap (λ i, block_to_events (f i)) l)) =
    {| frame := frame d;
       told := rev (mjoin (imap (λ i b, option_list (pair (f i) <$> block_said b)) l)) ++ told d |}.
Proof.
  revert f d. induction l as [|b l IH]; intros f d; csimpl; [by destruct d|].
  rewrite foldl_app, listen_block, (IH (λ i, f (S i))). simpl. f_equal.
  rewrite rev_app_distr, <- app_assoc. f_equal. by destruct (block_said b).
Qed.
Lemma blocks_told_snoc l b :
  blocks_told (l ++ [b]) = option_list (pair (as_u32 (Z.of_nat (length l))) <$> block_said b) ++ blocks_told l.
Proof.
  unfold blocks_told. rewrite imap_app, join_app, rev_app_distr. simpl. rewrite app_nil_r, Nat.add_0_r. f_equal.
  by destruct (block_said b).
Qed.
(** Extensions say nothing. *)
Lemma block_said_extension k v b : block_said (insert_extension k v b) = block_said b.
Proof. by destruct b. Qed.
Lemma blocks_told_attach l r c : blocks_told (attach_extensions l r c) = blocks_told l.
Proof.
  destruct l as [|b l]; [done|]. unfold blocks_told. simpl. do 2 f_equal. f_equal. f_equal.
  destruct c; rewrite ?block_said_extension; case_bool_decide; by rewrite ?block_said_extension.
Qed.
Lemma digest_unary resp :
  digest (canonical_response_to_events resp) =
    {| frame := [ResponseStart response_id (cr_model resp) now_unix; MessageStart Assistant;
                 MessageStop (cr_stop_reason resp) (cr_stop_sequence resp); ResponseStop (cr_usage resp)];
       told := blocks_told (cr_content resp) |}.
Proof.
  unfold digest, canonical_response_to_events. rewrite !foldl_app.
  rewrite (listen_blocks (λ i, as_u32 (Z.of_nat i))). simpl. by rewrite app_nil_r.
Qed.

(** ** The two parsers in lockstep *)
Section Agreement.
(** Serialising an empty object. *)
Context (empty_object : to_json_string (json_object []) = "{}").

(** Parts the streaming parser can say: all but images. *)
Definition spoken (p : Part) : Prop :=
  is_Some (function_call p) ∨ is_Some (text p) ∨ inline_data p = None ∧ file_data p = None.
#[local] Instance spoken_dec p : Decision (spoken p).
Proof. unfold spoken. apply _. Defined.

Definition keep (s : StreamState) := (model s, started s, stopped s, last_usage s, last_safety_ratings s).
Definition aligned (b : BlockState) (s : StreamState) (l : list (Z * said)) (n : nat) : Prop :=
  let i := Z.of_nat (length (blocks b)) in
  has_tool_call s = called b ∧
  match acc_text b, acc_reasoning b with
  | None, None =>
      open_block s = None ∧ next_block_index s = i ∧ l = blocks_told (blocks b) ∧ (i + Z.of_nat n ≤ u32_max)%Z
  | Some t, None =>
      open_block s = Some (OpenText i) ∧ next_block_index s = (i + 1)%Z ∧
      l = (i, SaidText t) :: blocks_told (blocks b) ∧ (i + 1 + Z.of_nat n ≤ u32_max)%Z
  | None, Some t =>
      open_block s = Some (OpenReasoning i) ∧ next_block_index s = (i + 1)%Z ∧
      l = (i, SaidReasoning t) :: blocks_told (blocks b) ∧ (i + 1 + Z.of_nat n ≤ u32_max)%Z
  | Some _, Some _ => False
  end.
(** [m] brings the parser in line with [b], and touches nothing else. *)
Definition aligns (m : M unit) (b : BlockState) (n : nat) (s : StreamState) (g : Digest) : Prop :=
  wp heard m (λ _ s' g', aligned b s' (told g') n ∧ keep s' = keep s ∧ frame g' = frame g) s g.
Lemma aligns_bind m1 m2 b1 b2 n s g k :
  aligns m1 b1 k s g → (∀ s g, aligned b1 s (told g) k → aligns m2 b2 n s g) → aligns (m1;; m2) b2 n s g.
Proof.
  intros H1 H2. apply wp_bind. eapply wp_mono; [exact H1|]. intros [] s1 g1 (Ha & Hk & Hf).
  eapply wp_mono; [by apply H2|]. intros [] s2 g2 (Ha2 & Hk2 & Hf2). by rewrite Hk2, Hf2.
Qed.
Lemma aligned_weaken b s l n k : aligned b s l n → (k ≤ n)%nat → aligned b s l k.
Proof. unfold aligned. destruct (acc_text b), (acc_reasoning b); naive_solver lia. Qed.

Lemma index_u32 (n : nat) : (Z.of_nat n ≤ u32_max)%Z → as_u32 (Z.of_nat n) = Z.of_nat n.
Proof. intros. apply wrap32_small. unfold is_u32. lia. Qed.
(** Run a program on an aligned state and compare the fields. *)
Ltac align :=
  repeat (wp_steps; try (eapply wp_push; [reflexivity|]));
  unfold aligned, flush, flush_text, flush_reasoning in *; simpl in *;
  repeat match goal with
  | E : acc_text _ = _ |- _ => rewrite E in *
  | E : acc_reasoning _ = _ |- _ => rewrite E in *
  end; simpl;
  rewrite ?app_nil_r, ?length_app, ?blocks_told_snoc, ?index_u32 by lia; simpl;
  repeat match goal with
  | E : next_block_index _ = _ |- _ => rewrite E in *; clear E
  | E : told _ = _ |- _ => rewrite E in *; clear E
  end;
  rewrite ?u32_add_small by (unfold is_u32; lia); rewrite ?extend_head;
  split_and!; try done; try lia; try (repeat f_equal; lia).
Lemma aligns_close b s g n : aligned b s (told g) n → aligns close_open_block (flush b) n s g.
Proof.
  unfold aligned, aligns, close_open_block. intros [Hc H]. apply wp_bind, wp_gets.
  destruct (acc_text b) as [t|] eqn:Et, (acc_reasoning b) as [r|] eqn:Er; try done;
    destruct H as (Ho & Hn & Hl & Hb); rewrite Ho; align.
Qed.

(** Opening a text or reasoning run. *)
Definition in_text (b : BlockState) : BlockState :=
  let b := flush_reasoning b in set_blocks (blocks b) (called b) (Some (default "" (acc_text b))) (acc_reasoning b).
Definition in_reasoning (b : BlockState) : BlockState :=
  let b := flush_text b in set_blocks (blocks b) (called b) (acc_text b) (Some (default "" (acc_reasoning b))).
Lemma aligns_text_block b s g n : aligned b s (told g) (S n) → aligns ensure_text_block (in_text b) n s g.
Proof.
  unfold aligned, aligns, ensure_text_block, close_open_block, open_text_block, alloc_index, in_text. intros [Hc H].
  apply wp_bind, wp_gets.
  destruct (acc_text b) as [t|] eqn:Et, (acc_reasoning b) as [r|] eqn:Er; try done;
    destruct H as (Ho & Hn & Hl & Hb); rewrite Ho; wp_steps; rewrite ?Ho; align.
Qed.
Lemma aligns_reasoning_block b s g n :
  aligned b s (told g) (S n) → aligns ensure_reasoning_block (in_reasoning b) n s g.
Proof.
  unfold aligned, aligns, ensure_reasoning_block, close_open_block, open_reasoning_block, alloc_index, in_reasoning.
  intros [Hc H]. apply wp_bind, wp_gets.
  destruct (acc_text b) as [t|] eqn:Et, (acc_reasoning b) as [r|] eqn:Er; try done;
    destruct H as (Ho & Hn & Hl & Hb); rewrite Ho; wp_steps; rewrite ?Ho; align.
Qed.
Lemma aligns_tool_call b fc s g n :
  acc_text b = None → acc_reasoning b = None → aligned b s (told g) (S n) →
  aligns (emit_tool_call fc)
    (set_blocks (blocks b ++ [call_block (next_index b) fc]) true (acc_text b) (acc_reasoning b)) n s g.
Proof.
  unfold aligned, aligns, emit_tool_call, alloc_index, call_block, next_index. intros Et Er [Hc H].
  rewrite Et, Er in *. destruct H as (Ho & Hn & Hl & Hb).
  align. repeat (rewrite bool_decide_eq_true_2 by done; simpl). destruct (args fc); simpl; by rewrite ?empty_object.
Qed.

(** A part of the message. *)
Lemma aligns_part b p s g n :
  spoken p → aligned b s (told g) (S n) → aligns (handle_part p) (block_part b p) n s g.
Proof.
  intros Hp H. unfold handle_part, block_part. destruct (function_call p) as [fc|] eqn:Ef.
  { eapply aligns_bind; [by apply aligns_close|]. intros. by apply aligns_tool_call. }
  destruct (text p) as [t|] eqn:Et.
  - destruct (is_thought p).
    + eapply aligns_bind; [by apply aligns_reasoning_block|]. clear s g H. intros s g [Hc H]. unfold aligns.
      simpl in H. destruct H as (Ho & Hn & Hl & Hb).
      apply wp_bind, wp_gets. rewrite Ho. eapply wp_push; [reflexivity|].
      split; [|done]. split; [done|]. simpl. by rewrite Hl, extend_head.
    + eapply aligns_bind; [by apply aligns_text_block|]. clear s g H. intros s g [Hc H]. unfold aligns.
      simpl in H. destruct H as (Ho & Hn & Hl & Hb).
      apply wp_bind, wp_gets. rewrite Ho. eapply wp_push; [reflexivity|].
      split; [|done]. split; [done|]. simpl. by rewrite Hl, extend_head.
  - destruct Hp as [[? ?]|[[? ?]|[-> ->]]]; [congruence..|]. apply wp_ret. split; [|done].
    eapply aligned_weaken; [done|lia].
Qed.
Lemma aligns_silent b p s g n :
  ¬ spoken p → aligned b s (told g) (S n) → aligns (handle_part p) b n s g.
Proof.
  unfold spoken. intros Hp H. unfold handle_part.
  destruct (function_call p); [destruct Hp; left; by eexists|]. destruct (text p); [destruct Hp; right; left; by eexists|].
  apply wp_ret. split; [|done]. eapply aligned_weaken; [done|lia].
Qed.
Lemma aligns_parts b l s g n :
  aligned b s (told g) (length l + n) → aligns (for_each l handle_part) (foldl block_part b (filter spoken l)) n s g.
Proof.
  revert b s g. induction l as [|p l IH]; intros b s g H; [by apply wp_ret; split|].
  cbn [length Nat.add] in H. cbn [for_each]. rewrite filter_cons. destruct (decide (spoken p)) as [Hp|Hp].
  - eapply aligns_bind; [apply aligns_part; [done|exact H]|]. intros s1 g1 H1. by apply IH.
  - eapply aligns_bind; [apply aligns_silent; [done|exact H]|]. intros s1 g1 H1. by apply IH.
Qed.

(** ** Chunks and their sum *)
Definition finishing (resp : GenerateContentResponse) : option string := head (candidates resp) ≫= finish_reason.
Definition ratings_of (resp : GenerateContentResponse) : option (list WireRating) :=
  head (candidates resp) ≫= λ c, if bool_decide (candidate_ratings c = []) then None else Some (candidate_ratings c).
(** What the parser reads: up to the first object that finishes. *)
Fixpoint until_finish (l : list GenerateContentResponse) : list GenerateContentResponse :=
  match l with
  | [] => []
  | resp :: l' => resp :: match finishing resp with Some _ => [] | None => until_finish l' end
  end.
Definition later {A} (old new : option A) : option A := match new with Some _ => new | None => old end.
(** The one response that says what the chunks say: their parts (but images) in
    one candidate, the last reported usage and ratings, the first finish reason. *)
Definition merged (l : list GenerateContentResponse) : GenerateContentResponse :=
  let k := until_finish l in
  {| candidates := [
       {| candidate_content := {| content_role := "model"; parts := filter spoken (k ≫= parts_of) |};
          finish_reason := head (omap finishing l);
          candidate_ratings := default [] (foldl later None (ratings_of <$> k));
          candidate_index := None; citation_metadata := None |}];
     prompt_feedback := None;
     usage_metadata := foldl later None (usage_metadata <$> k) |}.

Definition final_usage (u : option UsageMetadata) (r : option (list SafetyRating)) : option Usage :=
  match usage_metadata_to_usage <$> u, r with
  | Some u, Some r => Some (with_ratings r u)
  | Some u, None => Some u
  | None, Some r => Some (with_ratings r default_usage)
  | None, None => None
  end.
Definition canonical_ratings (r : option (list WireRating)) : option (list SafetyRating) :=
  wire_to_canonical_safety_ratings <$> r.
Definition opening (m : string) : list Event := [ResponseStart response_id m now_unix; MessageStart Assistant].
Definition closing (reason : option string) (b : BlockState) u r : list Event :=
  [MessageStop (map_finish_reason reason (called b)) None; ResponseStop (final_usage u (canonical_ratings r))].

(** In the middle of a response. *)
Definition tracks (m : string) (b : BlockState) (n : nat) u r s g : Prop :=
  aligned b s (told g) n ∧ keep s = (m, true, false, u, canonical_ratings r) ∧ frame g = opening m.
Definition closed (m : string) (b : BlockState) reason u r s g : Prop :=
  stopped s = true ∧ frame g = opening m ++ closing reason b u r ∧ told g = blocks_told (blocks (flush b)).

Ltac kept := unfold keep in *; simpl in *; congruence.
Lemma tracks_closed m b n u r s g :
  tracks m b n u r s g → wp heard close_open_block (λ _ s' g', tracks m (flush b) n u r s' g') s g.
Proof.
  intros (Ha & Hk & Hf). eapply wp_mono; [by apply aligns_close|]. intros [] s1 g1 (Ha1 & Hk1 & Hf1).
  split_and!; [done|congruence..].
Qed.
Lemma tracks_stop m b n u r s g (reason : option string) sr :
  tracks m (flush b) n u r s g → sr = map_finish_reason reason (called b) →
  wp heard (stop sr) (λ _ s' g', closed m b reason u r s' g') s g.
Proof.
  intros ([_ (_ & _ & Ht & _)] & Hk & Hf) ->.
  unfold stop, take_final_usage. wp_steps. eapply wp_push; [reflexivity|]. wp_steps. eapply wp_push; [reflexivity|].
  unfold closed, closing, final_usage; simpl. rewrite Hf, Ht. split_and!; try done.
  rewrite <- app_assoc. simpl. do 4 f_equal.
  assert (last_usage s = u) as -> by kept. by assert (last_safety_ratings s = canonical_ratings r) as -> by kept.
Qed.

(** One object. *)
Definition after (b : BlockState) (resp : GenerateContentResponse) : BlockState :=
  foldl block_part b (filter spoken (parts_of resp)).
Definition before (m : string) (n : nat) s g : Prop :=
  s = new_state m ∧ g = {| frame := []; told := [] |} ∧ (Z.of_nat n ≤ u32_max)%Z.
Definition nothing_yet : BlockState := set_blocks [] false None None.
Lemma starts m n s g :
  before m n s g → wp heard start_once (λ _ s' g', tracks m nothing_yet n None None s' g') s g.
Proof.
  intros (-> & -> & Hn). unfold start_once. wp_steps. eapply wp_push; [reflexivity|]. wp_steps.
  eapply wp_push; [reflexivity|]. by split_and!.
Qed.
Lemma tracks_started m b n u r s g :
  tracks m b n u r s g → wp heard start_once (λ _ s' g', tracks m b n u r s' g') s g.
Proof.
  intros H. pose proof H as (_ & Hk & _). unfold keep in Hk. unfold start_once. apply wp_bind, wp_gets.
  replace (started s) with true by kept. by apply wp_ret.
Qed.
Lemma tracks_usage m b n u r s g new :
  tracks m b n u r s g → wp heard (capture_usage new) (λ _ s' g', tracks m b n (later u new) r s' g') s g.
Proof.
  intros (Ha & Hk & Hf). unfold capture_usage. destruct new; [|by apply wp_ret]. apply wp_modify.
  split_and!; [done|kept|done].
Qed.
Lemma tracks_handle m b n u r s g resp :
  tracks m b (length (parts_of resp) + n) u r s g →
  wp heard (capture_usage (usage_metadata resp);;
            match candidates resp with [] => mret tt | c :: _ => handle_candidate c end)
    (λ _ s' g', let u' := later u (usage_metadata resp) in let r' := later r (ratings_of resp) in
       match finishing resp with
       | Some reason => closed m (after b resp) (Some reason) u' r' s' g'
       | None => tracks m (after b resp) n u' r' s' g'
       end) s g.
Proof.
  intros H. apply wp_bind. eapply wp_mono; [by apply tracks_usage|]. clear s g H. intros [] s g H.
  unfold finishing, ratings_of, after, parts_of in *. destruct (candidates resp) as [|c l]; [by apply wp_ret|].
  simpl in *. unfold handle_candidate. apply wp_bind.
  set (u' := later u _) in *. set (r' := later r _).
  apply (wp_mono _ _ (λ _ s' g', tracks m b (length (parts (candidate_content c)) + n) u' r' s' g')).
  { destruct H as (Ha & Hk & Hf). apply wp_when; intros Hr.
    - apply wp_modify. split_and!; [done| |done]. unfold r'. apply negb_true_iff in Hr. rewrite Hr. kept.
    - unfold r'. apply negb_false_iff in Hr. rewrite Hr. by split_and!. }
  clear s g H. intros [] s g (Ha & Hk & Hf). apply wp_bind. eapply wp_mono; [by apply aligns_parts|].
  intros [] s1 g1 (Ha1 & Hk1 & Hf1).
  assert (tracks m (foldl block_part b (filter spoken (parts (candidate_content c)))) n u' r' s1 g1) as H
    by (split_and!; [done|congruence|congruence]).
  destruct (finish_reason c) as [reason|]; [|by apply wp_ret].
  apply wp_bind. eapply wp_mono; [by apply tracks_closed|]. intros [] s2 g2 H2. apply wp_bind, wp_gets.
  eapply tracks_stop; [exact H2|]. by destruct H2 as [[-> _] _].
Qed.

(** All of them: what is left adds up to [t]. *)
Definition total : Type := BlockState * option UsageMetadata * option (list WireRating) * option string.
Definition sum (l : list GenerateContentResponse) (b : BlockState) u r : total :=
  let k := until_finish l in
  (foldl block_part b (filter spoken (k ≫= parts_of)), foldl later u (usage_metadata <$> k),
   foldl later r (ratings_of <$> k), head (omap finishing l)).
Lemma sum_cons resp l b u r :
  sum (resp :: l) b u r =
    let u := later u (usage_metadata resp) in let r := later r (ratings_of resp) in
    match finishing resp with
    | Some reason => (after b resp, u, r, Some reason)
    | None => sum l (after b resp) u r
    end.
Proof.
  unfold sum, after. cbn [until_finish]. rewrite bind_cons, !fmap_cons, filter_app, foldl_app. csimpl.
  by destruct (finishing resp).
Qed.
Definition done_with (m : string) (t : total) s g : Prop :=
  let '(b, u, r, reason) := t in closed m b reason u r s g.
Definition on_track (m : string) (t : total) (l : list GenerateContentResponse) s g : Prop :=
  done_with m t s g ∨ ∃ b u r, tracks m b (length (l ≫= parts_of)) u r s g ∧ sum l b u r = t.
Lemma track_object m t resp l s g :
  on_track m t (resp :: l) s g → wp heard (handle resp) (λ _ s' g', on_track m t l s' g') s g.
Proof.
  intros [H|(b & u & r & H & Hs)]; unfold handle; apply wp_bind, wp_gets.
  - pose proof H as Hd. destruct t as [[[? ?] ?] ?]. destruct Hd as [-> _]. apply wp_ret. by left.
  - rewrite bind_cons, length_app in H. pose proof H as (_ & Hk & _). replace (stopped s) with false by kept.
    apply wp_bind. eapply wp_mono; [by apply tracks_started|]. clear s g H Hk. intros [] s g H.
    eapply wp_mono; [by apply tracks_handle|]. clear s g H. intros [] s g H. rewrite sum_cons in Hs. simpl in *.
    destruct (finishing resp); [left; by subst t|right; eauto 10].
Qed.
Lemma track_first m resp l s g :
  before m (length ((resp :: l) ≫= parts_of)) s g →
  wp heard (handle resp) (λ _ s' g', on_track m (sum (resp :: l) nothing_yet None None) l s' g') s g.
Proof.
  intros H. pose proof H as (-> & _ & _). unfold handle. apply wp_bind, wp_gets. simpl. apply wp_bind.
  eapply wp_mono; [by apply starts|]. clear g H. intros [] s g H.
  rewrite bind_cons, length_app in H.
  eapply wp_mono; [by apply tracks_handle|]. clear s g H. intros [] s g H. rewrite sum_cons. simpl in *.
  destruct (finishing resp); [by left|right; eauto 10].
Qed.
Lemma track_eof m t s g : on_track m t [] s g → wp heard finalize (λ _ s' g', done_with m t s' g') s g.
Proof.
  intros [H|(b & u & r & H & <-)]; unfold finalize; apply wp_bind, wp_gets.
  - pose proof H as Hd. destruct t as [[[? ?] ?] ?]. destruct Hd as [-> _]. rewrite orb_true_r. by apply wp_ret.
  - pose proof H as ([Hc _] & Hk & _). replace (stopped s) with false by kept. replace (started s) with true by kept.
    simpl. apply wp_bind. eapply wp_mono; [by apply tracks_closed|]. intros [] s' g' H'.
    rewrite Hc. eapply (tracks_stop _ b _ _ _ _ _ None); [exact H'|]. by destruct (called b).
Qed.
Lemma unary_usage_final u r :
  r ≠ Some [] → unary_usage u (wire_to_canonical_safety_ratings (default [] r)) = final_usage u (canonical_ratings r).
Proof. intros H. unfold unary_usage, final_usage. by destruct r as [[|x r]|], u. Qed.
Lemma ratings_nonempty l r : r ≠ Some [] → foldl later r (ratings_of <$> l) ≠ Some [].
Proof.
  revert r. induction l as [|resp l IH]; intros r H; [done|]. csimpl. apply IH.
  unfold ratings_of. destruct (head (candidates resp)) as [c|]; simpl; [|done].
  case_bool_decide; [done|]. simpl. congruence.
Qed.

Lemma program_digest k m :
  k ≠ [] → (Z.of_nat (length (k ≫= parts_of)) ≤ u32_max)%Z →
  digest (emitted (program k) (new_state m)) = digest (canonical_response_to_events (parse_unary (merged k) m)).
Proof.
  rewrite digest_unary. intros Hne Hn.
  destruct k as [|resp k'] eqn:Ek; [done|]. rewrite <- Ek in *.
  assert (wp heard (program k) (λ _ s' g', done_with m (sum k nothing_yet None None) s' g')
            (new_state m) {| frame := []; told := [] |}) as Hwp.
  { unfold program. rewrite Ek in *. simpl for_each. apply wp_bind. apply wp_bind.
    eapply wp_mono; [by apply track_first; split_and!|]. intros [] s g H.
    eapply wp_mono; [by apply (wp_for_each _ _ _ (on_track m (sum (resp :: k') nothing_yet None None)));
                       [exact H|intros; by apply track_object]|].
    intros [] s' g' H'. by apply track_eof. }
  destruct (wp_elim _ _ _ _ _ Hwp) as (d & Hd & Hdone). rewrite monitor_heard in Hd. injection Hd as <-.
  fold (digest (emitted (program k) (new_state m))) in Hdone.
  unfold sum in Hdone. destruct Hdone as (_ & Hf & Ht).
  destruct (digest _) as [fr tl]. simpl in *. subst fr tl.
  unfold parse_unary. cbn [merged candidates head from_option candidate_content candidate_ratings cr_content cr_model
    cr_stop_reason cr_stop_sequence cr_usage usage_metadata mbind option_bind finish_reason citation_metadata].
  rewrite blocks_told_attach, unary_usage_final by (by apply ratings_nonempty). reflexivity.
Qed.

(** C16: a Gemini stream says what the unary answer would say.  However the upstream
    cuts its answer into objects (parts, usage, ratings and the finish reason in
    one or in many, anything after the finish reason ignored), whatever errors
    come in between: the canonical events have the same start, the same blocks
    under the same indices with the same text, reasoning, calls, identifiers and
    arguments, the same stop reason and the same usage as the events of
    [parse_unary] on the merged response; only images are not streamed. *)
Theorem gemini_stream_is_unary l m :
  oks l ≠ [] → (Z.of_nat (length (oks l ≫= parts_of)) ≤ u32_max)%Z →
  digest (oks (parse_streaming l m)) = digest (canonical_response_to_events (parse_unary (merged (oks l)) m)).
Proof. rewrite parse_streaming_program. apply program_digest. Qed.
End Agreement.
End Parser.

(** ** A turn in three objects *)
Module Samples.
Section Objects.
Context `{J : JsonApi}.
Definition fresh_ids (i : Z) : string := if bool_decide (i = 2%Z) then "call_2" else "call".
Definition text_part (t : string) : Part := {|
  text := Some t; thought := None; inline_data := None; file_data := None;
  function_call := None; function_response := None |}.
Definition thought_part (t : string) : Part := {|
  text := Some t; thought := Some true; inline_data := None; file_data := None;
  function_call := None; function_response := None |}.
Definition call_part (name : string) : Part := {|
  text := None; thought := None; inline_data := None; file_data := None;
  function_call := Some {| fc_name := name; args := None; fc_id := None |}; function_response := None |}.
Definition candidate_of (l : list Part) (reason : option string) (ratings : list WireRating) : Candidate := {|
  candidate_content := {| content_role := "model"; parts := l |}; finish_reason := reason;
  candidate_ratings := ratings; candidate_index := None; citation_metadata := None |}.
Definition response_of (c : list Candidate) (u : option UsageMetadata) : GenerateContentResponse := {|
  candidates := c; prompt_feedback := None; usage_metadata := u |}.
Definition counts (a b : Z) : option UsageMetadata := Some {|
  prompt_token_count := Some a; candidates_token_count := Some b; total_token_count := None;
  thoughts_token_count := None |}.
Definition low_risk : WireRating := {|
  wire_category := "HARM_CATEGORY_HARASSMENT"; wire_probability := "LOW"; blocked := None |}.
Definition turn : list (result GenerateContentResponse StreamError) :=
  [Ok (response_of [candidate_of [thought_part "Let me "; thought_part "look."; text_part "Su"] None [low_risk]] (counts 7 1));
   Err (UpstreamError "reset");
   Ok (response_of [candidate_of [text_part "re."; call_part "weather"] (Some "STOP") []] (counts 7 9));
   Ok (response_of [candidate_of [text_part "ignored"] (Some "STOP") []] None)].
Definition events : list StreamEvent := oks (parse_streaming "resp" 0 fresh_ids turn "gemini").

Example turn_events :
  events =
    [ResponseStart "resp" "gemini" 0; MessageStart Assistant;
     ContentBlockStart 0 Reasoning; ReasoningDelta 0 "Let me "; ReasoningDelta 0 "look."; ContentBlockStop 0;
     ContentBlockStart 1 Text; TextDelta 1 "Su"; TextDelta 1 "re."; ContentBlockStop 1;
     ContentBlockStart 2 ToolCall; ToolCallStart 2 "call_2" "weather"; ToolCallArgumentsDelta 2 "{}";
     ToolCallStop 2; ContentBlockStop 2;
     MessageStop ToolUse None;
     ResponseStop (Some {| input_tokens := Some 7%Z; output_tokens := Some 9%Z; cache_creation_input_tokens := None;
       cache_read_input_tokens := None; reasoning_tokens := None; estimated := false; provider_raw := None;
       safety_ratings := Some [{| category := Harassment; probability := CoreTypes.Low |}] |})].
Proof. vm_compute. reflexivity. Qed.
(** A blocked prompt: no candidate, only [promptFeedback].  The documentation wants
    a raw provider event; the client sees an empty, ordinary turn. *)
Definition blocked_prompt : GenerateContentResponse := {|
  candidates := []; prompt_feedback := Some {| block_reason := Some "SAFETY"; feedback_ratings := [low_risk] |};
  usage_metadata := None |}.
Example blocked_prompt_is_end_turn :
  parse_streaming "resp" 0 fresh_ids [Ok blocked_prompt] "gemini" =
    Ok <$> [ResponseStart "resp" "gemini" 0; MessageStart Assistant; MessageStop EndTurn None; ResponseStop None].
Proof. vm_compute. reflexivity. Qed.
End Objects.

#[local] Instance sample_json : JsonApi := TreeJson [].
Lemma gemini_stream_lifecycle_witness :
  assert_canonical_lifecycle events = Ok tt ∧
  parse_streaming "resp" 0 fresh_ids turn "gemini" ≫= errors = [UpstreamError "reset"].
Proof.
  destruct (gemini_stream_lifecycle "resp" 0 fresh_ids turn "gemini") as (H1 & H2 & _); [vm_compute; discriminate|].
  by split.
Defined.
Lemma gemini_stream_is_unary_witness :
  digest events =
    digest (canonical_response_to_events "resp" 0
      (parse_unary fresh_ids "unary" (λ _, Err tt) (λ _, TNull) (merged (oks turn)) "gemini")).
Proof. apply gemini_stream_is_unary; [done|discriminate|vm_compute; discriminate]. Defined.

(** Only [STOP] is documented to be upgraded to [ToolUse]; a call that was cut off
    by the token limit is reported as a complete tool turn. *)
Example cut_call_is_tool_use : map_finish_reason (Some "MAX_TOKENS") true = ToolUse.
Proof. done. Qed.
(** Other reasons are documented to be [EndTurn]. *)
Example other_reason_is_kept : map_finish_reason (Some "PROHIBITED_CONTENT") false = OtherReason "PROHIBITED_CONTENT".
Proof. vm_compute. reflexivity. Qed.
(** A token count that does not fit 32 bits loses its high bits. *)
Example large_count_wraps : token_count 4294967297 = 1%Z.
Proof. reflexivity. Qed.
End Samples.
