(* ===== verification/GeminiProvider.v ===== *)
(** * The Gemini provider
    (crates/providers/src/gemini/request.rs, endpoint.rs and mod.rs)

    Building the request body, choosing the endpoint, and turning the answer into
    a canonical stream.  The HTTP client, serde_json and base64 are parameters. *)
From stdpp Require Import gmultiset.
From S2P Require Import Prelude Text Float64 Json CoreTypes Emit Lifecycle Fallback Request ModelIndex Conversation UnaryPath GeminiWire GeminiScan Http GeminiParse.
#[local] Open Scope string_scope.
#[local] Open Scope list_scope.
#[local] Open Scope nat_scope.

(** ** Endpoints *)
Definition streaming_url (base_url model : string) : string :=
  trim_end_slashes base_url ++ "/models/" ++ model ++ ":streamGenerateContent".
Definition unary_url (base_url model : string) : string :=
  trim_end_slashes base_url ++ "/models/" ++ model ++ ":generateContent".
Definition models_url (base_url : string) : string := trim_end_slashes base_url ++ "/v1beta/models".

Definition effort_to_budget (e : ReasoningEffort) : Z :=
  match e with
  | Minimal => 128 | Request.Low => 256 | Request.Medium => 1024 | Request.High => 4096
  | Xhigh => 16384 | Max => 24576
  end.

Section Build.
Context `{J : JsonApi} `{V : !JsonValues J}.
Context (b64_encode : string → string) (is_object : value → bool).

(** ** Contents *)
Definition text_only (t : string) : Part := {|
  text := Some t; thought := None; inline_data := None; file_data := None;
  function_call := None; function_response := None |}.
Definition inline_part (media_type data : string) : Part := {|
  text := None; thought := None;
  inline_data := Some {| mime_type := media_type; inline_bytes := b64_encode data |};
  file_data := None; function_call := None; function_response := None |}.
Definition file_part (uri : string) : Part := {|
  text := None; thought := None; inline_data := None;
  file_data := Some {| file_mime_type := ""; file_uri := uri |};
  function_call := None; function_response := None |}.
Definition binary_to_part (source : BinarySource) : option Part :=
  match source with
  | Base64 media_type data => Some (inline_part media_type data)
  | Bytes media_type data => Some (inline_part media_type data)
  | Url url => Some (file_part url)
  | ProviderFileId file_id => Some (file_part file_id)
  end.
Definition wrap_tool_result_content (content : value) : value :=
  if is_object content then content else json_object [("content", content)].

Definition note_call (by_id : gmap string string) (b : ContentBlock) : gmap string string :=
  match b with ToolCallB tc => <[tc_id tc := tc_name tc]> by_id | _ => by_id end.
Definition collect_tool_call_names (req : CanonicalRequest) : gmap string string :=
  foldl note_call ∅ (messages req ≫= content).
Definition call_args (a : ToolCallArguments) : option value :=
  match a with Complete v => Some v | Streaming data => result_ok (from_str data) end.
Definition block_to_part (names : gmap string string) (block : ContentBlock) : option Part :=
  match block with
  | TextBlock t _ => Some (text_only t)
  | ReasoningBlock t _ => Some {|
      text := Some t; thought := Some true; inline_data := None; file_data := None;
      function_call := None; function_response := None |}
  | ImageBlock s _ | AudioBlock s _ | FileBlock s _ => binary_to_part s
  | ToolCallB tc => Some {|
      text := None; thought := None; inline_data := None; file_data := None;
      function_call := Some {| fc_name := tc_name tc; args := call_args (arguments tc); fc_id := None |};
      function_response := None |}
  | ToolResultB tr => Some {|
      text := None; thought := None; inline_data := None; file_data := None; function_call := None;
      function_response := Some {|
        fr_name := default (tool_call_id tr) (names !! tool_call_id tr);
        fr_response := wrap_tool_result_content (tr_content tr); fr_id := None |} |}
  | RedactedReasoningBlock _ _ | UnsupportedBlock _ _ => None
  end.
Definition gemini_role (r : MessageRole) : option string :=
  match r with
  | User => Some "user" | Assistant => Some "model" | Tool => Some "function" | System => None
  end.
Definition build_content (names : gmap string string) (msg : Message) : option Content :=
  role ← gemini_role (role msg);
  match omap (block_to_part names) (content msg) with
  | [] => None
  | parts => Some {| content_role := role; parts := parts |}
  end.
Definition build_contents (req : CanonicalRequest) (names : gmap string string) : list Content :=
  omap (build_content names) (messages req).

Definition text_part_of (b : ContentBlock) : option Part :=
  match b with TextBlock t _ => Some (text_only t) | _ => None end.
Definition build_system_instruction (req : CanonicalRequest) : option Content :=
  match omap text_part_of (system req ≫= si_content) ++
        (messages req ≫= λ msg, if bool_decide (role msg = System) then omap text_part_of (content msg) else []) with
  | [] => None
  | parts => Some {| content_role := "user"; parts := parts |}
  end.

(** ** Tools and generation *)
Definition build_tools (req : CanonicalRequest) : option (list ToolWrapper) :=
  match tools req with
  | [] => None
  | l => Some [{| function_declarations :=
                    (λ t, {| fd_name := tool_name t; fd_description := description t;
                             parameters := Some (input_schema t) |}) <$> l |}]
  end.
Definition thinking_config (req : CanonicalRequest) : option ThinkingConfig :=
  match Request.reasoning_budget_tokens (resolved_policy req), Request.reasoning_effort (resolved_policy req) with
  | Some b, _ => Some {| thinking_budget := Some b; include_thoughts := Some true |}
  | None, Some e => Some {| thinking_budget := Some (effort_to_budget e); include_thoughts := Some true |}
  | None, None => None
  end.
Definition response_settings (f : option ResponseFormat) : option string * option value :=
  match f with
  | None | Some FormatText => (None, None)
  | Some FormatJsonObject => (Some "application/json", None)
  | Some (FormatJsonSchema _ schema _) => (Some "application/json", Some schema)
  end.
Definition is_some {A} (o : option A) : bool := bool_decide (is_Some o).
Definition build_generation_config (req : CanonicalRequest) : option GenerationConfig :=
  let g := generation req in
  let '(mime, schema) := response_settings (response_format req) in
  let stops := match stop_sequences g with [] => None | l => Some l end in
  let thinking := thinking_config req in
  if is_some (max_tokens g) || is_some (temperature g) || is_some (top_p g) || is_some (top_k g) ||
     is_some stops || is_some mime || is_some schema || is_some thinking
  then Some {| gc_temperature := temperature g; gc_top_p := top_p g; gc_top_k := top_k g;
               max_output_tokens := max_tokens g; gc_stop_sequences := stops;
               response_mime_type := mime; response_schema := schema; gc_thinking_config := thinking |}
  else None.
Definition build (req : CanonicalRequest) (_ : BackendTarget) : GenerateContentRequest := {|
  contents := build_contents req (collect_tool_call_names req);
  system_instruction := build_system_instruction req;
  gemini_tools := build_tools req;
  generation_config := build_generation_config req;
  safety_settings := None |}.

(** ** Tool calls, by name

    Gemini knows no call identifiers: a result names the function it answers.  The
    discipline of [Conversation.talk_check] on its wire, with the names of the open
    calls, each as often as it is open. *)
Definition answer_name (open : gmultiset string) (n : string) : option (gmultiset string) :=
  if bool_decide (n ∈ open) then Some (open ∖ {[+ n +]}) else None.
Definition part_call (p : Part) : option string := fc_name <$> function_call p.
Definition part_reply (p : Part) : option string := fr_name <$> function_response p.
Definition part_plain (p : Part) : bool := negb (is_some (function_call p)) && negb (is_some (function_response p)).
Definition gemini_check (open : gmultiset string) (c : Content) : option (gmultiset string) :=
  match omap part_reply (parts c) with
  | [] => if bool_decide (open = ∅) then Some (list_to_set_disj (omap part_call (parts c))) else None
  | names =>
      steps answer_name open names ≫= λ open',
      if bool_decide (omap part_call (parts c) = []) && (bool_decide (open' = ∅) || negb (existsb part_plain (parts c)))
      then Some open' else None
  end.
(** The names of a set of calls. *)
Definition names_of (names : gmap string string) (open : gset string) : gmultiset string :=
  list_to_set_disj ((λ i, default i (names !! i)) <$> elements open).
(** Identifiers are used once. *)
Definition call_ids (req : CanonicalRequest) : list string := omap Conversation.call_id (messages req ≫= content).
Definition tool_free (m : Message) : Prop := omap Conversation.call_id (content m) = [] ∧ omap reply_id (content m) = [].

Lemma names_of_empty names : names_of names (∅ : gset string) = ∅.
Proof. unfold names_of. by rewrite elements_empty. Qed.
Lemma names_of_take names open i :
  i ∈ open → names_of names open = {[+ default i (names !! i) +]} ⊎ names_of names (open ∖ {[i]}).
Proof.
  intros H. unfold names_of. rewrite (union_difference_singleton_L i open) at 1 by done.
  assert (elements ({[i]} ∪ open ∖ {[i]}) ≡ₚ i :: elements (open ∖ {[i]})) as Hp
    by (apply elements_union_singleton; set_solver).
  by rewrite Hp.
Qed.
Lemma names_of_list names l :
  NoDup l → names_of names (list_to_set l) = list_to_set_disj ((λ i, default i (names !! i)) <$> l).
Proof.
  intros H. unfold names_of. apply list_to_set_disj_perm, fmap_Permutation. by apply elements_list_to_set.
Qed.
Lemma answers_by_name names l open open' :
  steps answer_one open l = Some open' →
  steps answer_name (names_of names open) ((λ i, default i (names !! i)) <$> l) = Some (names_of names open').
Proof.
  revert open. induction l as [|i l IH]; intros open; simpl; [by intros [= <-]|].
  destruct (answer_one open i) as [o|] eqn:Ho; [|done]. simpl. intros H.
  unfold answer_one in Ho. case_bool_decide as Hi; [|done]. injection Ho as <-.
  assert (answer_name (names_of names open) (default i (names !! i)) = Some (names_of names (open ∖ {[i]}))) as ->.
  { unfold answer_name. rewrite (names_of_take names open i Hi), bool_decide_eq_true_2 by (clear; multiset_solver).
    f_equal. clear. multiset_solver. }
  by apply IH.
Qed.

(** The table gives every call its name. *)
Lemma names_fold l names i n :
  i ∉ omap Conversation.call_id l → names !! i = Some n →
  foldl note_call names l !! i = Some n.
Proof.
  revert names. induction l as [|b l IH]; intros names; [done|]. csimpl.
  destruct b; simpl; try apply IH. intros [? ?]%not_elem_of_cons Hn. apply IH; [done|]. by rewrite lookup_insert_ne.
Qed.
Lemma names_collected req tc :
  NoDup (call_ids req) → ToolCallB tc ∈ messages req ≫= content →
  collect_tool_call_names req !! tc_id tc = Some (tc_name tc).
Proof.
  unfold collect_tool_call_names, call_ids. generalize (∅ : gmap string string).
  induction (messages req ≫= content) as [|b l IH]; intros names Hnd Hin; [by apply elem_of_nil in Hin|].
  csimpl. apply elem_of_cons in Hin as [<-|Hin].
  - csimpl in Hnd. inversion_clear Hnd. apply names_fold; [done|]. apply lookup_insert_eq.
  - apply IH; [|done]. destruct b; csimpl in Hnd; try done. by inversion_clear Hnd.
Qed.

(** The parts of a message. *)
Lemma parts_replies names (l : list ContentBlock) :
  omap part_reply (omap (block_to_part names) l) =
    (λ i, default i (names !! i)) <$> omap reply_id l.
Proof.
  induction l as [|b l IH]; [done|].
  destruct b as [| s ? | s ? | s ?| | | | |]; csimpl; rewrite ?IH; try done; by destruct s; csimpl.
Qed.
Lemma parts_calls names (l : list ContentBlock) :
  (∀ tc, ToolCallB tc ∈ l → names !! tc_id tc = Some (tc_name tc)) →
  omap part_call (omap (block_to_part names) l) = (λ i, default i (names !! i)) <$> omap Conversation.call_id l.
Proof.
  induction l as [|b l IH]; intros H; [done|].
  assert (omap part_call (omap (block_to_part names) l) = (λ i, default i (names !! i)) <$> omap Conversation.call_id l) as IH'
    by (apply IH; intros tc Htc; apply H; by right).
  destruct b as [| s ? | s ? | s ?|tc| | | |]; csimpl; rewrite ?IH'; try done; try (by destruct s; csimpl).
  rewrite (H tc) by by left. done.
Qed.
Lemma parts_plain names (l : list ContentBlock) :
  existsb part_plain (omap (block_to_part names) l) = true → existsb is_plain l = true.
Proof.
  induction l as [|b l IH]; [done|].
  destruct b as [| s ? | s ? | s ?|tc| | | |]; csimpl; auto; by destruct s; csimpl.
Qed.

Lemma message_keeps names m open open' :
  (∀ tc, ToolCallB tc ∈ content m → names !! tc_id tc = Some (tc_name tc)) →
  NoDup (omap Conversation.call_id (content m)) → (role m = System → tool_free m) →
  tools_check open m = Some open' →
  steps gemini_check (names_of names open) (option_list (build_content names m)) = Some (names_of names open').
Proof.
  intros Hn Hd Hsys H. unfold tools_check, talk_check, talk_of in H; cbn [calls replies speaks] in H.
  assert (∀ r, gemini_check (names_of names open) {| content_role := r; parts := omap (block_to_part names) (content m) |} =
               Some (names_of names open')) as Hc.
  { intros r. unfold gemini_check; cbn [parts]. rewrite parts_replies, (parts_calls names _ Hn).
    destruct (omap reply_id (content m)) as [|i l] eqn:Hr.
    - case_bool_decide as Ho; [|done]. injection H as <-. subst open. simpl.
      by rewrite names_of_empty, bool_decide_eq_true_2, names_of_list by done.
    - destruct (steps answer_one open (i :: l)) as [o|] eqn:Hs; [|done]. cbn [mbind option_bind] in H.
      apply answers_by_name with (names := names) in Hs. rewrite fmap_cons in *. rewrite Hs. cbn [mbind option_bind].
      destruct (bool_decide (_ = [])) eqn:Hcall in H; [|done]. apply bool_decide_eq_true in Hcall. rewrite Hcall, fmap_nil.
      simpl in *. destruct (bool_decide (o = ∅) || negb (existsb is_plain (content m))) eqn:Hq; [|done]. injection H as <-.
      apply orb_true_iff in Hq as [->%bool_decide_eq_true|Hq%negb_true_iff].
      + by rewrite names_of_empty, bool_decide_eq_true_2.
      + destruct (existsb part_plain _) eqn:Hp; [by apply parts_plain in Hp; congruence|]. by rewrite orb_true_r. }
  assert (omap (block_to_part names) (content m) = [] → open' = open) as Hnone.
  { intros E. pose proof (parts_replies names (content m)) as Hr. pose proof (parts_calls names _ Hn) as Hcl.
    rewrite E in Hr, Hcl. symmetry in Hr, Hcl. apply fmap_nil_inv in Hr, Hcl. rewrite Hr, Hcl in H.
    case_bool_decide; [|done]. injection H as <-. by subst. }
  unfold build_content. destruct (role m) eqn:Hrole; simpl.
  4: { destruct (Hsys eq_refl) as [H1 H2]. rewrite H1, H2 in H. case_bool_decide; [|done]. injection H as <-. by subst. }
  all: destruct (omap (block_to_part names) (content m)) as [|p ps]; simpl; [by rewrite Hnone|by rewrite Hc].
Qed.

(** C17: a conversation whose tool calls are answered in place reaches a Gemini
    upstream as one whose calls are answered in place by name: every
    functionResponse carries the name of a functionCall that is open at that
    point, no call or result is lost, and the calls left open are those the client
    left open, under their names.  Identifiers, which Gemini does not carry, are
    taken to be used once. *)
Theorem gemini_tools_stay_answered req target open :
  steps tools_check ∅ (messages req) = Some open → NoDup (call_ids req) →
  (∀ m, m ∈ messages req → role m = System → tool_free m) →
  steps gemini_check ∅ (contents (build req target)) = Some (names_of (collect_tool_call_names req) open).
Proof.
  intros H Hd Hsys. cbn [contents build]. unfold build_contents.
  set (names := collect_tool_call_names req).
  assert (∀ m tc, m ∈ messages req → ToolCallB tc ∈ content m → names !! tc_id tc = Some (tc_name tc)) as Hn.
  { intros m tc Hm Htc. apply names_collected; [done|]. apply list_elem_of_bind. by exists m. }
  assert (∀ m, m ∈ messages req → NoDup (omap Conversation.call_id (content m))) as Hdm.
  { unfold call_ids in Hd. clear -Hd. induction (messages req) as [|m l IH]; intros x Hx; [by apply elem_of_nil in Hx|].
    rewrite bind_cons, omap_app in Hd. apply NoDup_app in Hd as (H1 & _ & H2).
    apply elem_of_cons in Hx as [->|Hx]; [done|by apply IH]. }
  rewrite <- (names_of_empty names). clearbody names. clear Hd. revert H. generalize (∅ : gset string).
  induction (messages req) as [|m l IH]; intros O H; csimpl; [by injection H as <-|]. simpl in H.
  destruct (tools_check O m) as [O1|] eqn:HO; [|done]. simpl in H.
  replace (match build_content names m with Some y => y :: omap (build_content names) l | None => omap (build_content names) l end)
    with (option_list (build_content names m) ++ omap (build_content names) l) by (by destruct (build_content names m)).
  rewrite steps_app, (message_keeps names m O O1); [|by intros; eapply Hn; [left|]|by apply Hdm; left|by apply Hsys; left|done].
  simpl. apply IH; [|..|done]; intros; [eapply Hsys|eapply Hn|eapply Hdm]; try done; by right.
Qed.
End Build.

Section Complete.
Context `{J : JsonApi} `{V : !JsonValues J}.
Context (b64_encode : string → string) (is_object : value → bool).

(** ** Completing a request *)
Context (send : string → GenerateContentRequest → result HttpResponse string)
  (read_text : list (result (list byte) string) → option string)
  (from_slice : list byte → result GenerateContentResponse string)
  (response_id unary_id : string) (now_unix : Z) (fresh : Z → string)
  (b64_decode : string → result string unit) (ratings_value : list WireRating → value).

Definition complete (base_url : string) (req : CanonicalRequest) (target : BackendTarget)
    : result (list (result StreamEvent StreamError)) ProviderError :=
  let is_stream := stream req in
  let model := Request.model target in
  let url := if is_stream then streaming_url base_url model else unary_url base_url model in
  let? response := map_err Network (send url (build b64_encode is_object req target)) in
  if negb (is_success (status response)) then
    Err (Upstream (status response) (default "<unreadable>" (read_text (chunks response))))
  else if is_stream then
    Ok (parse_streaming response_id now_unix fresh (into_response_stream from_slice (chunks response)) model)
  else
    let? bytes := map_err Network (read_bytes (chunks response)) in
    Ok (unary_bytes_to_canonical_stream response_id now_unix fresh unary_id b64_decode ratings_value from_slice bytes model).

(** [list_models]: [get_json] is the request with the key, its status and its body. *)
Context (get_json : string → result (Z * result value string) string).
Definition model_id (m : value) : option string := get_str "name" m ≫= strip_prefix "models/".
Definition list_models (base_url : string) : result (option (gmap string ModelMetadata)) ProviderError :=
  let? answer := map_err Network (get_json (models_url base_url)) in
  if negb (is_success answer.1) then Ok None else
  let? body := map_err Decode answer.2 in
  let models : gmap string ModelMetadata :=
    list_to_map ((λ id, (id, default_metadata)) <$> omap model_id (default [] (get_array "models" body))) in
  Ok (if bool_decide (models = ∅) then None else Some models).


(** C13: a streaming request that a Gemini upstream answers with an array of objects
    is answered in the canonical contract.  From bytes to events: however the body
    is split into chunks, whatever transport errors come in between and however it
    ends, the request completes; the events keep the lifecycle and say what the
    unary answer with the contents of all decodable objects would say. *)
Theorem gemini_completes base_url req target code ct l ws os k t torn :
  to_json_string (json_object []) = "{}" →
  stream req = true →
  send (streaming_url base_url (Request.model target)) (build b64_encode is_object req target) =
    Ok {| status := code; content_type := ct; chunks := l |} → (200 ≤ code < 300)%Z →
  Forall is_json_whitespace ws → listing os k → ending t torn → l ≫= arrived = ws ++ open_bracket :: k ++ t →
  let objects := omap (result_ok ∘ from_slice) os in
  objects ≠ [] → (Z.of_nat (length (objects ≫= parts_of)) ≤ u32_max)%Z →
  ∃ events, complete base_url req target = Ok events ∧
    assert_canonical_lifecycle (oks events) = Ok tt ∧
    digest (oks events) =
      digest (canonical_response_to_events response_id now_unix
                (parse_unary fresh unary_id b64_decode ratings_value (merged objects) (Request.model target))).
Proof.
  intros He Hs Hsend Hcode Hws Hk Ht Hl objects Hne Hn. eexists. unfold complete. rewrite Hs, Hsend. simpl.
  rewrite is_success_true by done. cbn [negb].
  split; [reflexivity|].
  rewrite parse_streaming_program, (scan_objects from_slice l ws os k t torn) by done. fold objects.
  split; [by apply program_accepted|by apply program_digest].
Qed.

(** A failing Gemini upstream is reported as the error it is: a request that
    cannot be sent as a network error, any status but success as an upstream
    error with that status and the body, or [<unreadable>], whether or not the
    client streams, so that the retry and fallback rules see it; only after a
    success status does an error reach the stream instead. *)
Theorem gemini_errors base_url req target :
  let url := if stream req then streaming_url base_url (Request.model target)
             else unary_url base_url (Request.model target) in
  let answer := send url (build b64_encode is_object req target) in
  (∀ e, answer = Err e → complete base_url req target = Err (Network e)) ∧
  (∀ r, answer = Ok r → ¬ (200 ≤ status r < 300)%Z →
     complete base_url req target = Err (Upstream (status r) (default "<unreadable>" (read_text (chunks r))))) ∧
  (∀ r, answer = Ok r → (200 ≤ status r < 300)%Z →
     match read_bytes (chunks r) with
     | Ok bytes => stream req = false →
         (∀ e, from_slice bytes = Err e → ∃ m, complete base_url req target = Ok [Err (DecodeError m)]) ∧
         (∀ resp, from_slice bytes = Ok resp → ∃ events, complete base_url req target = Ok (Ok <$> events) ∧ events ≠ [])
     | Err e => stream req = false → complete base_url req target = Err (Network e)
     end ∧ (stream req = true → ∃ events, complete base_url req target = Ok events)).
Proof.
  intros url answer. unfold complete. fold url. split_and!.
  - intros e E. subst answer. by rewrite E.
  - intros r E Hr. subst answer. rewrite E. simpl.
    by rewrite is_success_false by done.
  - intros r E Hr. subst answer. rewrite E. simpl.
    rewrite is_success_true by done. cbn [negb].
    split.
    + destruct (read_bytes (chunks r)) as [bytes|e]; simpl; intros ->; [|done].
      unfold unary_bytes_to_canonical_stream. split.
      * intros e ->. by eexists.
      * intros resp ->. eexists. split; [reflexivity|done].
    + intros ->. by eexists.
Qed.
End Complete.

(** ** A conversation with two calls, and an answer in two objects *)
Module Samples.
Section Values.
Context `{J : JsonApi} `{V : !JsonValues J}.
Definition call (id name : string) : ContentBlock :=
  ToolCallB {| tc_id := id; tc_name := name; arguments := Complete json_null; tc_extensions := ∅ |}.
Definition answer (id : string) : ContentBlock :=
  ToolResultB {| tool_call_id := id; tr_content := json_string "fine"; is_error := false; tr_extensions := ∅ |}.
Definition says (r : MessageRole) (l : list ContentBlock) : Message := {|
  role := r; content := l; msg_name := None; msg_source := None; msg_extensions := ∅ |}.
Definition no_policy : RoutePolicy := {|
  default_reasoning_effort := None; default_anthropic_beta := None; reasoning_mapping := [] |}.
Definition target : BackendTarget := {| provider := "gemini"; Request.model := "flash"; policy := no_policy |}.
Definition request (choice : ToolChoice) (s : bool) (l : list Message) : CanonicalRequest := {|
  id := "req"; frontend_kind := AnthropicMessages; requested_model := "flash"; req_model := "flash";
  system := []; messages := l; tools := []; tool_choice := choice;
  generation := {| max_tokens := Some 5%Z; temperature := None; top_p := None; top_k := None;
    presence_penalty := None; frequency_penalty := None; stop_sequences := []; seed := None; reasoning := None |};
  response_format := None; stream := s; Request.metadata := {| user_id := None; agent := None |};
  inbound_anthropic_headers := [];
  resolved_policy := {| Request.reasoning_effort := Some Request.High; Request.reasoning_budget_tokens := None;
    supported_efforts := None; Request.supported_endpoints := None; anthropic_headers := [] |};
  extensions := ∅ |}.
(** The answers come in the other order; one call stays open. *)
Definition conversation : list Message :=
  [says User [TextBlock "weather?" ∅]; says Assistant [TextBlock "looking" ∅; call "a" "weather"; call "b" "time"];
   says User [answer "b"; answer "a"; TextBlock "and now?" ∅]; says Assistant [call "c" "weather"]].

Example answered_names :
  omap part_reply (contents (build (λ s, s) (λ _, true) (request ChoiceAuto true conversation) target) ≫= parts) =
    ["time"; "weather"].
Proof. vm_compute. reflexivity. Qed.
Example effort_is_a_budget :
  gc_thinking_config <$> generation_config (build (λ s, s) (λ _, true) (request ChoiceAuto true conversation) target) =
    Some (Some {| thinking_budget := Some 4096%Z; include_thoughts := Some true |}).
Proof. vm_compute. reflexivity. Qed.
(** The documentation promises tool choice; the body is the same for every choice. *)
Lemma tool_choice_is_not_sent b64_encode is_object c s l t :
  build b64_encode is_object (request c s l) t = build b64_encode is_object (request ChoiceAuto s l) t.
Proof. reflexivity. Qed.
End Values.

(** With the default base URL the models are asked for under [/v1beta] twice. *)
Example models_url_is_doubled :
  models_url "https://generativelanguage.googleapis.com/v1beta" =
    "https://generativelanguage.googleapis.com/v1beta/v1beta/models".
Proof. reflexivity. Qed.
Example trailing_slashes_are_dropped :
  streaming_url "https://host/v1beta//" "flash" = "https://host/v1beta/models/flash:streamGenerateContent".
Proof. reflexivity. Qed.

#[local] Instance sample_json : JsonApi := TreeJson [].
Lemma gemini_tools_stay_answered_witness :
  steps gemini_check ∅ (contents (build (λ s, s) (λ _, true) (request ChoiceAuto true conversation) target)) =
    Some {[+ "weather" +]}.
Proof.
  rewrite (gemini_tools_stay_answered (λ s, s) (λ _, true) (request ChoiceAuto true conversation) target {["c"]}).
  - apply (bool_decide_eq_true_1 _). vm_compute. reflexivity.
  - apply (bool_decide_eq_true_1 _). vm_compute. reflexivity.
  - apply (bool_decide_eq_true_1 _). vm_compute. reflexivity.
  - intros m Hm. repeat (apply elem_of_cons in Hm as [->|Hm]; [done|]). by apply elem_of_nil in Hm.
Defined.

Definition sent (_ : string) (_ : GenerateContentRequest) : result HttpResponse string :=
  Ok {| status := 200; content_type := None; chunks := GeminiScan.Samples.chunks |}.
Definition first_object : GenerateContentResponse :=
  GeminiParse.Samples.response_of [GeminiParse.Samples.candidate_of [GeminiParse.Samples.text_part "Su"] None []] None.
Definition last_object : GenerateContentResponse :=
  GeminiParse.Samples.response_of
    [GeminiParse.Samples.candidate_of [GeminiParse.Samples.text_part "re."] (Some "STOP") []] None.
Definition decoder (w : list byte) : result GenerateContentResponse string :=
  Ok (if bool_decide (length w < 18) then first_object else last_object).
Lemma gemini_completes_witness :
  ∃ events, complete (λ s, s) (λ _, true) sent (λ _, None) decoder "resp" "unary" 0 (λ _, "call") (λ _, Err tt)
      (λ _, TNull) "https://host" (request ChoiceAuto true conversation) target = Ok events ∧
    assert_canonical_lifecycle (oks events) = Ok tt ∧
    digest (oks events) = {|
      frame := [ResponseStart "resp" "flash" 0; MessageStart Assistant; MessageStop EndTurn None; ResponseStop None];
      told := [(0%Z, SaidText "Sure.")] |}.
Proof.
  destruct (gemini_completes (λ s, s) (λ _, true) sent (λ _, None) decoder "resp" "unary" 0 (λ _, "call") (λ _, Err tt)
    (λ _, TNull) "https://host" (request ChoiceAuto true conversation) target 200 None GeminiScan.Samples.chunks
    [byte_of 32] _ _ _ false eq_refl eq_refl eq_refl ltac:(lia) ltac:(by repeat constructor)
    GeminiScan.Samples.chunk_listing (ends_closed _) GeminiScan.Samples.chunks_arrive) as (events & H1 & H2 & H3).
  - discriminate.
  - vm_compute. discriminate.
  - exists events. split; [exact H1|]. split; [exact H2|]. rewrite H3. reflexivity.
Defined.
Lemma gemini_errors_witness :
  complete (λ s, s) (λ _, true) (λ _ _, Ok {| status := 429; content_type := None; chunks := [] |}) (λ _, Some "slow down") decoder "resp" "unary" 0
    (λ _, "call") (λ _, Err tt) (λ _, TNull) "https://host" (request ChoiceAuto false conversation) target =
    Err (Upstream 429 "slow down").
Proof.
  destruct (gemini_errors (λ s, s) (λ _, true) (λ _ _, Ok {| status := 429; content_type := None; chunks := [] |}) (λ _, Some "slow down") decoder
    "resp" "unary" 0 (λ _, "call") (λ _, Err tt) (λ _, TNull) "https://host" (request ChoiceAuto false conversation) target)
    as (_ & H & _).
  apply (H {| status := 429; content_type := None; chunks := [] |} eq_refl). simpl. lia.
Defined.
End Samples.
