(* ===== verification/Upstreams.v ===== *)
(** * The HTTP providers (crates/providers/src/lib.rs, anthropic/mod.rs and
    passthrough.rs, openai_compatible/mod.rs, deepseek/mod.rs, glm/mod.rs)

    The [BackendProvider] trait as a record of operations and four of its
    implementations: a request is built, sent and answered.  reqwest, serde_json
    and the SSE framing are parameters. *)
From S2P Require Import Prelude Float64 Json CoreTypes Emit Drain Lifecycle Fallback Request Config ModelIndex ChatSse ChatUnary ChatSseLifecycle DeepSeek DeepSeekLifecycle AnthropicParse ChatBuild ChatFlavors AnthropicBuild GeminiScan Http Passthrough.
#[local] Open Scope string_scope.
#[local] Open Scope list_scope.
#[local] Open Scope nat_scope.

(** ** The trait *)
Record ProviderCapabilities := {
  streaming : bool; tool_use : bool; vision : bool; json_mode : bool; accepts_xhigh : bool }.
Definition RawByteStream : Type := list (result (list byte) string).
Record BackendProvider `{J : JsonApi} := {
  bp_name : string;
  capabilities : ProviderCapabilities;
  complete : CanonicalRequest → BackendTarget → result (list (result StreamEvent StreamError)) ProviderError;
  list_models : result (option (gmap string ModelMetadata)) ProviderError;
  proxy_raw : list byte → BackendTarget → FrontendKind → result (option (string * RawByteStream)) ProviderError;
}.
(** The provided methods of the trait. *)
Definition no_proxy_raw (_ : list byte) (_ : BackendTarget) (_ : FrontendKind)
    : result (option (string * RawByteStream)) ProviderError := Ok None.

(** ** The structures

    [OpenAiCompatibleProvider], [DeepseekProvider] and [GlmProvider] have the same
    fields; [AnthropicProvider] has a version besides. *)
Record ChatProvider := {
  cp_name : string; cp_base_url : string; cp_api_key : string; cp_headers : list (string * string) }.
Record AnthropicProvider := {
  ap_name : string; ap_base_url : string; ap_api_key : string; ap_version : string; ap_headers : list (string * string) }.
Definition chat_capabilities (images : bool) : ProviderCapabilities := {|
  streaming := true; tool_use := true; vision := images; json_mode := true; accepts_xhigh := false |}.
Definition anthropic_capabilities : ProviderCapabilities := {|
  streaming := true; tool_use := true; vision := true; json_mode := false; accepts_xhigh := false |}.

Definition chat_url (self : ChatProvider) : string := trim_end_slashes (cp_base_url self) ++ "/v1/chat/completions".
Definition responses_url (self : ChatProvider) : string := trim_end_slashes (cp_base_url self) ++ "/v1/responses".
Definition openai_models_url (self : ChatProvider) : string := trim_end_slashes (cp_base_url self) ++ "/v1/models".
Definition strict_chat_url (self : ChatProvider) : string := trim_end_slashes (cp_base_url self) ++ "/chat/completions".
Definition strict_models_url (self : ChatProvider) : string := trim_end_slashes (cp_base_url self) ++ "/models".
Definition messages_url (self : AnthropicProvider) : string := trim_end_slashes (ap_base_url self) ++ "/v1/messages".
Definition anthropic_models_url (self : AnthropicProvider) : string := trim_end_slashes (ap_base_url self) ++ "/v1/models".
(** [bearer_auth]. *)
Definition bearer_auth (key : string) : string * string := ("authorization", ("Bearer " ++ key)%string).
Definition json_content : string * string := ("content-type", "application/json").
Definition chat_headers (self : ChatProvider) : list (string * string) :=
  [bearer_auth (cp_api_key self); json_content] ++ cp_headers self.
Definition key_headers (self : AnthropicProvider) : list (string * string) :=
  [("x-api-key", ap_api_key self); ("anthropic-version", ap_version self)].
Definition anthropic_request_headers (self : AnthropicProvider) : list (string * string) :=
  key_headers self ++ [json_content] ++ ap_headers self.
(** The route's default [anthropic-beta], on the passthrough paths. *)
Definition beta_header (target : BackendTarget) : list (string * string) :=
  match default_anthropic_beta (policy target) with Some beta => [("anthropic-beta", beta)] | None => [] end.

Section Providers.
Context `{J : JsonApi} `{V : !JsonValues J} `{H : HashOrder}.
Context (b64_encode : string → string) (to_value : ChatBody → tree).
Context (chat_to_vec : ChatBody → list byte) (tree_to_vec : tree → list byte) (outgoing_to_vec : OutgoingRequest → list byte).
Context (from_slice : list byte → result tree string) (to_vec : tree → result (list byte) string).
Context (header_name header_value : string → result string string) (http_client : Z → result unit ProviderError).
Context (send : HttpRequest → result HttpResponse string) (read_text : RawByteStream → option string).
Context (get_json : string → list (string * string) → result (Z * result value string) string).
Context (sse : RawByteStream → list (result SseEvent string)).
Context (from_event : string → result IncomingEvent string) (value_to_string : value → option string)
  (from_response : string → result IncomingMessagesResponse string).
#[local] Abbreviation Stream := (list (result StreamEvent StreamError)).

(** The end of every [complete]: the error of the status, the stream, or the
    parsed body. *)
Definition receive (is_stream : bool) (parse_stream : RawByteStream → Stream) (parse_unary : string → Stream)
    (answer : result HttpResponse string) : result Stream ProviderError :=
  let? response := map_err Network answer in
  if negb (is_success (status response)) then
    Err (Upstream (status response) (default "<unreadable>" (read_text (chunks response))))
  else if is_stream then Ok (parse_stream (chunks response))
  else let? b := map_err Network (read_bytes (chunks response)) in Ok (parse_unary (String.string_of_list_ascii b)).

(** The end of every [proxy_raw]. *)
Definition relay (answer : result HttpResponse string) : result (string * RawByteStream) ProviderError :=
  let? response := map_err Network answer in
  if negb (is_success (status response)) then
    Err (Upstream (status response) (default "<unreadable>" (read_text (chunks response))))
  else Ok (default "text/event-stream" (content_type response), chunks response).

(** [list_models], the same code in the four files but for URL and headers. *)
Definition discover (url : string) (headers : list (string * string))
    : result (option (gmap string ModelMetadata)) ProviderError :=
  let? answer := map_err Network (get_json url headers) in
  if negb (is_success answer.1) then Ok None else
  let? body := map_err Decode answer.2 in
  let models : gmap string ModelMetadata :=
    list_to_map ((λ id, (id, default_metadata)) <$> omap (get_str "id") (default [] (get_array "data" body))) in
  Ok (if bool_decide (models = ∅) then None else Some models).

(** ** OpenAI-compatible *)
Definition openai_request (self : ChatProvider) (req : CanonicalRequest) (target : BackendTarget) : HttpRequest := {|
  url := chat_url self;
  headers := chat_headers self ++ anthropic_headers (resolved_policy req);
  payload := chat_to_vec (ChatBuild.build b64_encode req target (accepts_xhigh (chat_capabilities true))) |}.
Definition openai_complete (self : ChatProvider) (req : CanonicalRequest) (target : BackendTarget) : result Stream ProviderError :=
  receive (stream req) (λ b, ChatSse.parse_all (sse b)) chat_parse (send (openai_request self req target)).
Definition openai_proxy_raw (self : ChatProvider) (body : list byte) (target : BackendTarget) (kind : FrontendKind)
    : result (option (string * RawByteStream)) ProviderError :=
  match kind with
  | OpenAiResponses =>
      let? body := rewrite_by_value from_slice to_vec "Responses" body (Request.model target) in
      result_map Some (relay (send {| url := responses_url self; headers := chat_headers self ++ beta_header target; payload := body |}))
  | _ => Ok None
  end.
Definition openai_compatible (self : ChatProvider) : BackendProvider := {|
  bp_name := cp_name self; capabilities := chat_capabilities true; complete := openai_complete self;
  list_models := discover (openai_models_url self) [bearer_auth (cp_api_key self)];
  proxy_raw := openai_proxy_raw self |}.

(** ** DeepSeek and GLM *)
Definition strict_request (self : ChatProvider) (body : tree) : HttpRequest := {|
  url := strict_chat_url self; headers := chat_headers self; payload := tree_to_vec body |}.
Definition deepseek_complete (self : ChatProvider) (req : CanonicalRequest) (target : BackendTarget) : result Stream ProviderError :=
  let body := deepseek_build b64_encode to_value req target (accepts_xhigh (chat_capabilities false)) in
  receive (stream req) (λ b, DeepSeek.parse_all (sse b)) deepseek_parse_unary (send (strict_request self body)).
Definition glm_complete (self : ChatProvider) (req : CanonicalRequest) (target : BackendTarget) : result Stream ProviderError :=
  let? body := glm_build b64_encode to_value req target (accepts_xhigh (chat_capabilities true)) in
  receive (stream req) (λ b, DeepSeek.parse_all (sse b)) deepseek_parse_unary (send (strict_request self body)).
Definition deepseek (self : ChatProvider) : BackendProvider := {|
  bp_name := cp_name self; capabilities := chat_capabilities false; complete := deepseek_complete self;
  list_models := discover (strict_models_url self) [bearer_auth (cp_api_key self)]; proxy_raw := no_proxy_raw |}.
Definition glm (self : ChatProvider) : BackendProvider := {|
  bp_name := cp_name self; capabilities := chat_capabilities true; complete := glm_complete self;
  list_models := discover (strict_models_url self) [bearer_auth (cp_api_key self)]; proxy_raw := no_proxy_raw |}.

(** ** Anthropic *)
Definition anthropic_request (self : AnthropicProvider) (req : CanonicalRequest) (target : BackendTarget) : HttpRequest := {|
  url := messages_url self;
  headers := anthropic_request_headers self ++ anthropic_headers (resolved_policy req);
  payload := outgoing_to_vec (AnthropicBuild.build b64_encode req target) |}.
Definition anthropic_complete (self : AnthropicProvider) (req : CanonicalRequest) (target : BackendTarget)
    : result Stream ProviderError :=
  receive (stream req) (λ b, AnthropicParse.parse_stream from_event (sse b))
    (AnthropicParse.parse_unary value_to_string from_response) (send (anthropic_request self req target)).
(** [passthrough::send]; [None] if the scanner did not return. *)
Definition raw_request (self : AnthropicProvider) (body : list byte) (target : BackendTarget) : HttpRequest := {|
  url := messages_url self; headers := anthropic_request_headers self ++ beta_header target; payload := body |}.
Definition passthrough_send (self : AnthropicProvider) (body : list byte) (target : BackendTarget)
    : option (result (string * RawByteStream) ProviderError) :=
  rewritten ← rewrite_model from_slice to_vec body (Request.model target);
  Some (let? body := rewritten in relay (send (raw_request self body target))).
Definition anthropic_proxy_raw (self : AnthropicProvider) (body : list byte) (target : BackendTarget) (kind : FrontendKind)
    : result (option (string * RawByteStream)) ProviderError :=
  match kind with
  | AnthropicMessages => default (Ok None) (result_map Some <$> passthrough_send self body target)
  | _ => Ok None
  end.
Definition anthropic (self : AnthropicProvider) : BackendProvider := {|
  bp_name := ap_name self; capabilities := anthropic_capabilities; complete := anthropic_complete self;
  list_models := discover (anthropic_models_url self) (key_headers self); proxy_raw := anthropic_proxy_raw self |}.

(** ** Construction *)
Definition chat_provider (name : string) (cfg : HttpUpstream) : result ChatProvider ProviderError :=
  let? hs := default_header_map header_name header_value (entries (default_headers cfg)) [] in
  let? _ := http_client (request_timeout_secs cfg) in
  Ok {| cp_name := name; cp_base_url := base_url cfg; cp_api_key := api_key cfg; cp_headers := hs |}.
Definition anthropic_provider (name : string) (cfg : HttpUpstream) (version : string) : result AnthropicProvider ProviderError :=
  let? hs := default_header_map header_name header_value (entries (default_headers cfg)) [] in
  let? _ := http_client (request_timeout_secs cfg) in
  Ok {| ap_name := name; ap_base_url := base_url cfg; ap_api_key := api_key cfg; ap_version := version; ap_headers := hs |}.
(** The provider of an upstream, for the four kinds of this file. *)
Definition provider_of (name : string) (u : UpstreamConfig) : option (result BackendProvider ProviderError) :=
  match u with
  | OpenAiCompatible cfg => Some (result_map openai_compatible (chat_provider name cfg))
  | Deepseek cfg => Some (result_map deepseek (chat_provider name cfg))
  | Glm cfg => Some (result_map glm (chat_provider name cfg))
  | Config.Anthropic cfg version => Some (result_map anthropic (anthropic_provider name cfg version))
  | GithubCopilot _ | Config.Gemini _ => None
  end.

(** ** What becomes of an exchange *)
Lemma receive_ok is_stream ps pu answer events :
  receive is_stream ps pu answer = Ok events ↔
  ∃ r, answer = Ok r ∧ is_success (status r) = true ∧
    if is_stream then events = ps (chunks r)
    else ∃ b, read_bytes (chunks r) = Ok b ∧ events = pu (String.string_of_list_ascii b).
Proof.
  unfold receive. destruct answer as [r|e]; simpl; [|by split; [|intros (? & ? & _)]].
  destruct (is_success (status r)) eqn:Hs; cbn [negb].
  2:{ split; [done|]. intros (? & [= <-] & ? & _). congruence. }
  destruct is_stream.
  - split; [intros [= <-]; by eauto|]. by intros (? & [= <-] & _ & ->).
  - destruct (read_bytes (chunks r)) as [b|e] eqn:Hb; simpl.
    + split; [intros [= <-]; exists r; by eauto|]. intros (? & [= <-] & _ & b' & Hb' & ->). congruence.
    + split; [done|]. intros (? & [= <-] & _ & b' & Hb' & _). congruence.
Qed.
Lemma receive_err is_stream ps pu answer e :
  receive is_stream ps pu answer = Err e ↔
  (∃ m, answer = Err m ∧ e = Network m) ∨
  (∃ r, answer = Ok r ∧ is_success (status r) = false ∧
     e = Upstream (status r) (default "<unreadable>" (read_text (chunks r)))) ∨
  (∃ r m, answer = Ok r ∧ is_success (status r) = true ∧ is_stream = false ∧
     read_bytes (chunks r) = Err m ∧ e = Network m).
Proof.
  unfold receive. destruct answer as [r|m]; simpl.
  2:{ split; [intros [= <-]; by eauto|]. by intros [(? & [= <-] & ->)|[(? & ? & _)|(? & ? & ? & _)]]. }
  destruct (is_success (status r)) eqn:Hs; cbn [negb].
  2:{ split; [intros [= <-]; eauto 6|].
      intros [(? & ? & _)|[(? & [= <-] & _ & ->)|(? & ? & [= <-] & ? & _)]]; congruence. }
  destruct is_stream; [|destruct (read_bytes (chunks r)) as [b|m] eqn:Hb; simpl].
  - split; [done|]. by intros [(? & ? & _)|[(? & [= <-] & ? & _)|(? & ? & _ & _ & ? & _)]]; congruence.
  - split; [done|]. intros [(? & ? & _)|[(? & [= <-] & ? & _)|(? & ? & [= <-] & _ & _ & ? & _)]]; congruence.
  - split; [intros [= <-]; do 2 right; eauto 8|].
    intros [(? & ? & _)|[(? & [= <-] & ? & _)|(? & ? & [= <-] & _ & _ & ? & ->)]]; congruence.
Qed.

(** What each kind of upstream is expected to stream. *)
Definition upstream_behaves (u : UpstreamConfig) (l : list (result SseEvent string)) : Prop :=
  match u with
  | OpenAiCompatible _ => ChatSseLifecycle.conforms l = true
  | Deepseek _ | Glm _ => DeepSeekLifecycle.conforms l = true
  | Config.Anthropic _ _ => ∃ g, steps up_check upstream0 (omap (readable from_event) l) = Some g ∧ u_open g = ∅
  | GithubCopilot _ | Config.Gemini _ => False
  end.

(** The parsers of the non-streaming bodies. *)
Definition unary_reads (pu : string → Stream) : Prop := ∀ b,
  (∃ e, pu b = [Err (DecodeError e)]) ∨
  ∃ events, pu b = Ok <$> events ∧
    ((Z.of_nat (length events) ≤ u32_max)%Z → assert_canonical_lifecycle events = Ok tt).
Lemma chat_unary_reads usage_of : unary_reads (ChatUnary.parse_unary usage_of).
Proof.
  intros b. unfold ChatUnary.parse_unary. pose proof (unary_response_spec usage_of b) as H'.
  destruct (parse_unary_with usage_of b) as [events|e]; [right|left; by eauto].
  exists events. split; [done|]. by destruct H' as (v & _ & _ & Hl).
Qed.
Lemma for_each_emits {S E A} (f : A → emit S E unit) l s :
  (∀ x s, 1 ≤ length (emitted (f x) s)) → length l ≤ length (emitted (for_each l f) s).
Proof.
  intros Hf. revert s. induction l as [|x l IH]; intros s; [done|]. cbn [for_each]. rewrite emitted_bind, length_app.
  specialize (Hf x s). specialize (IH (final (f x) s)). cbn [length]. lia.
Qed.
Lemma unary_response_length resp :
  length (resp_content resp) ≤ length (emitted (unary_response value_to_string resp) tt).
Proof.
  unfold unary_response. rewrite !emitted_push_bind, !emitted_bind. cbn [length]. rewrite !length_app.
  enough (length (resp_content resp) ≤ length (emitted (unary_blocks value_to_string (resp_content resp)) tt)).
  { destruct (final _ _). lia. }
  unfold unary_blocks. etransitivity; [|apply for_each_emits].
  - by rewrite length_imap.
  - intros [i b] []. destruct b; cbn [unary_block]; rewrite emitted_push_bind; simpl; lia.
Qed.
Lemma anthropic_unary_reads : unary_reads (AnthropicParse.parse_unary value_to_string from_response).
Proof.
  intros b. unfold AnthropicParse.parse_unary, AnthropicParse.parse_unary_inner.
  destruct (error_envelope b) as [err|].
  { right. eexists. split; [reflexivity|]. by intros _; vm_compute. }
  destruct (from_response b) as [resp|e]; [right|left; by eauto].
  eexists. split; [reflexivity|]. intros Hl. apply unary_response_accepted.
  pose proof (unary_response_length resp). lia.
Qed.

(** The request an upstream is sent, by its configuration: the path of its
    dialect under its base URL, its key, its default headers and, where the code
    forwards them, the headers of the route's policy, and the body of its
    dialect.  [None] where the headers or GLM's body cannot be made. *)
Definition expected_request (u : UpstreamConfig) (req : CanonicalRequest) (target : BackendTarget) : option HttpRequest :=
  let defaults (cfg : HttpUpstream) := result_ok (default_header_map header_name header_value (entries (default_headers cfg)) []) in
  let under (cfg : HttpUpstream) (path : string) := (trim_end_slashes (base_url cfg) ++ path)%string in
  let keyed (cfg : HttpUpstream) := [("authorization", ("Bearer " ++ api_key cfg)%string); ("content-type", "application/json")] in
  match u with
  | OpenAiCompatible cfg =>
      hs ← defaults cfg;
      Some {| url := under cfg "/v1/chat/completions"; headers := keyed cfg ++ hs ++ anthropic_headers (resolved_policy req);
              payload := chat_to_vec (ChatBuild.build b64_encode req target false) |}
  | Deepseek cfg =>
      hs ← defaults cfg;
      Some {| url := under cfg "/chat/completions"; headers := keyed cfg ++ hs;
              payload := tree_to_vec (deepseek_build b64_encode to_value req target false) |}
  | Glm cfg =>
      hs ← defaults cfg; body ← result_ok (glm_build b64_encode to_value req target false);
      Some {| url := under cfg "/chat/completions"; headers := keyed cfg ++ hs; payload := tree_to_vec body |}
  | Config.Anthropic cfg version =>
      hs ← defaults cfg;
      Some {| url := under cfg "/v1/messages";
              headers := [("x-api-key", api_key cfg); ("anthropic-version", version); ("content-type", "application/json")] ++
                hs ++ anthropic_headers (resolved_policy req);
              payload := outgoing_to_vec (AnthropicBuild.build b64_encode req target) |}
  | GithubCopilot _ | Config.Gemini _ => None
  end.
(** The parser of the dialect, for a stream and for a whole body. *)
Definition stream_reading (u : UpstreamConfig) (b : RawByteStream) : Stream :=
  match u with
  | OpenAiCompatible _ => ChatSse.parse_all (sse b)
  | Deepseek _ | Glm _ => DeepSeek.parse_all (sse b)
  | Config.Anthropic _ _ => AnthropicParse.parse_stream from_event (sse b)
  | GithubCopilot _ | Config.Gemini _ => []
  end.
Definition body_reading (u : UpstreamConfig) : string → Stream :=
  match u with
  | OpenAiCompatible _ => chat_parse
  | Deepseek _ | Glm _ => deepseek_parse_unary
  | Config.Anthropic _ _ => AnthropicParse.parse_unary value_to_string from_response
  | GithubCopilot _ | Config.Gemini _ => λ _, []
  end.

(** The four [complete]s are one exchange each. *)
Lemma complete_receives name u p req target :
  provider_of name u = Some (Ok p) →
  (∃ e, complete p req target = Err e ∧ glm_build b64_encode to_value req target false = Err e ∧ ∃ cfg, u = Glm cfg) ∨
  ∃ request, expected_request u req target = Some request ∧
    complete p req target = receive (stream req) (stream_reading u) (body_reading u) (send request).
Proof.
  destruct u as [cfg|c|cfg version|cfg|cfg|cfg]; cbn [provider_of]; try done; intros [= Hp]; cbn [expected_request].
  1, 3, 4: unfold chat_provider in Hp. 4: unfold anthropic_provider in Hp.
  all: destruct (default_header_map header_name header_value (entries (default_headers cfg)) []) as [hs|e]; [|done]; cbn [result_ok mbind option_bind];
    destruct (http_client (request_timeout_secs cfg)) as [[]|e]; [|done]; injection Hp as <-.
  1, 2, 4: by right; eexists.
  cbn [glm complete]. unfold glm_complete. cbn [accepts_xhigh chat_capabilities].
  destruct (glm_build b64_encode to_value req target false) as [body|e]; simpl; [by right; eexists|left; by eauto 6].
Qed.
(** What a dialect's parsers make of an answer is in the contract. *)
Lemma reading_meets_contract name u p :
  provider_of name u = Some (Ok p) →
  (∀ b, upstream_behaves u (sse b) → assert_canonical_lifecycle (oks (stream_reading u b)) = Ok tt) ∧ unary_reads (body_reading u).
Proof.
  destruct u as [cfg|c|cfg version|cfg|cfg|cfg]; try done; intros _; split.
  - intros b. apply parse_all_lifecycle.
  - apply chat_unary_reads.
  - intros b (g & Hg & Ho). by eapply parse_stream_accepted.
  - apply anthropic_unary_reads.
  - intros b. apply parse_all_accepted.
  - apply chat_unary_reads.
  - intros b. apply parse_all_accepted.
  - apply chat_unary_reads.
Qed.


(** How a completion fails.  The error is one of the transport, or the status
    of an answer that is no success, or, for GLM alone, a body that is no object;
    so an attempt is repeated elsewhere exactly for transport errors, 429 and
    5xx. *)
Theorem completion_failures name u p req target e :
  provider_of name u = Some (Ok p) → complete p req target = Err e →
  (∃ m, e = Network m ∧ fallback_eligibility e = Eligible) ∨
  (∃ code b, e = Upstream code b ∧ ¬ (200 ≤ code < 300)%Z ∧
     (fallback_eligibility e = Eligible ↔ (500 ≤ code)%Z ∨ code = 429%Z)) ∨
  ((∃ cfg, u = Glm cfg) ∧ e = Encode "GLM request body must be a JSON object").
Proof.
  intros Hp Hc. destruct (complete_receives name u p req target Hp) as [(e' & He & Hg & Hu)|(request & _ & He)];
    rewrite He in Hc.
  - injection Hc as ->. right. right. split; [done|]. revert Hg. unfold glm_build. destruct (to_value _); congruence.
  - apply receive_err in Hc as [(m & _ & ->)|[(r & _ & Hs & ->)|(r & m & _ & _ & _ & _ & ->)]]; [left; by eauto| |left; by eauto].
    right. left. eexists _, _. split; [done|]. split.
    + intros Hr. by rewrite is_success_true in Hs.
    + cbn [fallback_eligibility]. destruct (Z.leb_spec 500 (status r)); [|destruct (Z.eqb_spec (status r) 429)];
        split; (done || by auto || lia).
Qed.

(** The passthrough is transparent.  For a JSON object with a [model] that is
    a string, the upstream receives the client's bytes with that string replaced,
    under headers that are the provider's and the route's, and the client
    receives the upstream's content type and bytes. *)
Theorem anthropic_passthrough_relays self w ms k ms' target :
  spaces w → json_members ms → (Z.of_nat (length (w ++ object_text ms ++ k)) ≤ u32_max)%Z →
  needs_no_json_escape (Request.model target) = true →
  replace_value (bytes "model") (quoted_bytes (Request.model target)) ms = Some ms' →
  let request := {|
    url := messages_url self;
    headers := key_headers self ++ [json_content] ++ ap_headers self ++ beta_header target;
    payload := w ++ object_text ms' ++ k |} in
  proxy_raw (anthropic self) (w ++ object_text ms ++ k) target AnthropicMessages =
    match send request with
    | Err e => Err (Network e)
    | Ok r =>
        if is_success (status r) then Ok (Some (default "text/event-stream" (content_type r), chunks r))
        else Err (Upstream (status r) (default "<unreadable>" (read_text (chunks r))))
    end.
Proof.
  intros Hw Hm Hl He Hr request. cbn [anthropic proxy_raw anthropic_proxy_raw]. unfold passthrough_send.
  rewrite rewrite_model_members, He, Hr by done. cbn [mbind option_bind fmap option_fmap option_map default].
  unfold raw_request, anthropic_request_headers. rewrite <- !app_assoc. fold request.
  unfold relay. destruct (send request) as [r|e]; simpl; [|done]. by destruct (is_success (status r)).
Qed.
End Providers.

(** ** An OpenAI-compatible and an Anthropic upstream *)
Module Samples.
Section Values.
Context `{J : JsonApi}.
Definition route : BackendTarget := {| provider := "up"; Request.model := "opus";
  policy := {| default_reasoning_effort := None; default_anthropic_beta := None; reasoning_mapping := [] |} |}.
(** A request of a client that sends its own version and a beta flag. *)
Definition client_headers : list (string * string) := [("anthropic-version", "2023-06-01"); ("anthropic-beta", "context-1m")].
Definition request (s : bool) : CanonicalRequest := {|
  id := "req"; frontend_kind := AnthropicMessages; requested_model := "claude"; req_model := "claude";
  system := []; messages := []; tools := []; tool_choice := ChoiceAuto;
  generation := {| max_tokens := None; temperature := None; top_p := None; top_k := None;
    presence_penalty := None; frequency_penalty := None; stop_sequences := []; seed := None; reasoning := None |};
  response_format := None; stream := s; Request.metadata := {| user_id := None; agent := None |};
  inbound_anthropic_headers := client_headers;
  resolved_policy := {| Request.reasoning_effort := None; Request.reasoning_budget_tokens := None;
    supported_efforts := None; Request.supported_endpoints := None; anthropic_headers := client_headers |};
  extensions := ∅ |}.
End Values.
Definition upstream : HttpUpstream := {|
  base_url := "https://up/"; api_key := "k"; default_headers := ∅; request_timeout_secs := 30;
  http_common := {| tier := Standard; cost := None; p95_latency_budget_ms := None |} |}.
Definition claude : AnthropicProvider := {|
  ap_name := "up"; ap_base_url := "https://up/"; ap_api_key := "k"; ap_version := "2023-06-01"; ap_headers := [] |}.
Definition named (n : string) (hs : list (string * string)) : list string :=
  omap (λ h, if bool_decide (h.1 = n) then Some h.2 else None) hs.

(** The client's [anthropic-beta] reaches the upstream on the canonical path and
    is lost on the passthrough, which the comments say replays it. *)
Example client_beta_is_dropped `{J : JsonApi} `{V : !JsonValues J} b64 to_bytes body :
  named "anthropic-beta" (headers (anthropic_request b64 to_bytes claude (request true) route)) = ["context-1m"] ∧
  named "anthropic-beta" (headers (raw_request claude body route)) = [].
Proof. split; reflexivity. Qed.
(** The client's [anthropic-version] is sent beside the provider's. *)
Example version_is_sent_twice `{J : JsonApi} `{V : !JsonValues J} b64 to_bytes :
  named "anthropic-version" (headers (anthropic_request b64 to_bytes claude (request true) route)) = ["2023-06-01"; "2023-06-01"].
Proof. reflexivity. Qed.
Example slashes_are_trimmed : messages_url claude = "https://up/v1/messages".
Proof. reflexivity. Qed.

Definition answered (_ : HttpRequest) : result HttpResponse string :=
  Ok {| status := 200; content_type := Some "text/event-stream"; chunks := [Ok (bytes "data: ...")] |}.
#[local] Instance sample_json : JsonApi := TreeJson ChatSseLifecycle.Samples.table.
#[local] Instance sample_order : HashOrder := elements_order.
Definition events : list (result SseEvent string) :=
  ChatSseLifecycle.Samples.sse <$> ["role"; "hello"; "tool"; "stop"; "[DONE]"].


Lemma completion_failures_witness :
  fallback_eligibility (Upstream 429 "slow down") = Eligible.
Proof.
  destruct (completion_failures (λ s, s) (λ _, TNull) (λ _, []) (λ _, []) (λ _, []) (λ _, Err "") (λ _, Err "")
    (λ s, Ok s) (λ s, Ok s) (λ _, Ok tt) (λ _, Ok {| status := 429; content_type := None; chunks := [] |})
    (λ _, Some "slow down") (λ _ _, Err "") (λ _, events) (λ _, Err "") (λ _, None) (λ _, Err "")
    "up" (OpenAiCompatible upstream) _ (request true) route (Upstream 429 "slow down") eq_refl eq_refl)
    as [(m & H & _)|[(c & b & H & _ & He)|[_ H]]]; [discriminate H| |discriminate H].
  apply He. right. by injection H as <- _.
Defined.

Lemma anthropic_passthrough_relays_witness :
  proxy_raw (anthropic (λ s, s) (λ _, []) (λ _, Err "") (λ _, Err "") answered (λ _, None) (λ _ _, Err "") (λ _, events)
      (λ _, Err "") (λ _, None) (λ _, Err "") claude) Passthrough.Samples.body route AnthropicMessages =
    Ok (Some ("text/event-stream", [Ok (bytes "data: ...")])).
Proof.
  refine (eq_trans (anthropic_passthrough_relays (λ s, s) (λ _, []) (λ _, Err "") (λ _, Err "") answered (λ _, None) (λ _ _, Err "")
    (λ _, events) (λ _, Err "") (λ _, None) (λ _, Err "") claude (Passthrough.Samples.spelled " ") Passthrough.Samples.members
    (Passthrough.Samples.spelled " ") _ route _ Passthrough.Samples.members_ok _ eq_refl eq_refl) _).
  - by repeat constructor.
  - by vm_compute.
  - reflexivity.
Defined.
End Samples.
