(* ===== verification/Copilot.v ===== *)
(** * The GitHub Copilot provider
    (crates/providers/src/github_copilot: mod.rs, token_manager.rs, models.rs, headers.rs)

    Copilot serves two dialects behind one short-lived token.  The token manager is
    an actor whose messages are processed one at a time; a completion asks it for
    a token, chooses the dialect from the model's endpoints, and drops the token
    when it is rejected.  HTTP, the clock, the credential store and serde_json are
    parameters. *)
From S2P Require Import Prelude Float64 Json CoreTypes Emit Drain Lifecycle Fallback Request Config ModelIndex ChatSse ChatUnary ChatSseLifecycle ResponsesParse ChatBuild ChatFlavors ResponsesBuild GeminiScan Http Passthrough Upstreams.
#[local] Open Scope string_scope.
#[local] Open Scope list_scope.

(** ** Which dialect *)
Definition CHAT_COMPLETIONS_ENDPOINT : string := "/chat/completions".
Definition RESPONSES_ENDPOINT : string := "/responses".
Definition endpoints_contain (eps : list string) (needle : string) : bool := existsb (λ e, bool_decide (e = needle)) eps.
Definition is_responses (k : FrontendKind) : bool := match k with OpenAiResponses => true | _ => false end.
Definition decide_use_responses_api (frontend : FrontendKind) (endpoints : option (list string)) : bool :=
  let natural_responses := is_responses frontend in
  match endpoints with
  | None => natural_responses
  | Some eps =>
      let supports_chat := endpoints_contain eps CHAT_COMPLETIONS_ENDPOINT in
      let supports_responses := endpoints_contain eps RESPONSES_ENDPOINT in
      if natural_responses then supports_responses || negb supports_chat else negb supports_chat && supports_responses
  end.

(** ** Tokens *)
Record CopilotToken := { token : string; api_base : string; expires_at_unix : Z }.
Record StoredCredentials := { github_oauth_token : string; created_at_unix : Z }.
Record TokenExchangeResponse := { ter_token : string; expires_at : Z; refresh_in : option Z; endpoints_api : string }.
Definition i64_min : Z := (-9223372036854775808)%Z.
Definition wrap_i64 (z : Z) : Z := ((z - i64_min) mod 18446744073709551616 + i64_min)%Z.

Definition EDITOR_VERSION : string := "AgentShim/0.4.0".
Definition EDITOR_PLUGIN_VERSION : string := "AgentShim/0.4.0".
Definition COPILOT_INTEGRATION_ID : string := "vscode-chat".
Definition OPENAI_INTENT : string := "conversation-panel".
Definition USER_AGENT : string := "GitHubCopilotChat/0.20.0".

(** [exchange_with_base]; the answer is its status, its text and its decoding. *)
Record TokenAnswer := { ta_status : Z; ta_text : option string; ta_json : result TokenExchangeResponse string }.
Section Exchange.
Context (get_token : string → list (string * string) → result TokenAnswer string).
Definition exchange_with_base (base_url : string) (creds : StoredCredentials) : result CopilotToken ProviderError :=
  let url := (trim_end_slashes base_url ++ "/copilot_internal/v2/token")%string in
  let hs := [("authorization", ("token " ++ github_oauth_token creds)%string); ("user-agent", USER_AGENT);
             ("Editor-Version", EDITOR_VERSION); ("Accept", "application/json")] in
  let? resp := map_err Network (get_token url hs) in
  if bool_decide (ta_status resp = 401%Z) then Err (Upstream 401 "unauthorized – re-run `copilot login`")
  else if negb (is_success (ta_status resp)) then Err (Upstream (ta_status resp) (default "" (ta_text resp)))
  else
    let? exchange := map_err (λ e, Decode ("token response: " ++ e)) (ta_json resp) in
    Ok {| token := ter_token exchange; api_base := endpoints_api exchange; expires_at_unix := expires_at exchange |}.
End Exchange.

(** The credential store: reading the file and decoding it are parameters. *)
Section Credentials.
Context (read_to_string : string → result string string) (credentials_from_str : string → result StoredCredentials string).
Inductive CredentialSource := Preloaded (c : StoredCredentials) | Lazy (path : string).
Definition load_credentials (path : string) : result StoredCredentials ProviderError :=
  let? data := map_err (λ e, Encode ("read credentials: " ++ e)) (read_to_string path) in
  map_err (λ e, Decode ("parse credentials: " ++ e)) (credentials_from_str data).
Definition load_source (self : CredentialSource) : result StoredCredentials ProviderError :=
  match self with Preloaded c => Ok c | Lazy path => load_credentials path end.
End Credentials.

(** ** The actor

    A [Get] carries what the actor reads while it serves it: the clock, the
    credentials and the exchange. *)
Record Reading := {
  now : Z;
  load : result StoredCredentials ProviderError;
  exchange : StoredCredentials → result CopilotToken ProviderError;
}.
Inductive ActorMsg := Get (r : Reading) | Invalidate.
Section Actor.
Context (show : ProviderError → string).
Definition fresh (now : Z) (t : CopilotToken) : bool := (60 <? wrap_i64 (expires_at_unix t - now))%Z.
Definition refresh (cached : option CopilotToken) (r : Reading)
    : option CopilotToken * result CopilotToken ProviderError :=
  match load r with
  | Err e => (cached, Err (Network ("load credentials: " ++ show e ++ " — run `agent-shim copilot login` first")))
  | Ok creds =>
      match exchange r creds with
      | Ok t => (Some t, Ok t)
      | Err e => (None, Err e)
      end
  end.
Definition actor_get (cached : option CopilotToken) (r : Reading)
    : option CopilotToken * result CopilotToken ProviderError :=
  match cached with
  | Some t => if fresh (now r) t then (cached, Ok t) else refresh cached r
  | None => refresh cached r
  end.
Definition actor_step (cached : option CopilotToken) (m : ActorMsg)
    : option CopilotToken * option (result CopilotToken ProviderError) :=
  match m with
  | Invalidate => (None, None)
  | Get r => let '(cached', reply) := actor_get cached r in (cached', Some reply)
  end.
(** The cache after some messages, from an actor that was just spawned. *)
Definition actor (ms : list ActorMsg) : option CopilotToken := foldl (λ c m, (actor_step c m).1) None ms.

(** What is held has more than a minute left for a reading. *)
Definition usable (held : option CopilotToken) (r : Reading) : Prop :=
  ∃ t, held = Some t ∧ (60 < wrap_i64 (expires_at_unix t - now r))%Z.
(** A message without an exchange, after which [t] may still be handed out: it is
    served from the cache, or its credentials cannot be loaded. *)
Definition no_exchange (t : CopilotToken) (m : ActorMsg) : Prop :=
  match m with
  | Invalidate => False
  | Get r => (60 < wrap_i64 (expires_at_unix t - now r))%Z ∨ ∃ e, load r = Err e
  end.
(** A token is current after [ms]: an exchange gave it, performed because nothing
    usable was held, and since then no other exchange was performed and no
    invalidation came. *)
Definition current (ms : list ActorMsg) (t : CopilotToken) : Prop :=
  ∃ ms1 r creds ms2, ms = ms1 ++ Get r :: ms2 ∧
    ¬ usable (actor ms1) r ∧ load r = Ok creds ∧ exchange r creds = Ok t ∧ Forall (no_exchange t) ms2.

Lemma actor_snoc ms m : actor (ms ++ [m]) = (actor_step (actor ms) m).1.
Proof. unfold actor. by rewrite foldl_app. Qed.
(** A reading is served from the cache, or by an exchange. *)
Lemma get_usable held r t :
  held = Some t → (60 < wrap_i64 (expires_at_unix t - now r))%Z → actor_step held (Get r) = (Some t, Some (Ok t)).
Proof.
  intros -> Hu. cbn [actor_step]. unfold actor_get, fresh. by rewrite (proj2 (Z.ltb_lt _ _) Hu).
Qed.
Lemma get_refreshes held r :
  ¬ usable held r → actor_step held (Get r) = ((refresh held r).1, Some (refresh held r).2).
Proof.
  intros Hu. cbn [actor_step]. unfold actor_get, fresh. destruct held as [t|]; [|by destruct (refresh None r)].
  destruct (Z.ltb_spec 60 (wrap_i64 (expires_at_unix t - now r))); [|by destruct (refresh (Some t) r)].
  destruct Hu. by exists t.
Qed.
Lemma usable_dec held r : usable held r ∨ ¬ usable held r.
Proof.
  unfold usable. destruct held as [t|]; [|right; by intros (? & ? & _)].
  destruct (Z.lt_decidable 60 (wrap_i64 (expires_at_unix t - now r))); [left; by eauto|right; by intros (? & [= <-] & ?)].
Qed.
(** What the actor holds is what is current. *)
Lemma held_is_current ms t : actor ms = Some t ↔ current ms t.
Proof.
  split.
  - induction ms as [|m ms IH] using rev_ind; [done|]. rewrite actor_snoc. destruct m as [r|]; [|done].
    assert (Hkeep : actor ms = Some t → no_exchange t (Get r) → current (ms ++ [Get r]) t).
    { intros Hc Hn. destruct (IH Hc) as (ms1 & r1 & k & ms2 & -> & H1 & H2 & H3 & H4).
      exists ms1, r1, k, (ms2 ++ [Get r]). rewrite <- app_assoc. split_and!; try done. apply Forall_app. split; [done|]. constructor; [done|constructor]. }
    destruct (usable_dec (actor ms) r) as [(t' & Ht & Hu)|Hu].
    + rewrite (get_usable _ _ _ Ht Hu). intros [= ->]. apply Hkeep; [done|by left].
    + rewrite get_refreshes by done. unfold refresh. destruct (load r) as [k|e] eqn:Hl; cbn [fst].
      * destruct (exchange r k) as [t'|e] eqn:Hx; [|done]. intros [= ->]. exists ms, r, k, []. by repeat split.
      * intros Hc. apply Hkeep; [done|]. right. by exists e.
  - intros (ms1 & r & k & ms2 & -> & Hu & Hl & Hx & Hk).
    induction ms2 as [|m ms2 IH] using rev_ind.
    { rewrite actor_snoc, get_refreshes by done. unfold refresh. by rewrite Hl, Hx. }
    apply Forall_app in Hk as [Hk Hm]. specialize (IH Hk). rewrite app_comm_cons, app_assoc, actor_snoc, IH.
    apply Forall_inv in Hm. destruct m as [r'|]; [|done].
    destruct (usable_dec (Some t) r') as [(t' & [= <-] & Hu')|Hu']; [by rewrite (get_usable _ _ t)|].
    rewrite get_refreshes by done. destruct Hm as [Hm|[e He]]; [destruct Hu'; by exists t|]. unfold refresh. by rewrite He.
Qed.

(** C36: tokens are current and live.  Whatever messages the manager has served, a
    token it hands out was either obtained for this very request, when nothing
    usable was held, and is held from then on; or it is the one of the last
    exchange that was performed, was not invalidated since, and has more than a
    minute left.  A request fails only when nothing usable is held and the
    credentials or the exchange fail now; a failed exchange leaves no token, and
    credentials that cannot be loaded leave what was held. *)
Theorem tokens_are_current ms r reply :
  (actor_step (actor ms) (Get r)).2 = Some reply →
  match reply with
  | Ok t => ((∀ t', current ms t' → (wrap_i64 (expires_at_unix t' - now r) ≤ 60)%Z) ∧
             ∃ creds, load r = Ok creds ∧ exchange r creds = Ok t) ∨
            (current ms t ∧ (60 < wrap_i64 (expires_at_unix t - now r))%Z)
  | Err e => ((∃ e', load r = Err e') ∨ ∃ creds, load r = Ok creds ∧ exchange r creds = Err e) ∧
             ∀ t', current ms t' → (wrap_i64 (expires_at_unix t' - now r) ≤ 60)%Z
  end ∧
  ∀ t, current (ms ++ [Get r]) t ↔ reply = Ok t ∨ is_ok reply = false ∧ is_ok (load r) = false ∧ current ms t.
Proof.
  intros Hr. assert (Hnone : ¬ usable (actor ms) r → ∀ t', current ms t' → (wrap_i64 (expires_at_unix t' - now r) ≤ 60)%Z).
  { intros Hu t' Ht%held_is_current. destruct (Z.le_gt_cases (wrap_i64 (expires_at_unix t' - now r)) 60); [done|].
    destruct Hu. exists t'. split; [done|lia]. }
  assert (Hafter : ∀ t, current (ms ++ [Get r]) t ↔ (actor_step (actor ms) (Get r)).1 = Some t).
  { intros t. by rewrite <- held_is_current, actor_snoc. }
  destruct (usable_dec (actor ms) r) as [(t & Ht & Hu)|Hu].
  - rewrite (get_usable _ _ _ Ht Hu) in Hr, Hafter. injection Hr as <-. split; [right; by rewrite <- held_is_current|].
    intros t'. rewrite Hafter. simpl. naive_solver.
  - specialize (Hnone Hu). rewrite get_refreshes in Hr, Hafter by done. injection Hr as <-. unfold refresh in *.
    destruct (load r) as [k|e] eqn:Hl; cbn [fst snd is_ok] in *.
    + destruct (exchange r k) as [t|e] eqn:Hx; cbn [fst snd is_ok] in *; (split; [eauto 8|]); intros t'; rewrite Hafter; naive_solver.
    + split; [eauto|]. intros t'. rewrite Hafter, <- held_is_current. naive_solver.
Qed.

(** A rejected token does not come back.  After an invalidation, the next
    token is the one of a new exchange, whatever was cached. *)
Theorem invalidated_tokens_are_replaced ms ms' r reply :
  Forall (λ m, m = Invalidate) ms' → ms' ≠ [] →
  (actor_step (actor (ms ++ ms')) (Get r)).2 = Some reply →
  match load r with
  | Ok creds => reply = exchange r creds
  | Err e => is_ok reply = false
  end.
Proof.
  intros Hi Hne. destruct ms' as [|m' ms' _] using rev_ind; [done|]. apply Forall_app in Hi as [_ Hi].
  apply Forall_inv in Hi as ->. unfold actor. rewrite app_assoc, foldl_app. cbn [foldl actor_step actor_get fst]. unfold refresh.
  destruct (load r) as [k|e]; [|by intros [= <-]]. destruct (exchange r k); by intros [= <-].
Qed.
End Actor.

(** ** The catalogue (models.rs) *)
Section Models.
Context `{J : JsonApi} (as_bool : value → option bool).
Definition get_from (k : string) (v : option value) : option value := v ≫= get k.
Definition get_bool (k : string) (v : option value) : option bool := get_from k v ≫= as_bool.
Definition get_count (k : string) (v : option value) : option N := (λ n, Z.to_N (as_u32 n)) <$> (get_from k v ≫= as_u64).
(** [.filter(|v| !v.is_empty())]. *)
Definition nonempty {A} (o : option (list A)) : option (list A) :=
  match o with Some [] => None | _ => o end.
Definition get_strings (k : string) (v : option value) : option (list string) :=
  nonempty ((λ arr : list value, omap Json.as_str arr) <$> (get_from k v ≫= as_array)).

Definition reasoning_effort_flag (values : option (list string)) (thinking adaptive : option bool) : option bool :=
  match values, thinking, adaptive with
  | Some (_ :: _), _, _ => Some true
  | _, Some b, _ => Some b
  | _, _, Some b => Some b
  | _, _, _ => None
  end.
Definition model_metadata_of (item : value) : ModelMetadata :=
  let caps := get "capabilities" item in
  let limits := get_from "limits" caps in
  let supports := get_from "supports" caps in
  let reasoning_effort_values := get_strings "reasoning_effort" supports in
  {| context_window_tokens := get_count "max_context_window_tokens" limits;
     max_output_tokens := get_count "max_output_tokens" limits;
     family := get_from "family" caps ≫= Json.as_str;
     supports := {|
       ModelIndex.vision := get_bool "vision" supports; tool_calls := get_bool "tool_calls" supports;
       ModelIndex.streaming := get_bool "streaming" supports;
       structured_outputs := get_bool "structured_outputs" supports;
       ModelIndex.reasoning_effort := reasoning_effort_flag reasoning_effort_values (get_bool "thinking" supports)
                             (get_bool "adaptive_thinking" supports);
       reasoning_effort_values := reasoning_effort_values |};
     ModelIndex.supported_endpoints := get_strings "supported_endpoints" (Some item);
     version := get "version" item ≫= Json.as_str;
     adaptive_thinking := get_bool "adaptive_thinking" supports;
     thinking_budget_min := get_count "min_thinking_budget" supports;
     thinking_budget_max := get_count "max_thinking_budget" supports |}.
Definition parse_models_response (raw : string) : result (gmap string ModelMetadata) ProviderError :=
  let? json := map_err (λ e, Decode ("models response: " ++ e)) (from_str raw) in
  match get_array "data" json with
  | None => Err (Decode "models response missing `data` array")
  | Some data =>
      Ok (foldl (λ out item, match get_str "id" item with
                             | Some id => <[id := model_metadata_of item]> out
                             | None => out
                             end) ∅ data)
  end.

(** [models::list_models] and the trait's [list_models]; [get_text] is the request
    with the token's headers, its status and its text. *)
Context (get_text : string → list (string * string) → result (Z * result string string) string).
Definition fetch_models (t : CopilotToken) : result (gmap string ModelMetadata) ProviderError :=
  let url := (trim_end_slashes (api_base t) ++ "/models")%string in
  let hs := [bearer_auth (token t); ("user-agent", USER_AGENT); ("Editor-Version", EDITOR_VERSION);
             ("Editor-Plugin-Version", EDITOR_PLUGIN_VERSION); ("Copilot-Integration-Id", COPILOT_INTEGRATION_ID)] in
  let? resp := map_err Network (get_text url hs) in
  if negb (is_success resp.1) then Err (Upstream resp.1 (default "" (result_ok resp.2)))
  else let? body := map_err Network resp.2 in parse_models_response body.
Definition copilot_list_models (given : result CopilotToken ProviderError)
    : result (option (gmap string ModelMetadata)) ProviderError :=
  let? t := given in
  let? models := fetch_models t in
  Ok (if bool_decide (models = ∅) then None else Some models).

(** The catalogue has every identified item of the answer, with the last of its
    name. *)
Lemma parse_models_spec raw out :
  parse_models_response raw = Ok out →
  ∃ json data, from_str raw = Ok json ∧ get_array "data" json = Some data ∧
    ∀ id, out !! id = model_metadata_of <$> last (filter (λ item, get_str "id" item = Some id) data).
Proof.
  unfold parse_models_response. destruct (from_str raw) as [json|e]; simpl; [|done].
  destruct (get_array "data" json) as [data|] eqn:Hd; [|done]. intros [= <-]. exists json, data. split_and!; [done|done|].
  intros id. clear Hd. induction data as [|item data IH] using rev_ind; [done|].
  rewrite foldl_app, filter_app. cbn [foldl]. rewrite filter_cons, filter_nil. case_decide as Hi.
  - rewrite Hi, lookup_insert_eq, last_snoc. done.
  - rewrite app_nil_r, <- IH. destruct (get_str "id" item) as [id'|]; [|done].
    rewrite lookup_insert_ne; [done|]. intros ->. done.
Qed.
End Models.

(** ** The provider *)
Definition copilot_capabilities : ProviderCapabilities := {|
  streaming := true; tool_use := true; vision := true; json_mode := true; accepts_xhigh := true |}.
Section Provider.
Context `{J : JsonApi} `{V : !JsonValues J} `{H : HashOrder}.
Context (b64_encode : string → string) (chat_to_vec : ChatBody → list byte) (responses_to_vec : ResponsesBody → list byte).
Context (from_slice : list byte → result tree string) (to_vec : tree → result (list byte) string).
Context (header_value : string → result string string).
Context (send : HttpRequest → result HttpResponse string) (read_text : RawByteStream → option string).
Context (sse : RawByteStream → list (result SseEvent string)).
#[local] Abbreviation Stream := (list (result StreamEvent StreamError)).

Definition header_entry (name val : string) : result (string * string) ProviderError :=
  let? v := map_err (λ e, Encode ("header " ++ name ++ ": " ++ e)) (header_value val) in Ok (name, v).
Definition build_copilot_headers (t : CopilotToken) (request_id : string) (stream : bool)
    : result (list (string * string)) ProviderError :=
  let? auth := map_err (λ e, Encode ("auth header: " ++ e)) (header_value ("Bearer " ++ token t)) in
  let? ev := header_entry "editor-version" EDITOR_VERSION in
  let? epv := header_entry "editor-plugin-version" EDITOR_PLUGIN_VERSION in
  let? cid := header_entry "copilot-integration-id" COPILOT_INTEGRATION_ID in
  let? oi := header_entry "openai-intent" OPENAI_INTENT in
  let? rid := header_entry "x-request-id" request_id in
  let? accept := (if stream then result_map (λ h, [h]) (header_entry "accept" "text/event-stream") else Ok []) in
  Ok ([("authorization", auth); json_content; ("user-agent", USER_AGENT); ev; epv; cid; oi; rid] ++ accept).

(** [obj.insert("stream", true)]. *)
Definition force_stream (b : ResponsesBody) : ResponsesBody := {|
  rb_model := rb_model b; rb_stream := true; rb_input := rb_input b; rb_instructions := rb_instructions b;
  rb_tools := rb_tools b; rb_tool_choice := rb_tool_choice b; rb_max_output_tokens := rb_max_output_tokens b;
  rb_temperature := rb_temperature b; rb_top_p := rb_top_p b; rb_effort := rb_effort b |}.
Definition use_responses_api (req : CanonicalRequest) : bool :=
  decide_use_responses_api (frontend_kind req) (Request.supported_endpoints (resolved_policy req)).
Definition copilot_request (t : CopilotToken) (hs : list (string * string)) (req : CanonicalRequest) (target : BackendTarget)
    : HttpRequest :=
  let base := trim_end_slashes (api_base t) in
  let '(url, payload) :=
    if use_responses_api req then
      ((base ++ "/v1/responses")%string, responses_to_vec (force_stream (ResponsesBuild.build b64_encode req target)))
    else
      ((base ++ "/chat/completions")%string,
       chat_to_vec (ChatBuild.build b64_encode req target (accepts_xhigh copilot_capabilities))) in
  {| url := url; headers := json_content :: hs ++ anthropic_headers (resolved_policy req); payload := payload |}.

Definition rejected_token : ProviderError := Upstream 401 "Copilot token expired, invalidated – retry".
(** The messages that are posted to the token manager besides the [Get] that
    gave [t], and the answer. *)
Definition copilot_complete (given : result CopilotToken ProviderError) (request_id : string)
    (req : CanonicalRequest) (target : BackendTarget) : list ActorMsg * result Stream ProviderError :=
  match given with
  | Err e => ([], Err e)
  | Ok t =>
      match build_copilot_headers t request_id (stream req) with
      | Err e => ([], Err e)
      | Ok hs =>
          match send (copilot_request t hs req target) with
          | Err e => ([], Err (Network e))
          | Ok response =>
              if bool_decide (status response = 401%Z) then ([Invalidate], Err rejected_token)
              else ([],
                if negb (is_success (status response)) then Err (Upstream (status response) (default "" (read_text (chunks response))))
                else if use_responses_api req then Ok (ResponsesParse.parse (sse (chunks response)))
                else if stream req then Ok (ChatSse.parse_all (sse (chunks response)))
                else let? b := map_err Network (read_bytes (chunks response)) in
                     Ok (chat_parse (String.string_of_list_ascii b)))
          end
      end
  end.

Definition copilot_raw_request (t : CopilotToken) (hs : list (string * string)) (body : list byte) (target : BackendTarget)
    : HttpRequest := {|
  url := (trim_end_slashes (api_base t) ++ "/v1/responses")%string;
  headers := json_content :: hs ++ beta_header target; payload := body |}.
Definition copilot_proxy_raw (given : result CopilotToken ProviderError) (request_id : string) (body : list byte)
    (target : BackendTarget) (kind : FrontendKind) : list ActorMsg * result (option (string * RawByteStream)) ProviderError :=
  match kind, given with
  | OpenAiResponses, Err e => ([], Err e)
  | OpenAiResponses, Ok t =>
      match rewrite_by_value from_slice to_vec "Responses" body (Request.model target) with
      | Err e => ([], Err e)
      | Ok body =>
          match build_copilot_headers t request_id true with
          | Err e => ([], Err e)
          | Ok hs =>
              match send (copilot_raw_request t hs body target) with
              | Err e => ([], Err (Network e))
              | Ok response =>
                  if bool_decide (status response = 401%Z) then ([Invalidate], Err rejected_token)
                  else ([],
                    if negb (is_success (status response))
                    then Err (Upstream (status response) (default "" (read_text (chunks response))))
                    else Ok (Some (default "text/event-stream" (content_type response), chunks response)))
              end
          end
      end
  | _, _ => ([], Ok None)
  end.
End Provider.

(** ** What a completion does *)
Definition natural_endpoint (k : FrontendKind) : string :=
  if is_responses k then RESPONSES_ENDPOINT else CHAT_COMPLETIONS_ENDPOINT.
Definition used_endpoint (k : FrontendKind) (endpoints : option (list string)) : string :=
  if decide_use_responses_api k endpoints then RESPONSES_ENDPOINT else CHAT_COMPLETIONS_ENDPOINT.
Lemma endpoints_contain_spec eps e : endpoints_contain eps e = true ↔ e ∈ eps.
Proof.
  unfold endpoints_contain. rewrite existsb_exists. split.
  - intros (x & Hx & ->%bool_decide_eq_true). by apply list_elem_of_In.
  - intros He. exists e. split; [by apply list_elem_of_In|by apply bool_decide_eq_true].
Qed.

(** C37: the endpoint that is used.  It is one the model lists, if it lists any of
    the two that are spoken here, and it is the one of the client's own dialect
    unless the model lists the other one alone: Responses clients, and the
    clients of models that list /responses alone, go out in the Responses shape,
    all others in the Chat shape. *)
Theorem used_endpoint_is_supported k eps :
  let used := used_endpoint k (Some eps) in
  (CHAT_COMPLETIONS_ENDPOINT ∈ eps ∨ RESPONSES_ENDPOINT ∈ eps → used ∈ eps) ∧
  (used = natural_endpoint k ↔ natural_endpoint k ∈ eps ∨ used ∉ eps) ∧
  used_endpoint k None = natural_endpoint k.
Proof.
  unfold used_endpoint, decide_use_responses_api, natural_endpoint.
  pose proof (endpoints_contain_spec eps CHAT_COMPLETIONS_ENDPOINT) as Hc.
  pose proof (endpoints_contain_spec eps RESPONSES_ENDPOINT) as Hr.
  destruct (endpoints_contain eps CHAT_COMPLETIONS_ENDPOINT), (endpoints_contain eps RESPONSES_ENDPOINT), (is_responses k);
    simpl; naive_solver.
Qed.

Section Completion.
Context `{J : JsonApi} `{V : !JsonValues J} `{H : HashOrder}.
Context (b64_encode : string → string) (chat_to_vec : ChatBody → list byte) (responses_to_vec : ResponsesBody → list byte).
Context (header_value : string → result string string).
Context (send : HttpRequest → result HttpResponse string) (read_text : RawByteStream → option string).
Context (sse : RawByteStream → list (result SseEvent string)).
#[local] Abbreviation completes :=
  (copilot_complete b64_encode chat_to_vec responses_to_vec header_value send read_text sse).
#[local] Abbreviation request_of := (copilot_request b64_encode chat_to_vec responses_to_vec).

(** What a Copilot completion yields is in the canonical contract, whichever of
    the two dialects was chosen and whether or not the client streams. *)
Theorem copilot_completions_meet_contract given request_id req target posts events :
  completes given request_id req target = (posts, Ok events) →
  posts = [] ∧ ∃ t hs r, given = Ok t ∧ send (request_of t hs req target) = Ok r ∧ (200 ≤ status r < 300)%Z ∧
    if use_responses_api req then
      ∀ g, steps ResponsesParse.up_check ResponsesParse.upstream0 (omap ResponsesParse.readable (sse (chunks r))) = Some g →
        assert_canonical_lifecycle (oks events) = Ok tt
    else if stream req then
      ChatSseLifecycle.conforms (sse (chunks r)) = true → assert_canonical_lifecycle (oks events) = Ok tt
    else (∃ e, events = [Err (DecodeError e)]) ∨
         ((Z.of_nat (length events) ≤ u32_max)%Z → assert_canonical_lifecycle (oks events) = Ok tt).
Proof.
  unfold copilot_complete. destruct given as [t|e]; [|done].
  destruct (build_copilot_headers header_value t request_id (stream req)) as [hs|e]; [|done].
  destruct (send _) as [r|e] eqn:Hr; [|done]. case_bool_decide; [done|].
  destruct (is_success (status r)) eqn:Hs; cbn [negb]; [|done].
  apply andb_true_iff in Hs as [Hs1%Z.leb_le Hs2%Z.ltb_lt].
  destruct (use_responses_api req); [|destruct (stream req)].
  - intros [= <- <-]. split; [done|]. exists t, hs, r. split_and!; [done|done|lia|lia|].
    intros g (v & Hm & Ho & _)%ResponsesParse.parse_accepted. by apply (assert_of_monitor _ v).
  - intros [= <- <-]. split; [done|]. exists t, hs, r. split_and!; [done|done|lia|lia|]. apply parse_all_lifecycle.
  - destruct (read_bytes (chunks r)) as [b|e]; simpl; [|done]. intros [= <- <-]. split; [done|].
    exists t, hs, r. split_and!; [done|done|lia|lia|].
    destruct (chat_unary_reads chat_unary_usage (String.string_of_list_ascii b)) as [[e He]|(evs & He & Hl)];
      unfold chat_parse; rewrite He; [left; by eauto|right]. rewrite length_fmap, oks_Ok. apply Hl.
Qed.

(** A rejected token is dropped, once and only then.  A completion posts an
    invalidation exactly when Copilot answered 401; the error it then reports is
    final for the request, and the manager starts over with an exchange. *)
Theorem rejections_invalidate show given request_id req target posts answer ms :
  completes given request_id req target = (posts, answer) →
  (posts ≠ [] ↔ ∃ t hs r, given = Ok t ∧ build_copilot_headers header_value t request_id (stream req) = Ok hs ∧
     send (request_of t hs req target) = Ok r ∧ status r = 401%Z) ∧
  (posts ≠ [] → answer = Err rejected_token ∧ fallback_eligibility rejected_token = Terminal ∧ actor show (ms ++ posts) = None).
Proof.
  unfold copilot_complete. destruct given as [t|e]; [|intros [= <- <-]; by split; [split; [|intros (? & ? & ? & ? & _)]|]].
  destruct (build_copilot_headers header_value t request_id (stream req)) as [hs|e] eqn:Hh.
  2:{ intros [= <- <-]; split; [split; [done|]|done]. intros (? & ? & ? & [= <-] & ? & _). congruence. }
  destruct (send _) as [r|e] eqn:Hr.
  2:{ intros [= <- <-]; split; [split; [done|]|done]. intros (? & ? & ? & [= <-] & ? & ? & _). congruence. }
  case_bool_decide as H4; intros [= <- <-].
  - split; [split; [|done]|].
    + intros _. by exists t, hs, r.
    + intros _. split_and!; [done|done|]. unfold actor. by rewrite foldl_app.
  - split; [split; [done|]|done]. intros (? & ? & ? & [= <-] & ? & ? & ?). congruence.
Qed.
End Completion.

(** ** Two tokens and a responses-only model *)
Module Samples.
Definition token_of (s : string) (expires : Z) : CopilotToken := {|
  token := s; api_base := "https://api.copilot/"; expires_at_unix := expires |}.
Definition creds : StoredCredentials := {| github_oauth_token := "gho"; created_at_unix := 0 |}.
Definition reading (at_ : Z) (t : result CopilotToken ProviderError) : Reading := {|
  now := at_; load := Ok creds; exchange := λ _, t |}.
Definition asked (at_ : Z) (s : string) : ActorMsg := Get (reading at_ (Ok (token_of s (at_ + 1800)))).
Definition shown : ProviderError → string := show_error (λ _, "401").

(** A token is kept until a minute before it expires. *)
Example token_is_kept : (actor_step shown (actor shown [asked 1000 "t1"]) (asked 2739 "t2")).2 = Some (Ok (token_of "t1" 2800)).
Proof. reflexivity. Qed.
Example token_is_renewed : (actor_step shown (actor shown [asked 1000 "t1"]) (asked 2740 "t2")).2 = Some (Ok (token_of "t2" 4540)).
Proof. reflexivity. Qed.
(** An invalidation does not say which token was rejected: of two requests that
    were given the same token, the second to report it drops its successor. *)
Example late_rejection_drops_the_successor :
  actor shown [asked 1000 "t1"; asked 1001 "t1"; Invalidate; asked 1002 "t2"] = Some (token_of "t2" 2802) ∧
  actor shown [asked 1000 "t1"; asked 1001 "t1"; Invalidate; asked 1002 "t2"; Invalidate] = None.
Proof. by split. Qed.
(** The difference of the two times is taken in 64 bits. *)
Example difference_wraps : fresh 1 (token_of "t" i64_min) = true.
Proof. reflexivity. Qed.
(** A token that has already expired is handed out when it has just been
    exchanged. *)
Example expired_when_exchanged :
  (actor_step shown None (Get (reading 1000 (Ok (token_of "t" 900))))).2 = Some (Ok (token_of "t" 900)).
Proof. reflexivity. Qed.
(** The address Copilot answers with is used as it is: [validate_api_base], which
    asks for HTTPS, is not called. *)
Definition plain_answer : TokenAnswer := {|
  ta_status := 200; ta_text := None;
  ta_json := Ok {| ter_token := "t"; expires_at := 9; refresh_in := None; endpoints_api := "http://api" |} |}.
Example plain_http_is_accepted :
  api_base <$> result_ok (exchange_with_base (λ _ _, Ok plain_answer) "https://github/" creds) = Some "http://api".
Proof. reflexivity. Qed.

Section Values.
Context `{J : JsonApi} `{V : !JsonValues J} (to_bytes : ChatBody → list byte) (to_bytes' : ResponsesBody → list byte).
Definition with_endpoints (eps : option (list string)) (s : bool) : CanonicalRequest :=
  let r := Upstreams.Samples.request s in {|
  id := id r; frontend_kind := AnthropicMessages; requested_model := requested_model r; req_model := req_model r;
  system := []; messages := []; tools := []; tool_choice := ChoiceAuto; generation := generation r;
  response_format := None; stream := s; Request.metadata := Request.metadata r; inbound_anthropic_headers := [];
  resolved_policy := {| Request.reasoning_effort := None; Request.reasoning_budget_tokens := None;
    supported_efforts := None; Request.supported_endpoints := eps; anthropic_headers := [] |};
  extensions := ∅ |}.
Definition sent (eps : option (list string)) (s : bool) : option HttpRequest :=
  (λ hs, copilot_request (λ s, s) to_bytes to_bytes' (token_of "t" 9) hs (with_endpoints eps s) Upstreams.Samples.route)
  <$> result_ok (build_copilot_headers (λ v, Ok v) (token_of "t" 9) "uuid" s).
Example responses_only_model : url <$> sent (Some ["/responses"; "ws:/responses"]) true = Some "https://api.copilot/v1/responses".
Proof. reflexivity. Qed.
Example unknown_model : url <$> sent None true = Some "https://api.copilot/chat/completions".
Proof. reflexivity. Qed.
(** The content type is sent twice: the headers are added to those of the body. *)
Example content_type_is_sent_twice :
  (λ q, Upstreams.Samples.named "content-type" (headers q)) <$> sent None true = Some ["application/json"; "application/json"].
Proof. reflexivity. Qed.
(** The passthrough asks for the Responses API whatever the model lists. *)
Example raw_ignores_endpoints hs body :
  url (copilot_raw_request (token_of "t" 9) hs body Upstreams.Samples.route) = "https://api.copilot/v1/responses" ∧
  used_endpoint OpenAiResponses (Some ["/v1/messages"; "/chat/completions"]) = "/chat/completions".
Proof. by split. Qed.
End Values.

(** The catalogue of an answer. *)
Definition bool_of (t : tree) : option bool := match t with TBool b => Some b | _ => None end.
Definition gpt : tree := TObj
  [("id", TStr "gpt-5.5"); ("supported_endpoints", TArr [TStr "/responses"; TStr "ws:/responses"]);
   ("capabilities", TObj [("limits", TObj [("max_context_window_tokens", TNum 4294967297)]);
                          ("supports", TObj [("reasoning_effort", TArr [TStr "low"]); ("thinking", TBool false)])])].
Definition catalogue : list (string * tree) := [("models", TObj [("data", TArr [TObj []; gpt])])].
#[local] Instance sample_json : JsonApi := TreeJson catalogue.
Definition listed : option ModelMetadata :=
  result_ok (parse_models_response (bool_of : value → option bool) "models") ≫= lookup "gpt-5.5".
Example gpt_is_listed :
  (λ m, (ModelIndex.supported_endpoints m, ModelIndex.reasoning_effort (supports m))) <$> listed =
    Some (Some ["/responses"; "ws:/responses"], Some true).
Proof. vm_compute. reflexivity. Qed.
(** Counts are cut to 32 bits. *)
Example large_window_wraps : (λ m, context_window_tokens m) <$> listed = Some (Some 1%N).
Proof. vm_compute. reflexivity. Qed.

Lemma tokens_are_current_witness :
  (60 < wrap_i64 (2800 - 1500))%Z ∧ current shown [asked 1000 "t1"] (token_of "t1" 2800).
Proof.
  destruct (tokens_are_current shown [asked 1000 "t1"] (reading 1500 (Err (Network "down"))) (Ok (token_of "t1" 2800)) eq_refl)
    as [[(_ & c & _ & H)|(H1 & H2)] _]; [discriminate H|]. split; [exact H2|exact H1].
Defined.
Lemma invalidated_tokens_are_replaced_witness :
  Ok (token_of "t2" 9) = exchange (reading 1500 (Ok (token_of "t2" 9))) creds.
Proof.
  exact (invalidated_tokens_are_replaced shown [asked 1000 "t1"] [Invalidate] (reading 1500 (Ok (token_of "t2" 9)))
    (Ok (token_of "t2" 9)) ltac:(by repeat constructor) ltac:(discriminate) eq_refl).
Defined.

Section Exchanges.
#[local] Instance upstream_json : JsonApi := TreeJson ResponsesParse.Samples.table.
#[local] Instance sample_order : HashOrder := elements_order.
Definition answers (code : Z) (_ : HttpRequest) : result HttpResponse string :=
  Ok {| status := code; content_type := None; chunks := [] |}.
(** A streamed answer that ends in a tool call, for a client that does not stream. *)
Lemma copilot_completions_meet_contract_witness :
  assert_canonical_lifecycle (oks (ResponsesParse.parse ResponsesParse.Samples.calling)) = Ok tt.
Proof.
  destruct (copilot_completions_meet_contract (λ s, s) (λ _, []) (λ _, []) (λ v, Ok v) (answers 200) (λ _, None)
    (λ _, ResponsesParse.Samples.calling) (Ok (token_of "t" 9)) "uuid" (with_endpoints (Some ["/responses"]) false)
    Upstreams.Samples.route [] (ResponsesParse.parse ResponsesParse.Samples.calling) eq_refl) as (_ & t & hs & r & _ & _ & _ & Hl).
  destruct (steps ResponsesParse.up_check ResponsesParse.upstream0
    (omap ResponsesParse.readable ResponsesParse.Samples.calling)) as [g|] eqn:Hg; [|exfalso; vm_compute in Hg; discriminate].
  exact (Hl g eq_refl).
Defined.

Lemma rejections_invalidate_witness :
  fallback_eligibility rejected_token = Terminal ∧ actor shown ([asked 1000 "t"] ++ [Invalidate]) = None.
Proof.
  destruct (rejections_invalidate (λ s, s) (λ _, []) (λ _, []) (λ v, Ok v) (answers 401) (λ _, None) (λ _, []) shown
    (Ok (token_of "t" 9)) "uuid" (with_endpoints None true) Upstreams.Samples.route [Invalidate] (Err rejected_token)
    [asked 1000 "t"] eq_refl) as [_ H].
  destruct (H ltac:(discriminate)) as (_ & H1 & H2). split; [exact H1|exact H2].
Defined.
End Exchanges.
End Samples.
