(* ===== verification/PiiScrubber.v ===== *)
(** * The PII scrubber (crates/plugins/src/builtin/pii_scrubber.rs)

    A plugin that rewrites requests, and streams by buffering their deltas.  The
    regular expressions are the regex crate's, a parameter: how often one matches
    and what replacing every match gives.  Its scratch slot is the world of the
    plugin trait. *)
From stdpp Require Import pretty.
From S2P Require Import Prelude Json CoreTypes Emit Lifecycle Request Plugins.
#[local] Open Scope string_scope.
#[local] Open Scope list_scope.
#[local] Open Scope nat_scope.

(** ** Configuration *)
Record RuleConfig := {
  rc_name : string; rc_pattern : string; rc_replacement : string; rc_case_insensitive : bool; rc_multiline : bool }.
Record PiiScrubberConfig := { inbound_rules : list RuleConfig; outbound_rules : list RuleConfig }.
(** [PluginConfigError::InvalidValue]; the plugin's name is the same in all. *)
Record InvalidValue := { field : string; reason : string }.
Definition is_ascii_alphanumeric (c : Ascii.ascii) : bool :=
  let n := Ascii.nat_of_ascii c in
  ((48 <=? n) && (n <=? 57)) || ((65 <=? n) && (n <=? 90)) || ((97 <=? n) && (n <=? 122)).
Definition is_valid_rule_name (s : string) : bool :=
  negb (str_is_empty s || (64 <? String.length s)) &&
  forallb (λ c, is_ascii_alphanumeric c || bool_decide (c = Ascii.ascii_of_nat 95) || bool_decide (c = Ascii.ascii_of_nat 45))
    (String.list_ascii_of_string s).

(** ** The scratch slot *)
Record PiiBuffer := { text : string; reasoning : string }.
Definition empty_buffer : PiiBuffer := {| text := ""; reasoning := "" |}.
Definition MAX_PATTERN_TAIL : nat := 64.
Definition FLUSH_THRESHOLD : nat := 256.

(** [s[..n]] and [s[n..]] on bytes. *)
Definition str_take (n : nat) (s : string) : string := String.substring 0 n s.
Definition str_drop (n : nat) (s : string) : string := String.substring n (String.length s - n) s.
(** A byte that continues a character. *)
Definition is_continuation (c : Ascii.ascii) : bool := (N.land (Ascii.N_of_ascii c) 192 =? 128)%N.
Fixpoint back_to_boundary (s : string) (i : nat) : nat :=
  match i with
  | 0 => 0
  | S i' => match String.get i s with
            | Some c => if is_continuation c then back_to_boundary s i' else i
            | None => i
            end
  end.
Definition floor_char_boundary (s : string) (idx : nat) : nat :=
  if String.length s <=? idx then String.length s else back_to_boundary s idx.

Section Scrubber.
Context `{J : JsonApi} {Regex : Type} (new_regex : string → result Regex string)
  (match_count : Regex → string → nat) (replace_all : Regex → string → string → string).

Record CompiledRule := { name : string; regex : Regex; replacement : string }.
Record PiiScrubber := { inbound : list CompiledRule; outbound : list CompiledRule }.

Definition final_pattern (r : RuleConfig) : string :=
  let flag := ((if rc_case_insensitive r then "i" else "") ++ (if rc_multiline r then "m" else ""))%string in
  if str_is_empty flag then rc_pattern r else "(?" ++ flag ++ ")" ++ rc_pattern r.
Fixpoint compile_from (direction : string) (i : nat) (seen : list string) (rules : list RuleConfig)
    : result (list CompiledRule) InvalidValue :=
  match rules with
  | [] => Ok []
  | r :: rules' =>
      let at_ f := (direction ++ "[" ++ pretty i ++ "]." ++ f)%string in
      let? _ := ensure (is_valid_rule_name (rc_name r)) {| field := at_ "name";
        reason := "rule name must match ^[A-Za-z0-9_-]{1,64}$, got `" ++ rc_name r ++ "`" |} in
      let? _ := ensure (negb (bool_decide (rc_name r ∈ seen)))
        {| field := at_ "name"; reason := "duplicate rule name `" ++ rc_name r ++ "`" |} in
      let? rx := map_err (λ e, {| field := at_ "pattern"; reason := "invalid regex `" ++ rc_pattern r ++ "`: " ++ e |})
                   (new_regex (final_pattern r)) in
      let? rest := compile_from direction (S i) (rc_name r :: seen) rules' in
      Ok ({| name := rc_name r; regex := rx; replacement := rc_replacement r |} :: rest)
  end.
Definition compile_rules (direction : string) (rules : list RuleConfig) : result (list CompiledRule) InvalidValue :=
  compile_from direction 0 [] rules.
Definition instantiate (cfg : PiiScrubberConfig) : result PiiScrubber InvalidValue :=
  let? i := compile_rules "inbound" (inbound_rules cfg) in
  let? o := compile_rules "outbound" (outbound_rules cfg) in
  Ok {| inbound := i; outbound := o |}.

(** ** Scrubbing *)
Definition apply_rules (rules : list CompiledRule) (t : string) : string :=
  foldl (λ current rule,
    if 0 <? match_count (regex rule) current then replace_all (regex rule) current (replacement rule) else current) t rules.

Definition scrub_block (self : PiiScrubber) (b : ContentBlock) : ContentBlock :=
  match b with
  | TextBlock t ext => TextBlock (apply_rules (inbound self) t) ext
  | ReasoningBlock t ext => ReasoningBlock (apply_rules (inbound self) t) ext
  | _ => b
  end.
Definition scrub_message (self : PiiScrubber) (m : Message) : Message := {|
  role := role m; content := scrub_block self <$> content m; msg_name := msg_name m;
  msg_source := msg_source m; msg_extensions := msg_extensions m |}.
Definition scrub_request (self : PiiScrubber) (req : CanonicalRequest) : CanonicalRequest := {|
  id := id req; frontend_kind := frontend_kind req; requested_model := requested_model req; req_model := req_model req;
  system := system req; messages := scrub_message self <$> messages req; tools := tools req; tool_choice := tool_choice req;
  generation := generation req; response_format := response_format req; stream := stream req;
  metadata := metadata req; inbound_anthropic_headers := inbound_anthropic_headers req;
  resolved_policy := resolved_policy req; extensions := extensions req |}.

Definition split_at (buf : string) : nat := floor_char_boundary buf (String.length buf - MAX_PATTERN_TAIL).
(** [flush_safe_prefix]: what is emitted and what stays. *)
Definition flush_safe_prefix (rules : list CompiledRule) (buf : string) : string * string :=
  (apply_rules rules (str_take (split_at buf) buf), str_drop (split_at buf) buf).
(** A delta joins the buffer, which is cut when it is too long. *)
Definition push_delta (rules : list CompiledRule) (buf delta : string) : string * string :=
  let buf := (buf ++ delta)%string in
  if FLUSH_THRESHOLD <? String.length buf then flush_safe_prefix rules buf else ("", buf).
Definition index_from_event (e : StreamEvent) : option Z :=
  match e with
  | ContentBlockStart i _ | ContentBlockStop i | ToolCallStart i _ _ | ToolCallArgumentsDelta i _ | ToolCallStop i => Some i
  | _ => None
  end.
(** A delta, unless it is empty. *)
Definition nonempty_delta (mk : string → StreamEvent) (t : string) : list StreamEvent :=
  if str_is_empty t then [] else [mk t].
Definition scrub_full (rules : list CompiledRule) (mk : string → StreamEvent) (buf : string) : list StreamEvent :=
  if str_is_empty buf then [] else nonempty_delta mk (apply_rules rules buf).

Definition scrub_event (self : PiiScrubber) (buf : PiiBuffer) (e : StreamEvent) : PiiBuffer * list StreamEvent :=
  match e with
  | TextDelta index t =>
      let '(emitted, rest) := push_delta (outbound self) (text buf) t in
      ({| text := rest; reasoning := reasoning buf |}, nonempty_delta (TextDelta index) emitted)
  | ReasoningDelta index t =>
      let '(emitted, rest) := push_delta (outbound self) (reasoning buf) t in
      ({| text := text buf; reasoning := rest |}, nonempty_delta (ReasoningDelta index) emitted)
  | other =>
      let index := default 0%Z (index_from_event other) in
      (empty_buffer,
       scrub_full (outbound self) (TextDelta index) (text buf) ++
       scrub_full (outbound self) (ReasoningDelta index) (reasoning buf) ++ [other])
  end.
Fixpoint scrub_stream (self : PiiScrubber) (buf : PiiBuffer) (l : list StreamEvent) : PiiBuffer * list StreamEvent :=
  match l with
  | [] => (buf, [])
  | e :: l' =>
      let '(buf1, out) := scrub_event self buf e in
      let '(buf2, out') := scrub_stream self buf1 l' in (buf2, out ++ out')
  end.

(** ** The plugin *)
Definition scrubber_hooks (self : PiiScrubber) : HookSet :=
  let h := match inbound self with [] => hs_empty | _ => hs_bitor hs_empty DECODED_REQUEST end in
  match outbound self with [] => h | _ => hs_bitor h STREAM_EVENT end.
Definition pii_scrubber (self : PiiScrubber) : Plugin (W := PiiBuffer) := {|
  kind_name := "pii_scrubber"; hooks := scrubber_hooks self;
  on_decoded_request := λ _ req, done_at_once (scrub_request self req);
  on_resolved := λ _ req _, done_at_once req;
  on_stream_event := λ _ e _ buf, let '(buf', out) := scrub_event self buf e in (Some (Ok out), 0%Z, buf');
  on_response_complete := λ _ _, done_at_once tt |}.
End Scrubber.

(** ** The rules that are accepted *)
Section Compilation.
Context {Regex : Type} (new_regex : string → result Regex string).
Definition compiled (r : RuleConfig) (c : CompiledRule (Regex := Regex)) : Prop :=
  new_regex (final_pattern r) = Ok (regex c) ∧ name c = rc_name r ∧ replacement c = rc_replacement r.
Lemma compile_from_ok direction i seen rules cs :
  compile_from new_regex direction i seen rules = Ok cs ↔
  Forall (λ r, is_valid_rule_name (rc_name r) = true ∧ rc_name r ∉ seen) rules ∧ NoDup (rc_name <$> rules) ∧
  Forall2 compiled rules cs.
Proof.
  revert i seen cs. induction rules as [|r rules IH]; intros i seen cs; cbn [compile_from].
  { split; [intros [= <-]; split_and!; by constructor|]. intros (_ & _ & H). by inversion H. }
  rewrite Forall_cons, fmap_cons, NoDup_cons. split.
  - intros H. destruct (is_valid_rule_name (rc_name r)) eqn:Hv; [|done]. cbn in H.
    destruct (bool_decide (rc_name r ∈ seen)) eqn:Hs; [done|]. apply bool_decide_eq_false in Hs. cbn in H.
    destruct (new_regex (final_pattern r)) as [rx|e] eqn:Hr; [|done]. cbn in H.
    destruct (compile_from new_regex direction (S i) (rc_name r :: seen) rules) as [rest|e] eqn:Hc; [|done].
    injection H as <-. apply IH in Hc as (H1 & H2 & H3). split_and!; try done.
    + eapply Forall_impl; [exact H1|]. intros q [Hq1 Hq2]. split; [done|set_solver].
    + intros (q & Hq1 & Hq2)%list_elem_of_fmap. eapply Forall_forall in H1; [|exact Hq2]. set_solver.
    + constructor; [by split_and!|done].
  - intros (((Hv & Hs) & Hf) & (Hn & Hd) & Hc). inversion Hc as [|? c ? cs' (Hr & Hn' & Hp) Hc']; subst.
    rewrite Hv. cbn. rewrite bool_decide_eq_false_2 by done. cbn. rewrite Hr. cbn.
    assert (compile_from new_regex direction (S i) (rc_name r :: seen) rules = Ok cs') as ->.
    { apply IH. split_and!; [|done|done]. apply Forall_forall. intros q Hq. eapply Forall_forall in Hf; [|exact Hq].
      destruct Hf as [Hf1 Hf2]. split; [done|]. intros [E|Hin]%elem_of_cons; [|done].
      apply Hn. rewrite <- E. apply list_elem_of_fmap. by exists q. }
    rewrite <- Hn', <- Hp. by destruct c.
Qed.
(** A direction is accepted exactly when its names are valid and distinct and its
    patterns compile. *)
Theorem compile_rules_ok direction rules cs :
  compile_rules new_regex direction rules = Ok cs ↔
  Forall (λ r, is_valid_rule_name (rc_name r) = true) rules ∧ NoDup (rc_name <$> rules) ∧ Forall2 compiled rules cs.
Proof.
  unfold compile_rules. rewrite compile_from_ok. split; intros (H1 & H2 & H3); split_and!; try done;
    (eapply Forall_impl; [exact H1|]); [by intros r []|]. intros r Hr. split; [done|set_solver].
Qed.
End Compilation.

(** A scrubbed request passes the check on protected fields, whatever the rules. *)
Lemma scrubbed_request_is_allowed `{J : JsonApi} {Regex : Type} match_count replace_all (self : PiiScrubber (Regex := Regex)) p h req :
  check_protected_fields p h req (scrub_request match_count replace_all self req) = Ok tt.
Proof. unfold check_protected_fields. by rewrite !bool_decide_eq_true_2. Qed.

(** ** What a stream says between its other events *)
Section Segments.
Context `{J : JsonApi}.
(** The text and the reasoning before each event that is no delta, and what is
    left after the last. *)
Fixpoint segments (t r : string) (l : list StreamEvent) : list (string * string * StreamEvent) * (string * string) :=
  match l with
  | [] => ([], (t, r))
  | TextDelta _ x :: l' => segments (t ++ x) r l'
  | ReasoningDelta _ x :: l' => segments t (r ++ x) l'
  | e :: l' => let '(ss, rest) := segments "" "" l' in ((t, r, e) :: ss, rest)
  end.
Definition is_delta (e : StreamEvent) : bool :=
  match e with TextDelta _ _ | ReasoningDelta _ _ => true | _ => false end.
Lemma segments_other e t r l :
  is_delta e = false → segments t r (e :: l) = ((t, r, e) :: (segments "" "" l).1, (segments "" "" l).2).
Proof. intros H. destruct e; try done; simpl; by destruct (segments "" "" l). Qed.
Lemma segments_text i x t r l : segments t r (nonempty_delta (TextDelta i) x ++ l) = segments (t ++ x) r l.
Proof.
  unfold nonempty_delta. destruct (str_is_empty x) eqn:H; [|done]. apply str_is_empty_spec in H as ->.
  by rewrite string_app_nil_r.
Qed.
Lemma segments_reasoning i x t r l : segments t r (nonempty_delta (ReasoningDelta i) x ++ l) = segments t (r ++ x) l.
Proof.
  unfold nonempty_delta. destruct (str_is_empty x) eqn:H; [|done]. apply str_is_empty_spec in H as ->.
  by rewrite string_app_nil_r.
Qed.
Lemma segments_tail t r l e : is_delta e = false → (segments t r (l ++ [e])).2 = ("", "").
Proof.
  intros He. revert t r. induction l as [|x l IH]; intros t r; cbn [app]; [by rewrite segments_other|].
  destruct (is_delta x) eqn:Hx; [|rewrite segments_other; [apply IH|done]]. destruct x; try done; apply IH.
Qed.
End Segments.

Section Properties.
Context `{J : JsonApi} {Regex : Type} (match_count : Regex → string → nat) (replace_all : Regex → string → string → string).
Context (self : PiiScrubber (Regex := Regex)).
#[local] Abbreviation scrub := (apply_rules match_count replace_all (outbound self)).

(** A text [a] and what is said of it, [b]: the rules are applied to the pieces
    it was cut in, which is the whole text unless it is long. *)
Definition scrubbed (a b : string) : Prop :=
  (∃ pieces, a = concat_strings pieces ∧ b = concat_strings (scrub <$> pieces)) ∧
  (String.length a ≤ FLUSH_THRESHOLD → b = if str_is_empty a then "" else scrub a).
(** Of [a], [b] has been said and [buf] has not. *)
Definition pending (a b buf : string) : Prop :=
  ∃ pieces, a = (concat_strings pieces ++ buf)%string ∧ b = concat_strings (scrub <$> pieces) ∧
    (pieces = [] ∨ FLUSH_THRESHOLD < String.length a).

Lemma substring_all s : String.substring 0 (String.length s) s = s.
Proof. induction s as [|c s IH]; [done|]. simpl. by rewrite IH. Qed.
Lemma take_drop_string n s : n ≤ String.length s → (str_take n s ++ str_drop n s)%string = s.
Proof.
  unfold str_take, str_drop. revert n. induction s as [|c s IH]; intros [|n] Hn; [done|simpl in Hn; lia| |].
  - rewrite Nat.sub_0_r, substring_all. done.
  - change (String c (str_take n s ++ str_drop n s)%string = String c s). f_equal. apply IH. simpl in Hn. lia.
Qed.
Lemma back_to_boundary_le s i : back_to_boundary s i ≤ i.
Proof. induction i as [|i IH]; [done|]. cbn [back_to_boundary]. destruct (String.get (S i) s) as [c|]; [destruct (is_continuation c)|]; lia. Qed.
Lemma split_at_le s : split_at s ≤ String.length s.
Proof.
  unfold split_at, floor_char_boundary. destruct (Nat.leb_spec (String.length s) (String.length s - MAX_PATTERN_TAIL)); [done|].
  pose proof (back_to_boundary_le s (String.length s - MAX_PATTERN_TAIL)). lia.
Qed.
Lemma length_string_app a b : String.length (a ++ b) = String.length a + String.length b.
Proof. induction a as [|c a IH]; [done|]. simpl. by rewrite IH. Qed.

Lemma pending_push a b buf x :
  pending a b buf →
  let '(emitted, rest) := push_delta match_count replace_all (outbound self) buf x in
  pending (a ++ x) (b ++ emitted) rest.
Proof.
  intros (pieces & -> & -> & Hp). unfold push_delta, flush_safe_prefix.
  destruct (Nat.ltb_spec FLUSH_THRESHOLD (String.length (buf ++ x))) as [Hl|Hl].
  - set (k := split_at (buf ++ x)). exists (pieces ++ [str_take k (buf ++ x)]). split_and!.
    + rewrite concat_strings_app, !string_app_assoc. simpl. rewrite string_app_nil_r.
      by rewrite take_drop_string by apply split_at_le.
    + rewrite fmap_app, concat_strings_app. simpl. by rewrite string_app_nil_r.
    + right. rewrite !length_string_app in *. lia.
  - exists pieces. split_and!; [by rewrite string_app_assoc|by rewrite string_app_nil_r|].
    destruct Hp as [->|Hp]; [by left|right]. rewrite length_string_app. lia.
Qed.
Lemma pending_flush a b buf :
  pending a b buf → scrubbed a (b ++ (if str_is_empty buf then "" else scrub buf)).
Proof.
  intros (pieces & -> & -> & Hp). split.
  - destruct (str_is_empty buf) eqn:He.
    + apply str_is_empty_spec in He as ->. exists pieces. by rewrite !string_app_nil_r.
    + exists (pieces ++ [buf]). rewrite fmap_app, !concat_strings_app. simpl. by rewrite !string_app_nil_r.
  - intros Hl. destruct Hp as [->|Hp]; [done|lia].
Qed.
Lemma pending_start : pending "" "" "".
Proof. exists []. split_and!; [done|done|by left]. Qed.

(** Segment by segment. *)
Definition segment_scrubbed (s s' : string * string * StreamEvent) : Prop :=
  scrubbed s.1.1 s'.1.1 ∧ scrubbed s.1.2 s'.1.2 ∧ s.2 = s'.2.

Lemma full_segments i buf t r l :
  segments t r (scrub_full match_count replace_all (outbound self) (TextDelta i) (text buf) ++
    scrub_full match_count replace_all (outbound self) (ReasoningDelta i) (reasoning buf) ++ l) =
  segments (t ++ if str_is_empty (text buf) then "" else scrub (text buf))
    (r ++ if str_is_empty (reasoning buf) then "" else scrub (reasoning buf)) l.
Proof.
  unfold scrub_full. destruct (str_is_empty (text buf)); [rewrite string_app_nil_r; cbn [app]|rewrite segments_text];
    (destruct (str_is_empty (reasoning buf)); [by rewrite string_app_nil_r|by rewrite segments_reasoning]).
Qed.

Lemma scrub_other buf e :
  is_delta e = false →
  scrub_event match_count replace_all self buf e =
    (empty_buffer,
     scrub_full match_count replace_all (outbound self) (TextDelta (default 0%Z (index_from_event e))) (text buf) ++
     scrub_full match_count replace_all (outbound self) (ReasoningDelta (default 0%Z (index_from_event e))) (reasoning buf) ++ [e]).
Proof. by destruct e. Qed.

Lemma scrub_stream_segments l buf t r t' r' :
  pending t t' (text buf) → pending r r' (reasoning buf) →
  let '(buf', out) := scrub_stream match_count replace_all self buf l in
  Forall2 segment_scrubbed (segments t r l).1 (segments t' r' out).1 ∧
  pending (segments t r l).2.1 (segments t' r' out).2.1 (text buf') ∧
  pending (segments t r l).2.2 (segments t' r' out).2.2 (reasoning buf').
Proof.
  revert buf t r t' r'. induction l as [|e l IH]; intros buf t r t' r' Ht Hr; [by split|]. cbn [scrub_stream].
  destruct (is_delta e) eqn:He.
  - destruct e as [| | |i x|i x| | | | | | | | |]; try done; cbn [scrub_event segments].
    + pose proof (pending_push t t' (text buf) x Ht) as Hp.
      destruct (push_delta _ _ _ (text buf) x) as [emitted rest].
      specialize (IH {| text := rest; reasoning := reasoning buf |} (t ++ x)%string r (t' ++ emitted)%string r' Hp Hr).
      destruct (scrub_stream _ _ self _ l) as [buf' out]. by rewrite segments_text.
    + pose proof (pending_push r r' (reasoning buf) x Hr) as Hp.
      destruct (push_delta _ _ _ (reasoning buf) x) as [emitted rest].
      specialize (IH {| text := text buf; reasoning := rest |} t (r ++ x)%string t' (r' ++ emitted)%string Ht Hp).
      destruct (scrub_stream _ _ self _ l) as [buf' out]. by rewrite segments_reasoning.
  - rewrite scrub_other by done. specialize (IH empty_buffer "" "" "" "" pending_start pending_start).
    destruct (scrub_stream _ _ self empty_buffer l) as [buf' out]. rewrite <- !app_assoc, full_segments. cbn [app].
    rewrite !segments_other by done. cbn [fst snd]. destruct IH as (H1 & H2). split; [|done].
    constructor; [|done]. split_and!; [by apply pending_flush|by apply pending_flush|done].
Qed.

(** An event that is no delta empties the buffer and comes last. *)
Lemma scrub_stream_ends buf l e :
  is_delta e = false → ∃ out, scrub_stream match_count replace_all self buf (l ++ [e]) = (empty_buffer, out ++ [e]).
Proof.
  intros He. revert buf. induction l as [|x l IH]; intros buf; cbn [app scrub_stream].
  - rewrite scrub_other by done. eexists. rewrite app_nil_r, app_assoc. reflexivity.
  - destruct (scrub_event _ _ self buf x) as [buf1 out1]. destruct (IH buf1) as (out2 & ->).
    exists (out1 ++ out2). by rewrite app_assoc.
Qed.

(** The plugin as the only subscriber of the stream hook. *)
Lemma wrap_items_scrubs ctx entry l buf :
  pe_plugin entry = pii_scrubber match_count replace_all self → pe_enabled entry = true →
  let '(buf', out) := scrub_stream match_count replace_all self buf (oks l) in
  final (wrap_items ctx [entry] l) buf = buf' ∧ oks (answer (wrap_items ctx [entry] l) buf) = out.
Proof.
  intros Hp He. revert buf. induction l as [|[e|er] l IH]; intros buf; [done| |].
  - change (oks (Ok e :: l)) with (e :: oks l). cbn [scrub_stream].
    assert (∃ reports, on_stream_item ctx [entry] (Ok e) buf =
      (Ok <$> (scrub_event match_count replace_all self buf e).2, (scrub_event match_count replace_all self buf e).1, reports))
      as (reports & Hi).
    { unfold on_stream_item. cbn [run_entries run_entry]. rewrite He. cbn [negb]. rewrite Hp.
      cbn [on_stream_event pii_scrubber]. unfold mbind, emit_bind.
      match goal with |- context [invoke ?a ctx ?w buf] => destruct (run_invoke a ctx w buf) as (log & k & h & lb & -> & _) end.
      destruct (scrub_event match_count replace_all self buf e) as [buf1 out1]. cbn. rewrite app_nil_r. by eexists. }
    destruct (scrub_event match_count replace_all self buf e) as [buf1 out1]. cbn [fst snd] in Hi.
    assert (final (on_stream_item ctx [entry] (Ok e)) buf = buf1 ∧
      answer (on_stream_item ctx [entry] (Ok e)) buf = Ok <$> out1) as [Hf Ha] by (unfold final, answer; by rewrite Hi).
    specialize (IH buf1). destruct (scrub_stream _ _ self buf1 (oks l)) as [buf2 out2]. destruct IH as [IH1 IH2].
    cbn [wrap_items]. rewrite !final_bind, !answer_bind, Hf, Ha, IH1. split; [done|].
    unfold answer at 1, mret, emit_ret. cbn [fst snd]. unfold oks in *. rewrite omap_app, IH2. f_equal. apply oks_Ok.
  - specialize (IH buf). change (oks (Err er :: l)) with (oks l). destruct (scrub_stream _ _ self buf (oks l)) as [buf' out].
    destruct IH as [IH1 IH2]. cbn [wrap_items on_stream_item].
    rewrite !final_bind, !answer_bind. cbn. unfold oks, answer, final in *. cbn in *. by rewrite IH1, IH2.
Qed.

(** What the scrubber makes of a stream.  Run by the stream hook over a stream
    that ends in an event that is no delta, it keeps every other event in its
    place and loses no text; the text said before each of them, and the
    reasoning, is the scrubbed text, whole when it has at most 256 bytes, and in
    pieces that are scrubbed one by one when it is longer. *)
Theorem scrubbed_streams ctx entry l e :
  pe_plugin entry = pii_scrubber match_count replace_all self → pe_enabled entry = true → is_delta e = false →
  let stream := l ++ [Ok e] in
  let out := oks (answer (wrap_items ctx [entry] stream) empty_buffer) in
  Forall2 segment_scrubbed (segments "" "" (oks stream)).1 (segments "" "" out).1 ∧
  (segments "" "" out).2 = ("", "") ∧ final (wrap_items ctx [entry] stream) empty_buffer = empty_buffer.
Proof.
  intros Hp He Hd stream out. unfold out. clear out.
  pose proof (wrap_items_scrubs ctx entry stream empty_buffer Hp He) as Hw.
  pose proof (scrub_stream_segments (oks stream) empty_buffer "" "" "" "" pending_start pending_start) as Hs.
  assert (oks stream = oks l ++ [e]) as El by (unfold oks, stream; by rewrite omap_app).
  rewrite El in *. destruct (scrub_stream match_count replace_all self empty_buffer (oks l ++ [e])) as [buf' out] eqn:Ho.
  destruct Hw as [Hf ->]. destruct Hs as (Hs & _). split; [done|].
  destruct (scrub_stream_ends empty_buffer (oks l) e Hd) as (out' & Hout). rewrite Ho in Hout. injection Hout as -> ->.
  split; [by apply segments_tail|done].
Qed.
End Properties.

(** ** One rule, against the word [secret] *)
Module Samples.
(** A pattern that is a plain word, as a regular expression. *)
Fixpoint replace_word (fuel : nat) (w s r : string) : nat * string :=
  match fuel, s with
  | S fuel', String c s' =>
      if starts_with s w then
        let '(n, t) := replace_word fuel' w (str_drop (String.length w) s) r in (S n, (r ++ t)%string)
      else let '(n, t) := replace_word fuel' w s' r in (n, String c t)
  | _, _ => (0, s)
  end.
Definition word_count (w s : string) : nat := (replace_word (S (String.length s)) w s "").1.
Definition word_replace (w s r : string) : string := (replace_word (S (String.length s)) w s r).2.
Definition rule (w : string) : CompiledRule (Regex := string) := {| name := w; regex := w; replacement := "[X]" |}.
Definition scrubber : PiiScrubber := {| inbound := []; outbound := [rule "secret"] |}.
Fixpoint fill (n : nat) (c : Ascii.ascii) : string := match n with 0 => "" | S n' => String c (fill n' c) end.
Definition x : Ascii.ascii := Ascii.ascii_of_nat 120.
Definition y : Ascii.ascii := Ascii.ascii_of_nat 121.

Example word_is_replaced : apply_rules word_count word_replace (outbound scrubber) "my secret is secret" = "my [X] is [X]".
Proof. reflexivity. Qed.
(** The cut is made 64 bytes before the end, through whatever is there: a match
    across it is in neither piece, and is sent. *)
Definition long : string := (fill 230 x ++ "secret" ++ fill 60 x)%string.
Example match_across_the_cut_is_sent :
  push_delta word_count word_replace (outbound scrubber) "" long = ((fill 230 x ++ "se")%string, ("cret" ++ fill 60 x)%string).
Proof. vm_compute. reflexivity. Qed.

Section Events.
Context `{J : JsonApi}.
#[local] Abbreviation run := (scrub_stream word_count word_replace scrubber empty_buffer).
(** The same for a stream: the word is in what is sent. *)
Definition leak : list StreamEvent := [TextDelta 0 long; ContentBlockStop 0].
Example leak_is_sent :
  run leak = (empty_buffer, [TextDelta 0 (fill 230 x ++ "se"); TextDelta 0 ("cret" ++ fill 60 x); ContentBlockStop 0]).
Proof. reflexivity. Qed.
(** In small deltas and less than 256 bytes it is found. *)
Example word_is_found :
  run [TextDelta 0 "my sec"; TextDelta 0 "ret"; ContentBlockStop 0] =
    (empty_buffer, [TextDelta 0 "my [X]"; ContentBlockStop 0]).
Proof. reflexivity. Qed.
(** A stream that ends without another event keeps its last text. *)
Example last_text_is_lost : (run [TextDelta 0 "hello"]).2 = [].
Proof. reflexivity. Qed.

(** Text is labelled with the index of the event that flushes it, or 0: an event
    without an index moves the text into another block. *)
Definition answered : list StreamEvent :=
  [ResponseStart "r" "m" 0; MessageStart Assistant; ContentBlockStart 0 Reasoning; ReasoningDelta 0 "hm"; ContentBlockStop 0;
   ContentBlockStart 1 Text; TextDelta 1 "hello"; UsageDelta default_usage; ContentBlockStop 1;
   MessageStop EndTurn None; ResponseStop None].
Example answered_is_canonical : assert_canonical_lifecycle answered = Ok tt.
Proof. reflexivity. Qed.
Example text_moves_to_another_block :
  (run answered).2 =
    [ResponseStart "r" "m" 0; MessageStart Assistant; ContentBlockStart 0 Reasoning; ReasoningDelta 0 "hm"; ContentBlockStop 0;
     ContentBlockStart 1 Text; TextDelta 0 "hello"; UsageDelta default_usage; ContentBlockStop 1;
     MessageStop EndTurn None; ResponseStop None] ∧
  is_ok (assert_canonical_lifecycle (run answered).2) = false.
Proof. split; reflexivity. Qed.

(** Two instances on a route share the buffer of their kind: what the first cuts
    off is put after what it kept. *)
Definition entry (n : string) : PluginEntry := {|
  pe_name := n; pe_kind := "pii_scrubber"; pe_plugin := pii_scrubber word_count word_replace scrubber;
  pe_on_error := Fail; pe_timeouts := default_timeouts; pe_enabled := true |}.
Definition ctx : PluginContext := {| ctx_request_id := "r"; ctx_frontend := OpenAiChat; ctx_route_label := "m" |}.
Example two_instances_reorder :
  answer (wrap_items ctx [entry "a"; entry "b"] [Ok (TextDelta 0 (fill 200 x ++ fill 100 y)); Ok (ContentBlockStop 0)]) empty_buffer =
    Ok <$> [TextDelta 0 (fill 64 y ++ fill 172 x); TextDelta 0 (fill 28 x ++ fill 36 y); ContentBlockStop 0].
Proof. reflexivity. Qed.
End Events.

#[local] Instance sample_json : JsonApi := TreeJson [].
Lemma scrubbed_streams_witness :
  Forall2 (segment_scrubbed word_count word_replace scrubber) (segments "" "" [TextDelta 0 "my sec"; TextDelta 0 "ret"; ContentBlockStop 0]).1
    (segments "" "" [TextDelta 0 "my [X]"; ContentBlockStop 0]).1.
Proof.
  exact (proj1 (scrubbed_streams word_count word_replace scrubber ctx (entry "a")
    [Ok (TextDelta 0 "my sec"); Ok (TextDelta 0 "ret")] (ContentBlockStop 0) eq_refl eq_refl eq_refl)).
Defined.
End Samples.
