(* ===== verification/PromptCompressor.v ===== *)
(** * The prompt compressor (crates/plugins/src/builtin/prompt_compressor)

    A plugin that shortens the conversation of a request: its oldest groups, each
    led by a user message, are dropped or replaced by a summary.  The tokenizer,
    the summarizing upstream and its deadline, and serde_json are parameters. *)
From stdpp Require Import pretty.
From S2P Require Import Prelude Json CoreTypes Emit Lifecycle Fallback Request Plugins Conversation.
#[local] Open Scope string_scope.
#[local] Open Scope list_scope.
#[local] Open Scope nat_scope.

(** ** Configuration *)
Record SummarizerConfig := { upstream : string; summary_model : string; max_summary_tokens : Z; timeout_ms : Z }.
Inductive Strategy :=
| DropOldTurns (keep_last_n : nat)
| TruncateToTokens (target_tokens : Z) (keep_last_n : nat)
| SummarizeOldTurns (keep_last_n : nat) (summarizer : SummarizerConfig).
(** [PluginConfigError::InvalidValue]. *)
Record InvalidSetting := { setting : string; why : string }.
(** A compiled strategy holds the provider of its upstream, [P]. *)
Inductive CompiledStrategy {P : Type} :=
| CDropOldTurns (keep_last_n : nat)
| CTruncateToTokens (target_tokens : Z) (keep_last_n : nat)
| CSummarizeOldTurns (keep_last_n : nat) (provider : P) (target : BackendTarget) (max_tokens timeout : Z).
Arguments CompiledStrategy : clear implicits.
Definition default_policy_of_route : RoutePolicy := {|
  default_reasoning_effort := None; default_anthropic_beta := None; reasoning_mapping := [] |}.
Definition compile_strategy {P} (providers : gmap string P) (s : Strategy) : result (CompiledStrategy P) InvalidSetting :=
  let positive n := ensure (negb (n =? 0)) {| setting := "keep_last_n"; why := "must be greater than 0" |} in
  match s with
  | DropOldTurns n => let? _ := positive n in Ok (CDropOldTurns n)
  | TruncateToTokens t n => let? _ := positive n in Ok (CTruncateToTokens t n)
  | SummarizeOldTurns n c =>
      let? _ := positive n in
      match providers !! upstream c with
      | None => Err {| setting := "summarizer.upstream"; why := "unknown upstream: " ++ upstream c |}
      | Some p =>
          Ok (CSummarizeOldTurns n p {| provider := upstream c; Request.model := summary_model c; policy := default_policy_of_route |}
                (max_summary_tokens c) (timeout_ms c))
      end
  end.

(** ** Groups *)
Section Groups.
Context `{J : JsonApi}.
Definition is_user (m : Message) : bool := bool_decide (role m = User).
(** The ranges [start..end); [i] counts the messages seen. *)
Fixpoint boundaries_from (start i : nat) (ms : list Message) : list (nat * nat) :=
  match ms with
  | [] => [(start, i)]
  | m :: ms' => if is_user m then (start, i) :: boundaries_from i (S i) ms' else boundaries_from start (S i) ms'
  end.
Definition group_boundaries (ms : list Message) : list (nat * nat) :=
  match ms with [] => [] | _ :: ms' => boundaries_from 0 1 ms' end.
(** [messages[a..b]]. *)
Definition range (ms : list Message) (r : nat * nat) : list Message := take (r.2 - r.1) (drop r.1 ms).
End Groups.

Record CompressionResult `{J : JsonApi} := { new_messages : list Message; dropped : nat; action : string }.

Section Strategies.
Context `{J : JsonApi} `{V : !JsonValues J} (count_text : string → Z) (to_string : value → option string).
Definition block_tokens (b : ContentBlock) : Z :=
  match b with TextBlock t _ | ReasoningBlock t _ => count_text t | _ => 0%Z end.
Definition count_messages_tokens (ms : list Message) : Z :=
  foldl (λ total b, u32_saturating_add total (block_tokens b)) 0%Z (ms ≫= content).

Definition skipped (ms : list Message) : CompressionResult := {| new_messages := ms; dropped := 0; action := "skipped" |}.
(** Cut at a group, [groups[k].start]; [None] would be an index out of range. *)
Definition cut_at (ms : list Message) (k : nat) : option nat := fst <$> group_boundaries ms !! k.

Definition drop_old_turns (ms : list Message) (keep_last_n : nat) : option CompressionResult :=
  let groups := group_boundaries ms in
  if length groups <=? keep_last_n then Some (skipped ms)
  else
    cut_idx ← cut_at ms (length groups - keep_last_n);
    Some {| new_messages := drop cut_idx ms; dropped := cut_idx; action := "compressed" |}.

(** The loop of [truncate::apply]: what is left of the total, and the groups
    dropped, of the first [max_drop] ones. *)
Fixpoint drop_groups (target total : Z) (tokens : list Z) (max_drop : nat) : Z * nat :=
  match max_drop, tokens with
  | S max_drop', t :: tokens' =>
      if (target <? total)%Z then
        let '(total', n) := drop_groups target (saturating_sub total t) tokens' max_drop' in (total', S n)
      else (total, 0)
  | _, _ => (total, 0)
  end.
Definition group_tokens (ms : list Message) : list Z := (λ r, count_messages_tokens (range ms r)) <$> group_boundaries ms.
Definition truncate_to_tokens (ms : list Message) (target : Z) (keep_last_n : nat) : option CompressionResult :=
  let groups := group_boundaries ms in
  if length groups <=? keep_last_n then Some (skipped ms)
  else
    let total := foldl u32_add 0%Z (group_tokens ms) in
    if (total <=? target)%Z then Some (skipped ms)
    else
      let '(left_, drop_idx) := drop_groups target total (group_tokens ms) (length groups - keep_last_n) in
      cut_idx ← cut_at ms drop_idx;
      Some {| new_messages := drop cut_idx ms; dropped := cut_idx;
              action := if (target <? left_)%Z then "compressed_but_over_budget" else "compressed" |}.

(** ** The summary *)
Definition user_message (t : string) : Message := bare_message User [TextBlock t ∅].
Definition role_label (r : MessageRole) : string :=
  match r with User => "User" | Assistant => "Assistant" | Tool => "Tool" | System => "System" end.
Definition text_part (b : ContentBlock) : option string :=
  match b with TextBlock t _ | ReasoningBlock t _ => Some t | _ => None end.
Definition other_line (b : ContentBlock) : option string :=
  match b with
  | TextBlock _ _ | ReasoningBlock _ _ => None
  | ToolCallB tc =>
      let args := match arguments tc with Complete v => default "{}" (to_string v) | Streaming d => d end in
      Some ("[tool_call: " ++ tc_name tc ++ "(" ++ args ++ ")]")%string
  | ToolResultB tr =>
      let body := match Json.as_str (tr_content tr) with Some s => s | None => default "<binary>" (to_string (tr_content tr)) end in
      Some ("[tool_result: " ++ body ++ "]")%string
  | ImageBlock _ _ => Some "[image omitted]"
  | AudioBlock _ _ => Some "[audio omitted]"
  | FileBlock _ _ => Some "[file omitted]"
  | RedactedReasoningBlock _ _ => Some "[redacted_reasoning omitted]"
  | UnsupportedBlock _ _ => Some "[unsupported omitted]"
  end.
Definition serialize_message (m : Message) : string :=
  role_label (role m) ++ ": " ++ join newline (omap text_part (content m)) ++ newline ++
  concat_strings ((λ l, (l ++ newline)%string) <$> omap other_line (content m)) ++ newline.
Definition serialize_groups_to_text (ms : list Message) : string := concat_strings (serialize_message <$> ms).
Definition SUMMARY_INJECTION_PREFIX : string := "[Prior conversation summary]: ".
Definition summary_prompt (max_tokens : Z) (serialized : string) : string :=
  "Summarize the prior conversation between user and assistant in <= " ++ pretty max_tokens ++ " tokens." ++ newline ++
  "Preserve key facts, decisions, and unresolved questions." ++ newline ++ "Output plain text only, no greetings." ++
  newline ++ newline ++ "Conversation:" ++ newline ++ serialized.
Definition build_summary_request (fresh_id : string) (target : BackendTarget) (serialized : string) (max_tokens_ : Z)
    : CanonicalRequest := {|
  id := fresh_id; frontend_kind := AnthropicMessages; requested_model := Request.model target; req_model := Request.model target;
  system := []; messages := [user_message (summary_prompt max_tokens_ serialized)]; tools := []; tool_choice := ChoiceAuto;
  generation := {| max_tokens := Some max_tokens_; temperature := None; top_p := None; top_k := None;
    presence_penalty := None; frequency_penalty := None; stop_sequences := []; seed := None; Request.reasoning := None |};
  response_format := None; stream := false; Request.metadata := {| user_id := None; agent := None |};
  inbound_anthropic_headers := []; resolved_policy := default_policy; extensions := ∅ |}.
Definition drain_text_from_stream (items : list (result StreamEvent StreamError)) : string :=
  concat_strings (text_of <$> oks items).

(** [complete_within] is the provider's answer under the deadline: [None] when
    the time is over. *)
Definition summarize_old_turns {P} (complete_within : P → CanonicalRequest → BackendTarget → Z →
      option (result (list (result StreamEvent StreamError)) ProviderError)) (fresh_id : string)
    (ms : list Message) (keep_last_n : nat) (p : P) (target : BackendTarget) (max_tokens timeout : Z) : option CompressionResult :=
  let groups := group_boundaries ms in
  if length groups <=? keep_last_n + 1 then Some (skipped ms)
  else
    kept_start ← cut_at ms (length groups - keep_last_n);
    let serialized := serialize_groups_to_text (take kept_start ms) in
    let fallback := {| new_messages := drop kept_start ms; dropped := kept_start; action := "summary_fallback" |} in
    Some match complete_within p (build_summary_request fresh_id target serialized max_tokens) target timeout with
         | Some (Ok items) =>
             let summary_text := drain_text_from_stream items in
             if str_is_empty summary_text then fallback
             else {| new_messages := user_message (SUMMARY_INJECTION_PREFIX ++ summary_text) :: drop kept_start ms;
                     dropped := kept_start; action := "compressed" |}
         | Some (Err _) | None => fallback
         end.

(** ** The hook *)
Context {P : Type} (complete_within : P → CanonicalRequest → BackendTarget → Z →
  option (result (list (result StreamEvent StreamError)) ProviderError)).
Definition apply_strategy (fresh_id : string) (s : CompiledStrategy P) (ms : list Message) : option CompressionResult :=
  match s with
  | CDropOldTurns n => drop_old_turns ms n
  | CTruncateToTokens t n => truncate_to_tokens ms t n
  | CSummarizeOldTurns n p target max_tokens timeout =>
      summarize_old_turns complete_within fresh_id ms n p target max_tokens timeout
  end.
Definition with_messages (ms : list Message) (r : CanonicalRequest) : CanonicalRequest := {|
  id := id r; frontend_kind := frontend_kind r; requested_model := requested_model r; req_model := req_model r;
  system := system r; messages := ms; tools := tools r; tool_choice := tool_choice r;
  generation := generation r; response_format := response_format r; stream := stream r;
  Request.metadata := Request.metadata r; inbound_anthropic_headers := inbound_anthropic_headers r;
  resolved_policy := resolved_policy r; extensions := extensions r |}.
(** [None] is a panic. *)
Definition compress_request (fresh_id : string) (s : CompiledStrategy P) (req : CanonicalRequest) : option CanonicalRequest :=
  result ← apply_strategy fresh_id s (messages req);
  Some (if bool_decide (action result = "skipped") then req else with_messages (new_messages result) req).
End Strategies.

(** ** Groups and cuts *)
Section GroupLemmas.
Context `{J : JsonApi}.
Lemma boundaries_length start i start' i' ms :
  length (boundaries_from start i ms) = length (boundaries_from start' i' ms).
Proof.
  revert start i start' i'. induction ms as [|m ms IH]; intros start i start' i'; [done|]. cbn [boundaries_from].
  destruct (is_user m); cbn [length]; [f_equal|]; apply IH.
Qed.
Lemma boundaries_nonempty start i ms : 0 < length (boundaries_from start i ms).
Proof. revert start i. induction ms as [|m ms IH]; intros start i; cbn; [lia|]. destruct (is_user m); cbn; [lia|apply IH]. Qed.
Lemma boundaries_head start i ms g : boundaries_from start i ms !! 0 = Some g → g.1 = start.
Proof.
  revert i g. induction ms as [|m ms IH]; intros i g; cbn; [by intros [= <-]|].
  destruct (is_user m); [by intros [= <-]|apply IH].
Qed.
(** A group but the first starts at a user message, and what starts there has the
    groups that are left. *)
Lemma boundaries_cut start i ms k g :
  boundaries_from start i ms !! S k = Some g →
  ∃ pre m post, ms = pre ++ m :: post ∧ is_user m = true ∧ g.1 = i + length pre ∧
    length (boundaries_from start i ms) = S k + length (boundaries_from 0 1 post).
Proof.
  revert start i k. induction ms as [|m ms IH]; intros start i k; [done|]. cbn [boundaries_from].
  destruct (is_user m) eqn:Hu.
  - cbn [lookup list_lookup length]. destruct k as [|k].
    + intros Hg. exists [], m, ms. split_and!; [done|done| |].
      * rewrite (boundaries_head _ _ _ _ Hg). simpl. lia.
      * by rewrite (boundaries_length i (S i) 0 1 ms).
    + intros Hg. destruct (IH i (S i) k Hg) as (pre & m' & post & -> & H1 & H2 & H3).
      exists (m :: pre), m', post. split_and!; [done|done|simpl; lia|]. rewrite H3. lia.
  - intros Hg. destruct (IH start (S i) k Hg) as (pre & m' & post & -> & H1 & H2 & H3).
    exists (m :: pre), m', post. split_and!; [done|done|simpl; lia|done].
Qed.

Lemma cut_splits ms k a :
  cut_at ms (S k) = Some a →
  ∃ pre m post, ms = pre ++ m :: post ∧ is_user m = true ∧ drop a ms = m :: post ∧
    length (group_boundaries ms) = S k + length (group_boundaries (m :: post)).
Proof.
  unfold cut_at. intros (g & Hg & ->)%fmap_Some. destruct ms as [|m0 ms]; [done|].
  destruct (boundaries_cut 0 1 ms k g Hg) as (pre & m & post & -> & Hu & Ha & Hl).
  exists (m0 :: pre), m, post. split_and!; [done|done| |exact Hl].
  rewrite Ha. change (drop (length (m0 :: pre)) ((m0 :: pre) ++ m :: post) = m :: post). by rewrite drop_app_length.
Qed.
Lemma cut_total ms k : k < length (group_boundaries ms) → is_Some (cut_at ms k).
Proof. intros H. unfold cut_at. apply fmap_is_Some. by apply lookup_lt_is_Some_2. Qed.
End GroupLemmas.

Section Properties.
Context `{J : JsonApi} `{V : !JsonValues J} (count_text : string → Z) (to_string : value → option string).
Context {P : Type} (complete_within : P → CanonicalRequest → BackendTarget → Z →
  option (result (list (result StreamEvent StreamError)) ProviderError)).
#[local] Abbreviation compress := (compress_request count_text to_string complete_within).
Definition kept_groups (s : CompiledStrategy P) : nat :=
  match s with CDropOldTurns n | CTruncateToTokens _ n | CSummarizeOldTurns n _ _ _ _ => n end.

(** What a strategy may leave: the conversation, or its end from a user message
    on, with at least the groups it has to keep and perhaps a summary before. *)
Definition shortened (keep : nat) (ms ms' : list Message) : Prop :=
  ms' = ms ∨ ∃ pre m post, ms = pre ++ m :: post ∧ is_user m = true ∧ keep ≤ length (group_boundaries (m :: post)) ∧
    (ms' = m :: post ∨ ∃ t, ms' = user_message t :: m :: post).

Lemma drop_groups_bound target total tokens k : (drop_groups target total tokens k).2 ≤ k.
Proof.
  revert total k. induction tokens as [|t tokens IH]; intros total [|k]; simpl; try lia.
  destruct (target <? total)%Z; [|simpl; lia]. specialize (IH (saturating_sub total t) k).
  destruct (drop_groups target (saturating_sub total t) tokens k). simpl in *. lia.
Qed.

Lemma shortened_cut keep ms k a :
  cut_at ms k = Some a → k + keep ≤ length (group_boundaries ms) → shortened keep ms (drop a ms).
Proof.
  intros Hc Hk. destruct k as [|k].
  - left. unfold cut_at in Hc. apply fmap_Some in Hc as (g & Hg & ->). destruct ms as [|m ms]; [done|].
    by rewrite (boundaries_head _ _ _ _ Hg).
  - right. destruct (cut_splits ms k a Hc) as (pre & m & post & -> & Hu & Hd & Hl).
    exists pre, m, post. split_and!; [done|done|lia|by left].
Qed.

Lemma cut_shortens keep ms k :
  0 < keep → k + keep ≤ length (group_boundaries ms) → ∃ a, cut_at ms k = Some a ∧ shortened keep ms (drop a ms).
Proof.
  intros Hk Hl. destruct (cut_total ms k) as (a & Ha); [lia|]. exists a. split; [done|]. by eapply shortened_cut.
Qed.
Lemma strategy_shortens fresh_id s ms :
  0 < kept_groups s →
  ∃ r, apply_strategy count_text to_string complete_within fresh_id s ms = Some r ∧
    shortened (kept_groups s) ms (new_messages r).
Proof.
  intros Hk. destruct s as [n|t n|n p target mt timeout]; cbn [apply_strategy kept_groups] in *.
  - unfold drop_old_turns. destruct (Nat.leb_spec (length (group_boundaries ms)) n); [eexists; split; [done|by left]|].
    destruct (cut_shortens n ms (length (group_boundaries ms) - n)) as (a & -> & Ha); [done|lia|]. by eexists.
  - unfold truncate_to_tokens. destruct (Nat.leb_spec (length (group_boundaries ms)) n); [eexists; split; [done|by left]|].
    destruct (_ <=? t)%Z; [eexists; split; [done|by left]|].
    pose proof (drop_groups_bound t (foldl u32_add 0%Z (group_tokens count_text ms)) (group_tokens count_text ms)
      (length (group_boundaries ms) - n)) as Hb.
    destruct (drop_groups _ _ _ _) as [left_ k]. cbn [snd] in Hb.
    destruct (cut_shortens n ms k) as (a & -> & Ha); [done|lia|]. by eexists.
  - unfold summarize_old_turns. destruct (Nat.leb_spec (length (group_boundaries ms)) (n + 1)); [eexists; split; [done|by left]|].
    destruct (cut_total ms (S (length (group_boundaries ms) - n - 1))) as (a & Ha); [lia|].
    destruct (cut_splits _ _ _ Ha) as (pre & m & post & Hms & Hu & Hd & Hl).
    replace (length (group_boundaries ms) - n) with (S (length (group_boundaries ms) - n - 1)) by lia. rewrite Ha.
    cbn [mbind option_bind]. eexists. split; [done|]. right. exists pre, m, post. split_and!; [done|done|lia|].
    rewrite Hd. destruct (complete_within _ _ _ _) as [[items|e]|]; [|by left..].
    destruct (str_is_empty _); [by left|right; by eexists].
Qed.

(** The hook returns on every request, keeps what plugins may not change, and
    leaves the conversation or its end, from a user message on, with at least the
    groups it has to keep. *)
Theorem compression_keeps_groups fresh_id s req p h :
  0 < kept_groups s →
  ∃ req', compress fresh_id s req = Some req' ∧ check_protected_fields p h req req' = Ok tt ∧
    shortened (kept_groups s) (messages req) (messages req').
Proof.
  intros Hk. destruct (strategy_shortens fresh_id s (messages req) Hk) as (r & Hr & Hs). unfold compress_request.
  rewrite Hr. cbn [mbind option_bind]. eexists. split; [done|]. case_bool_decide.
  - split; [|by left]. unfold check_protected_fields. by rewrite !bool_decide_eq_true_2.
  - split; [|done]. unfold check_protected_fields. by rewrite !bool_decide_eq_true_2.
Qed.

(** A compressed conversation keeps its tool calls answered.  When no user
    message carries tool results, as in conversations of OpenAI clients, a
    conversation whose calls are answered in place is cut where no call is open:
    whatever the strategy and whatever the summarizer says, the compressed one is
    answered in place too and leaves the same calls open. *)
Theorem compressed_tools_stay_answered fresh_id s req req' open :
  0 < kept_groups s → compress fresh_id s req = Some req' →
  (∀ m, m ∈ messages req → is_user m = true → omap reply_id (content m) = []) →
  steps tools_check ∅ (messages req) = Some open → steps tools_check ∅ (messages req') = Some open.
Proof.
  intros Hk Hc Hu Ho. destruct (compression_keeps_groups fresh_id s req "" "" Hk) as (req1 & Hc' & _ & Hs).
  rewrite Hc in Hc'. injection Hc' as <-. destruct Hs as [->|(pre & m & post & Hms & Hm & _ & Hs)]; [done|].
  rewrite Hms, steps_app in Ho. apply bind_Some in Ho as (o & _ & Ho).
  assert (m ∈ messages req) as Hin by (rewrite Hms; apply elem_of_app; right; by left).
  assert (o = ∅) as ->.
  { cbn [steps] in Ho. apply bind_Some in Ho as (o' & Ho & _). revert Ho. unfold tools_check, talk_check, talk_of.
    cbn [replies]. rewrite (Hu m Hin Hm). by case_bool_decide. }
  destruct Hs as [->|(t & ->)]; [done|]. cbn [steps]. exact Ho.
Qed.

(** ** The budget of truncation *)
Definition tokens (ms : list Message) : Z := foldr (λ b, Z.add (block_tokens count_text b)) 0%Z (ms ≫= content).
Definition total_of (l : list Z) : Z := foldr Z.add 0%Z l.
Context (count_nonneg : ∀ t, (0 ≤ count_text t)%Z).

Lemma block_tokens_nonneg b : (0 ≤ block_tokens count_text b)%Z.
Proof. destruct b; simpl; try lia; apply count_nonneg. Qed.
Lemma tokens_app ms ms' : tokens (ms ++ ms') = (tokens ms + tokens ms')%Z.
Proof.
  unfold tokens. rewrite bind_app. induction (ms ≫= content) as [|b l IH]; cbn [app foldr]; [done|]. rewrite IH. lia.
Qed.
Lemma tokens_nonneg ms : (0 ≤ tokens ms)%Z.
Proof.
  unfold tokens. induction (ms ≫= content) as [|b l IH]; cbn [foldr]; [lia|]. pose proof (block_tokens_nonneg b). lia.
Qed.
Lemma count_is_tokens ms : (tokens ms ≤ u32_max)%Z → count_messages_tokens count_text ms = tokens ms.
Proof.
  unfold count_messages_tokens, tokens.
  assert (∀ l z, (0 ≤ z)%Z → (z + foldr (λ b, Z.add (block_tokens count_text b)) 0 l ≤ u32_max)%Z →
    foldl (λ total b, u32_saturating_add total (block_tokens count_text b)) z l =
      (z + foldr (λ b, Z.add (block_tokens count_text b)) 0 l)%Z) as Hl; [|intros H; by apply Hl].
  induction l as [|b l IH]; intros z Hz; cbn [foldl foldr]; [lia|]. intros Hb.
  pose proof (block_tokens_nonneg b).
  assert (0 ≤ foldr (λ b, Z.add (block_tokens count_text b)) 0 l)%Z.
  { clear -count_nonneg. induction l as [|b l IH]; cbn [foldr]; [lia|]. pose proof (block_tokens_nonneg b). lia. }
  assert (u32_saturating_add z (block_tokens count_text b) = z + block_tokens count_text b)%Z as ->
    by (unfold u32_saturating_add; lia).
  rewrite IH by lia. lia.
Qed.

Lemma drop_one (whole : list Message) i m ms :
  drop i whole = m :: ms → drop (S i) whole = ms ∧ S i ≤ length whole.
Proof.
  intros Hd. pose proof (f_equal length Hd) as H. rewrite length_drop in H. simpl in H. split; [|lia].
  replace (S i) with (i + 1) by lia. by rewrite <- drop_drop, Hd.
Qed.
Lemma drop_boundaries (whole : list Message) start i ms k g :
  boundaries_from start i ms !! k = Some g → drop i whole = ms → start ≤ i → i ≤ length whole →
  ∃ i' ms', drop k (boundaries_from start i ms) = boundaries_from g.1 i' ms' ∧ drop i' whole = ms' ∧ g.1 ≤ i' ∧ i' ≤ length whole.
Proof.
  revert start i k. induction ms as [|m ms IH]; intros start i k Hg Hd Hs Hl.
  - destruct k as [|k]; [|done]. rewrite (boundaries_head _ _ _ _ Hg). by exists i, [].
  - destruct (drop_one _ _ _ _ Hd) as [Hd' Hl'].
    cbn [boundaries_from] in *. destruct (is_user m) eqn:Hu.
    + destruct k as [|k]; [injection Hg as <-|].
      * exists i, (m :: ms). cbn [boundaries_from]. rewrite Hu. done.
      * apply (IH i (S i) k Hg Hd'); lia.
    + destruct k as [|k]; [rewrite (boundaries_head _ _ _ _ Hg)|].
      * exists (S i), ms. split_and!; [done|done|lia|done].
      * apply (IH start (S i) (S k) Hg Hd'); lia.
Qed.
Lemma boundaries_tokens (whole : list Message) start i ms :
  drop i whole = ms → start ≤ i → i ≤ length whole →
  total_of ((λ r, tokens (range whole r)) <$> boundaries_from start i ms) = tokens (drop start whole).
Proof.
  revert start i. induction ms as [|m ms IH]; intros start i Hd Hs Hl.
  - change (tokens (range whole (start, i)) + 0 = tokens (drop start whole))%Z. unfold range. cbn [fst snd]. rewrite take_ge; [lia|]. rewrite length_drop.
    assert (length (drop i whole) = 0) as H by (by rewrite Hd). rewrite length_drop in H. lia.
  - destruct (drop_one _ _ _ _ Hd) as [Hd' Hl'].
    cbn [boundaries_from]. destruct (is_user m).
    + rewrite fmap_cons. cbn [total_of foldr]. change (foldr Z.add 0%Z ?l) with (total_of l). rewrite IH by (done || lia).
      unfold range. cbn [fst snd]. rewrite <- tokens_app. f_equal.
      rewrite <- (take_drop (i - start) (drop start whole)) at 2. f_equal. rewrite drop_drop. f_equal. lia.
    + apply IH; [done|lia|done].
Qed.

Lemma drop_groups_spec target l total k :
  total = total_of l → Forall (λ t, (0 ≤ t)%Z) l → k ≤ length l →
  let '(left_, n) := drop_groups target total l k in
  left_ = total_of (drop n l) ∧ ((left_ ≤ target)%Z ∨ n = k) ∧ ∀ j, j < n → (target < total_of (drop j l))%Z.
Proof.
  intros Ht Hl. revert total k Ht. induction Hl as [|t l Hn Hl IH]; intros total k -> Hk.
  - destruct k; [|simpl in Hk; lia]. split_and!; [done|by right|lia].
  - destruct k as [|k]; cbn [drop_groups]; [split_and!; [done|by right|lia]|].
    destruct (Z.ltb_spec target (total_of (t :: l))) as [H|H]; [|split_and!; [done|by left|lia]].
    assert (saturating_sub (total_of (t :: l)) t = total_of l) as ->.
    { assert (0 ≤ total_of l)%Z by (clear -Hl; induction Hl; simpl; lia). unfold saturating_sub. simpl. lia. }
    specialize (IH (total_of l) k eq_refl ltac:(simpl in Hk; lia)). destruct (drop_groups target (total_of l) l k) as [left_ n].
    destruct IH as (H1 & H2 & H3). split_and!; [done|destruct H2; [by left|right; lia]|].
    intros [|j] Hj; [done|]. apply H3. lia.
Qed.

Lemma tokens_range ms r : (tokens (range ms r) ≤ tokens ms)%Z.
Proof.
  unfold range. rewrite <- (take_drop r.1 ms) at 2. rewrite tokens_app.
  rewrite <- (take_drop (r.2 - r.1) (drop r.1 ms)) at 2. rewrite tokens_app.
  pose proof (tokens_nonneg (take r.1 ms)). pose proof (tokens_nonneg (drop (r.2 - r.1) (drop r.1 ms))). lia.
Qed.
Lemma group_tokens_are ms :
  (tokens ms ≤ u32_max)%Z → group_tokens count_text ms = (λ r, tokens (range ms r)) <$> group_boundaries ms.
Proof.
  intros H. unfold group_tokens. apply list_fmap_ext. intros i r _. apply count_is_tokens. pose proof (tokens_range ms r). lia.
Qed.
(** The groups from the [k]-th on have the tokens of what the cut leaves. *)
Lemma cut_tokens ms k a :
  (tokens ms ≤ u32_max)%Z → cut_at ms k = Some a → total_of (drop k (group_tokens count_text ms)) = tokens (drop a ms).
Proof.
  intros Ht Hc. rewrite group_tokens_are by done. unfold cut_at in Hc. apply fmap_Some in Hc as (g & Hg & ->).
  destruct ms as [|m ms]; [done|]. cbn [group_boundaries] in *. rewrite <- fmap_drop.
  destruct (drop_boundaries (m :: ms) 0 1 ms k g Hg eq_refl ltac:(lia) ltac:(simpl; lia)) as (i' & ms' & -> & Hd & Hi & Hl).
  by apply boundaries_tokens.
Qed.
Lemma wrapping_total l z :
  Forall (λ t, (0 ≤ t)%Z) l → (0 ≤ z)%Z → (z + total_of l ≤ u32_max)%Z → foldl u32_add z l = (z + total_of l)%Z.
Proof.
  intros Hl. revert z. induction Hl as [|t l Ht Hl IH]; intros z Hz Hs; cbn [foldl total_of foldr] in *; [lia|].
  change (foldr Z.add 0%Z l) with (total_of l) in *.
  assert (0 ≤ total_of l)%Z by (clear -Hl; induction Hl; simpl; lia).
  rewrite u32_add_small by (unfold is_u32; lia). rewrite IH by lia. lia.
Qed.

(** Truncation fits the budget, and drops no more than it must.  When the
    conversation counts less than 2^32 tokens, it is left alone if it fits or has
    no group to spare; otherwise what is kept fits, or is down to the groups to
    keep, and any longer end of whole groups exceeds the target. *)
Theorem truncation_fits ms target keep r :
  0 < keep → (tokens ms ≤ u32_max)%Z → truncate_to_tokens count_text ms target keep = Some r →
  (action r = "skipped" ∧ new_messages r = ms ∧ ((tokens ms ≤ target)%Z ∨ length (group_boundaries ms) ≤ keep)) ∨
  ((if bool_decide (tokens (new_messages r) ≤ target)%Z then action r = "compressed"
    else action r = "compressed_but_over_budget" ∧ length (group_boundaries (new_messages r)) = keep) ∧
   ∃ n, cut_at ms n = Some (dropped r) ∧ new_messages r = drop (dropped r) ms ∧
     ∀ k a, k < n → cut_at ms k = Some a → (target < tokens (drop a ms))%Z).
Proof.
  intros Hk Ht. unfold truncate_to_tokens.
  destruct (Nat.leb_spec (length (group_boundaries ms)) keep) as [Hg|Hg]; [intros [= <-]; left; by auto|].
  assert (Forall (λ t, (0 ≤ t)%Z) (group_tokens count_text ms)) as Hpos.
  { rewrite group_tokens_are by done. apply Forall_fmap, Forall_forall. intros g _. apply tokens_nonneg. }
  assert (length (group_tokens count_text ms) = length (group_boundaries ms)) as Hlen by apply length_fmap.
  assert (total_of (group_tokens count_text ms) = tokens ms) as Htot.
  { destruct (cut_total ms 0) as (a & Ha); [lia|]. pose proof (cut_tokens ms 0 a Ht Ha) as H. rewrite drop_0 in H. rewrite H.
    unfold cut_at in Ha. apply fmap_Some in Ha as (g & Hg0 & ->). destruct ms as [|m ms]; [done|].
    by rewrite (boundaries_head _ _ _ _ Hg0), drop_0. }
  rewrite wrapping_total by (done || lia). rewrite Htot, Z.add_0_l.
  destruct (Z.leb_spec (tokens ms) target) as [Hle|Hgt]; [intros [= <-]; left; by auto|].
  pose proof (drop_groups_spec target (group_tokens count_text ms) (tokens ms) (length (group_boundaries ms) - keep)
    (eq_sym Htot) Hpos ltac:(lia)) as Hd.
  pose proof (drop_groups_bound target (tokens ms) (group_tokens count_text ms) (length (group_boundaries ms) - keep)) as Hb.
  destruct (drop_groups target (tokens ms) (group_tokens count_text ms) (length (group_boundaries ms) - keep)) as [left_ n].
  cbn [snd] in Hb. destruct Hd as (-> & Hor & Hmin).
  destruct (cut_total ms n) as (a & Ha); [lia|]. rewrite Ha. cbn [mbind option_bind]. intros [= <-]. right.
  cbn [new_messages action dropped]. rewrite (cut_tokens ms n a Ht Ha) in *. split.
  - case_bool_decide as Hfit; [by rewrite (proj2 (Z.ltb_ge _ _))|]. rewrite (proj2 (Z.ltb_lt _ _)) by lia. split; [done|].
    destruct Hor as [?|Hn]; [lia|]. destruct n as [|n]; [lia|].
    destruct (cut_splits ms n a Ha) as (pre & m & post & _ & _ & -> & Hl). lia.
  - exists n. split_and!; [done|done|]. intros k b Hkn Hc. rewrite <- (cut_tokens ms k b Ht Hc). by apply Hmin.
Qed.
End Properties.

(** ** Conversations with a tool call *)
Module Samples.
Section Values.
Context `{J : JsonApi} `{V : !JsonValues J}.
Definition says (r : MessageRole) (l : list ContentBlock) : Message := bare_message r l.
Definition call (i : string) : ContentBlock :=
  ToolCallB {| tc_id := i; tc_name := "f"; arguments := Streaming "{}"; tc_extensions := ∅ |}.
Definition answer (i : string) : ContentBlock :=
  ToolResultB {| tool_call_id := i; tr_content := json_string "fine"; is_error := false; tr_extensions := ∅ |}.
Definition text (t : string) : ContentBlock := TextBlock t ∅.
(** As the Chat decoder and as the Anthropic decoder have it. *)
Definition chat : list Message :=
  [says User [text "one"]; says Assistant [call "a"]; says Tool [answer "a"]; says Assistant [text "done"]; says User [text "two"]].
Definition claude : list Message :=
  [says User [text "one"]; says Assistant [call "a"]; says User [answer "a"]; says Assistant [text "done"]; says User [text "two"]].
Definition request_with (ms : list Message) : CanonicalRequest :=
  with_messages ms (build_summary_request "req" {| provider := "up"; Request.model := "m"; policy := default_policy_of_route |} "" 5).
Definition dropping (n : nat) : CompiledStrategy unit := CDropOldTurns n.
#[local] Abbreviation compressed s ms :=
  (messages <$> compress_request (λ _, 1%Z) (λ _, None) (λ (_ : unit) _ _ _, None) "id" s (request_with ms)).

Example last_turn_is_kept : compressed (dropping 1) chat = Some [says User [text "two"]].
Proof. reflexivity. Qed.
Example groups_of_a_conversation : group_boundaries chat = [(0, 4); (4, 5)].
Proof. reflexivity. Qed.
(** Tool results of Anthropic clients come in user messages, which lead groups of
    their own: the cut parts them from their calls, and the compressed
    conversation starts with an answer to a call it does not have. *)
Example cut_orphans_tool_results :
  compressed (dropping 2) claude = Some [says User [answer "a"]; says Assistant [text "done"]; says User [text "two"]].
Proof. reflexivity. Qed.
Example claude_was_answered : steps tools_check ∅ claude = Some ∅ ∧ steps tools_check ∅ (drop 2 claude) = None.
Proof. split; apply (bool_decide_eq_true_1 _); vm_compute; reflexivity. Qed.
(** The tokens of the groups are summed in 32 bits: two groups of three thousand
    million tokens each pass for less than two thousand million. *)
Example total_wraps :
  action <$> truncate_to_tokens (λ _, 3000000000%Z) [says User [text "a"]; says User [text "b"]] 2000000000 1 = Some "skipped".
Proof. reflexivity. Qed.
Example nothing_to_keep_is_refused :
  compile_strategy (∅ : gmap string unit) (DropOldTurns 0) = Err {| setting := "keep_last_n"; why := "must be greater than 0" |}.
Proof. reflexivity. Qed.
Example summary_fails_over :
  action <$> summarize_old_turns (λ _, None) (λ (_ : unit) _ _ _, None) "id" (chat ++ [says User [text "three"]]) 1 tt
    {| provider := "up"; Request.model := "m"; policy := default_policy_of_route |} 300 5000 = Some "summary_fallback".
Proof. reflexivity. Qed.
Example transcript :
  serialize_groups_to_text (λ _, None) (take 2 chat) =
    ("User: one" ++ newline ++ newline ++ "Assistant: " ++ newline ++ "[tool_call: f({})]" ++ newline ++ newline)%string.
Proof. reflexivity. Qed.
End Values.

#[local] Instance sample_json : JsonApi := TreeJson [].
Lemma compressed_tools_stay_answered_witness : steps tools_check ∅ [says User [text "two"]] = Some ∅.
Proof.
  apply (compressed_tools_stay_answered (λ _, 1%Z) (λ _, None) (λ (_ : unit) _ _ _, None) "id" (dropping 1) (request_with chat)
    (request_with [says User [text "two"]]) ∅).
  - simpl. lia.
  - reflexivity.
  - intros m Hm Hu. repeat (apply elem_of_cons in Hm as [->|Hm]; [done|]). by apply elem_of_nil in Hm.
  - apply (bool_decide_eq_true_1 _). vm_compute. reflexivity.
Defined.
Lemma truncation_fits_witness :
  (tokens (λ _, 1%Z) [says User [text "two"]] ≤ 1)%Z.
Proof.
  destruct (truncation_fits (λ _, 1%Z) ltac:(intros; lia) chat 1 1
    {| new_messages := [says User [text "two"]]; dropped := 4; action := "compressed" |} ltac:(lia) ltac:(by vm_compute) eq_refl)
    as [(H & _)|(H & _)]; [discriminate H|].
  vm_compute. discriminate.
Defined.
End Samples.
