(* ===== verification/Pipeline.v ===== *)
(** * The request pipeline (crates/gateway/src/pipeline.rs and handlers/)

    [dispatch_inner] takes an inbound request through the components: decoding,
    authentication, routing, the request hooks, the policy merge, admission, the
    raw passthrough, the resilient caller, the stream hook and the encoders.  It
    runs in the state of the process and a world of providers, plugins, clocks
    and files.  Spans, counters and log lines are left out.  [None] is a panic. *)
From S2P Require Import Prelude Text Emit Drain Float64 Json CoreTypes Request Config Validation Startup Fallback Breaker Retry RateLimit.
From S2P Require Import ImageTokens CostFilter StaticRoutes ModelIndex Resolver Plugins Admission Resilient AppState.
From S2P Require Import GatewayErrors UnaryPath.
#[local] Open Scope string_scope.
#[local] Open Scope list_scope.
#[local] Open Scope nat_scope.

(** ** Pure parts *)
Definition frontend_str (k : FrontendKind) : string :=
  match k with
  | AnthropicMessages => "anthropic_messages" | OpenAiChat => "openai_chat" | OpenAiResponses => "openai_responses" end.
Definition frontend_alt (k : FrontendKind) : string :=
  match k with AnthropicMessages => "anthropic" | OpenAiChat => "openai" | OpenAiResponses => "responses" end.
Definition find_route_entry (config : GatewayConfig) (frontend : FrontendKind) (m : string) : option RouteEntry :=
  let named p := (λ x, x.2) <$> list_find (λ r, (re_frontend r = frontend_str frontend ∨
                                               re_frontend r = frontend_alt frontend) ∧ re_model r = p) (routes config) in
  match named m with
  | Some r => Some r
  | None => named "*"
  end.

Definition select_image_estimator (frontend : FrontendKind) : ImageSizeHint → Z :=
  match frontend with
  | AnthropicMessages => anthropic_tokens_for_image
  | OpenAiChat => openai_tokens_for_image
  | OpenAiResponses => responses_tokens_for_image
  end.

(** Inbound headers under lower-case names, in the order of the map. *)
Definition Headers := list (string * string).
Definition header (headers : Headers) (name : string) : option string :=
  (λ x, x.2.2) <$> list_find (λ h, h.1 = name) headers.

Section Headers.
(** [HeaderValue::to_str], SHA-256 in hex. *)
Context (to_str : string → option string) (sha256_hex : string → string).

Definition capture_anthropic_headers (headers : Headers) : Headers :=
  omap (λ h,
    if negb (starts_with h.1 "anthropic-") then None
    else if bool_decide (h.1 = "anthropic-api-key" ∨ h.1 = "anthropic-auth-token") then None
    else (λ v, (h.1, v)) <$> to_str h.2) headers.

Fixpoint before_comma (s : string) : string :=
  match s with
  | EmptyString => EmptyString
  | String c s' => if bool_decide (c = Ascii.ascii_of_nat 44) then EmptyString else String c (before_comma s')
  end.
(** The client's address for the per-IP bucket. *)
Definition client_ip_of (headers : Headers) : string :=
  default "unknown" ((λ s, trim (before_comma s)) <$> (header headers "x-forwarded-for" ≫= to_str)).

Definition check_auth `{J : JsonApi} {W} (snapshot : AppSnapshot W) (headers : Headers) (kind : FrontendKind)
    : result AgentIdentity HandlerError :=
  if negb (snap_auth_enabled snapshot) then Ok Anonymous else
  let extracted := extract_identity_from_headers sha256_hex
    (header headers "authorization" ≫= to_str) (header headers "x-api-key" ≫= to_str) in
  if negb (snap_auth_required snapshot) then Ok extracted else
  match extracted with
  | Anonymous => Err (Unauthorized kind)
  | KeyHash h =>
      if bool_decide (h ∈ configured_key_hashes snapshot) then Ok extracted else Err (Unauthorized kind)
  end.
End Headers.

(** ** The entry admission works with *)
Section RouteEntry.
Implicit Types (cfg : GatewayConfig) (e : RouteEntry).

Lemma frontend_spelling k s : s = frontend_str k ∨ s = frontend_alt k ↔ frontend_of s = Some k.
Proof.
  unfold frontend_of. split.
  - by destruct k; intros [-> | ->].
  - repeat case_bool_decide; intros [= <-]; simpl; tauto.
Qed.
Lemma model_key e e' k :
  frontend_of (re_frontend e) = Some k → frontend_of (re_frontend e') = Some k → re_model e = re_model e' →
  entry_key e = entry_key e'.
Proof. unfold entry_key, entry_pattern. by intros -> -> ->. Qed.
(** The entry of a name, unique when no two entries share a key. *)
Lemma named_entry l k p e :
  NoDup (entry_key <$> l) → e ∈ l → frontend_of (re_frontend e) = Some k → re_model e = p →
  (λ x : nat * RouteEntry, x.2) <$> list_find (λ r, (re_frontend r = frontend_str k ∨ re_frontend r = frontend_alt k) ∧ re_model r = p) l = Some e.
Proof.
  intros Hnd He Hk Hp. edestruct (list_find_elem_of (λ r, (re_frontend r = frontend_str k ∨ re_frontend r = frontend_alt k) ∧ re_model r = p))
    as [[i x] Hx]; [exact He|by rewrite frontend_spelling|].
  rewrite Hx. simpl. f_equal. apply list_find_Some in Hx as (Hi & [Hk'%frontend_spelling Hp'] & _).
  apply list_elem_of_lookup_1 in He as [j Hj]. rewrite <- Hp in Hp'.
  pose proof (model_key _ _ _ Hk' Hk Hp') as Heq.
  assert (i = j) as -> by (eapply NoDup_lookup; [exact Hnd| |]; by rewrite list_lookup_fmap, ?Hi, ?Hj; simpl; rewrite ?Heq).
  congruence.
Qed.

(** For a model name without a star and routes without duplicates, admission
    works with the entry the router answered with when that names the model or
    is the catch-all; a request answered by a prefix route is admitted under the
    front end's catch-all entry, or refused when there is none. *)
Theorem admission_finds_the_entry cfg k m e :
  count_char star m = 0 → NoDup (entry_key <$> routes cfg) → selected (routes cfg) k m e →
  find_route_entry cfg k m =
  match entry_pattern e with
  | Exact _ | AnyModel => Some e
  | Prefix _ => last_entry (k, AnyModel) (routes cfg)
  end.
Proof.
  intros Hm Hnd (l1 & l2 & Hl & Hk & Hmatch & Hbest & _).
  assert (He : e ∈ routes cfg) by (rewrite Hl; apply elem_of_app; right; left).
  assert (Hexact : ∀ r, frontend_of (re_frontend r) = Some k → re_model r = m → entry_pattern r = Exact m).
  { intros r _ Hr. unfold entry_pattern. rewrite Hr. case_bool_decide as Hstar; [by rewrite Hstar in Hm|].
    destruct (strip_last star m) as [p|] eqn:Hp; [|done]. apply strip_last_spec in Hp.
    rewrite Hp, count_char_app in Hm. simpl in Hm. lia. }
  unfold find_route_entry.
  assert (Hnone : (∀ r, r ∈ routes cfg → frontend_of (re_frontend r) = Some k → re_model r ≠ m) →
    list_find (λ r, (re_frontend r = frontend_str k ∨ re_frontend r = frontend_alt k) ∧ re_model r = m) (routes cfg) = None).
  { intros Hno. apply list_find_None, Forall_forall. intros r Hr [Hf%frontend_spelling Hrm]. by eapply Hno. }
  assert (Hany : entry_pattern e ≠ Exact m → ∀ r, r ∈ routes cfg → frontend_of (re_frontend r) = Some k → re_model r ≠ m).
  { intros Hne r Hr Hf Hrm. pose proof (Hexact r Hf Hrm) as Hpat. specialize (Hbest r Hr Hf). rewrite Hpat in Hbest.
    simpl in Hbest. specialize (Hbest (bool_decide_eq_true_2 _ eq_refl)).
    destruct (entry_pattern e) as [x|p|] eqn:Hpe; simpl in *; [|done..].
    apply bool_decide_eq_true in Hmatch as ->. done. }
  destruct (entry_pattern e) as [x|p|] eqn:Hpat.
  - apply bool_decide_eq_true in Hmatch as ->. rewrite (named_entry _ k m e Hnd He Hk); [done|].
    unfold entry_pattern in Hpat. repeat case_match; simplify_eq; done.
  - rewrite Hnone by by apply Hany. cbn [fmap option_fmap option_map].
    destruct (last_entry (k, AnyModel) (routes cfg)) as [w|] eqn:Hw.
    + destruct (last_entry_split _ _ _ Hw) as (k1 & k2 & Hk12 & Hkey & _). apply named_entry; [done|by eapply last_entry_elem|..];
        unfold entry_key, entry_pattern in Hkey; destruct (frontend_of (re_frontend w)); simpl in Hkey; simplify_eq; [done|].
      repeat case_bool_decide; simplify_eq; [done|]. by repeat case_match.
    + apply fmap_None, list_find_None, Forall_forall. intros r Hr [Hf%frontend_spelling Hrm].
      apply last_entry_None in Hw. rewrite Forall_forall in Hw. apply (Hw r Hr). unfold entry_key, entry_pattern. by rewrite Hf, Hrm.
  - rewrite Hnone by by apply Hany. cbn [fmap option_fmap option_map]. apply named_entry; [done..|].
    unfold entry_pattern in Hpat. repeat case_match; try done. by case_bool_decide.
Qed.
End RouteEntry.

(** ** The pipeline *)
Section Pipeline.
Context `{J : JsonApi} `{V : !JsonValues J} `{L : Lowercase}.
Context {W Limiter NotUntil Rng Backend : Type}.
(** [http], [std] and [sha2]. *)
Context (to_str : string → option string) (sha256_hex : string → string).
(** [governor] and the clocks. *)
Context (direct : Z → Z → Limiter) (check : Z → Limiter → result unit NotUntil * Limiter).
Context (wait_time_from : NotUntil → Z → Z * Z) (limiter_clock breaker_clock : nat → Z).
Context (now_ms : W → Z * W).
(** The tokenizer, the latency probe and the entropy of the retry loop. *)
Context (token_count : string → Z) (recent_p95_ms : string → option Z).
Context (from_entropy : W → Rng * W) (gen_range : f64 → Rng → option (f64 * Rng)).
Context (show_u16 : Z → string).
(** The providers: a stream is the list of the items it will yield. *)
#[local] Abbreviation Stream := (list (result StreamEvent StreamError)).
Context (vision_capable : Backend → bool).
Context (complete : Backend → CanonicalRequest → BackendTarget → W → result Stream ProviderError * W).
Context (proxy_raw : Backend → string → BackendTarget → FrontendKind → W →
  result (option (string * list (result string string))) ProviderError * W).
(** serde on [Minimal { model }]; the dump of a body that cannot be decoded, and
    the name of its file; the derived equality of requests; [ResponseId::new]. *)
Context (peek_model : string → result string string).
Context (dump_body : FrontendKind → string → W → result string unit * W).
Context (request_eqb : CanonicalRequest → CanonicalRequest → bool).
Context (fresh_id : W → string * W).

(** [FrontendProtocol], without the streaming encoders. *)
Record FrontendProtocol := {
  fp_kind : FrontendKind;
  decode_request : string → result CanonicalRequest FrontendError;
  encode_unary : CanonicalResponse → result string FrontendError;
}.
(** The fields that matter: both values of [log_streaming_usage_on_drop] lead to
    the same code. *)
Record PipelineSpec := {
  spec_frontend : FrontendProtocol;
  capture_headers : bool;
  try_proxy_raw : bool;
}.

Record PipeState := { pipe_app : AppState W Limiter Backend; pipe_world : W }.
Definition set_pipe_world (w : W) (s : PipeState) : PipeState := {| pipe_app := pipe_app s; pipe_world := w |}.
Definition set_app (a : AppState W Limiter Backend) (s : PipeState) : PipeState :=
  {| pipe_app := a; pipe_world := pipe_world s |}.
Definition set_breakers (b : BreakerRegistry) (a : AppState W Limiter Backend) : AppState W Limiter Backend :=
  {| core := core a; snapshot := snapshot a; limiters := limiters a; breaker_registry := b |}.

Inductive PipelineEvent :=
| BodyDumped (written : bool)
| PluginReported (e : PluginReport)
| AdmissionReported (e : AdmissionEvent)
| Proxied (provider : string)
| CallerReported (e : CallerEvent Stream)
| BreakerReported (e : StateChange)
| TaskSpawned (plugin : string) (summary : ResponseSummary).
#[local] Abbreviation M := (emit PipeState PipelineEvent).
(** A step that can fail, or panic. *)
#[local] Abbreviation Step A := (M (option (result A HandlerError))).

Definition attempt {A B} (m : Step A) (k : A → Step B) : Step B :=
  r ← m;
  match r with
  | Some (Ok a) => k a
  | Some (Err e) => mret (Some (Err e))
  | None => mret None
  end.
#[local] Notation "'let!' x ':=' m 'in' k" := (attempt m (λ x, k)) (at level 10, x name, m at level 100, k at level 200).
Definition done_with {A} (r : result A HandlerError) : Step A := mret (Some r).
Definition panic {A} : Step A := mret None.
Definition lift_result {A} (m : M (result A HandlerError)) : Step A := r ← m; mret (Some r).

(** The components, run in the pipeline's state. *)
Definition with_world {E A} (ev : E → PipelineEvent) (m : emit W E A) : M A := embed pipe_world set_pipe_world ev m.
Definition effect {A} (f : W → A * W) : M A := λ s, let '(a, w) := f (pipe_world s) in (a, set_pipe_world w s, []).
Definition with_breakers {A} (m : emit BreakerRegistry StateChange A) : M A :=
  embed (λ s, breaker_registry (pipe_app s)) (λ b s, set_app (set_breakers b (pipe_app s)) s) BreakerReported m.
Definition with_admission {A} (m : emit (AdmissionState (Limiter := Limiter)) AdmissionEvent A) : M A :=
  embed (λ s, {| limiter := limiters (pipe_app s); breaker := breaker_registry (pipe_app s) |})
    (λ a s, set_app (set_breakers (breaker a) (set_limiters (limiter a) (pipe_app s))) s) AdmissionReported m.
Definition with_caller {A} (m : emit (CallerState (W := W)) (CallerEvent Stream) A) : M A :=
  embed (λ s, {| world := pipe_world s; caller_breakers := breaker_registry (pipe_app s) |})
    (λ c s, {| pipe_app := set_breakers (caller_breakers c) (pipe_app s); pipe_world := world c |}) CallerReported m.

(** *** Decoding *)
Definition decode_or_dump (frontend : FrontendProtocol) (body : string) : Step CanonicalRequest :=
  match decode_request frontend body with
  | Ok canonical => done_with (Ok canonical)
  | Err original_err =>
      r ← effect (dump_body (fp_kind frontend) body);
      match r with
      | Ok path =>
          push (BodyDumped true);;
          done_with (Err (Frontend (InvalidBody (show_frontend_error original_err ++ " (body dumped to " ++ path ++ ")")%string)))
      | Err _ => push (BodyDumped false);; done_with (Err (Frontend original_err))
      end
  end.
Definition extract_model_from_body (body : string) : result string HandlerError :=
  map_err (λ e, Frontend (InvalidBody ("cannot extract model: " ++ e)%string)) (peek_model body).

(** *** The request hooks *)
Definition run_pre_admission_hook (snapshot : AppSnapshot W) (spec : PipelineSpec) (ctx : PluginContext)
    (route : FrontendKind * string) (canonical : CanonicalRequest) (hook : RequestHookKind)
    : Step (CanonicalRequest * bool) :=
  let has_subscriber :=
    match hook with
    | KDecodedRequest => has_on_decoded_request_subscriber (snap_plugins snapshot) route
    | KResolved _ => has_on_resolved_subscriber (snap_plugins snapshot) route
    end in
  let needs_guard := try_proxy_raw spec && has_subscriber in
  after ← with_world PluginReported
    match hook with
    | KDecodedRequest => run_on_decoded_request (snap_plugins snapshot) route ctx canonical
    | KResolved target => run_on_resolved (snap_plugins snapshot) route ctx canonical target
    end;
  match after with
  | Err e => done_with (Err (handler_error_from_plugin_error e route.1))
  | Ok after => done_with (Ok (after, needs_guard && negb (request_eqb canonical after)))
  end.

(** *** Polling a stream *)
(** What the body of an answer is made of: the upstream's stream behind the
    ticket it commits with its first item and the plugins that see its events. *)
Record LiveStream := {
  ls_stream : Stream; ls_ticket : AdmissionTicket; ls_index : nat; ls_snapshot : AppSnapshot W;
  ls_route : FrontendKind * string; ls_ctx : PluginContext; ls_started : Z;
}.
Section Pull.
Context {S : Type} (feed : S → result StreamEvent StreamError → S) (stopped : S → bool).
Definition feed_unless_stopped (s : S) (item : result StreamEvent StreamError) : S :=
  if stopped s then s else feed s item.
(** Feed the items to a consumer until it stops, which drops the rest. *)
Fixpoint pull_items (ctx : PluginContext) (entries : list PluginEntry) (i : nat) (items : Stream) (s : S)
    (ticket : option AdmissionTicket) : M (S * option AdmissionTicket) :=
  match items with
  | [] => mret (s, ticket)
  | item :: items' =>
      if stopped s then mret (s, ticket) else
      ticket ← with_breakers (on_poll breaker_clock i (Ready (Some item)) ticket);
      outs ← with_world PluginReported (on_stream_item ctx entries item);
      pull_items ctx entries i items' (foldl feed_unless_stopped s outs) ticket
  end.
Definition pull (live : LiveStream) (s : S) : M S :=
  let entries :=
    match lookup_plan (snap_plugins (ls_snapshot live)) (ls_route live).1 (ls_route live).2 with
    | Some plan => p_on_stream_event plan
    | None => []
    end in
  r ← pull_items (ls_ctx live) entries (ls_index live) (ls_stream live) s (Some (ls_ticket live));
  match r.2 with Some t => with_breakers (ticket_drop breaker_clock t) | None => mret tt end;;
  mret r.1.
End Pull.

(** [run_on_response_complete], which spawns a task per subscriber. *)
Definition response_complete (live : LiveStream) (usage : option Usage) : M unit :=
  now ← effect now_ms;
  let summary := {| rs_usage := usage; rs_elapsed_ms := saturating_sub now (ls_started live);
                    rs_upstream_status := StatusSuccess |} in
  for_each (run_on_response_complete (snap_plugins (ls_snapshot live)) (ls_route live) (ls_ctx live) summary)
    (λ task, push (TaskSpawned task.1 summary)).

(** *** The streaming answer *)
(** What the encoder is given, until the response is dropped. *)
Record Delivery := { remaining : nat; usage_capture : option Usage; delivered : Stream }.
Definition capture_usage (item : result StreamEvent StreamError) (u : option Usage) : option Usage :=
  match item with
  | Ok (UsageDelta usage) => Some usage
  | Ok (ResponseStop (Some usage)) => Some usage
  | _ => u
  end.
Definition deliver (d : Delivery) (item : result StreamEvent StreamError) : Delivery := {|
  remaining := pred (remaining d); usage_capture := capture_usage item (usage_capture d);
  delivered := delivered d ++ [item] |}.
(** The client takes [n] items and goes; the guard is dropped after the stream. *)
Definition serve_stream (live : LiveStream) (n : nat) : M Stream :=
  d ← pull deliver (λ d, remaining d =? 0) live {| remaining := n; usage_capture := None; delivered := [] |};
  response_complete live (usage_capture d);;
  mret (delivered d).

Inductive Response :=
| UnaryBody (body : string)
| StreamBody (live : LiveStream)
| RawBody (content_type : string) (bytes : list (result string string)) (ticket : AdmissionTicket).

Definition call_chain (canonical : CanonicalRequest) (ticket : AdmissionTicket) (kind : FrontendKind)
    : Step (Stream * AdmissionTicket * nat) :=
  ps ← gets (λ s, providers (core (pipe_app s)));
  r ← with_caller (complete_inner from_entropy gen_range (λ name, complete <$> ps !! name) now_ms show_u16
        breaker_clock ticket canonical);
  match r with
  | None => panic
  | Some (Ok live) => done_with (Ok live)
  | Some (Err e) => done_with (Err (from_resilience_error e kind))
  end.

Record RunContext := { rc_snapshot : AppSnapshot W; rc_route : FrontendKind * string; rc_label : string; rc_started : Z }.
Definition live_stream (rc : RunContext) (canonical : CanonicalRequest) (r : Stream * AdmissionTicket * nat) : LiveStream := {|
  ls_stream := r.1.1; ls_ticket := r.1.2; ls_index := r.2; ls_snapshot := rc_snapshot rc; ls_route := rc_route rc;
  ls_ctx := {| ctx_request_id := id canonical; ctx_frontend := (rc_route rc).1; ctx_route_label := rc_label rc |};
  ls_started := rc_started rc |}.
Definition run_stream (canonical : CanonicalRequest) (ticket : AdmissionTicket) (rc : RunContext) : Step Response :=
  let! r := call_chain canonical ticket (rc_route rc).1 in
  done_with (Ok (StreamBody (live_stream rc canonical r))).

(** *** The unary answer *)
Definition collect_item (s : result Collector HandlerError) (item : result StreamEvent StreamError)
    : result Collector HandlerError :=
  let? c := s in
  let? ev := map_err (λ e, Provider (Decode (show_stream_error e))) item in
  collect_event c ev.
Definition collect_live (live : LiveStream) : Step CanonicalResponse :=
  fresh ← effect fresh_id;
  r ← pull collect_item (λ s, negb (is_ok s)) live (Ok (collector_start fresh));
  done_with (result_map response r).
Definition run_unary (frontend : FrontendProtocol) (canonical : CanonicalRequest) (ticket : AdmissionTicket)
    (rc : RunContext) : Step Response :=
  let! r := call_chain canonical ticket (rc_route rc).1 in
  let live := live_stream rc canonical r in
  let! response := collect_live live in
  response_complete live (cr_usage response);;
  done_with (map_err Frontend (result_map UnaryBody (encode_unary frontend response))).

(** *** The raw passthrough *)
(** [Some]: the answer; [None]: on to the canonical path with the same ticket. *)
Definition try_passthrough (spec : PipelineSpec) (body : string) (ticket : AdmissionTicket)
    : Step (option Response) :=
  match filtered_chain ticket with
  | [] => panic
  | target :: _ =>
      ps ← gets (λ s, providers (core (pipe_app s)));
      match ps !! provider target with
      | None =>
          with_breakers (ticket_drop breaker_clock ticket);;
          done_with (Err (Provider (UnknownProvider (provider target))))
      | Some p =>
          push (Proxied (provider target));;
          r ← effect (proxy_raw p body target (fp_kind (spec_frontend spec)));
          match r with
          | Ok (Some (content_type, bytes)) => done_with (Ok (Some (RawBody content_type bytes ticket)))
          | Ok None => done_with (Ok None)
          | Err _ => done_with (Ok None)
          end
      end
  end.

(** [ConsumeOnFirstByteStream]: the bytes of the answer, of which the client takes
    at most [n] items; the first commits the ticket, for the head of the chain. *)
Fixpoint serve_raw (bytes : list (result string string)) (ticket : option AdmissionTicket) (n : nat)
    : M (list (result string string)) :=
  match n, bytes with
  | S n', item :: bytes' =>
      match ticket with
      | Some t => with_breakers (t' ← ticket_consume breaker_clock 0 (is_ok item) t; ticket_drop breaker_clock t')
      | None => mret tt
      end;;
      rest ← serve_raw bytes' None n';
      mret (item :: rest)
  | _, _ =>
      match ticket with Some t => with_breakers (ticket_drop breaker_clock t) | None => mret tt end;;
      mret []
  end.

(** *** The whole *)
Definition set_inbound_headers (h : Headers) (r : CanonicalRequest) : CanonicalRequest := {|
  id := id r; frontend_kind := frontend_kind r; requested_model := requested_model r; req_model := req_model r;
  system := system r; messages := messages r; tools := tools r; tool_choice := tool_choice r;
  generation := generation r; response_format := response_format r; stream := stream r; Request.metadata := Request.metadata r;
  inbound_anthropic_headers := h; resolved_policy := resolved_policy r; extensions := extensions r |}.
Definition set_resolved_policy (p : ResolvedPolicy) (r : CanonicalRequest) : CanonicalRequest := {|
  id := id r; frontend_kind := frontend_kind r; requested_model := requested_model r; req_model := req_model r;
  system := system r; messages := messages r; tools := tools r; tool_choice := tool_choice r;
  generation := generation r; response_format := response_format r; stream := stream r; Request.metadata := Request.metadata r;
  inbound_anthropic_headers := inbound_anthropic_headers r; resolved_policy := p; extensions := extensions r |}.
(** The route's policy and the catalogue's facts about the head of the chain. *)
Definition resolve_policy (index : ModelIndex) (target : BackendTarget) (canonical : CanonicalRequest) : CanonicalRequest :=
  let md := model_metadata index (provider target) (Request.model target) in
  let p := Request.resolve (Request.policy target) canonical in
  set_resolved_policy {|
    Request.reasoning_effort := Request.reasoning_effort p; reasoning_budget_tokens := reasoning_budget_tokens p;
    supported_efforts := md ≫= λ m, reasoning_effort_values (supports m);
    Request.supported_endpoints := md ≫= ModelIndex.supported_endpoints;
    anthropic_headers := anthropic_headers p |} canonical.

(** With the ticket: the raw passthrough, unless a plugin changed the request,
    then the canonical path. *)
Definition run_admitted (spec : PipelineSpec) (body : string) (mutated : bool) (canonical : CanonicalRequest)
    (ticket : AdmissionTicket) (rc : RunContext) : Step Response :=
  let! raw := if try_proxy_raw spec && negb mutated then try_passthrough spec body ticket else done_with (Ok None) in
  match raw with
  | Some response => done_with (Ok response)
  | None =>
      if stream canonical then run_stream canonical ticket rc
      else run_unary (spec_frontend spec) canonical ticket rc
  end.

(** Both request hooks and, between them, the policy of the route. *)
Definition run_request_hooks (snapshot : AppSnapshot W) (spec : PipelineSpec) (route : FrontendKind * string) (label : string)
    (index : ModelIndex) (first_target : BackendTarget) (canonical : CanonicalRequest) : Step (CanonicalRequest * bool) :=
  let ctx := {| ctx_request_id := id canonical; ctx_frontend := route.1; ctx_route_label := label |} in
  let! h2 := run_pre_admission_hook snapshot spec ctx route canonical KDecodedRequest in
  let canonical := resolve_policy index first_target h2.1 in
  let! h3 := run_pre_admission_hook snapshot spec ctx route canonical (KResolved first_target) in
  done_with (Ok (h3.1, h2.2 || h3.2)).

(** Admission, and what it lets through. *)
Definition admit_request (spec : PipelineSpec) (headers : Headers) (body : string) (identity : AgentIdentity)
    (resolved_route : ResolvedRoute) (route_entry : RouteEntry) (mutated : bool) (canonical : CanonicalRequest)
    (rc : RunContext) : Step Response :=
  let kind := fp_kind (spec_frontend spec) in
  ps ← gets (λ s, providers (core (pipe_app s)));
  admitted ← with_admission (admission_admit direct check wait_time_from limiter_clock breaker_clock
    token_count recent_p95_ms (select_image_estimator kind) (λ name, vision_capable <$> ps !! name)
    resolved_route route_entry (snap_config (rc_snapshot rc)) canonical identity (client_ip_of to_str headers));
  match admitted with
  | Err e => done_with (Err (handler_error_from_admission e kind))
  | Ok ticket => run_admitted spec body mutated canonical ticket rc
  end.

Definition dispatch_inner (spec : PipelineSpec) (headers : Headers) (body : string) : Step Response :=
  started ← effect now_ms;
  snapshot ← gets (λ s, snapshot (pipe_app s));
  let frontend := spec_frontend spec in
  let kind := fp_kind frontend in
  let! first :=
    if try_proxy_raw spec
    then done_with (result_map (λ m, (m, None)) (extract_model_from_body body))
    else let! canonical := decode_or_dump frontend body in done_with (Ok (req_model canonical, Some canonical)) in
  let model_alias := first.1 in
  let! identity := done_with (check_auth to_str sha256_hex snapshot headers kind) in
  resolver ← gets (λ s, resolver (core (pipe_app s)));
  let! resolved_route := done_with (map_err RouteFault (Resolver.resolve_route resolver kind model_alias)) in
  match chain resolved_route with
  | [] => panic
  | first_target :: _ =>
      let! canonical := match first.2 with Some canonical => done_with (Ok canonical) | None => decode_or_dump frontend body end in
      let canonical :=
        if capture_headers spec then set_inbound_headers (capture_anthropic_headers to_str headers) canonical
        else canonical in
      let label := (show_frontend kind ++ "/" ++ model_alias)%string in
      let! hooked := run_request_hooks snapshot spec (kind, model_alias) label (model_index resolver) first_target canonical in
      match find_route_entry (snap_config snapshot) kind model_alias with
      | None => done_with (Err (RouteFault (NoRoute kind model_alias)))
      | Some route_entry =>
          admit_request spec headers body identity resolved_route route_entry hooked.2 hooked.1
            {| rc_snapshot := snapshot; rc_route := (kind, model_alias); rc_label := label; rc_started := started |}
      end
  end.

(** ** Reasoning about runs *)
Definition post {A} (m : M A) (s : PipeState) (Q : A → PipeState → list PipelineEvent → Prop) : Prop :=
  let '(a, s', l) := m s in Q a s' l.
Lemma post_bind {A B} (m : M A) (k : A → M B) s (Q : B → PipeState → list PipelineEvent → Prop) :
  post m s (λ a s1 l1, post (k a) s1 (λ b s2 l2, Q b s2 (l1 ++ l2))) → post (m ≫= k) s Q.
Proof.
  unfold post, mbind, emit_bind. destruct (m s) as [[a s1] l1]. by destruct (k a s1) as [[b s2] l2].
Qed.
Lemma post_mono {A} (m : M A) s (Q Q' : A → PipeState → list PipelineEvent → Prop) :
  post m s Q → (∀ a s' l, Q a s' l → Q' a s' l) → post m s Q'.
Proof. unfold post. destruct (m s) as [[a s'] l]. auto. Qed.
Lemma post_ret {A} (a : A) s (Q : A → PipeState → list PipelineEvent → Prop) : Q a s [] → post (mret a) s Q.
Proof. done. Qed.

(** An event on the way to the upstreams. *)
Definition upstream_event (e : PipelineEvent) : bool :=
  match e with Proxied _ | CallerReported _ => true | _ => false end.
(** A part of the pipeline that leaves the process and the upstreams alone. *)
Definition harmless (s s' : PipeState) (l : list PipelineEvent) : Prop :=
  pipe_app s' = pipe_app s ∧ Forall (λ e, upstream_event e = false) l.
Lemma harmless_refl s : harmless s s [].
Proof. by split. Qed.
Lemma harmless_trans s1 s2 s3 l1 l2 : harmless s1 s2 l1 → harmless s2 s3 l2 → harmless s1 s3 (l1 ++ l2).
Proof. intros [Ha Hl] [Ha' Hl']. split; [by rewrite Ha'|by apply Forall_app]. Qed.

(** A harmless step, and what it may answer. *)
Lemma post_attempt {A B} (m : Step A) (k : A → Step B) s Qa (Q : option (result B HandlerError) → PipeState → list PipelineEvent → Prop) :
  post m s (λ a s' l, harmless s s' l ∧ Qa a) →
  (∀ s' l, harmless s s' l → Qa None → Q None s' l) →
  (∀ e s' l, harmless s s' l → Qa (Some (Err e)) → Q (Some (Err e)) s' l) →
  (∀ a s1 l1, harmless s s1 l1 → Qa (Some (Ok a)) → post (k a) s1 (λ b s2 l2, Q b s2 (l1 ++ l2))) →
  post (attempt m k) s Q.
Proof.
  intros Hm Hn He Hk. apply post_bind. eapply post_mono; [exact Hm|]. simpl. intros a s1 l1 [Hh Ha].
  destruct a as [[a|e]|]; [by apply Hk|..]; apply post_ret; rewrite app_nil_r; auto.
Qed.
Lemma post_effect {A} (f : W → A * W) s : post (effect f) s (λ _ s' l, harmless s s' l ∧ pipe_world s' = (f (pipe_world s)).2).
Proof. unfold post, effect. destruct (f (pipe_world s)). by repeat split. Qed.
Lemma post_with_world {E A} (ev : E → PipelineEvent) (m : emit W E A) s :
  (∀ e, upstream_event (ev e) = false) → post (with_world ev m) s (λ a s' l, harmless s s' l ∧ a = answer m (pipe_world s) ∧ pipe_world s' = final m (pipe_world s)).
Proof.
  intros Hev. unfold post, with_world, embed, answer, final. destruct (m (pipe_world s)) as [[a w] l]. simpl.
  split; [|done]. split; [done|]. apply Forall_fmap, Forall_true. intros e. apply Hev.
Qed.

Lemma post_decode frontend body s :
  post (decode_or_dump frontend body) s (λ a s' l, harmless s s' l ∧
    match decode_request frontend body with
    | Ok c => a = Some (Ok c) ∧ pipe_world s' = pipe_world s
    | Err _ => ∃ e, a = Some (Err (Frontend e))
    end).
Proof.
  unfold decode_or_dump. destruct (decode_request frontend body) as [c|e].
  - split; [apply harmless_refl|done].
  - apply post_bind. eapply post_mono; [apply post_effect|]. simpl. intros [path|[]] s1 l1 [Hh _].
    all: unfold post, mbind, emit_bind, push, done_with, mret, emit_ret; split; [|eauto].
    all: apply (harmless_trans _ _ _ _ _ Hh); split; [done|by repeat constructor].
Qed.

Definition has_subscriber (hook : RequestHookKind) (snapshot : AppSnapshot W) (route : FrontendKind * string) : bool :=
  match hook with
  | KDecodedRequest => has_on_decoded_request_subscriber (snap_plugins snapshot) route
  | KResolved _ => has_on_resolved_subscriber (snap_plugins snapshot) route
  end.
Lemma no_subscribers hook snapshot route :
  has_subscriber hook snapshot route = false → subscribers hook (snap_plugins snapshot) route = [].
Proof.
  unfold has_subscriber, has_on_decoded_request_subscriber, has_on_resolved_subscriber, subscribers.
  destruct hook, (lookup_plan _ _ _) as [[[] [] ? ?]|]; done.
Qed.
(** What the plugins make of a request on one hook, and the world they leave. *)
Definition hook_outcome (snapshot : AppSnapshot W) (ctx : PluginContext) (route : FrontendKind * string)
    (hook : RequestHookKind) (canonical : CanonicalRequest) (w : W) : result CanonicalRequest PluginError * W :=
  (run_request_hook hook (snap_plugins snapshot) route ctx canonical w).1.
Lemma post_hook snapshot spec ctx route canonical hook s :
  post (run_pre_admission_hook snapshot spec ctx route canonical hook) s (λ a s' l, harmless s s' l ∧
    pipe_world s' = (hook_outcome snapshot ctx route hook canonical (pipe_world s)).2 ∧
    match a, (hook_outcome snapshot ctx route hook canonical (pipe_world s)).1 with
    | Some (Ok r), Ok c => r.1 = c ∧ protected c = protected canonical ∧
        ((∀ x y, request_eqb x y = true → x = y) → try_proxy_raw spec = true → r.2 = false → c = canonical)
    | Some (Err e), Err pe => e = handler_error_from_plugin_error pe route.1
    | _, _ => False
    end).
Proof.
  unfold run_pre_admission_hook. apply post_bind. eapply post_mono; [by apply post_with_world|].
  cbn beta. intros a s1 l1 (Hh & Ha & Hw1).
  change (match hook with KDecodedRequest => has_on_decoded_request_subscriber _ _ | KResolved _ => _ end)
    with (has_subscriber hook snapshot route).
  assert (Hrun : (a, pipe_world s1) = hook_outcome snapshot ctx route hook canonical (pipe_world s)).
  { rewrite Ha, Hw1. unfold hook_outcome, answer, final, run_request_hook.
    set (m := match hook with KDecodedRequest => _ | KResolved _ => _ end). by destruct (m (pipe_world s)) as [[? ?] ?]. }
  rewrite <- Hrun. clear Ha Hw1. unfold hook_outcome in Hrun. rewrite run_request_hook_walk in Hrun.
  pose proof (hook_walk_spec ctx hook (hook_of hook) (subscribers hook (snap_plugins snapshot) route) canonical (pipe_world s)) as Hw.
  pose proof (no_subscribers hook snapshot route) as Hno.
  destruct (walk_request_hook _ _ _ _ _ _) as [[r w'] reports] eqn:Hr. simpl in Hrun. injection Hrun as <- <-.
  cbn [fst snd]. destruct a as [c|pe]; apply post_ret; rewrite app_nil_r; split_and!; try done; [by destruct Hw|].
  intros Heq -> Hg. cbn [fst snd] in *. destruct (has_subscriber hook snapshot route); simpl in *.
  - apply negb_false_iff in Hg. symmetry. by apply Heq.
  - rewrite Hno in Hr by done. simpl in Hr. unfold mret, emit_ret in Hr. congruence.
Qed.

Lemma post_admission m s :
  post (with_admission m) s (λ (a : result AdmissionTicket AdmissionError) s' l,
    a = answer m {| limiter := limiters (pipe_app s); breaker := breaker_registry (pipe_app s) |} ∧
    core (pipe_app s') = core (pipe_app s) ∧ Forall (λ e, upstream_event e = false) l).
Proof.
  unfold post, with_admission, embed, answer. destruct (m _) as [[a st] l]. simpl. split_and!; [done..|].
  apply Forall_fmap, Forall_true. done.
Qed.

(** Retry policies under which the retry loop answers. *)
Definition answerable (r : ResolvedRoute) : Prop :=
  let policy := retry_policy_from (rr_retry r) in
  is_u32 (max_attempts policy) ∧ (0 ≤ total_budget_ms policy)%Z ∧ draws gen_range policy.
Lemma post_call_chain canonical ticket kind s :
  post (call_chain canonical ticket kind) s (λ a _ _,
    match a with
    | Some (Ok r) => r.1.2 = ticket
    | Some (Err e) => ∃ re, e = from_resilience_error re kind
    | None => ¬ answerable (resolved ticket)
    end).
Proof.
  unfold call_chain. apply post_bind. unfold post at 1, gets. apply post_bind.
  unfold with_caller. set (m := complete_inner _ _ _ _ _ _ _ _). unfold post at 1, embed.
  set (c := {| world := _; caller_breakers := _ |}).
  assert (Hm : answerable (resolved ticket) → ∃ r, answer m c = Some r).
  { intros (H1 & H2 & H3). by apply complete_inner_answers. }
  assert (Ht : ∀ st t i, answer m c = Some (Ok (st, t, i)) → t = ticket) by (intros ???; apply complete_inner_ticket).
  unfold answer in Hm, Ht. destruct (m c) as [[a c'] l]. simpl in Hm, Ht.
  destruct a as [[[[st t] i]|e]|]; apply post_ret; [by eapply Ht|by eexists|].
  intros H. by destruct (Hm H) as [? ?].
Qed.

(** *** What no part of a run changes *)
Definition kept (a a' : AppState W Limiter Backend) : Prop :=
  core a' = core a ∧ snapshot a' = snapshot a ∧ charged (limiters a) (limiters a').
Definition keeps {A} (m : M A) : Prop := ∀ s, kept (pipe_app s) (pipe_app (final m s)).
Lemma kept_refl a : kept a a.
Proof. split_and!; [done..|apply charged_refl]. Qed.
Lemma steady_ret {A} (a : A) : keeps (mret a).
Proof. intros s. apply kept_refl. Qed.
Lemma steady_bind {A B} (m : M A) (k : A → M B) : keeps m → (∀ a, keeps (k a)) → keeps (m ≫= k).
Proof.
  intros Hm Hk s. unfold kept. rewrite final_bind. destruct (Hk (answer m s) (final m s)) as (-> & -> & Hc).
  destruct (Hm s) as (-> & -> & Hc'). split_and!; [done..|by eapply charged_trans].
Qed.
Lemma steady_attempt {A B} (m : Step A) (k : A → Step B) : keeps m → (∀ a, keeps (k a)) → keeps (attempt m k).
Proof. intros Hm Hk. apply steady_bind; [done|]. intros [[a|e]|]; [done|apply steady_ret..]. Qed.
Lemma steady_gets {A} (f : PipeState → A) : keeps (gets f).
Proof. intros s. apply kept_refl. Qed.
Lemma steady_push e : keeps (push e).
Proof. intros s. apply kept_refl. Qed.
Lemma steady_effect {A} (f : W → A * W) : keeps (effect f).
Proof. intros s. unfold final, effect. destruct (f (pipe_world s)). apply kept_refl. Qed.
(** Calls that end in the same [core], [snapshot] and limiters. *)
Lemma steady_embed {T E A} (proj : PipeState → T) upd (ev : E → PipelineEvent) (m : emit T E A) :
  (∀ t s, core (pipe_app (upd t s)) = core (pipe_app s) ∧ snapshot (pipe_app (upd t s)) = snapshot (pipe_app s) ∧
     limiters (pipe_app (upd t s)) = limiters (pipe_app s)) →
  keeps (embed proj upd ev m).
Proof.
  intros Hu s. unfold final, embed. destruct (m (proj s)) as [[a t] l]. destruct (Hu t s) as (H1 & H2 & H3).
  split_and!; simpl; [done..|]. rewrite H3. apply charged_refl.
Qed.
Lemma steady_admission route entry config request identity client_ip image vision :
  keeps (with_admission (admission_admit direct check wait_time_from limiter_clock breaker_clock token_count
    recent_p95_ms image vision route entry config request identity client_ip)).
Proof.
  intros s. unfold final, with_admission, embed.
  pose proof (limits_frame_admission direct check wait_time_from limiter_clock breaker_clock token_count recent_p95_ms
    image vision route entry config request identity client_ip
    {| limiter := limiters (pipe_app s); breaker := breaker_registry (pipe_app s) |}) as H.
  unfold final in H. destruct (admission_admit _ _ _ _ _ _ _ _ _ _ _ _ _ _ _ _) as [[a t] l]. by split_and!.
Qed.
Lemma steady_for_each {A} (l : list A) (f : A → M unit) : (∀ a, keeps (f a)) → keeps (for_each l f).
Proof. intros Hf. induction l as [|x l IH]; [apply steady_ret|]. by apply steady_bind. Qed.
Lemma steady_pull_items {S} (feed : S → result StreamEvent StreamError → S) stopped ctx entries i items : ∀ s ticket,
  keeps (pull_items feed stopped ctx entries i items s ticket).
Proof.
  induction items as [|item items IH]; intros s ticket; [apply steady_ret|]. simpl. destruct (stopped s); [apply steady_ret|].
  apply steady_bind; [by apply steady_embed|]. intros ?. apply steady_bind; [by apply steady_embed|]. intros ?. apply IH.
Qed.

Ltac keeps :=
  repeat first
    [ apply steady_ret | apply steady_gets | apply steady_push | apply steady_effect | apply steady_pull_items
    | apply steady_admission | apply steady_embed; done
    | apply steady_attempt; [|intros ?] | apply steady_bind; [|intros ?] | apply steady_for_each; intros ?
    | progress unfold pull, done_with, panic | case_match ].

Lemma steady_dispatch spec headers body : keeps (dispatch_inner spec headers body).
Proof.
  unfold dispatch_inner, decode_or_dump, run_request_hooks, run_pre_admission_hook, admit_request, run_admitted, try_passthrough, run_stream, run_unary, collect_live,
    call_chain, response_complete. keeps.
Qed.

(** *** What a consumer is fed *)
Lemma answer_with_breakers_world {A} (m : emit BreakerRegistry StateChange A) s :
  pipe_world (final (with_breakers m) s) = pipe_world s.
Proof. unfold final, with_breakers, embed. by destruct (m _) as [[a b] l]. Qed.
Lemma feed_stopped {S} (feed : S → result StreamEvent StreamError → S) stopped s l :
  stopped s = true → foldl (feed_unless_stopped feed stopped) s l = s.
Proof. intros Hs. induction l as [|x l IH]; [done|]. simpl. unfold feed_unless_stopped at 2. by rewrite Hs. Qed.
Lemma pull_items_feeds {S} (feed : S → result StreamEvent StreamError → S) stopped ctx entries i items : ∀ s ticket st,
  (answer (pull_items feed stopped ctx entries i items s ticket) st).1 =
  foldl (feed_unless_stopped feed stopped) s (answer (wrap_items ctx entries items) (pipe_world st)).
Proof.
  induction items as [|item items IH]; intros s ticket st; [done|]. simpl.
  destruct (stopped s) eqn:Hs; [by rewrite feed_stopped|].
  rewrite !answer_bind, IH. clear IH.
  set (b := with_breakers _). assert (Hb : pipe_world (final b st) = pipe_world st) by apply answer_with_breakers_world.
  rewrite <- Hb. generalize (final b st). clear b Hb. intros st'.
  unfold answer, final, with_world, embed.
  destruct (on_stream_item ctx entries item (pipe_world st')) as [[outs w] l]. simpl.
  destruct (wrap_items ctx entries items w) as [[rest w'] l']. simpl. by rewrite foldl_app.
Qed.
Lemma wrap_items_none ctx (l : Stream) (w : W) : answer (wrap_items ctx [] l) w = l.
Proof.
  revert w. unfold answer. induction l as [|[ev|e] l IH]; intros w; [done|..]; simpl; unfold mbind, emit_bind; simpl;
    specialize (IH w); destruct (wrap_items ctx [] l w) as [[rest w'] l']; simpl in *; by subst.
Qed.
(** The items the plugins make of a live stream, from a world on. *)
Definition plugged (live : LiveStream) (w : W) : Stream :=
  answer (wrap_stream (snap_plugins (ls_snapshot live)) (ls_route live) (ls_ctx live) (ls_stream live)) w.
Lemma pull_feeds {S} (feed : S → result StreamEvent StreamError → S) stopped live s st :
  answer (pull feed stopped live s) st =
  foldl (feed_unless_stopped feed stopped) s (plugged live (pipe_world st)).
Proof.
  unfold pull, plugged, wrap_stream. rewrite !answer_bind.
  destruct (lookup_plan _ _ _) as [plan|].
  - rewrite pull_items_feeds. destruct (p_on_stream_event plan); [|done]. by rewrite wrap_items_none.
  - by rewrite pull_items_feeds, wrap_items_none.
Qed.

Lemma collect_feeds l r :
  foldl (feed_unless_stopped collect_item (λ s, negb (is_ok s))) r l =
  match r with Ok c => collect_loop c l | Err e => Err e end.
Proof.
  revert r. induction l as [|item l IH]; intros r; [by destruct r|]. simpl. rewrite IH. clear IH.
  destruct r as [c|e]; [|done]. unfold feed_unless_stopped. simpl.
  destruct item as [ev|e]; simpl; [|done]. by destruct (collect_event c ev).
Qed.
Lemma collect_live_answer live st :
  answer (collect_live live) st =
  Some (collect_stream (fresh_id (pipe_world st)).1 (plugged live (fresh_id (pipe_world st)).2)).
Proof.
  unfold collect_live. rewrite answer_bind. unfold answer at 2, final, effect.
  destruct (fresh_id (pipe_world st)) as [fresh w]. simpl.
  rewrite answer_bind, pull_feeds. unfold done_with. simpl. by rewrite collect_feeds.
Qed.
Lemma deliver_feeds l d :
  delivered (foldl (feed_unless_stopped deliver (λ d, remaining d =? 0)) d l) = delivered d ++ take (remaining d) l.
Proof.
  revert d. induction l as [|item l IH]; intros d; simpl; [by rewrite take_nil, app_nil_r|]. rewrite IH. clear IH.
  unfold feed_unless_stopped. destruct (remaining d) as [|n] eqn:Hn; simpl; rewrite Hn; [done|].
  simpl. by rewrite <- app_assoc.
Qed.

(** *** What an answer does to the breakers *)
#[local] Abbreviation breakers_of s := (breaker_registry (pipe_app s)).
Lemma final_with_breakers {A} (m : emit BreakerRegistry StateChange A) s :
  breakers_of (final (with_breakers m) s) = final m (breakers_of s) ∧ answer (with_breakers m) s = answer m (breakers_of s).
Proof. unfold final, answer, with_breakers, embed. by destruct (m _) as [[a b] l]. Qed.
Lemma final_with_world {E A} (ev : E → PipelineEvent) (m : emit W E A) s :
  breakers_of (final (with_world ev m) s) = breakers_of s.
Proof. unfold final, with_world, embed. by destruct (m _) as [[a w] l]. Qed.

(** Without the ticket the breakers are left alone. *)
Lemma pull_items_settled {S} (feed : S → result StreamEvent StreamError → S) stopped ctx entries i items : ∀ s st,
  (answer (pull_items feed stopped ctx entries i items s None) st).2 = None ∧
  breakers_of (final (pull_items feed stopped ctx entries i items s None) st) = breakers_of st.
Proof.
  induction items as [|item items IH]; intros s st; [done|]. simpl. destruct (stopped s); [done|].
  assert (Hnone : on_poll breaker_clock i (Ready (Some item)) None = mret None) by (unfold on_poll; by destruct (first_event_succeeded _)).
  rewrite Hnone. unfold answer, final, with_breakers, with_world, embed, mbind, emit_bind. simpl.
  destruct (on_stream_item ctx entries item (pipe_world st)) as [[outs w] l]. simpl.
  set (st' := set_pipe_world w _). specialize (IH (foldl (feed_unless_stopped feed stopped) s outs) st').
  unfold answer, final in IH. by destruct (pull_items _ _ _ _ _ _ _ _ st') as [[r st''] l'].
Qed.
(** The first item polled settles the ticket, before the plugins see it. *)
Lemma pull_settles {S} (feed : S → result StreamEvent StreamError → S) stopped live s st :
  ticket_consumed (ls_ticket live) = false → Forall fresh (breaker_holds (ls_ticket live)) →
  breakers_of (final (pull feed stopped live s) st) =
  final (record_each breaker_clock 0 (breaker_holds (ls_ticket live)) (λ j, (j =? ls_index live) &&
    (negb (stopped s) && default false (first_event_succeeded (Ready (head (ls_stream live))))))) (breakers_of st).
Proof.
  intros Hc Hf. unfold pull. set (entries := match lookup_plan _ _ _ with Some _ => _ | None => _ end). clearbody entries.
  rewrite final_bind.
  assert (Hend : ∀ (r : S * option AdmissionTicket) st, breakers_of (final (
      match r.2 with Some t => with_breakers (ticket_drop breaker_clock t) | None => mret tt end;; mret r.1 : M S) st) =
    match r.2 with Some t => final (ticket_drop breaker_clock t) (breakers_of st) | None => breakers_of st end).
  { intros [r [t|]] st'; [|done]. simpl. rewrite final_bind. apply final_with_breakers. }
  rewrite Hend. clear Hend.
  assert (Hlife : ∀ calls f r, (∀ j, outcome_of calls j = f j) → final (ticket_life breaker_clock calls (ls_ticket live)) r =
    final (record_each breaker_clock 0 (breaker_holds (ls_ticket live)) f) r).
  { intros calls f r Hcalls. rewrite <- (record_each_ext _ _ _ _ Hcalls).
    unfold final. by rewrite (ticket_life_records breaker_clock calls _ Hc Hf r). }
  destruct (ls_stream live) as [|item items]; simpl.
  { apply (Hlife []). intros j. by rewrite !andb_false_r. }
  destruct (stopped s) eqn:Hs; simpl.
  { apply (Hlife []). intros j. by rewrite andb_false_r. }
  assert (Hitem : ∃ b, first_event_succeeded (Ready (Some item)) = Some b) by (destruct item as [[]|]; by eexists).
  destruct Hitem as [b Hb]. simpl in Hb. rewrite Hb. simpl.
  rewrite <- (Hlife [(ls_index live, b)]) by done.
  rewrite answer_bind, final_bind. set (poll := with_breakers _).
  destruct (final_with_breakers (on_poll breaker_clock (ls_index live) (Ready (Some item)) (Some (ls_ticket live))) st) as [Hp Ha].
  fold poll in Hp, Ha. rewrite Ha. clear Ha.
  assert (Hon : ∀ r, final (on_poll breaker_clock (ls_index live) (Ready (Some item)) (Some (ls_ticket live))) r =
      final (ticket_life breaker_clock [(ls_index live, b)] (ls_ticket live)) r ∧
    answer (on_poll breaker_clock (ls_index live) (Ready (Some item)) (Some (ls_ticket live))) r = None).
  { intros r. unfold on_poll. simpl. rewrite Hb. split; [by rewrite !final_bind|by rewrite !answer_bind]. }
  destruct (Hon (breakers_of st)) as [Hf' ->]. rewrite Hf' in Hp. rewrite <- Hp.
  rewrite answer_bind, final_bind. generalize (final poll st). intros st'.
  set (w := with_world _ _). assert (Hw : breakers_of (final w st') = breakers_of st') by apply final_with_world.
  destruct (pull_items_settled feed stopped (ls_ctx live) entries (ls_index live) items
    (foldl (feed_unless_stopped feed stopped) s (answer w st')) (final w st')) as [-> ->]. exact Hw.
Qed.

Lemma response_complete_breakers live usage st : breakers_of (final (response_complete live usage) st) = breakers_of st.
Proof.
  unfold response_complete. rewrite final_bind.
  assert (H : breakers_of (final (effect now_ms) st) = breakers_of st) by (unfold final, effect; by destruct (now_ms _)).
  rewrite <- H. generalize (final (effect now_ms) st). intros st'. set (f := λ task, _).
  induction (run_on_response_complete _ _ _ _) as [|x l IH]; [done|]. simpl. by rewrite final_bind.
Qed.
Lemma serve_raw_settled bytes n st : breakers_of (final (serve_raw bytes None n) st) = breakers_of st.
Proof.
  revert bytes st. induction n as [|n IH]; intros [|item bytes] st; [done..|]. simpl. rewrite !final_bind. apply IH.
Qed.

(** C40: an answer delivers what the plugins make of the upstream's stream: a
    streaming client is given its first [n] items, a unary client the response
    collected from it, although items are pulled one at a time and a consumer
    that has enough drops the rest. *)
Theorem answers_carry_the_stream live n st :
  answer (serve_stream live n) st = take n (plugged live (pipe_world st)) ∧
  answer (collect_live live) st =
    Some (let '(fresh, w) := fresh_id (pipe_world st) in collect_stream fresh (plugged live w)).
Proof.
  split.
  - unfold serve_stream. rewrite !answer_bind, pull_feeds. apply deliver_feeds.
  - rewrite collect_live_answer. by destruct (fresh_id (pipe_world st)).
Qed.

(** C10: an answer settles its ticket exactly once: the called target's breaker
    learns a success just when the first item polled is one, before the plugins
    see it, and a failure when it is an error, when there is none, or when the
    client leaves before it; every other target that was held learns a failure. *)
Theorem answers_settle_the_ticket live bytes n st :
  let t := ls_ticket live in
  let learns index b := final (record_each breaker_clock 0 (breaker_holds t) (λ j, (j =? index) && b)) (breakers_of st) in
  let first := default false (first_event_succeeded (Ready (head (ls_stream live)))) in
  ticket_consumed t = false → Forall fresh (breaker_holds t) →
  breakers_of (final (serve_stream live n) st) = learns (ls_index live) (negb (n =? 0) && first) ∧
  breakers_of (final (collect_live live) st) = learns (ls_index live) first ∧
  breakers_of (final (serve_raw bytes (Some t) n) st) = learns 0 (default false (is_ok <$> head (take n bytes))).
Proof.
  intros t learns first Hc Hf. split_and!.
  - unfold serve_stream. rewrite final_bind. rewrite final_bind. change (final (mret ?x) ?s) with s.
    rewrite response_complete_breakers. by apply pull_settles.
  - unfold collect_live. rewrite final_bind. rewrite final_bind. change (final (done_with ?x) ?s) with s.
    rewrite pull_settles by done. simpl. unfold learns. f_equal. unfold final, effect. by destruct (fresh_id _).
  - assert (Hraw : ∀ calls f r, (∀ j, outcome_of calls j = f j) → final (ticket_life breaker_clock calls t) r =
      final (record_each breaker_clock 0 (breaker_holds t) f) r).
    { intros calls f r Hcalls. rewrite <- (record_each_ext _ _ _ _ Hcalls).
      unfold final. by rewrite (ticket_life_records breaker_clock calls t Hc Hf r). }
    unfold learns. destruct bytes as [|item bytes], n as [|n]; simpl; rewrite final_bind.
    1-3: change (final (mret ?x) ?s) with s; rewrite (proj1 (final_with_breakers _ _)); apply (Hraw []); intros j; by rewrite andb_false_r.
    rewrite final_bind. change (final (mret ?x) ?s) with s. rewrite serve_raw_settled, (proj1 (final_with_breakers _ _)).
    by apply (Hraw [(0, is_ok item)]).
Qed.

(** *** The gates *)
(** The model a body names, and the request the plugins are shown. *)
Definition names (spec : PipelineSpec) (body m : string) : Prop :=
  if try_proxy_raw spec then peek_model body = Ok m
  else ∃ decoded, decode_request (spec_frontend spec) body = Ok decoded ∧ m = req_model decoded.
Definition shown (spec : PipelineSpec) (headers : Headers) (decoded : CanonicalRequest) : CanonicalRequest :=
  if capture_headers spec then set_inbound_headers (capture_anthropic_headers to_str headers) decoded else decoded.
(** What both hooks, with the route's policy between them, make of a request: the
    first sees the world as reading the clock left it, the second as the first did. *)
Definition hooked (spec : PipelineSpec) (headers : Headers) (s : PipeState) (m : string) (target : BackendTarget)
    (decoded : CanonicalRequest) : result CanonicalRequest PluginError :=
  let snap := snapshot (pipe_app s) in
  let kind := fp_kind (spec_frontend spec) in
  let ctx := {| ctx_request_id := id (shown spec headers decoded); ctx_frontend := kind;
                ctx_route_label := (show_frontend kind ++ "/" ++ m)%string |} in
  let '(first, w) := hook_outcome snap ctx (kind, m) KDecodedRequest (shown spec headers decoded) (now_ms (pipe_world s)).2 in
  let? c := first in
  (hook_outcome snap ctx (kind, m) (KResolved target) (resolve_policy (model_index (resolver (core (pipe_app s)))) target c) w).1.

(** What a request that is let through has shown. *)
Record cleared (spec : PipelineSpec) (headers : Headers) (body : string) (s : PipeState)
    (m : string) (identity : AgentIdentity) (route : ResolvedRoute) (entry : RouteEntry)
    (decoded canonical : CanonicalRequest) : Prop := {
  cl_auth : check_auth to_str sha256_hex (snapshot (pipe_app s)) headers (fp_kind (spec_frontend spec)) = Ok identity;
  cl_decoded : decode_request (spec_frontend spec) body = Ok decoded;
  cl_model : if try_proxy_raw spec then peek_model body = Ok m else m = req_model decoded;
  cl_route : Resolver.resolve_route (resolver (core (pipe_app s))) (fp_kind (spec_frontend spec)) m = Ok route;
  cl_entry : find_route_entry (snap_config (snapshot (pipe_app s))) (fp_kind (spec_frontend spec)) m = Some entry;
  cl_hooks : ∃ target, head (chain route) = Some target ∧ hooked spec headers s m target decoded = Ok canonical;
  cl_protected : protected canonical = protected decoded;
}.
(** Why a request is turned away before admission. *)
Definition undecodable (spec : PipelineSpec) (body : string) (e : HandlerError) : Prop :=
  (∃ fe, e = Frontend fe) ∧ (is_ok (decode_request (spec_frontend spec) body) = false ∨
                             try_proxy_raw spec = true ∧ is_ok (peek_model body) = false).
Definition authenticated (spec : PipelineSpec) (headers : Headers) (s : PipeState) : Prop :=
  is_ok (check_auth to_str sha256_hex (snapshot (pipe_app s)) headers (fp_kind (spec_frontend spec))) = true.
Definition turned_away (spec : PipelineSpec) (headers : Headers) (body : string) (s : PipeState) (e : HandlerError) : Prop :=
  let kind := fp_kind (spec_frontend spec) in
  let resolve m := Resolver.resolve_route (resolver (core (pipe_app s))) kind m in
  let both m route decoded r := decode_request (spec_frontend spec) body = Ok decoded ∧
    ∃ target, head (chain route) = Some target ∧ hooked spec headers s m target decoded = r in
  undecodable spec body e ∨
  e = Unauthorized kind ∧ check_auth to_str sha256_hex (snapshot (pipe_app s)) headers kind = Err e ∨
  authenticated spec headers s ∧ ∃ m, names spec body m ∧
    (e = RouteFault (NoRoute kind m) ∧ is_ok (resolve m) = false ∨
     ∃ route decoded, resolve m = Ok route ∧
       ((∃ pe, both m route decoded (Err pe) ∧ e = handler_error_from_plugin_error pe kind) ∨
        (∃ c, both m route decoded (Ok c)) ∧ e = RouteFault (NoRoute kind m) ∧
        find_route_entry (snap_config (snapshot (pipe_app s))) kind m = None)).

(** The admission of a cleared request, and the answer it leads to. *)
Definition admission_of (spec : PipelineSpec) (headers : Headers) (s : PipeState) (identity : AgentIdentity)
    (route : ResolvedRoute) (entry : RouteEntry) (canonical : CanonicalRequest) : result AdmissionTicket AdmissionError :=
  answer (admission_admit direct check wait_time_from limiter_clock breaker_clock token_count recent_p95_ms
    (select_image_estimator (fp_kind (spec_frontend spec))) (λ name, vision_capable <$> providers (core (pipe_app s)) !! name)
    route entry (snap_config (snapshot (pipe_app s))) canonical identity (client_ip_of to_str headers))
    {| limiter := limiters (pipe_app s); breaker := breaker_registry (pipe_app s) |}.
Definition untouched (spec : PipelineSpec) (headers : Headers) (s : PipeState) (route : ResolvedRoute)
    (decoded : CanonicalRequest) : option CanonicalRequest :=
  (λ target, resolve_policy (model_index (resolver (core (pipe_app s)))) target
    (shown spec headers decoded)) <$> head (chain route).
(** What comes of a ticket; [raw] when the inbound bytes are sent as they are. *)
Definition concluded (spec : PipelineSpec) (snap : AppSnapshot W) (canonical : CanonicalRequest) (ticket : AdmissionTicket)
    (raw : Prop) (a : option (result Response HandlerError)) : Prop :=
  match a with
  | Some (Ok (RawBody _ _ t)) => t = ticket ∧ try_proxy_raw spec = true ∧ raw
  | Some (Ok (StreamBody live)) => stream canonical = true ∧ ls_ticket live = ticket ∧ ls_snapshot live = snap
  | Some (Ok (UnaryBody _)) => stream canonical = false
  | Some (Err e) => (∃ pe, e = Provider pe) ∨ (∃ re, e = from_resilience_error re (fp_kind (spec_frontend spec))) ∨
      stream canonical = false ∧ ∃ fe, e = Frontend fe
  | None => ¬ answerable (resolved ticket)
  end.
Definition dispatched (spec : PipelineSpec) (headers : Headers) (body : string) (s : PipeState)
    (a : option (result Response HandlerError)) (s' : PipeState) (l : list PipelineEvent) : Prop :=
  (harmless s s' l ∧ match a with
    | Some (Ok _) => False
    | Some (Err e) => turned_away spec headers body s e
    | None => authenticated spec headers s ∧ ∃ m route, names spec body m ∧
        Resolver.resolve_route (resolver (core (pipe_app s))) (fp_kind (spec_frontend spec)) m = Ok route ∧ chain route = []
    end) ∨
  ∃ m identity route entry decoded canonical,
    cleared spec headers body s m identity route entry decoded canonical ∧
    match admission_of spec headers s identity route entry canonical with
    | Err e => Forall (λ e, upstream_event e = false) l ∧ a = Some (Err (handler_error_from_admission e (fp_kind (spec_frontend spec))))
    | Ok ticket => resolved ticket = route ∧
        concluded spec (snapshot (pipe_app s)) canonical ticket
          ((∀ x y, request_eqb x y = true → x = y) → untouched spec headers s route decoded = Some canonical) a
    end.

(** A step, by what it answers. *)
Lemma post_step {A B} (m : Step A) (k : A → Step B) s (Q : option (result B HandlerError) → PipeState → list PipelineEvent → Prop) :
  post m s (λ a s1 l1,
    match a with
    | Some (Ok x) => post (k x) s1 (λ b s2 l2, Q b s2 (l1 ++ l2))
    | Some (Err e) => Q (Some (Err e)) s1 l1
    | None => Q None s1 l1
    end) → post (attempt m k) s Q.
Proof.
  intros Hm. apply post_bind. eapply post_mono; [exact Hm|]. simpl. intros [[a|e]|] s1 l1 H; [done|..].
  all: apply post_ret; by rewrite app_nil_r.
Qed.
Lemma post_answer {A} (m : M A) s : post m s (λ a _ _, a = answer m s).
Proof. unfold post, answer. by destruct (m s) as [[a s'] l]. Qed.
Lemma post_any {A} (m : M A) s (Q : Prop) : Q → post m s (λ _ _ _, Q).
Proof. unfold post. by destruct (m s) as [[a s'] l]. Qed.

Lemma collect_errors l (c : Collector) e : collect_loop c l = Err e → ∃ pe, e = Provider pe.
Proof.
  revert c. induction l as [|[ev|err] l IH]; intros c; simpl; [done| |intros [= <-]; by eexists].
  destruct (collect_event c ev) as [c'|e'] eqn:Hc; simpl; [apply IH|]. intros [= <-].
  destruct ev; simpl in Hc; try done; repeat case_match; simplify_eq; by eexists.
Qed.

(** The canonical path. *)
Lemma post_run_stream canonical ticket rc s :
  post (run_stream canonical ticket rc) s (λ a _ _,
    match a with
    | Some (Ok (StreamBody live)) => ls_ticket live = ticket ∧ ls_snapshot live = rc_snapshot rc
    | Some (Ok _) => False
    | Some (Err e) => ∃ re, e = from_resilience_error re (rc_route rc).1
    | None => ¬ answerable (resolved ticket)
    end).
Proof.
  apply post_step. eapply post_mono; [apply post_call_chain|]. simpl. intros [[r|e]|] s1 l1 H; [|done..].
  by apply post_ret.
Qed.
Lemma post_run_unary frontend canonical ticket rc s :
  post (run_unary frontend canonical ticket rc) s (λ a _ _,
    match a with
    | Some (Ok r) => ∃ body, r = UnaryBody body
    | Some (Err e) => (∃ pe, e = Provider pe) ∨ (∃ re, e = from_resilience_error re (rc_route rc).1) ∨ ∃ fe, e = Frontend fe
    | None => ¬ answerable (resolved ticket)
    end).
Proof.
  apply post_step. eapply post_mono; [apply post_call_chain|]. simpl. intros [[r|e]|] s1 l1 H; [|by auto|done].
  apply post_step. eapply post_mono; [apply post_answer|]. intros a s2 l2 ->.
  rewrite collect_live_answer. unfold collect_stream. destruct (collect_loop _ _) as [c|e] eqn:Hc; simpl; [|left; by eapply collect_errors].
  apply post_bind. unfold done_with. eapply post_mono; [by apply post_any|]. intros _ s3 l3 _. apply post_ret.
  destruct (encode_unary frontend (response c)); simpl; [by eexists|]. eauto.
Qed.
Lemma post_passthrough spec body ticket s :
  filtered_chain ticket ≠ [] →
  post (try_passthrough spec body ticket) s (λ a _ _,
    match a with
    | Some (Ok None) => True
    | Some (Ok (Some r)) => ∃ content_type bytes, r = RawBody content_type bytes ticket
    | Some (Err e) => ∃ pe, e = Provider pe
    | None => False
    end).
Proof.
  intros Hne. unfold try_passthrough. destruct (filtered_chain ticket) as [|target l]; [done|].
  apply post_bind. unfold post at 1, gets. destruct (_ !! provider target) as [p|].
  - apply post_bind. unfold post at 1, push. apply post_bind. eapply post_mono; [by apply post_any|].
    intros [[[content_type bytes]|]|e] s1 l1 _; apply post_ret; eauto.
  - apply post_bind. eapply post_mono; [by apply post_any|]. intros _ s1 l1 _. apply post_ret. eauto.
Qed.
Lemma post_run_admitted spec body mutated canonical ticket rc s :
  filtered_chain ticket ≠ [] → (rc_route rc).1 = fp_kind (spec_frontend spec) →
  post (run_admitted spec body mutated canonical ticket rc) s (λ a _ _,
    concluded spec (rc_snapshot rc) canonical ticket (mutated = false) a).
Proof.
  intros Hne Hk. apply post_step.
  assert (Hcanonical : ∀ s1, post (if stream canonical then run_stream canonical ticket rc
      else run_unary (spec_frontend spec) canonical ticket rc) s1 (λ a _ _,
    concluded spec (rc_snapshot rc) canonical ticket (mutated = false) a)).
  { intros s1. unfold concluded. rewrite <- Hk.
    destruct (stream canonical); (eapply post_mono; [apply post_run_stream || apply post_run_unary|]); simpl.
    - intros [[[| |]|e]|] _ _; [done|by split|done|by auto|done].
    - intros [[r|e]|] _ _; [by intros [? ->]|naive_solver|done]. }
  destruct (try_proxy_raw spec && negb mutated) eqn:Hraw.
  - apply andb_true_iff in Hraw as [H1 H2%negb_true_iff].
    eapply post_mono; [by apply post_passthrough|]. simpl. intros [[[r|]|e]|] s1 l1; [|intros _; apply Hcanonical|by left|done].
    intros (content_type & bytes & ->). by apply post_ret.
  - apply post_ret. apply Hcanonical.
Qed.

(** A step before admission, in a run that has been harmless so far. *)
Lemma post_gate {A B} (m : Step A) (k : A → Step B) s0 s1 l1 Qa Q :
  harmless s0 s1 l1 → post m s1 (λ a s' l, harmless s1 s' l ∧ Qa a s') →
  (∀ s', Qa None s' → ∀ l, harmless s0 s' l → Q None s' l) →
  (∀ e s', Qa (Some (Err e)) s' → ∀ l, harmless s0 s' l → Q (Some (Err e)) s' l) →
  (∀ a s2 l2, Qa (Some (Ok a)) s2 → harmless s0 s2 l2 → post (k a) s2 (λ b s3 l3, Q b s3 (l2 ++ l3))) →
  post (attempt m k) s1 (λ b s' l, Q b s' (l1 ++ l)).
Proof.
  intros Hh Hm Hn He Hk. apply post_step. eapply post_mono; [exact Hm|]. simpl.
  intros [[a|e]|] s2 l2 [H2 HQ]; [|by eapply He, harmless_trans|by eapply Hn, harmless_trans].
  eapply post_mono; [by eapply Hk, harmless_trans|]. simpl. intros b s3 l3. by rewrite app_assoc.
Qed.
Lemma post_pure {A} (r : result A HandlerError) s : post (done_with r) s (λ a s' l, harmless s s' l ∧ a = Some r ∧ s' = s).
Proof. split; [apply harmless_refl|done]. Qed.

Lemma no_route (r : ModelResolver) k m e : Resolver.resolve_route r k m = Err e → e = NoRoute k m.
Proof. unfold Resolver.resolve_route, StaticRoutes.resolve_route. intros. repeat case_match; by simplify_eq. Qed.
Lemma post_first spec body s :
  post (if try_proxy_raw spec
        then done_with (result_map (λ m, (m, None)) (extract_model_from_body body))
        else let! canonical := decode_or_dump (spec_frontend spec) body in done_with (Ok (req_model canonical, Some canonical)))
    s (λ a s' l, harmless s s' l ∧
    match a with
    | Some (Ok (m, d)) =>
        pipe_world s' = pipe_world s ∧
        if try_proxy_raw spec then peek_model body = Ok m ∧ d = None
        else ∃ c, decode_request (spec_frontend spec) body = Ok c ∧ m = req_model c ∧ d = Some c
    | Some (Err e) => undecodable spec body e
    | None => False
    end).
Proof.
  unfold undecodable. destruct (try_proxy_raw spec).
  - eapply post_mono; [apply post_pure|]. simpl. intros a s' l (Hh & -> & ->). split; [done|].
    unfold extract_model_from_body. destruct (peek_model body); simpl; [done|]. split; [by eexists|by right].
  - apply post_step. eapply post_mono; [apply post_decode|]. simpl. intros a s' l [Hh Ha].
    destruct (decode_request _ body) as [c|e0]; [destruct Ha as [-> Hw]|destruct Ha as [e ->]].
    + apply post_ret. rewrite app_nil_r. eauto 8.
    + split; [done|]. split; [by eexists|by left].
Qed.

Lemma auth_error (snap : AppSnapshot W) headers kind e :
  check_auth to_str sha256_hex snap headers kind = Err e → e = Unauthorized kind.
Proof. unfold check_auth. intros. repeat case_match; by simplify_eq. Qed.
(** The request, decoded for the model's name or now. *)
Lemma post_second spec body m d s :
  (if try_proxy_raw spec then peek_model body = Ok m ∧ d = None
   else ∃ c, decode_request (spec_frontend spec) body = Ok c ∧ m = req_model c ∧ d = Some c) →
  post (match d with Some canonical => done_with (Ok canonical) | None => decode_or_dump (spec_frontend spec) body end) s
    (λ a s' l, harmless s s' l ∧
    match a with
    | Some (Ok c) => pipe_world s' = pipe_world s ∧ decode_request (spec_frontend spec) body = Ok c ∧
        if try_proxy_raw spec then peek_model body = Ok m else m = req_model c
    | Some (Err e) => undecodable spec body e
    | None => False
    end).
Proof.
  destruct (try_proxy_raw spec).
  - intros [Hpeek ->]. eapply post_mono; [apply post_decode|]. simpl. intros a s' l [Hh Ha]. split; [done|].
    destruct (decode_request _ body) as [c|e0] eqn:Hd; [by destruct Ha as [-> ?]|]. destruct Ha as [e ->].
    split; [by eexists|]. rewrite Hd. by left.
  - intros (c & Hd & -> & ->). eapply post_mono; [apply post_pure|]. by intros a s' l (Hh & -> & ->).
Qed.

Lemma post_hooks snapshot spec route label index target canonical s :
  let ctx := {| ctx_request_id := id canonical; ctx_frontend := route.1; ctx_route_label := label |} in
  let r1 := hook_outcome snapshot ctx route KDecodedRequest canonical (pipe_world s) in
  post (run_request_hooks snapshot spec route label index target canonical) s (λ a s' l, harmless s s' l ∧
    match a, (let? c := r1.1 in (hook_outcome snapshot ctx route (KResolved target) (resolve_policy index target c) r1.2).1) with
    | Some (Ok r), Ok c => r.1 = c ∧ protected c = protected canonical ∧
        ((∀ x y, request_eqb x y = true → x = y) → try_proxy_raw spec = true → r.2 = false →
         c = resolve_policy index target canonical)
    | Some (Err e), Err pe => e = handler_error_from_plugin_error pe route.1
    | _, _ => False
    end).
Proof.
  intros ctx r1. apply post_step. eapply post_mono; [apply post_hook|]. cbn beta. fold ctx r1.
  intros a s2 l2 (H2 & Hw2 & Hc2). destruct a as [[[c2 mutated2]|e]|], r1 as [[c|pe] w]; try done.
  destruct Hc2 as (-> & Hp2 & Hraw2). cbn [fst snd] in *. apply post_step. eapply post_mono; [apply post_hook|].
  cbn beta. rewrite Hw2. cbn [fst snd]. intros a s3 l3 (H3 & Hw3 & Hc3).
  fold ctx in Hc3. destruct a as [[[c3 mutated3]|e]|], (hook_outcome snapshot ctx route (KResolved target) (resolve_policy index target c) w).1;
    try done; [|by split; [eapply harmless_trans|]].
  destruct Hc3 as (-> & Hp3 & Hraw3). apply post_ret. rewrite app_nil_r. split; [by eapply harmless_trans|]. cbn [fst snd] in *.
  split_and!; [done|by rewrite Hp3, <- Hp2|]. intros Heq Htry [-> ->]%orb_false_iff.
  by rewrite (Hraw3 Heq Htry eq_refl), (Hraw2 Heq Htry eq_refl).
Qed.

(** Admission and what comes after it. *)
Lemma post_admit_request spec headers body identity route entry mutated canonical rc s s1 :
  pipe_app s1 = pipe_app s → rc_snapshot rc = snapshot (pipe_app s) → (rc_route rc).1 = fp_kind (spec_frontend spec) →
  post (admit_request spec headers body identity route entry mutated canonical rc) s1 (λ a _ l,
    match admission_of spec headers s identity route entry canonical with
    | Err e => Forall (λ e, upstream_event e = false) l ∧
        a = Some (Err (handler_error_from_admission e (fp_kind (spec_frontend spec))))
    | Ok ticket => resolved ticket = route ∧
        concluded spec (snapshot (pipe_app s)) canonical ticket (mutated = false) a
    end).
Proof.
  intros Happ Hsnap Hkind. unfold admit_request. apply post_bind. unfold post at 1, gets. rewrite Happ, Hsnap. cbn [app].
  apply post_bind. eapply post_mono; [apply post_admission|]. cbn beta. intros admitted s7 l7 (Hadm & _ & Hl7).
  rewrite Happ in Hadm.
  replace (admission_of spec headers s identity route entry canonical) with admitted by (by rewrite Hadm).
  destruct admitted as [ticket|e]; [|apply post_ret; by rewrite app_nil_r].
  symmetry in Hadm. apply admission_ticket in Hadm as [Hne Hres].
  eapply post_mono; [by apply post_run_admitted|]. cbn beta. rewrite Hsnap. by split.
Qed.

(** The chain of the gates, up to the ticket. *)
Lemma dispatch_gates spec headers body s : post (dispatch_inner spec headers body) s (dispatched spec headers body s).
Proof.
  unfold dispatch_inner. apply post_bind. eapply post_mono; [apply post_effect|]. simpl. intros started s0 l0 [H0 Hw0].
  apply post_bind. unfold post at 1, gets. rewrite (proj1 H0). cbn [app].
  set (kind := fp_kind (spec_frontend spec)). set (snap := snapshot (pipe_app s)).
  assert (Hrefuse : ∀ e, turned_away spec headers body s e → ∀ s' l, harmless s s' l →
    dispatched spec headers body s (Some (Err e)) s' l) by (intros; by left).
  eapply post_gate; [exact H0|apply post_first|done|by intros e s' He; apply Hrefuse; left|].
  intros [m d] s1 l1 [Hw1 Hfirst] H1. simpl in Hfirst. cbn [fst snd]. rewrite Hw0 in Hw1.
  assert (Hnames : names spec body m) by (unfold names; destruct (try_proxy_raw spec); naive_solver).
  eapply post_gate; [exact H1|apply post_pure|by intros s' [? _]| |].
  { intros e s' [[= He] _]. apply Hrefuse. right. left. split; [|done]. by eapply auth_error. }
  intros identity s2 l2 [[= Hauth] ->] H2. symmetry in Hauth.
  assert (Hin : authenticated spec headers s) by (unfold authenticated, snap, kind in *; by rewrite Hauth).
  apply post_bind. unfold post at 1, gets. rewrite (proj1 H2). cbn [app].
  eapply post_gate; [exact H2|apply post_pure|by intros s' [? _]| |].
  { intros e s' [[= He] _]. apply Hrefuse. right. right. split; [done|]. exists m. split; [done|]. left. symmetry in He.
    fold kind. destruct (Resolver.resolve_route _ _ _) as [|re] eqn:Hre; simplify_eq/=. by rewrite (no_route _ _ _ _ Hre). }
  intros route s3 l3 [[= Hroute] ->] H3. symmetry in Hroute. apply map_err_ok in Hroute.
  destruct (chain route) as [|first_target targets] eqn:Hchain.
  { apply post_ret. rewrite app_nil_r. left. split; [done|]. split; [done|]. eauto. }
  eapply post_gate; [exact H3|by apply post_second|done|by intros e s' He; apply Hrefuse; left|].
  intros decoded s4 l4 (Hw4 & Hdecoded & Hm) H4. rewrite Hw1 in Hw4. fold (shown spec headers decoded).
  assert (Hshown : protected (shown spec headers decoded) = protected decoded) by (unfold shown; by destruct (capture_headers spec)).
  assert (Hgate : ∀ e, ((∃ pe, hooked spec headers s m first_target decoded = Err pe ∧ e = handler_error_from_plugin_error pe kind) ∨
      (∃ c, hooked spec headers s m first_target decoded = Ok c) ∧ e = RouteFault (NoRoute kind m) ∧
      find_route_entry (snap_config snap) kind m = None) → turned_away spec headers body s e).
  { intros e He. right. right. split; [done|]. exists m. split; [done|]. right. exists route, decoded. split; [done|].
    rewrite Hchain. simpl. naive_solver. }
  eapply post_gate with (Qa := λ a _, match a, hooked spec headers s m first_target decoded with
      | Some (Ok r), Ok c => r.1 = c ∧ protected c = protected (shown spec headers decoded) ∧
        ((∀ x y, request_eqb x y = true → x = y) → try_proxy_raw spec = true → r.2 = false →
         c = resolve_policy (model_index (resolver (core (pipe_app s)))) first_target (shown spec headers decoded))
      | Some (Err e), Err pe => e = handler_error_from_plugin_error pe kind
      | _, _ => False end); [exact H4|eapply post_mono; [apply post_hooks|]|done| |].
  { cbn beta. rewrite Hw4. intros a s' l [Hh Ha]. split; [exact Hh|]. unfold hooked. cbn [fst] in Ha.
    destruct (hook_outcome _ _ _ KDecodedRequest _ _) as [first w]. exact Ha. }
  { cbn beta. intros e s' He. apply Hrefuse, Hgate. left. destruct (hooked _ _ _ _ _ _) as [|pe]; [done|]. by exists pe. }
  cbn beta. intros [c mutated] s5 l5 Hc H5. destruct (hooked spec headers s m first_target decoded) as [c'|] eqn:Hhooked; [|done].
  cbn [fst snd] in *. destruct Hc as (<- & Hc & Hraw).
  destruct (find_route_entry (snap_config snap) kind m) as [entry|] eqn:Hentry.
  2: { apply post_ret. rewrite app_nil_r. eapply Hrefuse; [apply Hgate; right; by eauto|done]. }
  eapply post_mono; [apply (post_admit_request _ _ _ _ _ _ _ _ _ s); [apply H5|done|done]|]. cbn beta. intros a s' l Ha. right.
  exists m, identity, route, entry, decoded, c. split.
  { split; try done; [|by rewrite Hc]. exists first_target. by rewrite Hchain. }
  destruct (admission_of _ _ _ _ _ _ _) as [ticket|e]; [|destruct Ha; split; [apply Forall_app; split; [apply H5|done]|done]].
  destruct Ha as [Hres Ha]. split; [done|]. unfold concluded in *. destruct a as [[[| |]|]|]; [done..| |done|done].
  destruct Ha as (? & Htry & ->). split_and!; [done..|]. intros Heq. unfold untouched. rewrite Hchain. simpl.
  by rewrite (Hraw Heq Htry eq_refl).
Qed.

(** C3: no upstream is called and no answer but an error is given before a request
    has passed the gates: it decodes, it is authenticated, its model has a route,
    both request hooks, run in order with the route's policy between them, answer
    [Ok] with the request that goes on, its protected fields as they were, and
    admission on the shared limiter and breakers gives it a ticket.  A request
    turned away earlier leaves the process as it was and gets the error of the
    gate that refused it: a body that does not decode, a key that is not known,
    a model without a route or entry, or the plugin error a hook ended in.  What
    is admitted is answered with a stream exactly when the client asked for one,
    or with the upstream's own bytes where the endpoint allows it and no plugin
    changed the request. *)
Theorem requests_pass_the_gates spec headers body s :
  post (dispatch_inner spec headers body) s (dispatched spec headers body s).
Proof. apply dispatch_gates. Qed.

(** ** The gateway at work: requests, answers and reloads in any order *)
Section Serving.
Context {ConfigError : Type} (construct : string → UpstreamConfig → result Backend string).
Context (list_models : Backend → result (option (gmap string ModelMetadata)) string).
Context (builtin_plugins : list (PluginFactory (W := W) (ConfigError := ConfigError))).
Context (parse_yaml : string → result GatewayConfig string).
#[local] Abbreviation start := (app_state (Limiter := Limiter) construct list_models builtin_plugins).

(** The world also moves on by itself. *)
Inductive GatewayEvent :=
| Requested (spec : PipelineSpec) (headers : Headers) (body : string)
| StreamServed (live : LiveStream) (n : nat)
| BytesServed (bytes : list (result string string)) (ticket : AdmissionTicket) (n : nat)
| Reloaded (read_to_string : string → result string string) (source : ReloadSource)
| Elapsed (w : W).
Definition gateway_step (s : PipeState) (e : GatewayEvent) : PipeState :=
  match e with
  | Requested spec headers body => final (dispatch_inner spec headers body) s
  | StreamServed live n => final (serve_stream live n) s
  | BytesServed bytes ticket n => final (serve_raw bytes (Some ticket) n) s
  | Reloaded read source => set_app (app_step builtin_plugins parse_yaml (pipe_app s) (Reload read source)) s
  | Elapsed w => set_pipe_world w s
  end.

Lemma steady_serve_raw bytes ticket n : keeps (serve_raw bytes ticket n).
Proof. revert bytes ticket. induction n as [|n IH]; intros [|item bytes] ticket; simpl; keeps; apply IH. Qed.
Lemma gateway_step_app s e : ∃ app_e, pipe_app (gateway_step s e) = app_step builtin_plugins parse_yaml (pipe_app s) app_e.
Proof.
  assert (Htraffic : ∀ s', kept (pipe_app s) (pipe_app s') →
    ∃ app_e, pipe_app s' = app_step builtin_plugins parse_yaml (pipe_app s) app_e).
  { intros s' (Hc & Hs & b & n & Hl). exists (Traffic b n (breaker_registry (pipe_app s'))).
    simpl. rewrite <- Hc, <- Hs, <- Hl. by destruct (pipe_app s'). }
  destruct e; simpl; [apply Htraffic..|by exists (Reload read_to_string source)|apply Htraffic, kept_refl].
  - apply steady_dispatch.
  - assert (H : keeps (serve_stream live n)) by (unfold serve_stream, response_complete; keeps). apply H.
  - apply steady_serve_raw.
Qed.
Lemma gateway_run_app s h : ∃ app_h, pipe_app (foldl gateway_step s h) = foldl (app_step builtin_plugins parse_yaml) (pipe_app s) app_h.
Proof.
  induction h as [|e h [app_h IH]] using rev_ind; [by exists []|]. rewrite foldl_snoc.
  destruct (gateway_step_app (foldl gateway_step s h) e) as [app_e He]. exists (app_h ++ [app_e]).
  by rewrite foldl_snoc, He, IH.
Qed.

(** The widths of the fields of a retry policy: a [u32], a [u64] and an [f64]. *)
Definition retry_widths (cfg : GatewayConfig) : Prop :=
  ∀ e, e ∈ routes cfg → is_u32 (cfg_max_attempts (re_retry e)) ∧ (0 ≤ cfg_initial_backoff_ms (re_retry e))%Z ∧
    binary64 (cfg_jitter_pct (re_retry e)) = true.
(** rand samples the ranges it can. *)
Context (gen_range_samples : ∀ span rng, samplable_span span = true → is_Some (gen_range span rng)).
Lemma routes_answerable cfg s0 k m route :
  validate cfg = Ok tt → retry_widths cfg → start cfg = Ok (Some s0) →
  Resolver.resolve_route (resolver (core s0)) k m = Ok route → chain route ≠ [] ∧ answerable route.
Proof.
  intros Hv Hw Hs0. destruct (start_serves _ _ _ _ _ Hv Hs0) as (_ & _ & _ & Hf).
  destruct (validate_routes_of _ Hv) as [Hvalid Hr].
  destruct (resolve_route_answers cfg k m Hr) as (router & Hf' & Hres). rewrite Hf in Hf'. injection Hf' as <-.
  unfold Resolver.resolve_route. destruct (StaticRoutes.resolve_route _ k m) as [r|]; [|done].
  destruct Hres as (e & (l1 & l2 & Hl & _) & ->). intros [= <-].
  assert (He : e ∈ routes cfg) by (rewrite Hl; apply elem_of_app; right; left).
  destruct (answer_ready cfg e k m Hvalid He) as (Hne & _ & Hretry & _). split; simpl.
  - unfold apply_fuzzy_upgrades. by intros ?%fmap_nil_inv.
  - destruct (Hw e He) as (Hmax & Hback & Hjit). split; [done|].
    pose proof (samplable_draws _ gen_range_samples _ (valid_retry_samplable _ Hretry Hjit)) as Hdraws.
    split; [|exact Hdraws]. simpl in *. unfold valid_retry in Hretry.
    apply andb_true_iff in Hretry as [[[_ Hle%negb_true_iff%Z.ltb_ge]%andb_true_iff _]%andb_true_iff _]. simpl in Hle. lia.
Qed.

(** C8: from a start on a validated configuration, after any history of requests,
    answers being served and reloads, the process serves one well-formed
    configuration with the upstreams of the first, and every request is
    answered: the pipeline neither panics nor fails to return. *)
Theorem every_request_is_answered cfg s0 init h spec headers body :
  validate cfg = Ok tt → retry_widths cfg → start cfg = Ok (Some s0) → pipe_app init = s0 →
  let s := foldl gateway_step init h in
  (∃ c, serves builtin_plugins cfg s0 (pipe_app s) c) ∧
  ∃ r, answer (dispatch_inner spec headers body) s = Some r.
Proof.
  intros Hv Hw Hs0 Hinit. simpl. destruct (gateway_run_app init h) as [app_h Happ]. rewrite Hinit in Happ.
  destruct (always_serves construct list_models builtin_plugins parse_yaml cfg s0 app_h Hv Hs0) as (c & _ & Hserves).
  rewrite <- Happ in Hserves. split; [by exists c|]. generalize dependent (foldl gateway_step init h). intros s _ Hserves.
  pose proof (dispatch_gates spec headers body s) as Hd. unfold post in Hd. unfold answer.
  destruct (dispatch_inner spec headers body s) as [[[r|] s'] l]; [by eexists|exfalso].
  assert (Hroute : ∀ m route, Resolver.resolve_route (resolver (core (pipe_app s))) (fp_kind (spec_frontend spec)) m = Ok route →
    chain route ≠ [] ∧ answerable route).
  { intros m route Hr. rewrite (sv_core _ _ _ _ _ Hserves) in Hr. by eapply routes_answerable. }
  destruct Hd as [[_ (_ & m & route & _ & Hr & Hc)]|(m & identity & route & entry & decoded & canonical & Hcl & Hadm)].
  - by destruct (Hroute m route Hr).
  - destruct (Hroute m route (cl_route _ _ _ _ _ _ _ _ _ _ Hcl)) as [_ Hans].
    destruct (admission_of _ _ _ _ _ _ _) as [ticket|e]; [|by destruct Hadm]. destruct Hadm as [<- Hno]. by apply Hno.
Qed.
End Serving.
End Pipeline.

(** ** Concrete requests *)
Module Samples.
#[local] Instance sample_json : JsonApi := TreeJson [].
#[local] Instance ascii_lowercase : Lowercase := {| to_lowercase := to_ascii_lowercase |}.
(** A Chat route by name and one by prefix, and an Anthropic route with a
    fallback, on two upstreams. *)
Definition cfg : GatewayConfig := gateway_config Startup.Samples.both
  [singular "openai_chat" "gpt" "cheap" "m"; singular "openai_chat" "claude-*" "good" "m";
   Startup.Samples.array_route "anthropic" "opus" ["cheap"; "good"] None].
#[local] Abbreviation State := (PipeState (W := unit) (Limiter := unit) (Backend := unit)).
Definition started (cfg : GatewayConfig) : result (option (AppState unit unit unit)) (RegistryBuildError (ConfigError := unit)) :=
  app_state (λ _ _, Ok tt) (λ _, Ok None) [] cfg.

Definition reply : list (result StreamEvent StreamError) := Ok <$>
  [ResponseStart "r" "m" 0; MessageStart Assistant; ContentBlockStart 0 Text; TextDelta 0 "hi"; ContentBlockStop 0;
   MessageStop EndTurn None; ResponseStop None].
Definition sample_request (m : string) (streaming : bool) : CanonicalRequest := {|
  id := "q"; frontend_kind := OpenAiChat; requested_model := m; req_model := m; system := []; messages := [];
  tools := []; tool_choice := ChoiceAuto;
  generation := {| max_tokens := None; temperature := None; top_p := None; top_k := None; presence_penalty := None;
    frequency_penalty := None; stop_sequences := []; seed := None; reasoning := None |};
  response_format := None; stream := streaming;
  Request.metadata := {| user_id := None; agent := None |}; inbound_anthropic_headers := [];
  resolved_policy := {| Request.reasoning_effort := None; reasoning_budget_tokens := None; supported_efforts := None;
    Request.supported_endpoints := None; anthropic_headers := [] |}; extensions := ∅ |}.
(** A body is the model's name; the empty one cannot be read. *)
Definition spec (kind : FrontendKind) (streaming raw : bool) : PipelineSpec := {|
  spec_frontend := {|
    fp_kind := kind;
    decode_request := λ body, if str_is_empty body then Err (InvalidBody "json") else Ok (sample_request body streaming);
    encode_unary := λ r, Ok (cr_id r) |};
  capture_headers := raw; try_proxy_raw := raw |}.
Definition clock (n : nat) : Z := Z.of_nat n.
Definition dispatch : PipelineSpec → Headers → string → emit State PipelineEvent (option (result (Response (W := unit)) HandlerError)) :=
  dispatch_inner (NotUntil := unit) Some (λ s, s) (λ _ _, tt) (λ _ l, (Ok tt, l)) (λ _ _, (0, 0)%Z) clock clock (λ w, (0%Z, w))
    (λ _, 0%Z) (λ _, None) (λ w, (tt, w)) Retry.Samples.no_jitter (λ _, "") (λ _, true) (λ _ _ _ w, (Ok reply, w))
    (λ _ _ _ _ w, (Ok (Some ("text/event-stream", [Ok "bytes"])), w)) Ok (λ _ _ w, (Ok "/tmp/body.json", w))
    (λ _ _, false) (λ w, ("fresh", w)).
(** A run from the start of a configuration, read off as data. *)
Definition read_answer (a : option (result (Response (W := unit)) HandlerError)) : option (result string HandlerError) :=
  result_map (λ r, match r with
    | UnaryBody body => "body " ++ body | StreamBody _ => "stream" | RawBody _ _ _ => "bytes" end)%string <$> a.
(** The bodies written and the upstreams called. *)
Definition read_event (e : PipelineEvent) : option string :=
  match e with BodyDumped _ => Some "dumped" | Proxied p => Some p | _ => None end.
Definition run (cfg : GatewayConfig) (breakers : emit BreakerRegistry StateChange unit) (p : PipelineSpec) (body : string)
    : option (option (result string HandlerError) * list string) :=
  match started cfg with
  | Ok (Some s0) =>
      let s := {| pipe_app := set_breakers (final breakers (breaker_registry s0)) s0; pipe_world := tt |} in
      Some (read_answer (answer (dispatch p [] body) s), omap read_event (emitted (dispatch p [] body) s))
  | _ => None
  end.

Lemma unary_and_streamed :
  fst <$> run cfg (mret tt) (spec OpenAiChat false false) "gpt" = Some (Some (Ok "body r")) ∧
  fst <$> run cfg (mret tt) (spec OpenAiChat true false) "gpt" = Some (Some (Ok "stream")) ∧
  fst <$> run cfg (mret tt) (spec AnthropicMessages true true) "opus" = Some (Some (Ok "bytes")).
Proof. split_and!; vm_compute; reflexivity. Qed.

(** A request answered by a prefix route is routed, passes its hooks, and is then
    told that there is no route, since admission has no entry for it. *)
Lemma prefix_route_is_refused :
  validate cfg = Ok tt ∧
  (from_config cfg ≫= λ r, result_ok (result_map (λ r, provider <$> chain r)
    (StaticRoutes.resolve_route r OpenAiChat "claude-3"))) = Some ["good"] ∧
  fst <$> run cfg (mret tt) (spec OpenAiChat true false) "claude-3" =
    Some (Some (Err (RouteFault (NoRoute OpenAiChat "claude-3")))).
Proof. split_and!; vm_compute; reflexivity. Qed.

(** Where a key is required, a request without one still has its body decoded,
    and written to a file when it cannot be read. *)
Definition guarded : GatewayConfig := {|
  gw_server := gw_server cfg; upstreams := upstreams cfg; routes := routes cfg; gw_plugins := ∅;
  gw_auth := {| auth_enabled := true; auth_required := true; auth_keys := ∅ |};
  gw_rate_limit := gw_rate_limit cfg; gw_admin := None; gw_otel := None; gw_shutdown := gw_shutdown cfg;
  gw_validation := gw_validation cfg |}.
Lemma unauthenticated_body_is_written :
  fst <$> run guarded (mret tt) (spec OpenAiChat true false) "gpt" = Some (Some (Err (Unauthorized OpenAiChat))) ∧
  run guarded (mret tt) (spec OpenAiChat true false) "" =
    Some (Some (Err (Frontend (InvalidBody "invalid request body: json (body dumped to /tmp/body.json)"))), ["dumped"]).
Proof. split; vm_compute; reflexivity. Qed.

(** Twenty failures open the breaker of the head of the chain: the raw
    passthrough calls it all the same, as long as another target is let through. *)
Definition failures : emit BreakerRegistry StateChange unit :=
  for_each (seq 0 20) (λ _, registry_record clock "cheap" "m" false (policy_from default_breaker_config)).
Lemma passthrough_ignores_open_breaker :
  answer (registry_decision clock "cheap" "m" (policy_from default_breaker_config))
    (final failures {| breakers := ∅; ticks := 0 |}) = Breaker.Skip ∧
  run cfg failures (spec AnthropicMessages true true) "opus" = Some (Some (Ok "bytes"), ["cheap"]).
Proof. split; vm_compute; reflexivity. Qed.

Lemma cfg_starts : ∃ s0, started cfg = Ok (Some s0).
Proof.
  assert (H : match started cfg with Ok (Some _) => true | _ => false end = true) by (vm_compute; reflexivity).
  destruct (started cfg) as [[s0|]|]; [by exists s0|done..].
Qed.

Lemma every_request_is_answered_witness :
  validate cfg = Ok tt ∧
  ∃ s0, started cfg = Ok (Some s0) ∧ ∃ r,
    answer (dispatch (spec OpenAiChat true false) [] "gpt")
      (final (dispatch (spec OpenAiChat false false) [] "gpt") {| pipe_app := s0; pipe_world := tt |}) = Some r.
Proof.
  assert (Hv : validate cfg = Ok tt) by (vm_compute; reflexivity). split; [exact Hv|].
  destruct cfg_starts as [s0 Hs0]. exists s0. split; [exact Hs0|].
  assert (Hw : retry_widths cfg).
  { intros e He. assert (Hall : Forall (λ e, re_retry e = default_retry_config) (routes cfg)) by (repeat constructor).
    rewrite Forall_forall in Hall. rewrite (Hall e He). vm_compute. split_and!; congruence. }
  destruct (every_request_is_answered (NotUntil := unit) (ConfigError := unit) Some (λ s, s) (λ _ _, tt) (λ _ l, (Ok tt, l))
    (λ _ _, (0, 0)%Z) clock clock (λ w, (0%Z, w)) (λ _, 0%Z) (λ _, None) (λ w, (tt, w)) Retry.Samples.no_jitter (λ _, "")
    (λ _, true) (λ _ _ _ w, (Ok reply, w)) (λ _ _ _ _ w, (Ok (Some ("text/event-stream", [Ok "bytes"])), w)) Ok
    (λ _ _ w, (Ok "/tmp/body.json", w)) (λ _ _, false) (λ w, ("fresh", w)) (λ _ _, Ok tt) (λ _, Ok None) [] (λ _, Err "yaml")
    Retry.Samples.no_jitter_samples cfg s0 {| pipe_app := s0; pipe_world := tt |} [Requested (spec OpenAiChat false false) [] "gpt"]
    (spec OpenAiChat true false) [] "gpt" Hv Hw Hs0 eq_refl) as [_ Hr]. exact Hr.
Defined.

Lemma admission_finds_the_entry_witness :
  find_route_entry cfg OpenAiChat "gpt" = Some (singular "openai_chat" "gpt" "cheap" "m") ∧
  find_route_entry cfg OpenAiChat "claude-3" = None.
Proof.
  split; [|vm_compute; reflexivity].
  apply (admission_finds_the_entry cfg OpenAiChat "gpt" (singular "openai_chat" "gpt" "cheap" "m")).
  - reflexivity.
  - vm_compute. repeat constructor; intros H; repeat (apply list_elem_of_In in H; simpl in H; naive_solver).
  - exists [], (tail (routes cfg)). split_and!; [reflexivity|reflexivity|reflexivity| |].
    + intros e' _ _ _. simpl. by destruct (specificity _).
    + intros e' He' _ Hm. simpl. repeat (apply elem_of_cons in He' as [->|He']; [by vm_compute in Hm|]). by apply elem_of_nil in He'.
Defined.

Definition live : LiveStream (W := unit) := {|
  ls_stream := reply; ls_ticket := HealthyFallback.two_holds; ls_index := 0;
  ls_snapshot := snapshot_of cfg {| plugins := ∅; plans := ∅ |}; ls_route := (OpenAiChat, "gpt");
  ls_ctx := {| ctx_request_id := "q"; ctx_frontend := OpenAiChat; ctx_route_label := "OpenAiChat/gpt" |}; ls_started := 0 |}.
Lemma answers_settle_the_ticket_witness :
  let t := HealthyFallback.two_holds in
  ∃ s0, started cfg = Ok (Some s0) ∧
    breaker_registry (pipe_app (final (serve_stream clock (λ w, (0%Z, w)) live 1) {| pipe_app := s0; pipe_world := tt |})) =
    final (record_each clock 0 (breaker_holds t) (λ j, (j =? 0) && true)) (breaker_registry s0).
Proof.
  intros t. destruct cfg_starts as [s0 Hs0]. exists s0. split; [exact Hs0|].
  destruct (answers_settle_the_ticket clock (λ w, (0%Z, w)) (λ w, ("fresh", w)) live [] 1
    {| pipe_app := s0; pipe_world := tt |} eq_refl) as [H _]; [repeat constructor|]. exact H.
Defined.
End Samples.
