(* ===== verification/AnthropicRequest.v ===== *)
(** * An Anthropic client behind an Anthropic upstream: the request

    The composition of the decoder of frontends/src/anthropic_messages with the
    builder of providers/src/anthropic, for requests that are not passed
    through: [relay_request] says what the upstream is sent for what the client
    sent, under the policy the pipeline resolved. *)
From S2P Require Import Prelude Float64 Json CoreTypes Request GatewayErrors Pipeline Conversation AnthropicDecode AnthropicBuild.
#[local] Open Scope string_scope.
#[local] Open Scope list_scope.
#[local] Open Scope nat_scope.

Section Relay.
Context `{J : JsonApi} `{V : !JsonValues J}.
Context (b64_encode : string → string) (source_from_value : value → option BinarySource).

(** A block is sent as it came, except that an image goes through the canonical
    source, and [is_error: false] is left out. *)
Definition relay_block (b : InboundContentBlock) : option OutgoingContentBlock :=
  match b with
  | InTextB text cc => Some (OutTextB text cc)
  | InImageB source cc => (λ v, OutImageB v cc) <$> (source_from_value source ≫= image_source b64_encode)
  | InToolUseB id name input cc => Some (OutToolUseB id name input cc)
  | InToolResultB id is_error content cc =>
      Some (OutToolResultB id (if default false is_error then Some true else None)
        ((λ c, match c with ResultText t => OutResultText t | ResultBlocks b => OutResultBlocks b end) <$> content) cc)
  | InThinkingB thinking signature => Some (OutThinkingB thinking (Some signature))
  | InRedactedThinkingB data => Some (OutRedactedThinkingB data)
  end.
Definition blocks_of (c : InboundMessageContent) : list InboundContentBlock :=
  match c with MessageText t => [InTextB t None] | MessageBlocks l => l end.
Definition system_blocks (s : option SystemField) : list InboundContentBlock :=
  match s with None => [] | Some (SystemText t) => [InTextB t None] | Some (SystemBlocks l) => l end.

(** The leading system messages join the system prompt, the others stay. *)
Definition is_system (m : InboundMessage) : bool := bool_decide (im_role m = "system").
Fixpoint leading_blocks (l : list InboundMessage) : list InboundContentBlock :=
  match l with
  | m :: l' => if is_system m then blocks_of (im_content m) ++ leading_blocks l' else []
  | [] => []
  end.
Fixpoint after_leading (l : list InboundMessage) : list InboundMessage :=
  match l with
  | m :: l' => if is_system m then after_leading l' else l
  | [] => []
  end.
Definition relay_message (m : InboundMessage) : OutgoingMessage := {|
  om_role := im_role m; om_content := omap relay_block (blocks_of (im_content m)) |}.

(** A system prompt of plain texts is one string. *)
Definition plain_text (b : InboundContentBlock) : option string :=
  match b with InTextB t None => Some t | _ => None end.
Definition relay_system (blocks : list InboundContentBlock) : option OutgoingSystem :=
  match mapM plain_text blocks with
  | Some texts =>
      let joined := join (newline ++ newline)%string texts in
      if str_is_empty joined then None else Some (OutSystemText joined)
  | None => match omap relay_block blocks with [] => None | out => Some (OutSystemBlocks out) end
  end.

Definition relay_tool (t : InboundTool) : OutgoingTool := {|
  ot_name := it_name t; ot_description := it_description t; ot_input_schema := it_input_schema t;
  ot_cache_control := it_cache_control t |}.
Definition relay_choice (c : InboundToolChoice) : option OutgoingToolChoice :=
  match c with InAuto => None | InAny => Some OutAny | InTool name => Some (OutTool name) | InNone => Some OutNone end.
Definition if_any {A} (o : option (list A)) : option (list A) :=
  match o with Some [] => None | _ => o end.

Definition relay_request (req : MessagesRequest) (target : BackendTarget) (p : ResolvedPolicy) : OutgoingRequest := {|
  or_model := model target;
  or_messages := relay_message <$> after_leading (mr_messages req);
  or_system := relay_system (system_blocks (mr_system req) ++ leading_blocks (mr_messages req));
  or_tools := if_any ((λ l : list InboundTool, relay_tool <$> l) <$> mr_tools req);
  or_tool_choice := mr_tool_choice req ≫= relay_choice;
  or_max_tokens := mr_max_tokens req; or_temperature := mr_temperature req; or_top_p := mr_top_p req;
  or_top_k := mr_top_k req; or_stop_sequences := if_any (mr_stop_sequences req);
  or_stream := default false (mr_stream req); or_metadata := None;
  or_thinking := (reasoning_blocks p).1; or_output_effort := (reasoning_blocks p).2 |}.

(** The first message whose role is unknown. *)
Definition known_role (m : InboundMessage) : bool := bool_decide (im_role m ∈ ["user"; "assistant"; "system"]).
Definition unknown_role (l : list InboundMessage) : option string :=
  (λ p, im_role p.2) <$> list_find (λ m, known_role m = false) l.

(** ** Blocks *)
Lemma cache_control_back cc : cache_control_from_ext (cache_extensions cc) = cc.
Proof. by destruct cc. Qed.

Lemma role_known m r : role_from_anthropic (im_role m) = Some r → role_to_anthropic r = im_role m ∧ known_role m = true.
Proof.
  unfold role_from_anthropic, known_role. intros H.
  repeat case_bool_decide; simplify_eq/=; try (split; congruence || done); set_solver.
Qed.
Lemma role_unknown m : role_from_anthropic (im_role m) = None → known_role m = false.
Proof.
  unfold role_from_anthropic, known_role. intros H.
  repeat case_bool_decide; simplify_eq/=; try done. set_solver.
Qed.

Context `{L : !JsonValueLaws J}.
Lemma block_relayed b :
  content_block_to_outgoing b64_encode (inbound_block_to_canonical source_from_value b) = relay_block b.
Proof.
  destruct b as [t cc|source cc|id name input cc|id err c cc|t s|d]; simpl; rewrite ?cache_control_back; try done.
  - destruct (source_from_value source) as [src|]; [|done]. simpl. unfold image_block_to_outgoing.
    by rewrite cache_control_back.
  - destruct c as [[t|l]|]; simpl; unfold tool_result_content;
      rewrite ?is_null_string, ?is_null_array, ?is_null_null, ?as_str_string, ?as_str_array, ?as_array_array; done.
  - change (signature_from_ext _) with (Json.as_str (json_string s)). by rewrite as_str_string.
Qed.
Lemma content_relayed c :
  omap (content_block_to_outgoing b64_encode) (decode_content source_from_value c) = omap relay_block (blocks_of c).
Proof.
  destruct c as [t|l]; [done|]. simpl. induction l as [|b l IH]; [done|]. csimpl.
  rewrite block_relayed, IH. done.
Qed.

(** ** The conversation *)
Lemma classify_role m :
  classify source_from_value m =
  match role_from_anthropic (im_role m) with
  | None => Err (InvalidBody ("unknown role: " ++ im_role m)%string)
  | Some System => Ok (Instruction AnthropicSystem (decode_content source_from_value (im_content m)) None)
  | Some r => Ok (Turn (bare_message r (decode_content source_from_value (im_content m))))
  end.
Proof. unfold classify. by destruct (role_from_anthropic (im_role m)) as [[]|]. Qed.

Lemma classify_fails l :
  match unknown_role l with
  | Some r => classify_all (classify source_from_value) l = Err (InvalidBody ("unknown role: " ++ r)%string)
  | None => ∃ ds, classify_all (classify source_from_value) l = Ok ds
  end.
Proof.
  unfold unknown_role. induction l as [|m l IH]; [by exists []|]. simpl. rewrite classify_role.
  destruct (role_from_anthropic (im_role m)) as [r|] eqn:Hr.
  - apply role_known in Hr as Hk. destruct Hk as [_ Hk]. rewrite decide_False by congruence.
    assert (Hd : ∃ d, (match r with
      | System => Ok (Instruction AnthropicSystem (decode_content source_from_value (im_content m)) None)
      | r => Ok (Turn (bare_message r (decode_content source_from_value (im_content m)))) end : result Decoded FrontendError) = Ok d).
    { destruct r; eauto. }
    destruct Hd as [d ->]. simpl. destruct (list_find _ l) as [[i x]|]; simpl in *.
    + by rewrite IH.
    + destruct IH as [ds ->]. by eexists.
  - apply role_unknown in Hr. by rewrite decide_True.
Qed.

(** What the classified messages become upstream. *)
Lemma system_role m : role_from_anthropic (im_role m) = Some System ↔ is_system m = true.
Proof.
  unfold role_from_anthropic, is_system. repeat case_bool_decide; split; congruence.
Qed.
Lemma positional_relayed l ds :
  classify_all (classify source_from_value) l = Ok ds →
  message_to_outgoing b64_encode <$> (positional <$> ds) = relay_message <$> l.
Proof.
  revert ds. induction l as [|m l IH]; intros ds; simpl; [by intros [= <-]|].
  rewrite classify_role. destruct (role_from_anthropic (im_role m)) as [r|] eqn:Hr; [|done].
  apply role_known in Hr as [Hr _].
  destruct (classify_all _ l) as [ds'|]; [|by destruct r]. specialize (IH ds' eq_refl).
  assert (Hm : ∀ d, positional d = (match r with
      | System => system_message AnthropicSystem (decode_content source_from_value (im_content m)) None
      | r => bare_message r (decode_content source_from_value (im_content m)) end) →
    message_to_outgoing b64_encode (positional d) = relay_message m).
  { intros d ->. unfold message_to_outgoing, relay_message. rewrite <- Hr, <- content_relayed. by destruct r. }
  destruct r; intros [= <-]; rewrite !fmap_cons, IH; f_equal; by apply Hm.
Qed.
Lemma conversation_relayed l ds :
  classify_all (classify source_from_value) l = Ok ds →
  message_to_outgoing b64_encode <$> conversation ds = relay_message <$> after_leading l ∧
  leading ds ≫= si_content = inbound_block_to_canonical source_from_value <$> leading_blocks l ∧
  Forall (λ si, si_source si = AnthropicSystem) (leading ds).
Proof.
  revert ds. induction l as [|m l IH]; intros ds; simpl; [by intros [= <-]|]. intros Hds. pose proof Hds as Hds'.
  rewrite classify_role in Hds. destruct (role_from_anthropic (im_role m)) as [r|] eqn:Hr; [|done].
  destruct (is_system m) eqn:Hs.
  - apply system_role in Hs. rewrite Hr in Hs. injection Hs as ->. simpl in Hds.
    destruct (classify_all _ l) as [ds'|]; [|done]. injection Hds as <-. cbn [leading conversation].
    destruct (IH ds' eq_refl) as (Hc & Hl & Hf). rewrite Hc, bind_cons, Hl, fmap_app. split_and!; [done| |by constructor].
    f_equal. by destruct (im_content m).
  - assert (Hns : r ≠ System) by (intros ->; apply system_role in Hr; congruence).
    assert (Hconv : conversation ds = positional <$> ds ∧ leading ds = []).
    { destruct r; try done; simpl in Hds; destruct (classify_all _ l) as [ds'|]; try done; by injection Hds as <-. }
    destruct Hconv as [-> ->]. split_and!; [|done|done]. apply (positional_relayed (m :: l)). exact Hds'.
Qed.

(** ** The system prompt *)
Lemma system_blocks_decoded s :
  decode_system source_from_value s ≫= si_content = inbound_block_to_canonical source_from_value <$> system_blocks s.
Proof. destruct s as [[t|l]|]; [done| |done]. simpl. by rewrite app_nil_r. Qed.
Lemma forallb_flat {A B} (f : B → bool) (g : A → list B) l :
  forallb (λ x, forallb f (g x)) l = forallb f (l ≫= g).
Proof. induction l as [|x l IH]; [done|]. rewrite bind_cons, forallb_app, <- IH. done. Qed.

Lemma simple_block b :
  is_simple_text_block (inbound_block_to_canonical source_from_value b) = bool_decide (is_Some (plain_text b)).
Proof.
  destruct b as [t [cc|]|source cc|id name input cc|id err c cc|t s|d]; simpl; try done.
  by destruct (source_from_value source).
Qed.
Lemma simple_blocks l :
  forallb is_simple_text_block (inbound_block_to_canonical source_from_value <$> l) =
    bool_decide (is_Some (mapM plain_text l)) ∧
  ∀ texts, mapM plain_text l = Some texts →
    omap block_text (inbound_block_to_canonical source_from_value <$> l) = texts.
Proof.
  induction l as [|b l [IH IH']]; [split; [done|by intros ? [= <-]]|]. csimpl. rewrite simple_block, IH.
  destruct b as [t [cc|]|source cc|id name input cc|id err c cc|t s|d]; simpl; try done.
  destruct (mapM plain_text l) as [texts|]; simpl; [|done]. split; [done|].
  intros ? [= <-]. f_equal. by apply IH'.
Qed.

Lemma omap_relayed (l : list InboundContentBlock) :
  omap (content_block_to_outgoing b64_encode) (inbound_block_to_canonical source_from_value <$> l) = omap relay_block l.
Proof. exact (content_relayed (MessageBlocks l)). Qed.

Lemma system_relayed sys blocks :
  sys ≫= si_content = inbound_block_to_canonical source_from_value <$> blocks →
  build_system b64_encode sys = relay_system blocks.
Proof.
  intros Hb. unfold build_system. rewrite forallb_flat, Hb. destruct (simple_blocks blocks) as [-> Ht].
  unfold relay_system. destruct sys as [|si sys].
  - destruct blocks; done.
  - destruct (mapM plain_text blocks) as [texts|].
    + by rewrite (Ht texts).
    + by rewrite omap_relayed.
Qed.

Lemma tools_relayed o :
  (match default [] o with [] => None | l => Some (tool_to_outgoing <$> (decode_tool <$> l)) end) =
  if_any ((λ l : list InboundTool, relay_tool <$> l) <$> o).
Proof.
  destruct o as [[|t l]|]; [done| |done]. simpl. f_equal. f_equal.
  - unfold tool_to_outgoing, relay_tool. simpl. by rewrite cache_control_back.
  - rewrite <- list_fmap_compose. apply list_fmap_ext. intros _ x _. unfold tool_to_outgoing, relay_tool. simpl.
    by rewrite cache_control_back.
Qed.

Lemma request_relayed fresh req target p c :
  decode_request source_from_value fresh req = Ok c →
  build b64_encode (set_resolved_policy p c) target = relay_request req target p.
Proof.
  unfold decode_request. rewrite decode_turns_spec.
  destruct (classify_all _ (mr_messages req)) as [ds|] eqn:Hds; [|done]. simpl. intros [= <-].
  destruct (place_all (decode_system source_from_value (mr_system req)) ds) as [Hs Hm]. rewrite Hs, Hm.
  destruct (conversation_relayed _ _ Hds) as (Hc & Hl & _).
  unfold build, build_reasoning_blocks, relay_request. simpl.
  destruct (reasoning_blocks p) as [th eff]. simpl. f_equal.
  - exact Hc.
  - apply system_relayed. by rewrite bind_app, system_blocks_decoded, Hl, fmap_app.
  - unfold build_tools. simpl. rewrite <- tools_relayed. by destruct (default [] (mr_tools req)).
  - by destruct (mr_tool_choice req) as [[]|].
  - by destruct (mr_stop_sequences req) as [[]|].
Qed.
End Relay.

(** ** Properties *)
Section Properties.
Context `{J : JsonApi} `{V : !JsonValues J} `{L : !JsonValueLaws J}.
Context (b64_encode : string → string) (source_from_value : value → option BinarySource)
  (from_body : string → result MessagesRequest string).

(** C5: a request of an Anthropic client is refused exactly when its body cannot
    be read or a message has an unknown role, and otherwise reaches an Anthropic
    upstream, under any resolved policy, as its relay: every message and block in
    place and unchanged, tools, choice and parameters as given; only the leading
    system messages join the system prompt, plain prompts become one string,
    images whose source is not understood are left out, and neither the metadata
    nor the client's thinking budget is sent. *)
Theorem anthropic_request_relayed fresh body :
  match from_body body with
  | Err e => decode source_from_value from_body fresh body = Err (InvalidBody e)
  | Ok req =>
      match unknown_role (mr_messages req) with
      | Some r => decode source_from_value from_body fresh body = Err (InvalidBody ("unknown role: " ++ r)%string)
      | None => ∃ c, decode source_from_value from_body fresh body = Ok c ∧
          ∀ target p, build b64_encode (set_resolved_policy p c) target =
            relay_request b64_encode source_from_value req target p
      end
  end.
Proof.
  unfold decode. destruct (from_body body) as [req|e]; [|done].
  pose proof (classify_fails source_from_value (mr_messages req)) as Hcl.
  destruct (unknown_role (mr_messages req)) as [r|].
  - unfold decode_request. by rewrite decode_turns_spec, Hcl.
  - destruct (decode_request source_from_value fresh req) as [c|e] eqn:Hc.
    + exists c. split; [done|]. intros. by apply request_relayed with fresh.
    + exfalso. unfold decode_request in Hc. rewrite decode_turns_spec in Hc.
      destruct Hcl as [ds Hds]. by rewrite Hds in Hc.
Qed.
End Properties.

Module Samples.
#[local] Instance request_json : JsonApi := TreeJson [].
Definition no_policy : RoutePolicy := {|
  default_reasoning_effort := None; default_anthropic_beta := None; reasoning_mapping := [] |}.
Definition opus : BackendTarget := {| provider := "anthropic"; model := "claude-opus"; policy := no_policy |}.
(** A turn with a tool call, its result, and an image of an unknown kind. *)
Definition request : MessagesRequest := {|
  mr_model := "claude";
  mr_messages :=
    [{| im_role := "system"; im_content := MessageText "Be brief." |};
     {| im_role := "user"; im_content := MessageBlocks [InTextB "look" None; InImageB (TStr "file:7") None] |};
     {| im_role := "assistant"; im_content := MessageBlocks [InThinkingB "hm" "sig"; InToolUseB "tu_1" "search" (TObj []) None] |};
     {| im_role := "user"; im_content := MessageBlocks [InToolResultB "tu_1" (Some false) (Some (ResultText "found")) None] |}];
  mr_system := Some (SystemText "You are helpful."); mr_tools := None; mr_tool_choice := None; mr_max_tokens := 100;
  mr_temperature := None; mr_top_p := None; mr_top_k := None; mr_stop_sequences := None; mr_stream := Some true;
  mr_metadata := Some (TObj [("user_id", TStr "u")]); mr_output_effort := None |}.
Definition join2 : string := ("You are helpful." ++ newline ++ newline ++ "Be brief.")%string.

(** The image is left out, though the decoder keeps it so that the upstream sees
    it, and so is the user id of the metadata. *)
Lemma anthropic_request_relayed_witness :
  ∃ c, decode (λ _, None) (λ _ : string, Ok request) "req" "body" = Ok c ∧
    let out := build (λ s, s) (set_resolved_policy default_policy c) opus in
    or_system out = Some (OutSystemText join2) ∧
    or_messages out =
      [{| om_role := "user"; om_content := [OutTextB "look" None] |};
       {| om_role := "assistant"; om_content := [OutThinkingB "hm" (Some "sig"); OutToolUseB "tu_1" "search" (TObj []) None] |};
       {| om_role := "user"; om_content := [OutToolResultB "tu_1" None (Some (OutResultText "found")) None] |}] ∧
    or_metadata out = None.
Proof.
  destruct (anthropic_request_relayed (λ s, s) (λ _, None) (λ _ : string, Ok request) "req" "body")
    as (c & Hc & Hb).
  exists c. split; [exact Hc|]. cbn zeta. rewrite Hb. split_and!; reflexivity.
Defined.
End Samples.
