(* ===== verification/ChatRequest.v ===== *)
(** * A Chat client behind a Chat upstream: the request

    The composition of the decoder of frontends/src/openai_chat with the builder
    of providers/src/oai_chat_wire: [relay_request] says what the upstream is
    sent for what the client sent. *)
From S2P Require Import Prelude Float64 Json CoreTypes Request GatewayErrors Pipeline Conversation ChatDecode ChatBuild.
#[local] Open Scope string_scope.
#[local] Open Scope list_scope.
#[local] Open Scope nat_scope.

Section Relay.
Context `{J : JsonApi} `{V : !JsonValues J}.
Context (b64_encode : string → string) (b64_decode : string → option string) (block_value : ContentBlock → option value).

(** An image is sent on when its URL is understood. *)
Definition known_url (url : string) : bool := bool_decide (is_Some (image_url_to_binary_source b64_decode url)).
Definition relay_part (p : InboundContentPart) : option value :=
  match p with
  | PartText t => Some (json_object [("type", json_string "text"); ("text", json_string t)])
  | PartImageUrl url => if known_url url then Some (image_part url) else None
  end.
Definition part_text (p : InboundContentPart) : option string := match p with PartText t => Some t | _ => None end.
Definition parts_of (c : option InboundMessageContent) : list InboundContentPart :=
  match c with None => [] | Some (ContentText t) => [PartText t] | Some (ContentParts l) => l end.

(** One text is a string, anything else the array of its parts. *)
Definition relay_content (parts : list InboundContentPart) : option value :=
  match parts with
  | [PartText t] => Some (json_string t)
  | _ => match omap relay_part parts with [] => None | l => Some (json_array l) end
  end.
(** Next to tool calls, and in the leading instructions, only text is sent. *)
Definition joined_text (parts : list InboundContentPart) : string := join newline (omap part_text parts).

(** Arguments that are no JSON text become a JSON string. *)
Definition relay_arguments (s : string) : string :=
  to_json_string (match from_str s with Ok v => v | Err _ => json_string s end).
Definition relay_call (tc : InboundToolCall) : ToolCallOut := {|
  tco_id := itc_id tc; tco_name := itc_name tc; tco_arguments := relay_arguments (itc_arguments tc) |}.

(** The text of a tool message: its first part. *)
Definition relay_result (parts : list InboundContentPart) : string :=
  match parts with
  | PartText t :: _ => t
  | p :: _ => extract_text_from_tool_result (default json_null (block_value (decode_part b64_decode p)))
  | [] => ""
  end.

Definition is_instruction (m : InboundMessage) : bool := bool_decide (in_role m ∈ ["system"; "developer"]).
Definition relay_message (m : InboundMessage) : MsgOut :=
  let parts := parts_of (in_content m) in
  {| mo_role := in_role m;
     mo_content :=
       if bool_decide (in_role m = "tool") then Some (json_string (relay_result parts))
       else if is_instruction m then relay_content parts
       else match in_tool_calls m with
            | [] => relay_content parts
            | _ => let text := joined_text parts in if str_is_empty text then None else Some (json_string text)
            end;
     mo_name := in_name m;
     mo_tool_calls :=
       if bool_decide (in_role m = "tool") || is_instruction m then None
       else match in_tool_calls m with [] => None | l => Some (relay_call <$> l) end;
     mo_tool_call_id := if bool_decide (in_role m = "tool") then in_tool_call_id m else None |}.
Definition relay_leading (m : InboundMessage) : MsgOut := {|
  mo_role := in_role m; mo_content := Some (json_string (joined_text (parts_of (in_content m))));
  mo_name := None; mo_tool_calls := None; mo_tool_call_id := None |}.
Fixpoint relay_messages (l : list InboundMessage) : list MsgOut :=
  match l with
  | m :: l' => if is_instruction m then relay_leading m :: relay_messages l' else relay_message <$> l
  | [] => []
  end.

Definition relay_tool (t : InboundTool) : ToolOut := {|
  to_name := it_name t; to_description := it_description t;
  to_parameters := default (json_object []) (it_parameters t) |}.
Definition relay_choice (c : option InboundToolChoice) : ToolChoiceOut :=
  match c with
  | Some (ChoiceMode s) => ChoiceString (if bool_decide (s ∈ ["none"; "required"]) then s else "auto")
  | Some (ChoiceFunction _ name) => ChoiceObject name
  | None => ChoiceString "auto"
  end.
Definition relay_format (rf : InboundResponseFormat) : option ResponseFormatOut :=
  if bool_decide (rf_type rf = "json_object") then Some OutJsonObject
  else if bool_decide (rf_type rf = "json_schema")
  then (λ js, OutJsonSchema (js_name js) (js_schema js) (default false (js_strict js))) <$> rf_schema rf
  else None.

Definition relay_request (req : ChatCompletionsRequest) (target : BackendTarget) (p : ResolvedPolicy)
    (accepts_xhigh : bool) : ChatBody :=
  let tools := default [] (cc_tools req) in
  {| cb_model := model target; cb_messages := relay_messages (cc_messages req);
     cb_max_tokens := match cc_max_completion_tokens req with Some n => Some n | None => cc_max_tokens req end;
     cb_temperature := cc_temperature req; cb_top_p := cc_top_p req;
     cb_presence_penalty := cc_presence_penalty req; cb_frequency_penalty := cc_frequency_penalty req;
     cb_stop := default [] (into_vec <$> cc_stop req); cb_seed := cc_seed req;
     cb_response_format := cc_response_format req ≫= relay_format;
     cb_tools := relay_tool <$> tools;
     cb_tool_choice := match tools with [] => None | _ => Some (relay_choice (cc_tool_choice req)) end;
     cb_stream := default false (cc_stream req); cb_include_usage := default false (cc_stream req);
     cb_reasoning_effort :=
       (λ e, default (effort_for_chat e accepts_xhigh) (supported_efforts p ≫= clamp_to_advertised e))
         <$> Request.reasoning_effort p |}.

(** What is wrong with a message. *)
Definition message_error (m : InboundMessage) : option string :=
  if negb (bool_decide (in_role m ∈ ["user"; "assistant"; "tool"; "system"; "developer"]))
  then Some ("unknown role: " ++ in_role m)%string
  else if bool_decide (in_role m = "tool" ∧ in_tool_call_id m = None)
  then Some "tool message missing tool_call_id" else None.

(** ** Images

    Decoding base64 strictly, encoding gives back the text. *)
Hypothesis b64_strict : ∀ payload data, b64_decode payload = Some data → b64_encode data = payload.

Lemma strip_prefix_app p s r : strip_prefix p s = Some r → s = (p ++ r)%string.
Proof.
  revert s. induction p as [|c p IH]; intros s; simpl; [by intros [= ->]|].
  destruct s as [|d s]; [done|]. case_bool_decide; [|done]. subst. intros Hr. by rewrite (IH _ Hr).
Qed.
Lemma image_relayed url source :
  image_url_to_binary_source b64_decode url = Some source →
  content_part b64_encode (ImageBlock source ∅) = Some (image_part url).
Proof.
  unfold image_url_to_binary_source. destruct (strip_prefix "data:" url) as [rest|] eqn:Hp.
  - apply strip_prefix_app in Hp as ->.
    destruct (split_once comma rest) as [[header payload]|] eqn:Hc; [|done].
    apply split_once_some in Hc as [-> _].
    destruct (split_once semicolon header) as [[mt enc]|] eqn:Hs; simpl.
    + apply split_once_some in Hs as [-> _]. case_bool_decide as He; [|done]. subst enc. simpl.
      intros (data & Hd & ->)%fmap_Some. simpl. unfold data_uri. rewrite (b64_strict _ _ Hd).
      do 2 f_equal. by rewrite !string_app_assoc.
    + done.
  - destruct (starts_with url "http://" || starts_with url "https://"); [|done]. by intros [= <-].
Qed.
Lemma part_relayed p : content_part b64_encode (decode_part b64_decode p) = relay_part p.
Proof.
  destruct p as [t|url]; [done|]. simpl. unfold known_url.
  destruct (image_url_to_binary_source b64_decode url) as [source|] eqn:Hu; [|done].
  by apply image_relayed.
Qed.

(** ** Contents *)
Lemma decode_content_parts c : decode_content b64_decode c = decode_part b64_decode <$> parts_of c.
Proof. by destruct c as [[t|l]|]. Qed.

Lemma part_is_plain p : is_plain (decode_part b64_decode p) = true.
Proof. destruct p as [t|url]; [done|]. simpl. by destruct (image_url_to_binary_source b64_decode url). Qed.
Lemma part_text_decoded p : text_of_block (decode_part b64_decode p) = part_text p.
Proof. destruct p as [t|url]; [done|]. simpl. by destruct (image_url_to_binary_source b64_decode url). Qed.
Lemma parts_text (l : list InboundContentPart) : omap text_of_block (decode_part b64_decode <$> l) = omap part_text l.
Proof. induction l as [|p l IH]; [done|]. csimpl. by rewrite part_text_decoded, IH. Qed.
Lemma plain_no_tools {B} (f : ContentBlock → option B) (l : list InboundContentPart) :
  (∀ b, is_plain b = true → f b = None) → omap f (decode_part b64_decode <$> l) = [].
Proof. intros Hf. induction l as [|p l IH]; [done|]. csimpl. by rewrite Hf, IH by apply part_is_plain. Qed.

Lemma all_text_length (bs : list ContentBlock) :
  existsb (λ b, negb (bool_decide (is_Some (text_of_block b)))) bs = false →
  length (omap text_of_block bs) = length bs.
Proof.
  induction bs as [|b bs IH]; [done|]. csimpl. intros [Hb Hbs]%orb_false_iff.
  apply negb_false_iff, bool_decide_eq_true in Hb as [t ->]. simpl. by rewrite IH.
Qed.
Lemma chat_content_relayed (l : list InboundContentPart) : build_content_value b64_encode (decode_part b64_decode <$> l) = relay_content l.
Proof.
  assert (Hparts : omap (content_part b64_encode) (decode_part b64_decode <$> l) = omap relay_part l).
  { induction l as [|p l IH]; [done|]. csimpl. by rewrite part_relayed, IH. }
  unfold build_content_value. rewrite Hparts. pose proof (all_text_length (decode_part b64_decode <$> l)) as Hlen.
  rewrite parts_text, length_fmap in *.
  destruct (existsb _ _) eqn:Hex.
  - destruct l as [|[t|url] [|q l]]; try done.
  - specialize (Hlen eq_refl). simpl. destruct (omap part_text l) as [|t [|t' ts]] eqn:Ht.
    + by destruct l.
    + destruct l as [|[t0|url] [|q l]]; try done. by injection Ht as ->.
    + destruct l as [|[t0|url] [|q l]]; try done.
Qed.

(** ** Messages *)
Lemma parts_no_calls (l : list InboundContentPart) : omap tool_call_out (decode_part b64_decode <$> l) = [].
Proof. apply plain_no_tools. by intros []. Qed.
Lemma parts_no_results (l : list InboundContentPart) : omap tool_result_of (decode_part b64_decode <$> l) = [].
Proof. apply plain_no_tools. by intros []. Qed.
Lemma calls_no_results (l : list InboundToolCall) : omap tool_result_of (decode_tool_call <$> l) = [].
Proof. by induction l. Qed.
Lemma calls_no_text (l : list InboundToolCall) : omap text_of_block (decode_tool_call <$> l) = [].
Proof. by induction l. Qed.
Lemma calls_relayed (l : list InboundToolCall) : omap tool_call_out (decode_tool_call <$> l) = relay_call <$> l.
Proof. induction l as [|x l IH]; [done|]. csimpl. by rewrite IH. Qed.

Lemma text_content_relayed parts calls :
  build_text_content_value ((decode_part b64_decode <$> parts) ++ (decode_tool_call <$> calls)) =
  let text := joined_text parts in if str_is_empty text then None else Some (json_string text).
Proof.
  unfold build_text_content_value, extract_text_content. by rewrite omap_app, parts_text, calls_no_text, app_nil_r.
Qed.
Definition speech (parts : list InboundContentPart) (calls : list InboundToolCall) : option value :=
  match calls with
  | [] => relay_content parts
  | _ => let text := joined_text parts in if str_is_empty text then None else Some (json_string text)
  end.
Lemma speaker_out msg parts calls :
  content msg = (decode_part b64_decode <$> parts) ++ (decode_tool_call <$> calls) →
  message_out b64_encode msg =
    [plain_message msg (speech parts calls) (match calls with [] => None | _ => Some (relay_call <$> calls) end)].
Proof.
  intros Hc. unfold message_out. rewrite Hc, !omap_app, parts_no_results, calls_no_results, parts_no_calls, calls_relayed.
  rewrite app_nil_l, text_content_relayed. destruct calls as [|tc calls]; [|done].
  simpl. rewrite app_nil_r. by rewrite chat_content_relayed.
Qed.

Context `{L : !JsonValueLaws J}.
Lemma result_relayed parts :
  extract_text_from_tool_result (tool_result_value block_value (decode_part b64_decode <$> parts)) = relay_result parts.
Proof.
  assert (Hs : ∀ t, extract_text_from_tool_result (json_string t) = t).
  { intros t. unfold extract_text_from_tool_result. by rewrite as_str_string. }
  destruct parts as [|[t|url] parts]; simpl; [|done|].
  - unfold extract_text_from_tool_result. by rewrite as_str_null, as_array_null, is_null_null.
  - by destruct (image_url_to_binary_source b64_decode url).
Qed.

Lemma message_classified m :
  match message_error m with
  | Some e => classify b64_decode block_value m = Err (InvalidBody e)
  | None => ∃ d, classify b64_decode block_value m = Ok d ∧
      message_out b64_encode (positional d) = [relay_message m] ∧
      match d with
      | Instruction source content _ =>
          is_instruction m = true ∧ system_out (instruction source content) = relay_leading m
      | Turn _ => is_instruction m = false
      end
  end.
Proof.
  destruct m as [r c name calls id]. unfold message_error, classify, is_instruction, role_to_canonical. simpl.
  rewrite decode_content_parts. set (parts := parts_of c).
  assert (Hsys : ∀ source, message_out b64_encode (system_message source (decode_part b64_decode <$> parts) name) =
    [plain_message (system_message source [] name) (relay_content parts) None]).
  { intros source. by rewrite (speaker_out _ parts []) by (simpl; by rewrite app_nil_r). }
  assert (Hlead : ∀ source, mo_content (system_out (instruction source (decode_part b64_decode <$> parts))) =
    Some (json_string (joined_text parts))).
  { intros source. simpl. unfold extract_text_content. by rewrite parts_text. }
  destruct (decide (r = "user")) as [->|Hu]; [|destruct (decide (r = "assistant")) as [->|Ha];
    [|destruct (decide (r = "tool")) as [->|Ht]; [|destruct (decide (r = "system")) as [->|Hs];
    [|destruct (decide (r = "developer")) as [->|Hd]]]]].
  - eexists. split; [reflexivity|]. split; [|done]. simpl. rewrite (speaker_out _ parts calls) by done.
    unfold relay_message. simpl. fold parts. by destruct calls.
  - eexists. split; [reflexivity|]. split; [|done]. simpl. rewrite (speaker_out _ parts calls) by done.
    unfold relay_message. simpl. fold parts. by destruct calls.
  - destruct id as [id|]; [|reflexivity]. eexists. split; [reflexivity|]. split; [|done].
    unfold message_out, relay_message, tool_reply. simpl. by rewrite result_relayed.
  - eexists. split; [reflexivity|]. split_and!; [|done|].
    + simpl. rewrite Hsys. unfold relay_message. simpl. by fold parts.
    + unfold relay_leading. simpl. fold parts. rewrite <- (Hlead OpenAiSystem). done.
  - eexists. split; [reflexivity|]. split_and!; [|done|].
    + simpl. rewrite Hsys. unfold relay_message. simpl. by fold parts.
    + unfold relay_leading. simpl. fold parts. rewrite <- (Hlead OpenAiDeveloper). done.
  - rewrite !bool_decide_eq_false_2 by (try done; set_solver). reflexivity.
Qed.

Definition first_error (l : list InboundMessage) : option string := head (omap message_error l).

Lemma all_classified l :
  match first_error l with
  | Some e => classify_all (classify b64_decode block_value) l = Err (InvalidBody e)
  | None => ∃ ds, classify_all (classify b64_decode block_value) l = Ok ds ∧
      (positional <$> ds) ≫= message_out b64_encode = relay_message <$> l ∧
      (system_out <$> leading ds) ++ (conversation ds ≫= message_out b64_encode) = relay_messages l
  end.
Proof.
  unfold first_error. induction l as [|m l IH]; [by exists []|]. cbn [omap list_omap classify_all].
  change (list_omap _ _ message_error l) with (omap message_error l).
  pose proof (message_classified m) as Hm. destruct (message_error m) as [e|]; [by rewrite Hm|].
  destruct Hm as (d & -> & Hout & Hd). simpl. destruct (head (omap message_error l)) as [e|]; [by rewrite IH|].
  destruct IH as (ds & -> & Hpos & Hall). exists (d :: ds). split; [done|].
  assert (Hmsgs : (positional <$> d :: ds) ≫= message_out b64_encode = relay_message <$> m :: l).
  { rewrite fmap_cons, bind_cons, Hout, Hpos. done. }
  split; [exact Hmsgs|]. destruct d as [source content name|t]; simpl.
  - destruct Hd as [-> Hlead]. by rewrite Hlead, <- Hall.
  - rewrite Hd. exact Hmsgs.
Qed.

Lemma chat_body_relayed fresh req target p xhigh c :
  decode_request b64_decode block_value fresh req = Ok c →
  build b64_encode (set_resolved_policy p c) target xhigh = relay_request req target p xhigh.
Proof.
  unfold decode_request. rewrite decode_turns_spec. pose proof (all_classified (cc_messages req)) as Hcl.
  destruct (first_error (cc_messages req)); [by rewrite Hcl|]. destruct Hcl as (ds & -> & _ & Hall). simpl.
  intros [= <-]. destruct (place_all [] ds) as [Hs Hm]. unfold build, relay_request. simpl. rewrite Hs, Hm. simpl.
  f_equal.
  - exact Hall.
  - destruct (cc_response_format req) as [rf|]; [|done]. simpl. unfold decode_response_format, relay_format.
    repeat case_bool_decide; try done. by destruct (rf_schema rf).
  - rewrite <- list_fmap_compose. done.
  - destruct (cc_tools req) as [[|t ts]|]; [done| |done]. simpl. f_equal.
    unfold decode_tool_choice, relay_choice. destruct (cc_tool_choice req) as [[s|ty n]|]; [|done|done].
    destruct (decide (s = "none")) as [->|Hn]; [done|]. destruct (decide (s = "required")) as [->|Hr]; [done|].
    rewrite !bool_decide_eq_false_2 by (try done; set_solver). done.
  - unfold effort_wire_string. simpl. destruct (Request.reasoning_effort p) as [e|]; [|done]. simpl.
    by destruct (supported_efforts p ≫= clamp_to_advertised e).
Qed.
End Relay.

(** ** Properties *)
Section Properties.
Context `{J : JsonApi} `{V : !JsonValues J} `{L : !JsonValueLaws J}.
Context (b64_encode : string → string) (b64_decode : string → option string) (block_value : ContentBlock → option value)
  (from_body : string → result ChatCompletionsRequest string).

(** C6: where base64 is decoded strictly, a request of a Chat client is refused
    exactly when its body cannot be read, a role is unknown or a tool message
    has no id, with the first such error, and otherwise reaches a Chat upstream,
    under any resolved policy, as its relay: the same messages in the same
    order with their roles, names, call ids, texts and understood images, the
    same tools, choice, format and sampling parameters.  What changes is
    explicit in [relay_request]: leading instructions and messages with tool
    calls keep only their text, a tool message its first part, arguments are
    printed anew; an image whose URL is not understood is left out of its
    message ([Samples.unknown_image_is_dropped]; the comment of the decoder
    wants the upstream to report it), and the [user] of the request is never
    sent ([Samples.user_is_not_sent]). *)
Theorem chat_request_relayed fresh body :
  (∀ payload data, b64_decode payload = Some data → b64_encode data = payload) →
  match from_body body with
  | Err e => decode b64_decode block_value from_body fresh body = Err (InvalidBody e)
  | Ok req =>
      match first_error (cc_messages req) with
      | Some e => decode b64_decode block_value from_body fresh body = Err (InvalidBody e)
      | None => ∃ c, decode b64_decode block_value from_body fresh body = Ok c ∧
          ∀ target p accepts_xhigh,
            build b64_encode (set_resolved_policy p c) target accepts_xhigh =
            relay_request b64_decode block_value req target p accepts_xhigh
      end
  end.
Proof.
  intros Hb. unfold decode. destruct (from_body body) as [req|e]; [|done].
  pose proof (all_classified b64_encode b64_decode block_value Hb (cc_messages req)) as Hcl.
  destruct (first_error (cc_messages req)) as [e|].
  - unfold decode_request. by rewrite decode_turns_spec, Hcl.
  - destruct (decode_request b64_decode block_value fresh req) as [c|e] eqn:Hc.
    + exists c. split; [done|]. intros. by apply chat_body_relayed with fresh.
    + exfalso. unfold decode_request in Hc. rewrite decode_turns_spec in Hc.
      destruct Hcl as (ds & Hds & _). by rewrite Hds in Hc.
Qed.
End Properties.

Module Samples.
#[local] Instance chat_json : JsonApi := TreeJson [("{}", TObj [])].
Definition target : BackendTarget := {| provider := "openai"; model := "gpt-up"; policy := {|
  default_reasoning_effort := None; default_anthropic_beta := None; reasoning_mapping := [] |} |}.
Definition message (r : string) (c : option InboundMessageContent) (calls : list InboundToolCall) (id : option string) :
    InboundMessage := {| in_role := r; in_content := c; in_name := None; in_tool_calls := calls; in_tool_call_id := id |}.
Definition conversation_of (l : list InboundMessage) : ChatCompletionsRequest := {|
  cc_model := "gpt"; cc_messages := l; cc_tools := None; cc_tool_choice := None; cc_max_tokens := None;
  cc_max_completion_tokens := Some 64%Z; cc_temperature := None; cc_top_p := None; cc_presence_penalty := None;
  cc_frequency_penalty := None; cc_stop := Some (StopOne "END"); cc_stream := Some true; cc_response_format := None;
  cc_seed := None; cc_user := None; cc_reasoning_effort := None |}.
(** A tool message in two parts: the upstream is sent the first one only. *)
Definition turns : list InboundMessage :=
  [message "system" (Some (ContentText "Be brief.")) [] None;
   message "user" (Some (ContentParts [PartText "look"; PartImageUrl "https://host/i.png"])) [] None;
   message "assistant" None [{| itc_id := "call_1"; itc_type := "function"; itc_name := "search"; itc_arguments := "{}" |}] None;
   message "tool" (Some (ContentParts [PartText "found"; PartText "and more"])) [] (Some "call_1")].
Definition text_part (t : string) : tree := TObj [("type", TStr "text"); ("text", TStr t)].

Lemma chat_request_relayed_witness :
  ∃ c, decode (λ _, None) (λ _, None) (λ _ : string, Ok (conversation_of turns)) "req" "body" = Ok c ∧
    cb_messages (build (λ s, s) (set_resolved_policy default_policy c) target false) =
      [{| mo_role := "system"; mo_content := Some (TStr "Be brief."); mo_name := None; mo_tool_calls := None; mo_tool_call_id := None |};
       {| mo_role := "user"; mo_content := Some (TArr [text_part "look"; image_part "https://host/i.png"]); mo_name := None;
          mo_tool_calls := None; mo_tool_call_id := None |};
       {| mo_role := "assistant"; mo_content := None; mo_name := None;
          mo_tool_calls := Some [{| tco_id := "call_1"; tco_name := "search"; tco_arguments := "{}" |}]; mo_tool_call_id := None |};
       {| mo_role := "tool"; mo_content := Some (TStr "found"); mo_name := None; mo_tool_calls := None;
          mo_tool_call_id := Some "call_1" |}].
Proof.
  destruct (chat_request_relayed (λ s, s) (λ _, None) (λ _, None) (λ _ : string, Ok (conversation_of turns)) "req" "body")
    as (c & Hc & Hb); [done|].
  exists c. split; [exact Hc|]. rewrite Hb. reflexivity.
Defined.

(** What an upstream is sent for a Chat request that decodes. *)
Definition sent (req : ChatCompletionsRequest) : option ChatBody :=
  match decode (λ _, None) (λ _, None) (λ _ : string, Ok req) "req" "body" with
  | Ok c => Some (build (λ s, s) (set_resolved_policy default_policy c) target false)
  | Err _ => None
  end.
(** A data URL that is not base64 is not understood: the upstream, which would
    have reported it, is sent the message without its image. *)
Lemma unknown_image_is_dropped :
  cb_messages <$> sent (conversation_of
    [message "user" (Some (ContentParts [PartText "look"; PartImageUrl "data:image/png,abc"])) [] None]) =
  Some [{| mo_role := "user"; mo_content := Some (TArr [text_part "look"]); mo_name := None;
           mo_tool_calls := None; mo_tool_call_id := None |}].
Proof. reflexivity. Qed.

(** The end user a Chat client names. *)
Definition with_user (user : option string) (req : ChatCompletionsRequest) : ChatCompletionsRequest := {|
  cc_model := cc_model req; cc_messages := cc_messages req; cc_tools := cc_tools req; cc_tool_choice := cc_tool_choice req;
  cc_max_tokens := cc_max_tokens req; cc_max_completion_tokens := cc_max_completion_tokens req;
  cc_temperature := cc_temperature req; cc_top_p := cc_top_p req; cc_presence_penalty := cc_presence_penalty req;
  cc_frequency_penalty := cc_frequency_penalty req; cc_stop := cc_stop req; cc_stream := cc_stream req;
  cc_response_format := cc_response_format req; cc_seed := cc_seed req; cc_user := user;
  cc_reasoning_effort := cc_reasoning_effort req |}.
(** It reaches no Chat upstream. *)
Lemma user_is_not_sent req user : sent (with_user user req) = sent req.
Proof.
  unfold sent, decode, decode_request. simpl.
  by destruct (decode_turns _ _).
Qed.
End Samples.
