(* ===== verification/ToolConversation.v ===== *)
(** * Tool calls from client to upstream

    A provider refuses a conversation whose tool calls are not answered in
    place.  The discipline of [Conversation.talk_check], stated on each wire, is
    proved to be kept by the decoders and the request builders, so that a
    disciplined client never has a request refused for it; the samples show the
    pairs of dialects for which it is lost. *)
From S2P Require Import Prelude Float64 Json CoreTypes Emit Request GatewayErrors Pipeline Conversation.
From S2P Require Import AnthropicDecode ChatDecode ResponsesDecode AnthropicBuild ChatBuild ResponsesBuild.
#[local] Open Scope string_scope.
#[local] Open Scope list_scope.
#[local] Open Scope nat_scope.

(** ** The discipline on the wires *)
Section Wires.
Context `{J : JsonApi}.

(** Anthropic, inbound: an instruction has no tools. *)
Definition anthropic_call (b : InboundContentBlock) : option string :=
  match b with InToolUseB id _ _ _ => Some id | _ => None end.
Definition anthropic_reply (b : InboundContentBlock) : option string :=
  match b with InToolResultB id _ _ _ => Some id | _ => None end.
Definition anthropic_plain (b : InboundContentBlock) : bool :=
  match b with InToolUseB _ _ _ _ | InToolResultB _ _ _ _ => false | _ => true end.
Definition anthropic_talk (c : AnthropicDecode.InboundMessageContent) : talk :=
  match c with
  | MessageText _ => {| calls := []; replies := []; speaks := true |}
  | MessageBlocks l =>
      {| calls := omap anthropic_call l; replies := omap anthropic_reply l; speaks := existsb anthropic_plain l |}
  end.
Definition anthropic_check (open : gset string) (m : AnthropicDecode.InboundMessage) : option (gset string) :=
  let t := anthropic_talk (im_content m) in
  if bool_decide (im_role m = "system") && negb (bool_decide (calls t = [] ∧ replies t = [])) then None
  else talk_check open t.

(** Anthropic, outbound. *)
Definition out_call (b : OutgoingContentBlock) : option string :=
  match b with OutToolUseB id _ _ _ => Some id | _ => None end.
Definition out_reply (b : OutgoingContentBlock) : option string :=
  match b with OutToolResultB id _ _ _ => Some id | _ => None end.
Definition out_plain (b : OutgoingContentBlock) : bool :=
  match b with OutToolUseB _ _ _ _ | OutToolResultB _ _ _ _ => false | _ => true end.
Definition outgoing_check (open : gset string) (m : OutgoingMessage) : option (gset string) :=
  talk_check open {| calls := omap out_call (om_content m); replies := omap out_reply (om_content m);
                     speaks := existsb out_plain (om_content m) |}.

(** Chat, inbound and outbound: a tool message is one reply, only speakers call. *)
Definition chat_check (open : gset string) (m : ChatDecode.InboundMessage) : option (gset string) :=
  if bool_decide (in_role m = "tool") then in_tool_call_id m ≫= answer_one open
  else if bool_decide (open = ∅ ∧ (in_role m ∈ ["system"; "developer"] → in_tool_calls m = []))
  then Some (list_to_set (itc_id <$> in_tool_calls m)) else None.
Definition msg_check (open : gset string) (m : MsgOut) : option (gset string) :=
  match mo_tool_call_id m with
  | Some id => answer_one open id
  | None => if bool_decide (open = ∅) then Some (list_to_set (tco_id <$> default [] (mo_tool_calls m))) else None
  end.

(** Responses, outbound: calls in a row, then their outputs. *)
Definition input_check (open : gset string) (i : InputOut) : option (gset string) :=
  match i with
  | OutMessage _ _ => if bool_decide (open = ∅) then Some open else None
  | OutFunctionCall call_id _ _ => Some ({[call_id]} ∪ open)
  | OutFunctionCallOutput call_id _ => answer_one open call_id
  end.

(** The calls made and answered in a conversation, in the order in which it
    carries them: the calls by id and name, the replies by the id they answer. *)
Inductive exchange := Called (id name : string) | Replied (id : string).
Definition exchange_of (b : ContentBlock) : option exchange :=
  match b with
  | ToolCallB tc => Some (Called (tc_id tc) (tc_name tc))
  | ToolResultB tr => Some (Replied (tool_call_id tr))
  | _ => None
  end.
Definition exchanges (m : Message) : list exchange := omap exchange_of (content m).
Definition anthropic_exchange (b : InboundContentBlock) : option exchange :=
  match b with
  | InToolUseB id name _ _ => Some (Called id name)
  | InToolResultB id _ _ _ => Some (Replied id)
  | _ => None
  end.
Definition anthropic_exchanges (m : AnthropicDecode.InboundMessage) : list exchange :=
  match im_content m with MessageText _ => [] | MessageBlocks l => omap anthropic_exchange l end.
Definition outgoing_exchange (b : OutgoingContentBlock) : option exchange :=
  match b with
  | OutToolUseB id name _ _ => Some (Called id name)
  | OutToolResultB id _ _ _ => Some (Replied id)
  | _ => None
  end.
Definition outgoing_exchanges (m : OutgoingMessage) : list exchange := omap outgoing_exchange (om_content m).
Definition chat_exchanges (m : ChatDecode.InboundMessage) : list exchange :=
  if bool_decide (in_role m = "tool") then from_option (λ id, [Replied id]) [] (in_tool_call_id m)
  else (λ tc, Called (itc_id tc) (itc_name tc)) <$> in_tool_calls m.
Definition msg_exchanges (m : MsgOut) : list exchange :=
  match mo_tool_call_id m with
  | Some id => [Replied id]
  | None => (λ tc, Called (tco_id tc) (tco_name tc)) <$> default [] (mo_tool_calls m)
  end.
Definition input_exchanges (i : InputOut) : list exchange :=
  match i with
  | OutMessage _ _ => []
  | OutFunctionCall call_id name _ => [Called call_id name]
  | OutFunctionCallOutput call_id _ => [Replied call_id]
  end.

(** What a conversation of blocks says in tools, from its calls and replies. *)
Lemma no_exchange (l : list ContentBlock) : omap call_id l = [] → omap reply_id l = [] → omap exchange_of l = [].
Proof. induction l as [|[] l IH]; csimpl; auto; discriminate. Qed.
Lemma replies_exchanged (l : list ContentBlock) :
  omap call_id l = [] → omap exchange_of l = Replied <$> omap reply_id l.
Proof. induction l as [|[] l IH]; csimpl; try done; intros H; by rewrite IH. Qed.
Lemma calls_exchanged (l : list ContentBlock) :
  omap reply_id l = [] → omap exchange_of l = (λ tc, Called (tco_id tc) (tco_name tc)) <$> omap tool_call_out l.
Proof. induction l as [|[] l IH]; csimpl; try done; intros H; by rewrite IH. Qed.
Lemma bind_fmap_exchanges {A B C} (f : A → B) (g : B → list C) (l : list A) : (f <$> l) ≫= g = l ≫= λ x, g (f x).
Proof. induction l as [|x l IH]; [done|]. csimpl. by rewrite IH. Qed.
Lemma bind_bind_exchanges {A B C} (f : A → list B) (g : B → list C) (h : A → list C) (l : list A) :
  (∀ x, x ∈ l → f x ≫= g = h x) → (l ≫= f) ≫= g = l ≫= h.
Proof.
  induction l as [|x l IH]; intros H; [done|]. rewrite !bind_cons, bind_app, H by set_solver.
  f_equal. apply IH. intros y Hy. apply H. set_solver.
Qed.
End Wires.

(** ** Decoders *)
Section Decoders.
Context `{J : JsonApi} `{V : !JsonValues J}.

Lemma anthropic_talk_decoded source_from_value c :
  talk_of (AnthropicDecode.decode_content source_from_value c) = anthropic_talk c.
Proof.
  destruct c as [t|l]; [done|]. simpl. unfold talk_of.
  assert (H : omap call_id (inbound_block_to_canonical source_from_value <$> l) = omap anthropic_call l ∧
    omap reply_id (inbound_block_to_canonical source_from_value <$> l) = omap anthropic_reply l ∧
    existsb is_plain (inbound_block_to_canonical source_from_value <$> l) = existsb anthropic_plain l).
  { induction l as [|b l (IH1 & IH2 & IH3)]; [done|]. csimpl. rewrite IH1, IH2, IH3.
    destruct b; simpl; try done. by destruct (source_from_value source). }
  by destruct H as (-> & -> & ->).
Qed.

(** The conversation that is left when the leading instructions, which have no
    tools, are taken out. *)
Lemma conversation_check ds P :
  Forall (λ d, match d with Instruction _ c _ => calls (talk_of c) = [] ∧ replies (talk_of c) = [] | Turn _ => True end) ds →
  steps tools_check ∅ (positional <$> ds) = Some P → steps tools_check ∅ (conversation ds) = Some P.
Proof.
  induction 1 as [|d ds Hd _ IH]; [done|]. destruct d as [source c name|m]; [|done].
  destruct Hd as [Hc Hr]. assert (Ht : tools_check ∅ (positional (Instruction source c name)) = Some ∅).
  { change (talk_check ∅ (talk_of c) = Some ∅). unfold talk_check. by rewrite Hr, Hc. }
  rewrite fmap_cons. cbn [steps]. by rewrite Ht.
Qed.

Lemma conversation_exchanges ds :
  Forall (λ d, match d with Instruction _ c _ => calls (talk_of c) = [] ∧ replies (talk_of c) = [] | Turn _ => True end) ds →
  conversation ds ≫= exchanges = (positional <$> ds) ≫= exchanges.
Proof.
  induction 1 as [|d ds Hd _ IH]; [done|]. destruct d as [source c name|m]; [|done].
  destruct Hd as [Hc Hr]. csimpl. rewrite IH. unfold exchanges at 2. simpl. by rewrite no_exchange.
Qed.
Lemma anthropic_exchanges_decoded source_from_value m d :
  AnthropicDecode.classify source_from_value m = Ok d → exchanges (positional d) = anthropic_exchanges m.
Proof.
  assert (H : ∀ c, omap exchange_of (AnthropicDecode.decode_content source_from_value c) =
    match c with MessageText _ => [] | MessageBlocks l => omap anthropic_exchange l end).
  { intros [t|l]; [done|]. simpl. induction l as [|b l IH]; [done|]. csimpl. rewrite IH.
    destruct b; simpl; try done. by destruct (source_from_value source). }
  unfold AnthropicDecode.classify. destruct (role_from_anthropic (im_role m)) as [r|]; [|done].
  destruct r; intros [= <-]; apply H.
Qed.

Lemma anthropic_decode_keeps source_from_value fresh req c P :
  steps anthropic_check ∅ (mr_messages req) = Some P →
  AnthropicDecode.decode_request source_from_value fresh req = Ok c →
  steps tools_check ∅ (messages c) = Some P ∧ messages c ≫= exchanges = mr_messages req ≫= anthropic_exchanges.
Proof.
  intros Hw. unfold AnthropicDecode.decode_request. rewrite decode_turns_spec.
  destruct (classify_all _ (mr_messages req)) as [ds|] eqn:Hds; [|done]. simpl. intros [= <-]. simpl.
  destruct (place_all (decode_system source_from_value (mr_system req)) ds) as [_ ->].
  assert (H : ∀ O, steps anthropic_check O (mr_messages req) = Some P →
    steps tools_check O (positional <$> ds) = Some P ∧
    Forall (λ d, match d with Instruction _ c _ => calls (talk_of c) = [] ∧ replies (talk_of c) = [] | Turn _ => True end) ds ∧
    (positional <$> ds) ≫= exchanges = mr_messages req ≫= anthropic_exchanges).
  { clear Hw. revert ds Hds. induction (mr_messages req) as [|m l IH]; intros ds; simpl.
    { intros [= <-] O HO. by split_and!. }
    destruct (AnthropicDecode.classify source_from_value m) as [d|] eqn:Hd; [|done]. simpl.
    destruct (classify_all _ l) as [ds'|]; [|done]. intros [= <-] O. specialize (IH ds' eq_refl).
    destruct (anthropic_check O m) as [O'|] eqn:HO'; [|done]. simpl. intros Hl. destruct (IH O' Hl) as (IH1 & IH2 & IH3).
    unfold anthropic_check in HO'. destruct (_ && _) eqn:Hsys in HO'; [done|].
    rewrite <- (anthropic_talk_decoded source_from_value) in HO', Hsys.
    assert (Hpos : tools_check O (positional d) = Some O').
    { unfold AnthropicDecode.classify in Hd. destruct (role_from_anthropic (im_role m)) as [r|]; [|done].
      destruct r; injection Hd as <-; exact HO'. }
    split_and!; [csimpl; by rewrite Hpos| |by apply (f_equal2 app (anthropic_exchanges_decoded _ _ _ Hd) IH3)].
    constructor; [|done]. unfold AnthropicDecode.classify in Hd. destruct (role_from_anthropic (im_role m)) as [r|] eqn:Hr; [|done].
    destruct r; injection Hd as <-; try done. apply andb_false_iff in Hsys as [Hsys|Hsys].
    - apply bool_decide_eq_false in Hsys. unfold role_from_anthropic in Hr. by repeat case_bool_decide.
    - apply negb_false_iff, bool_decide_eq_true in Hsys. exact Hsys. }
  destruct (H ∅ Hw) as (H1 & H2 & H3). split; [by apply conversation_check|by rewrite conversation_exchanges].
Qed.

Lemma chat_talk_decoded b64_decode (c : option ChatDecode.InboundMessageContent) tcs :
  let content := ChatDecode.decode_content b64_decode c ++ (decode_tool_call <$> tcs) in
  omap call_id content = itc_id <$> tcs ∧ omap reply_id content = [].
Proof.
  assert (Hp : ∀ p, call_id (ChatDecode.decode_part b64_decode p) = None ∧ reply_id (ChatDecode.decode_part b64_decode p) = None).
  { intros [t|url]; [done|]. simpl. by destruct (image_url_to_binary_source b64_decode url). }
  assert (Hc : omap call_id (ChatDecode.decode_content b64_decode c) = [] ∧
    omap reply_id (ChatDecode.decode_content b64_decode c) = []).
  { destruct c as [[t|l]|]; [done| |done]. simpl. induction l as [|p l [IH1 IH2]]; [done|]. csimpl.
    destruct (Hp p) as [-> ->]. done. }
  simpl. rewrite !omap_app. destruct Hc as [-> ->]. simpl. induction tcs as [|tc tcs [IH1 IH2]]; [done|].
  csimpl. rewrite IH1, IH2. done.
Qed.

(** What a Chat conversation decodes to keeps the discipline, and its replies
    and calls are in the messages of the roles they belong to. *)
Definition role_keeps_tools (m : Message) : Prop :=
  match role m with
  | Tool => calls (talk_of (content m)) = []
  | System => calls (talk_of (content m)) = [] ∧ replies (talk_of (content m)) = []
  | User | Assistant => replies (talk_of (content m)) = []
  end.

Lemma chat_classified b64_decode block_value m d O O' :
  ChatDecode.classify b64_decode block_value m = Ok d → chat_check O m = Some O' →
  tools_check O (positional d) = Some O' ∧ role_keeps_tools (positional d) ∧
  match d with Instruction _ c _ => calls (talk_of c) = [] ∧ replies (talk_of c) = [] | Turn _ => True end.
Proof.
  destruct m as [r c name tcs id]. unfold ChatDecode.classify, role_to_canonical, chat_check, tools_check, talk_check. simpl.
  destruct (chat_talk_decoded b64_decode c tcs) as [Hcall Hrep].
  destruct (chat_talk_decoded b64_decode c []) as [Hcall0 Hrep0]. rewrite app_nil_r in Hcall0, Hrep0.
  destruct (decide (r = "tool")) as [->|Ht].
  { simpl. destruct id as [id|]; [|done]. simpl. intros [= <-]. unfold role_keeps_tools. simpl.
    destruct (answer_one O id) as [o|]; [|done]. simpl. rewrite orb_true_r. by intros [= <-]. }
  rewrite (bool_decide_eq_false_2 (r = "tool")) by done.
  destruct (decide (r = "system")) as [->|Hs]; [|destruct (decide (r = "developer")) as [->|Hd];
    [|destruct (decide (r = "user")) as [->|Hu]; [|destruct (decide (r = "assistant")) as [->|Ha]]]].
  - intros [= <-]. case_bool_decide as H; [|done]. destruct H as [-> H]. rewrite H by set_solver. intros [= <-].
    unfold role_keeps_tools. simpl. by rewrite Hcall0, Hrep0.
  - intros [= <-]. case_bool_decide as H; [|done]. destruct H as [-> H]. rewrite H by set_solver. intros [= <-].
    unfold role_keeps_tools. simpl. by rewrite Hcall0, Hrep0.
  - intros [= <-]. case_bool_decide as H; [|done]. destruct H as [-> _]. intros [= <-].
    unfold role_keeps_tools. simpl in *. by rewrite Hcall, Hrep.
  - intros [= <-]. case_bool_decide as H; [|done]. destruct H as [-> _]. intros [= <-].
    unfold role_keeps_tools. simpl in *. by rewrite Hcall, Hrep.
  - rewrite !bool_decide_eq_false_2 by done. done.
Qed.

Lemma chat_exchanges_decoded b64_decode block_value m d O O' :
  ChatDecode.classify b64_decode block_value m = Ok d → chat_check O m = Some O' →
  exchanges (positional d) = chat_exchanges m.
Proof.
  intros Hd Hc. destruct (chat_classified _ _ _ _ _ _ Hd Hc) as (_ & _ & Hi). revert Hd Hc Hi.
  destruct m as [r c name tcs id]. unfold ChatDecode.classify, role_to_canonical, chat_check, chat_exchanges, exchanges. simpl.
  destruct (chat_talk_decoded b64_decode c []) as [Hcall0 Hrep0]. rewrite app_nil_r in Hcall0, Hrep0.
  assert (Hspeech : omap exchange_of (ChatDecode.decode_content b64_decode c ++ (decode_tool_call <$> tcs)) =
      (λ tc, Called (itc_id tc) (itc_name tc)) <$> tcs).
  { rewrite omap_app, (no_exchange (ChatDecode.decode_content _ _)) by done. simpl. clear.
    induction tcs as [|tc tcs IH]; [done|]. csimpl. by rewrite IH. }
  destruct (decide (r = "tool")) as [->|Ht].
  { simpl. destruct id as [id|]; [|done]. by intros [= <-] _ _. }
  rewrite (bool_decide_eq_false_2 (r = "tool")) by done.
  assert (Hinstruction : bool_decide (O = ∅ ∧ (r ∈ ["system"; "developer"] → tcs = [])) = true →
    r ∈ ["system"; "developer"] → omap exchange_of (ChatDecode.decode_content b64_decode c) =
      (λ tc, Called (itc_id tc) (itc_name tc)) <$> tcs).
  { intros [_ H]%bool_decide_eq_true Hr. by rewrite (H Hr), no_exchange. }
  destruct (decide (r = "system")) as [->|Hs]; [|destruct (decide (r = "developer")) as [->|Hd];
    [|destruct (decide (r = "user")) as [->|Hu]; [|destruct (decide (r = "assistant")) as [->|Ha]]]].
  1, 2: intros [= <-]; destruct (bool_decide _) eqn:Hb; [|done]; intros _ _; apply Hinstruction; [done|set_solver].
  1, 2: by intros [= <-] _ _.
  by rewrite !bool_decide_eq_false_2 by done.
Qed.

Lemma chat_decode_keeps b64_decode block_value fresh req c P :
  steps chat_check ∅ (cc_messages req) = Some P →
  ChatDecode.decode_request b64_decode block_value fresh req = Ok c →
  steps tools_check ∅ (messages c) = Some P ∧ Forall role_keeps_tools (messages c) ∧
  messages c ≫= exchanges = cc_messages req ≫= chat_exchanges.
Proof.
  intros Hw. unfold ChatDecode.decode_request. rewrite decode_turns_spec.
  destruct (classify_all _ (cc_messages req)) as [ds|] eqn:Hds; [|done]. simpl. intros [= <-]. simpl.
  destruct (place_all [] ds) as [_ ->].
  assert (H : ∀ O, steps chat_check O (cc_messages req) = Some P →
    steps tools_check O (positional <$> ds) = Some P ∧ Forall role_keeps_tools (positional <$> ds) ∧
    Forall (λ d, match d with Instruction _ c _ => calls (talk_of c) = [] ∧ replies (talk_of c) = [] | Turn _ => True end) ds ∧
    (positional <$> ds) ≫= exchanges = cc_messages req ≫= chat_exchanges).
  { clear Hw. revert ds Hds. induction (cc_messages req) as [|m l IH]; intros ds; simpl.
    { intros [= <-] O HO. by split_and!. }
    destruct (ChatDecode.classify b64_decode block_value m) as [d|] eqn:Hd; [|done]. simpl.
    destruct (classify_all _ l) as [ds'|]; [|done]. intros [= <-] O. specialize (IH ds' eq_refl).
    destruct (chat_check O m) as [O'|] eqn:HO'; [|done]. simpl. intros Hl. destruct (IH O' Hl) as (IH1 & IH2 & IH3 & IH4).
    destruct (chat_classified _ _ _ _ _ _ Hd HO') as (H1 & H2 & H3). csimpl. rewrite H1. split_and!; [done|by constructor..|].
    by apply (f_equal2 app (chat_exchanges_decoded _ _ _ _ _ _ Hd HO') IH4). }
  destruct (H ∅ Hw) as (H1 & H2 & H3 & H4). split_and!; [by apply conversation_check| |by rewrite conversation_exchanges].
  clear -H2. induction ds as [|[source content name|m] ds IH]; [done| |exact H2].
  inversion_clear H2 as [|? ? _ Hr]. by apply IH.
Qed.
End Decoders.

(** ** Builders *)
Lemma steps_each {Q A} (step : Q → A → option Q) (l : list A) p p' :
  steps step p l = Some p' → ∀ x, x ∈ l → ∃ o o', step o x = Some o'.
Proof.
  revert p. induction l as [|y l IH]; intros p H x Hx; [by apply not_elem_of_nil in Hx|]. simpl in H.
  destruct (step p y) as [q|] eqn:Hy; [|done]. apply elem_of_cons in Hx as [->|Hx]; eauto.
Qed.
Section Builders.
Context `{J : JsonApi} `{V : !JsonValues J} (b64_encode : string → string).

Lemma calls_out (l : list ContentBlock) : tco_id <$> omap tool_call_out l = omap call_id l.
Proof. induction l as [|[] l IH]; csimpl; rewrite ?IH; done. Qed.
Lemma results_out (l : list ContentBlock) : tool_call_id <$> omap tool_result_of l = omap reply_id l.
Proof. induction l as [|[] l IH]; csimpl; rewrite ?IH; done. Qed.
Lemma quiet_rest (l : list ContentBlock) :
  omap call_id l = [] → existsb is_plain l = false →
  List.filter (λ b, negb (bool_decide (is_Some (tool_result_of b)))) l = [].
Proof. by induction l as [|[] l IH]. Qed.

Lemma replies_out name results O :
  steps msg_check O (tool_reply name <$> results) = steps answer_one O (tool_call_id <$> results).
Proof. by rewrite !steps_fmap. Qed.

Lemma chat_message_keeps m O O' :
  tools_check O m = Some O' → steps msg_check O (message_out b64_encode m) = Some O'.
Proof.
  unfold tools_check, talk_check, message_out, talk_of. cbn [calls replies speaks]. rewrite <- results_out.
  destruct (omap tool_result_of (content m)) as [|tr results] eqn:Hr.
  - rewrite <- calls_out, fmap_nil. case_bool_decide as HO; [|done]. subst O. intros [= <-].
    by destruct (omap tool_call_out (content m)).
  - rewrite steps_app, replies_out. rewrite fmap_cons.
    destruct (steps answer_one O (tool_call_id tr :: (tool_call_id <$> results))) as [o|]; [|done]. cbn [mbind option_bind].
    case_bool_decide as Hc; [|done]. rewrite andb_true_l.
    destruct (bool_decide (o = ∅) || negb (existsb is_plain (content m))) eqn:Hs; [|done]. intros [= <-].
    destruct (bool_decide (role m = Tool)); [done|].
    destruct (build_content_value _ _) as [v|] eqn:Hv; [|done].
    apply orb_true_iff in Hs as [Ho%bool_decide_eq_true|Hp%negb_true_iff].
    + by subst o.
    + rewrite quiet_rest in Hv by done. done.
Qed.
Lemma replies_said name (results : list ToolResultBlock) :
  (tool_reply name <$> results) ≫= msg_exchanges = Replied <$> (tool_call_id <$> results).
Proof. induction results as [|r l IH]; [done|]. csimpl. by rewrite IH. Qed.
Lemma chat_message_says m O O' : tools_check O m = Some O' → message_out b64_encode m ≫= msg_exchanges = exchanges m.
Proof.
  unfold tools_check, talk_check, message_out, talk_of, exchanges. cbn [calls replies speaks].
  pose proof (results_out (content m)) as Hres. rewrite <- Hres.
  destruct (omap tool_result_of (content m)) as [|tr results] eqn:Hr.
  - intros _. rewrite calls_exchanged by (by rewrite <- Hres). unfold plain_message.
    destruct (omap tool_call_out (content m)); by rewrite bind_singleton.
  - rewrite fmap_cons. destruct (steps answer_one O _) as [o|]; [|done]. cbn [mbind option_bind].
    case_bool_decide as Hc; [|done]. intros _. rewrite bind_app, replies_said, replies_exchanged, <- Hres by done.
    destruct (if bool_decide _ then _ else _) as [|x l] eqn:Hrest; [by rewrite app_nil_r|].
    destruct (bool_decide (role m = Tool)); [done|].
    destruct (build_content_value _ _) as [v|]; [|done]. injection Hrest as <- <-. by rewrite bind_singleton, app_nil_r.
Qed.
Lemma chat_build_says c target xhigh P :
  steps tools_check ∅ (messages c) = Some P →
  cb_messages (ChatBuild.build b64_encode c target xhigh) ≫= msg_exchanges = messages c ≫= exchanges.
Proof.
  intros Hc. simpl. rewrite bind_app.
  assert (Hsys : (system_out <$> system c) ≫= msg_exchanges = []).
  { induction (system c) as [|s l IH]; [done|]. by rewrite fmap_cons, bind_cons, IH. }
  rewrite Hsys. simpl. apply bind_bind_exchanges. intros m Hm.
  destruct (steps_each _ _ _ _ Hc m Hm) as (O & O' & HO). by eapply chat_message_says.
Qed.
Lemma chat_build_keeps c target xhigh P :
  steps tools_check ∅ (messages c) = Some P →
  steps msg_check ∅ (cb_messages (ChatBuild.build b64_encode c target xhigh)) = Some P.
Proof.
  intros Hc. simpl. rewrite steps_app.
  assert (Hsys : steps msg_check ∅ (system_out <$> system c) = Some ∅).
  { induction (system c) as [|s l IH]; [done|]. csimpl. exact IH. }
  rewrite Hsys. simpl. eapply steps_refine; [|exact Hc]. intros m O O' _. apply chat_message_keeps.
Qed.

Lemma outgoing_talk l :
  omap out_call (omap (content_block_to_outgoing b64_encode) l) = omap call_id l ∧
  omap out_reply (omap (content_block_to_outgoing b64_encode) l) = omap reply_id l ∧
  (existsb out_plain (omap (content_block_to_outgoing b64_encode) l) = true → existsb is_plain l = true).
Proof.
  induction l as [|b l (IH1 & IH2 & IH3)]; [done|].
  destruct b as [| | | | | | | |]; csimpl; rewrite ?IH1, ?IH2; split_and!; try done; try (intros _; done); auto.
  all: unfold image_block_to_outgoing; destruct (image_source b64_encode source); csimpl; by rewrite ?IH1, ?IH2.
Qed.
Lemma anthropic_build_says c target :
  or_messages (AnthropicBuild.build b64_encode c target) ≫= outgoing_exchanges = messages c ≫= exchanges.
Proof.
  unfold AnthropicBuild.build. destruct (build_reasoning_blocks c) as [th eff]. simpl.
  rewrite bind_fmap_exchanges. apply list_bind_ext; [|done]. intros m. unfold outgoing_exchanges, exchanges. simpl.
  induction (content m) as [|b l IH]; [done|]. destruct b; csimpl; rewrite ?IH; try done.
  unfold image_block_to_outgoing. destruct (image_source b64_encode source); csimpl; by rewrite ?IH.
Qed.
Lemma anthropic_build_keeps c target P :
  steps tools_check ∅ (messages c) = Some P →
  steps outgoing_check ∅ (or_messages (AnthropicBuild.build b64_encode c target)) = Some P.
Proof.
  intros Hc. unfold AnthropicBuild.build. destruct (build_reasoning_blocks c) as [th eff]. simpl.
  rewrite steps_fmap. revert Hc. generalize (∅ : gset string). induction (messages c) as [|m l IH]; intros O; [done|]. simpl.
  destruct (tools_check O m) as [O'|] eqn:HO'; [|done]. simpl. intros Hl.
  destruct (outgoing_talk (content m)) as (H1 & H2 & H3).
  assert (Ho : outgoing_check O (message_to_outgoing b64_encode m) = Some O').
  { unfold outgoing_check. simpl. rewrite H1, H2. by apply (talk_check_quieter _ _ _ _ _ _ H3). }
  rewrite Ho. simpl. by apply IH.
Qed.

Lemma call_items_open (l : list ContentBlock) O :
  steps input_check O (omap call_item l) = Some (list_to_set (omap call_id l) ∪ O).
Proof.
  revert O. induction l as [|b l IH]; intros O; [simpl; by rewrite union_empty_l_L|].
  destruct b; csimpl; rewrite ?IH; try done. f_equal. set_solver.
Qed.
Lemma result_items_answer (l : list ContentBlock) O :
  steps input_check O (omap result_item l) = steps answer_one O (omap reply_id l).
Proof.
  revert O. induction l as [|b l IH]; intros O; [done|].
  destruct b; csimpl; rewrite ?IH; try done. destruct (answer_one O _); [apply IH|done].
Qed.
Lemma no_calls_no_items (l : list ContentBlock) : omap call_item l = [] ↔ omap call_id l = [].
Proof. induction l as [|[] l IH]; csimpl; done. Qed.

Lemma responses_message_keeps m O O' :
  role_keeps_tools m → tools_check O m = Some O' → steps input_check O (message_items b64_encode m) = Some O'.
Proof.
  unfold role_keeps_tools, tools_check, talk_check, message_items. cbn [talk_of calls replies speaks].
  assert (Hspeak : ∀ role_name, omap reply_id (content m) = [] →
    (if bool_decide (O = ∅) then Some (list_to_set (omap call_id (content m))) else None) = Some O' →
    steps input_check O (speaker_items b64_encode role_name (content m)) = Some O').
  { intros role_name _. case_bool_decide as HO; [|done]. subst O. intros [= <-]. unfold speaker_items.
    pose proof (call_items_open (content m) ∅) as Hopen. rewrite union_empty_r_L in Hopen.
    destruct (omap call_item (content m)) as [|i items] eqn:Hi.
    - apply no_calls_no_items in Hi. by rewrite Hi.
    - rewrite steps_app. destruct (str_is_empty _); exact Hopen. }
  destruct (role m); intros Hrole.
  - rewrite Hrole. by apply Hspeak.
  - rewrite Hrole. by apply Hspeak.
  - rewrite Hrole, result_items_answer. destruct (omap reply_id (content m)) as [|r rs].
    { case_bool_decide as HO; [|done]. subst O. by intros [= <-]. }
    destruct (steps answer_one O (r :: rs)) as [o|]; [|done]. cbn [mbind option_bind].
    by destruct (bool_decide ([] = []) && _).
  - destruct Hrole as [-> ->]. case_bool_decide as HO; [|done]. subst O. by intros [= <-].
Qed.
Lemma call_items_say (l : list ContentBlock) :
  omap call_item l ≫= input_exchanges = (λ tc, Called (tco_id tc) (tco_name tc)) <$> omap tool_call_out l.
Proof. induction l as [|[] l IH]; csimpl; try done. by rewrite IH. Qed.
Lemma result_items_say (l : list ContentBlock) : omap result_item l ≫= input_exchanges = Replied <$> omap reply_id l.
Proof. induction l as [|[] l IH]; csimpl; try done. by rewrite IH. Qed.
Lemma responses_message_says m :
  role_keeps_tools m → message_items b64_encode m ≫= input_exchanges = exchanges m.
Proof.
  unfold role_keeps_tools, message_items, exchanges. cbn [talk_of calls replies speaks].
  assert (Hspeak : ∀ role_name, omap reply_id (content m) = [] →
    speaker_items b64_encode role_name (content m) ≫= input_exchanges = omap exchange_of (content m)).
  { intros role_name Hr. rewrite calls_exchanged, <- call_items_say by done. unfold speaker_items.
    destruct (omap call_item (content m)) as [|i items]; [done|]. rewrite bind_app. by destruct (str_is_empty _). }
  destruct (role m); intros Hrole; [by apply Hspeak..| |].
  - by rewrite result_items_say, replies_exchanged.
  - by rewrite no_exchange by apply Hrole.
Qed.
Lemma responses_build_says c target :
  Forall role_keeps_tools (messages c) →
  rb_input (ResponsesBuild.build b64_encode c target) ≫= input_exchanges = messages c ≫= exchanges.
Proof.
  intros Hr. simpl. apply bind_bind_exchanges. intros m Hm. apply responses_message_says. rewrite Forall_forall in Hr. by apply Hr.
Qed.
Lemma responses_build_keeps c target P :
  Forall role_keeps_tools (messages c) → steps tools_check ∅ (messages c) = Some P →
  steps input_check ∅ (rb_input (ResponsesBuild.build b64_encode c target)) = Some P.
Proof.
  intros Hr Hc. simpl. eapply steps_refine; [|exact Hc]. intros m O O' Hm. apply responses_message_keeps.
  rewrite Forall_forall in Hr. by apply Hr.
Qed.
End Builders.

(** ** Properties *)
Section Properties.
Context `{J : JsonApi} `{V : !JsonValues J}.
Context (b64_encode : string → string) (b64_decode : string → option string)
  (block_value : ContentBlock → option value) (source_from_value : value → option BinarySource).

(** C4: a conversation of an Anthropic client whose tool calls are answered in
    place reaches Chat and Anthropic upstreams as a conversation whose tool calls
    are answered in place: in the Chat dialect every reply is a message of its own
    that follows the call, before anything else is said.  No call or reply is
    lost, added or moved: the bodies carry the client's calls, by id and name,
    and its replies, by the id they answer, in the client's order. *)
Theorem anthropic_tools_stay_answered fresh req c P :
  steps anthropic_check ∅ (mr_messages req) = Some P →
  AnthropicDecode.decode_request source_from_value fresh req = Ok c →
  (∀ target xhigh, let sent := cb_messages (ChatBuild.build b64_encode c target xhigh) in
    steps msg_check ∅ sent = Some P ∧ sent ≫= msg_exchanges = mr_messages req ≫= anthropic_exchanges) ∧
  ∀ target, let sent := or_messages (AnthropicBuild.build b64_encode c target) in
    steps outgoing_check ∅ sent = Some P ∧ sent ≫= outgoing_exchanges = mr_messages req ≫= anthropic_exchanges.
Proof.
  intros Hw Hc. destruct (anthropic_decode_keeps _ _ _ _ _ Hw Hc) as [Ht <-]. split; intros; split.
  - by apply chat_build_keeps.
  - by eapply chat_build_says.
  - by apply anthropic_build_keeps.
  - apply anthropic_build_says.
Qed.

(** C7: a conversation of a Chat client whose tool calls are answered in place
    reaches Chat, Anthropic and Responses upstreams as one whose calls are, with
    the client's calls and replies in the client's order and no others. *)
Theorem chat_tools_stay_answered fresh req c P :
  steps chat_check ∅ (cc_messages req) = Some P →
  ChatDecode.decode_request b64_decode block_value fresh req = Ok c →
  (∀ target xhigh, let sent := cb_messages (ChatBuild.build b64_encode c target xhigh) in
    steps msg_check ∅ sent = Some P ∧ sent ≫= msg_exchanges = cc_messages req ≫= chat_exchanges) ∧
  (∀ target, let sent := or_messages (AnthropicBuild.build b64_encode c target) in
    steps outgoing_check ∅ sent = Some P ∧ sent ≫= outgoing_exchanges = cc_messages req ≫= chat_exchanges) ∧
  ∀ target, let sent := rb_input (ResponsesBuild.build b64_encode c target) in
    steps input_check ∅ sent = Some P ∧ sent ≫= input_exchanges = cc_messages req ≫= chat_exchanges.
Proof.
  intros Hw Hc. destruct (chat_decode_keeps _ _ _ _ _ _ Hw Hc) as (Ht & Hr & <-). split_and!; intros; split.
  - by apply chat_build_keeps.
  - by eapply chat_build_says.
  - by apply anthropic_build_keeps.
  - apply anthropic_build_says.
  - by apply responses_build_keeps.
  - by apply responses_build_says.
Qed.
End Properties.

Module Samples.
#[local] Instance tools_json : JsonApi := TreeJson [("{}", TObj [])].
Definition no_policy : RoutePolicy := {|
  default_reasoning_effort := None; default_anthropic_beta := None; reasoning_mapping := [] |}.
Definition up : BackendTarget := {| provider := "up"; model := "m"; policy := no_policy |}.

(** An Anthropic conversation with two calls, answered together. *)
Definition messages_request : MessagesRequest := {|
  mr_model := "claude";
  mr_messages :=
    [{| im_role := "user"; im_content := MessageText "look" |};
     {| im_role := "assistant"; im_content := MessageBlocks [InTextB "two calls" None;
          InToolUseB "tu_1" "search" (TObj []) None; InToolUseB "tu_2" "read" (TObj []) None] |};
     {| im_role := "user"; im_content := MessageBlocks [InToolResultB "tu_2" None (Some (ResultText "text")) None;
          InToolResultB "tu_1" None (Some (ResultText "found")) None; InTextB "go on" None] |}];
  mr_system := None; mr_tools := None; mr_tool_choice := None; mr_max_tokens := 100; mr_temperature := None;
  mr_top_p := None; mr_top_k := None; mr_stop_sequences := None; mr_stream := None; mr_metadata := None;
  mr_output_effort := None |}.
Definition decoded : result CanonicalRequest FrontendError :=
  AnthropicDecode.decode_request (λ _, None) "req" messages_request.

Lemma anthropic_tools_stay_answered_witness :
  steps anthropic_check ∅ (mr_messages messages_request) = Some ∅ ∧
  ∃ c, decoded = Ok c ∧
    steps msg_check ∅ (cb_messages (ChatBuild.build (λ s, s) c up false)) = Some ∅ ∧
    mo_role <$> cb_messages (ChatBuild.build (λ s, s) c up false) = ["user"; "assistant"; "tool"; "tool"; "user"].
Proof.
  assert (Hw : steps anthropic_check ∅ (mr_messages messages_request) = Some ∅) by (vm_compute; reflexivity).
  split; [exact Hw|]. unfold decoded.
  destruct (AnthropicDecode.decode_request (λ _, None) "req" messages_request) as [c|e] eqn:Hc; [|discriminate Hc].
  exists c. split; [reflexivity|].
  destruct (anthropic_tools_stay_answered (λ s, s) (λ _, None) "req" messages_request c ∅ Hw Hc) as [H _].
  split; [apply (H up false)|]. injection Hc as <-. reflexivity.
Defined.

(** The same conversation at a Responses upstream: the results, which are in a
    user message, are lost. *)
Definition item_kind (i : InputOut) : string :=
  match i with
  | OutMessage r _ => r
  | OutFunctionCall id _ _ => "call " ++ id
  | OutFunctionCallOutput id _ => "output " ++ id
  end%string.
Lemma anthropic_results_lost :
  result_map (λ c, item_kind <$> rb_input (ResponsesBuild.build (λ s, s) c up)) decoded =
    Ok ["user"; "assistant"; "call tu_1"; "call tu_2"; "user"].
Proof. vm_compute. reflexivity. Qed.

Definition chat_request : ChatCompletionsRequest := {|
  cc_model := "gpt";
  cc_messages :=
    [{| in_role := "assistant"; in_content := None; in_name := None;
        in_tool_calls := [{| itc_id := "call_1"; itc_type := "function"; itc_name := "search"; itc_arguments := "{}" |}];
        in_tool_call_id := None |};
     {| in_role := "tool"; in_content := Some (ContentText "found"); in_name := None; in_tool_calls := [];
        in_tool_call_id := Some "call_1" |}];
  cc_tools := None; cc_tool_choice := None; cc_max_tokens := None; cc_max_completion_tokens := None;
  cc_temperature := None; cc_top_p := None; cc_presence_penalty := None; cc_frequency_penalty := None; cc_stop := None;
  cc_stream := None; cc_response_format := None; cc_seed := None; cc_user := None; cc_reasoning_effort := None |}.
Lemma chat_tools_stay_answered_witness :
  steps chat_check ∅ (cc_messages chat_request) = Some ∅ ∧
  ∃ c, ChatDecode.decode_request (λ _, None) (λ _, None) "req" chat_request = Ok c ∧
    steps input_check ∅ (rb_input (ResponsesBuild.build (λ s, s) c up)) = Some ∅ ∧
    item_kind <$> rb_input (ResponsesBuild.build (λ s, s) c up) = ["call call_1"; "output call_1"].
Proof.
  assert (Hw : steps chat_check ∅ (cc_messages chat_request) = Some ∅) by (vm_compute; reflexivity).
  split; [exact Hw|].
  destruct (ChatDecode.decode_request (λ _, None) (λ _, None) "req" chat_request) as [c|e] eqn:Hc; [|discriminate Hc].
  exists c. split; [reflexivity|].
  destruct (chat_tools_stay_answered (λ s, s) (λ _, None) (λ _, None) "req" chat_request c ∅ Hw Hc) as (_ & _ & H).
  split; [apply (H up)|]. injection Hc as <-. reflexivity.
Defined.

(** A Responses client: a call is decoded under its item id, when it has one, and
    its output under the call id, so the output answers no call. *)
Definition input_of (items : list InputItem) : result (list Message) FrontendError :=
  result_map snd (ResponsesDecode.decode_input (λ _, None) (FieldItems items)).
Lemma item_id_breaks_the_answer :
  result_map (steps tools_check ∅)
    (input_of [ItemFunctionCall (Some "fc_1") "call_1" "search" (TStr "{}"); ItemFunctionCallOutput "call_1" (TStr "found")]) =
    Ok None ∧
  result_map (steps tools_check ∅)
    (input_of [ItemFunctionCall None "call_1" "search" (TStr "{}"); ItemFunctionCallOutput "call_1" (TStr "found")]) =
    Ok (Some ∅).
Proof. split; vm_compute; reflexivity. Qed.

(** Parallel calls of a Responses client become assistant messages of their own:
    in the Chat dialect the first one is followed by the second, not by its reply. *)
Definition of_messages (l : list Message) : CanonicalRequest := {|
  id := "req"; frontend_kind := OpenAiResponses; requested_model := "m"; req_model := "m"; system := []; messages := l;
  tools := []; tool_choice := ChoiceAuto;
  generation := {| max_tokens := None; temperature := None; top_p := None; top_k := None; presence_penalty := None;
    frequency_penalty := None; stop_sequences := []; seed := None; reasoning := None |};
  response_format := None; stream := false; metadata := {| user_id := None; agent := None |};
  inbound_anthropic_headers := []; resolved_policy := default_policy; extensions := ∅ |}.
Lemma parallel_calls_are_split :
  result_map (λ l, (mo_role <$> cb_messages (ChatBuild.build (λ s, s) (of_messages l) up false),
                    steps msg_check ∅ (cb_messages (ChatBuild.build (λ s, s) (of_messages l) up false))))
    (input_of [ItemFunctionCall None "call_1" "search" (TStr "{}"); ItemFunctionCall None "call_2" "read" (TStr "{}");
               ItemFunctionCallOutput "call_1" (TStr "found"); ItemFunctionCallOutput "call_2" (TStr "text")]) =
    Ok (["assistant"; "assistant"; "tool"; "tool"], None).
Proof. vm_compute. reflexivity. Qed.
End Samples.
