(* ===== verification/EndToEnd.v ===== *)
(** * From an OpenAI-compatible upstream to a client

    The pipeline [handlers/mod.rs] sets up for a streamed request: the
    provider's Chat SSE parser, then a frontend's encoder.  What the two
    promise to each other is the canonical lifecycle; here the promises are put
    together. *)
From S2P Require Import Prelude Json CoreTypes Emit Lifecycle Drain Envelope Sse.
From S2P Require Import ChatEncode AnthropicEncode ChatSse ChatSseLifecycle.
#[local] Open Scope string_scope.
#[local] Open Scope list_scope.
#[local] Open Scope nat_scope.

(** ** Announced tool calls *)
Section Announced.
Context `{J : JsonApi} `{H : HashOrder}.
Implicit Types (A : gset Z) (s : ParserState).

(** The tool calls of an upstream event, in order. *)
Definition chunk_tool_calls (v : value) : list value :=
  match get "error" v, get_array "choices" v with
  | None, Some choices =>
      choice ← choices;
      default [] (get "delta" choice ≫= get_array "tool_calls")
  | _, _ => []
  end.
Definition item_tool_calls (i : result SseEvent string) : list value :=
  match i with
  | Ok ev =>
      if bool_decide (data ev = "[DONE]") then []
      else match from_str (data ev) with Ok v => chunk_tool_calls v | Err _ => [] end
  | Err _ => []
  end.

(** An upstream gives each tool call's id once, with its first fragment. *)
Definition announce_step A (tc : value) : option (gset Z) :=
  let block_index := u32_add (as_u32 (default 0%Z (get_u64 "index" tc))) 1 in
  match get_str "id" tc with
  | Some _ => if bool_decide (block_index ∈ A) then None else Some ({[block_index]} ∪ A)
  | None => Some A
  end ≫= λ A',
  match get2 "function" "arguments" tc ≫= as_str with
  | Some args => if str_is_empty args || bool_decide (block_index ∈ A') then Some A' else None
  | None => Some A'
  end.
Definition announces (l : list (result SseEvent string)) : bool :=
  bool_decide (is_Some (monitor announce_step ∅ (l ≫= item_tool_calls))).

(** The open tool blocks have been announced. *)
Definition known A s : Prop := open_tool_blocks s ⊆ A.
Definition calm {B} (m : emit ParserState StreamEvent B) : Prop :=
  ∀ s A, known A s → wp announce_check m (λ _ s' A', A' = A ∧ known A s') s A.

Lemma calm_ret {B} (b : B) : calm (mret b).
Proof. done. Qed.
Lemma calm_gets {B} (f : ParserState → B) : calm (gets f).
Proof. done. Qed.
Lemma calm_modify f : (∀ s, open_tool_blocks (f s) ⊆ open_tool_blocks s) → calm (modify f).
Proof. intros Hf s A Hk. apply wp_modify. split; [done|]. unfold known in *. by rewrite Hf. Qed.
Lemma calm_push e : (∀ A, announce_check A e = Some A) → calm (push e).
Proof. intros He s A Hk. by eapply wp_push. Qed.
Lemma calm_bind {B C} (m : emit ParserState StreamEvent B) (k : B → emit ParserState StreamEvent C) :
  calm m → (∀ b, calm (k b)) → calm (m ≫= k).
Proof.
  intros Hm Hk s A HA. apply wp_bind. eapply wp_mono; [by apply Hm|]. intros b s' A' [-> HA']. by apply Hk.
Qed.
Lemma calm_when b m : calm m → calm (when b m).
Proof. by destruct b. Qed.

Lemma calm_elim {B} (m : emit ParserState StreamEvent B) s A :
  calm m → known A s → wp announce_check m (λ _ s' A', A' = A ∧ known A s') s A.
Proof. auto. Qed.

Ltac calm :=
  repeat first
    [ solve [auto]
    | apply calm_ret | apply calm_gets
    | apply calm_modify; done
    | apply calm_push; done
    | apply calm_bind; [|intros ?]
    | apply calm_when
    | case_match ].

Lemma calm_message_start_once : calm message_start_once.
Proof. unfold message_start_once. calm. Qed.
Lemma calm_close_text_block : calm close_text_block.
Proof. unfold close_text_block. calm. Qed.
Lemma calm_message_stop_once r : calm (message_stop_once r).
Proof. unfold message_stop_once. calm. Qed.
Hint Resolve calm_message_start_once calm_close_text_block calm_message_stop_once : core.

Lemma calm_drain_tool_blocks : calm drain_tool_blocks.
Proof.
  intros s A Hk. unfold drain_tool_blocks. wp_steps.
  eapply wp_mono.
  - apply (wp_for_each announce_check _ _ (λ l s' A', A' = A ∧ known A s' ∧ ∀ i, i ∈ l → i ∈ A)).
    + split_and!; [done|unfold known; simpl; set_solver|]. intros i. rewrite hash_elements_perm, elem_of_elements.
      apply Hk.
    + intros i l s' A' (-> & Hk' & Hl). wp_steps.
      eapply wp_push; [simpl; by rewrite bool_decide_eq_true_2 by (apply Hl; set_solver)|].
      eapply wp_push; [done|]. split_and!; [done..|]. set_solver.
  - naive_solver.
Qed.
Hint Resolve calm_drain_tool_blocks : core.

Lemma calm_handle_done : calm handle_done.
Proof. unfold handle_done. calm. Qed.
Lemma calm_finalize : calm finalize.
Proof. unfold finalize. calm. Qed.
Lemma calm_handle_finish_reason r : calm (handle_finish_reason r).
Proof. unfold handle_finish_reason. calm. Qed.
Lemma calm_handle_content t : calm (handle_content t).
Proof. unfold handle_content. calm. Qed.
Hint Resolve calm_handle_done calm_finalize calm_handle_finish_reason calm_handle_content : core.

(** A tool call follows the upstream's announcements. *)
Lemma announce_tool_call tc A A' s :
  known A s → announce_step A tc = Some A' →
  wp announce_check (handle_tool_call tc) (λ _ s' A2, A2 = A' ∧ known A' s') s A.
Proof.
  intros Hk. unfold announce_step, handle_tool_call.
  set (i := u32_add _ 1). intros (A1 & H1 & H2)%bind_Some.
  apply wp_bind. eapply (wp_mono _ _ (λ _ s' A2, A2 = A1 ∧ known A1 s')).
  - destruct (get_str "id" tc) as [id|]; [|simplify_eq; by apply wp_ret].
    destruct (decide (i ∈ A)) as [|HiA]; [by rewrite bool_decide_eq_true_2 in H1|].
    rewrite bool_decide_eq_false_2 in H1 by done. injection H1 as <-. clear H2.
    assert (Hpush : ∀ s, known ({[i]} ∪ A) s → wp announce_check
      (push (ToolCallStart i id (default "" (get2 "function" "name" tc ≫= as_str))))
      (λ _ s' A2, A2 = {[i]} ∪ A ∧ known ({[i]} ∪ A) s') s A).
    { intros s' Hs'. eapply wp_push; [simpl; by rewrite bool_decide_eq_false_2|]. done. }
    wp_steps.
    + eapply wp_push; [done|]. apply Hpush. unfold known in *. simpl. set_solver.
    + apply Hpush. unfold known in *. set_solver.
  - intros [] s1 A2 [-> Hk1]. destruct (get2 "function" "arguments" tc ≫= as_str) as [args|];
      [|simplify_eq; by apply wp_ret].
    destruct (str_is_empty args); simpl in *; [simplify_eq; by apply wp_ret|].
    case_bool_decide; simplify_eq. eapply wp_push; [simpl; by rewrite bool_decide_eq_true_2|]. done.
Qed.

(** Loops whose bodies consume their own tool calls. *)
Lemma announce_for_each {B} (f : B → emit ParserState StreamEvent unit) (calls : B → list value) l :
  (∀ x s A A', known A s → monitor announce_step A (calls x) = Some A' →
     wp announce_check (f x) (λ _ s' A2, A2 = A' ∧ known A' s') s A) →
  ∀ s A A', known A s → monitor announce_step A (l ≫= calls) = Some A' →
    wp announce_check (for_each l f) (λ _ s' A2, A2 = A' ∧ known A' s') s A.
Proof.
  intros Hf. induction l as [|x l IH]; intros s A A' Hk Hm; simpl in *; [by simplify_eq|].
  rewrite monitor_app in Hm. apply bind_Some in Hm as (A1 & H1 & H2).
  apply wp_bind. eapply wp_mono; [by apply Hf|]. intros [] s1 A2 [-> Hk1]. by apply IH.
Qed.

(** A calm part before, or after. *)
Lemma announce_after_quiet {B} (m : emit ParserState StreamEvent B) (k : B → emit ParserState StreamEvent unit) A' s A :
  calm m → known A s →
  (∀ b s, known A s → wp announce_check (k b) (λ _ s' A2, A2 = A' ∧ known A' s') s A) →
  wp announce_check (m ≫= k) (λ _ s' A2, A2 = A' ∧ known A' s') s A.
Proof.
  intros Hm Hk Hkk. apply wp_bind. eapply wp_mono; [by apply Hm|]. intros b s1 A1 [-> ?]. by apply Hkk.
Qed.
Lemma announce_then_quiet (m : emit ParserState StreamEvent unit) (k : unit → emit ParserState StreamEvent unit) A' s A :
  wp announce_check m (λ _ s' A2, A2 = A' ∧ known A' s') s A → (∀ b, calm (k b)) →
  wp announce_check (m ≫= k) (λ _ s' A2, A2 = A' ∧ known A' s') s A.
Proof.
  intros Hm Hk. apply wp_bind. eapply wp_mono; [exact Hm|]. intros b s1 A1 [-> ?]. by apply Hk.
Qed.

Lemma announce_delta delta s A A' :
  known A s → monitor announce_step A (default [] (get_array "tool_calls" delta)) = Some A' →
  wp announce_check (handle_delta delta) (λ _ s' A2, A2 = A' ∧ known A' s') s A.
Proof.
  intros Hk Hm. unfold handle_delta. apply announce_after_quiet; [case_match; auto using calm_ret|done|].
  clear s Hk. intros _ s Hk. apply announce_after_quiet; [case_match; auto using calm_ret|done|].
  clear s Hk. intros _ s Hk. destruct (get_array "tool_calls" delta) as [tcs|]; simpl in Hm;
    [|by simplify_eq].
  apply announce_after_quiet; [auto|done|]. clear s Hk. intros _ s Hk.
  apply announce_after_quiet; [auto|done|]. clear s Hk. intros _ s Hk.
  apply (announce_for_each handle_tool_call (λ tc, [tc])); [|done|].
  - intros tc s1 A1 A2 Hk1 H1. apply announce_tool_call; [done|]. simpl in H1.
    by destruct (announce_step A1 tc).
  - replace (tcs ≫= λ tc, [tc]) with tcs; [done|]. clear. induction tcs; csimpl; congruence.
Qed.

Lemma announce_chunk v s A A' :
  known A s → monitor announce_step A (chunk_tool_calls v) = Some A' →
  wp announce_check (parse_chunk_value v) (λ _ s' A2, A2 = A' ∧ known A' s') s A.
Proof.
  intros Hk Hm. unfold parse_chunk_value, chunk_tool_calls in *.
  destruct (get "error" v); [simpl in Hm; simplify_eq; apply calm_elim; [calm|done]|].
  apply announce_after_quiet; [calm|done|]. clear s Hk. intros _ s Hk.
  apply announce_after_quiet; [calm|done|]. clear s Hk. intros started s Hk.
  apply announce_after_quiet; [calm|done|]. clear s Hk. intros _ s Hk.
  destruct (get_array "choices" v) as [choices|];
    [|simpl in Hm; simplify_eq; apply calm_elim; [calm|done]].
  apply announce_then_quiet; [|intros []; calm].
  eapply announce_for_each; [|exact Hk|exact Hm]. clear. intros choice s A A' Hk Hm. cbn beta in Hm.
  unfold handle_choice. apply announce_then_quiet; [|intros []; calm].
  destruct (get "delta" choice) as [delta|]; [apply announce_delta; [done|exact Hm]|injection Hm as <-; by apply wp_ret].
Qed.

Lemma announce_on_item i s A A' :
  known A s → monitor announce_step A (item_tool_calls i) = Some A' →
  monitor announce_check A (oks (on_item i s).2) = Some A' ∧ known A' (on_item i s).1.
Proof.
  intros Hk Hm. destruct i as [ev|e]; simpl in *; simplify_eq.
  2: { unfold handle_transport_error. by case_match. }
  unfold handle_event, parse_chunk. set (s1 := set_total_data_bytes _ _).
  change (known A s) with (known A s1) in Hk. clearbody s1. clear s.
  assert (Hrun : ∀ m : emit ParserState StreamEvent unit,
    wp announce_check m (λ _ s' A2, A2 = A' ∧ known A' s') s1 A →
    monitor announce_check A (emitted m s1) = Some A' ∧ known A' (final m s1)).
  { intros m (g & Hg & -> & ?)%wp_elim. done. }
  case_bool_decide; simpl in *; [|destruct (from_str (data ev)) as [v|e]; simpl in *].
  - simplify_eq. rewrite oks_Ok. by apply Hrun, calm_handle_done.
  - rewrite oks_Ok. by apply Hrun, announce_chunk.
  - by simplify_eq.
Qed.

Lemma parse_all_announced l :
  announces l = true → is_Some (monitor announce_check ∅ (oks (parse_all l))).
Proof.
  intros [A' Hl]%bool_decide_eq_true.
  destruct (feed_monitor on_item on_eof (on_ok announce_check)
    (λ l s A, monitor announce_step A (l ≫= item_tool_calls) = Some A' ∧ known A s)
    (λ _, True) l default_parser_state ∅) as (v & Hm & _).
  - intros i l' s A [Hp Hk]. csimpl in Hp. rewrite monitor_app in Hp.
    apply bind_Some in Hp as (A1 & H1 & H2).
    destruct (announce_on_item _ _ _ _ Hk H1). exists A1. by rewrite monitor_on_ok.
  - intros s A [_ Hk]. simpl. rewrite monitor_on_ok, oks_Ok.
    destruct (wp_elim announce_check finalize _ s A (calm_finalize s A Hk)) as (g & Hg & _). eauto.
  - done.
  - rewrite monitor_on_ok in Hm. eauto.
Qed.
End Announced.

(** ** The first event *)
Section Head.
Context `{J : JsonApi} `{H : HashOrder}.

(** Nothing before the [ResponseStart], but upstream errors. *)
Definition head_check (b : bool) (e : StreamEvent) : option bool :=
  if b then Some true
  else match e with ResponseStart _ _ _ => Some true | ErrorEvent _ => Some false | _ => None end.
Definition heads (b : bool) (s : ParserState) : Prop := b = false → emitted_response_start s = false.

Lemma head_true {B} (m : emit ParserState StreamEvent B) s : wp head_check m (λ _, flip heads) s true.
Proof.
  assert (Hm : ∀ l, monitor head_check true l = Some true) by (by induction l).
  eapply wp_intro; [apply Hm|]. done.
Qed.

(** [if !self.emitted_response_start { .. push(ResponseStart) }], then anything. *)
Lemma head_guarded (m : emit ParserState StreamEvent unit) (k : emit ParserState StreamEvent unit) b s :
  (∀ s, ∃ id model n s', m s = (tt, s', [ResponseStart id model n])) → heads b s →
  wp head_check (started ← gets emitted_response_start; when (negb started) m;; k) (λ _, flip heads) s b.
Proof.
  intros Hm Hb. apply wp_bind, wp_gets. destruct b; [apply head_true|]. rewrite Hb by done. simpl.
  apply wp_bind. destruct (Hm s) as (id & model & n & s' & Heq).
  apply (wp_intro _ _ _ _ _ true); unfold emitted, final; rewrite Heq; [done|]. apply head_true.
Qed.

Lemma head_on_item i s b :
  heads b s → ∃ b', monitor head_check b (oks (on_item i s).2) = Some b' ∧ heads b' (on_item i s).1.
Proof.
  intros Hb. destruct i as [ev|e]; simpl.
  2: { exists b. unfold handle_transport_error. by case_match. }
  unfold handle_event, parse_chunk. set (s1 := set_total_data_bytes _ _).
  change (heads b s) with (heads b s1) in Hb. clearbody s1. clear s.
  case_bool_decide; simpl; [|destruct (from_str (data ev)) as [v|e]; simpl; [|by exists b]];
    rewrite oks_Ok; refine (wp_elim head_check _ (λ _, flip heads) _ _ _).
  - unfold handle_done. wp_step. wp_step. apply head_guarded; [|done].
    intros s. unfold mbind, emit_bind, modify, gets, push. simpl. eauto.
  - unfold parse_chunk_value. destruct (get "error" v).
    { wp_step. wp_step. destruct b; [apply head_true|]. by eapply wp_push. }
    wp_step. wp_step. cbv zeta. apply head_guarded; [|done].
    intros s. unfold mbind, emit_bind, modify, push. simpl. eauto.
Qed.

Lemma parse_all_head l : is_Some (monitor head_check false (oks (parse_all l))).
Proof.
  destruct (feed_monitor on_item on_eof (on_ok head_check) (λ _ s b, heads b s)
    (λ _, True) l default_parser_state false) as (v & Hm & _).
  - intros i l' s b Hb. destruct (head_on_item i s b Hb) as (b' & ? & ?). exists b'.
    by rewrite monitor_on_ok.
  - intros s b Hb. simpl. rewrite monitor_on_ok, oks_Ok. unfold finalize.
    enough (Hwp : wp head_check finalize (λ _, flip heads) s b).
    { destruct (wp_elim _ _ _ _ _ Hwp) as (b' & ? & _). by exists b'. }
    destruct b; [apply head_true|]. unfold finalize.
    apply wp_bind, wp_gets. destruct (emitted_response_stop s); [by apply wp_ret|].
    apply wp_bind, wp_gets. rewrite (Hb eq_refl). by apply wp_ret.
  - done.
  - rewrite monitor_on_ok in Hm. eauto.
Qed.

(** An upstream without error objects. *)
Definition item_error (i : result SseEvent string) : bool :=
  match i with
  | Ok ev =>
      match from_str (data ev) with
      | Ok v => negb (bool_decide (data ev = "[DONE]")) && bool_decide (is_Some (get "error" v))
      | Err _ => false
      end
  | Err _ => false
  end.

#[local] Abbreviation no_error := (λ e, is_error e = false).
Lemma no_error_handle_done : emits no_error handle_done.
Proof. unfold handle_done, message_start_once, close_text_block, drain_tool_blocks, message_stop_once. emits. Qed.
Lemma no_error_finalize : emits no_error finalize.
Proof. unfold finalize, message_start_once, close_text_block, drain_tool_blocks, message_stop_once. emits. Qed.
Lemma no_error_chunk v : get "error" v = None → emits no_error (parse_chunk_value v).
Proof.
  intros Hv. unfold parse_chunk_value, handle_choice, handle_delta, handle_content, handle_tool_call,
    handle_finish_reason, message_start_once, close_text_block, drain_tool_blocks, message_stop_once.
  rewrite Hv. emits.
Qed.
Lemma no_error_on_item i s : item_error i = false → Forall no_error (oks (on_item i s).2).
Proof.
  destruct i as [ev|e]; simpl; [|intros _; unfold handle_transport_error; case_match; constructor].
  unfold handle_event, parse_chunk. case_bool_decide; simpl.
  { intros _. rewrite oks_Ok. apply no_error_handle_done. }
  destruct (from_str (data ev)) as [v|e]; simpl; [|constructor].
  intros Hv%bool_decide_eq_false. rewrite oks_Ok. apply no_error_chunk.
  destruct (get "error" v); [|done]. by destruct Hv.
Qed.
End Head.

(** ** The composition *)
Section Composition.
Context `{J : JsonApi} `{H : HashOrder}.

Lemma oks_cons {F} e (its : list (result StreamEvent F)) : oks (Ok e :: its) = e :: oks its.
Proof. done. Qed.

Lemma Forall_oks {F} (P : StreamEvent → Prop) (its : list (result StreamEvent F)) :
  Forall P (oks its) ↔ Forall (λ o, match o with Ok e => P e | Err _ => True end) its.
Proof.
  induction its as [|[e|err] its IH]; [by split; constructor| |].
  - rewrite oks_cons, !Forall_cons. by rewrite IH.
  - rewrite Forall_cons. change (oks (Err err :: its)) with (oks its). by rewrite IH; split; [|intros []].
Qed.

#[local] Abbreviation no_error := (λ e, is_error e = false).

Lemma parse_all_no_error l :
  Forall (λ i, item_error i = false) l → Forall no_error (oks (parse_all l)).
Proof.
  intros Hl. rewrite Forall_forall in Hl. apply Forall_oks, feed_Forall.
  - intros i s Hi. by apply Forall_oks, no_error_on_item, Hl.
  - intros s. apply Forall_oks. simpl. rewrite oks_Ok. apply no_error_finalize.
Qed.

(** Without errors nothing follows the [ResponseStop], so the encoder reads
    every delta. *)
Lemma stopped_no_deltas l v :
  seen_response_stop v = true → seen_message_stop v = true → terminated_by_error v = false →
  Forall no_error l → validate_from default_strict v l = Ok tt → omap delta_in l = [].
Proof.
  revert v. induction l as [|e l IH]; intros v Hr Hs Ht Hl Hv; [done|].
  simpl in Hv. rewrite Ht in Hv. inversion_clear Hl as [|? ? He Hl'].
  destruct e; simpl in Hv; try done;
    unfold step_delta, check_post_message_stop, check_post_response_stop in Hv;
    rewrite ?Hr, ?Hs in Hv; simpl in Hv; try rewrite Hr in Hv; try done.
  destruct (seen_response_start v); simpl in *; [done|]. by eapply IH in Hv.
Qed.

Lemma step_event_keeps v e v' :
  step_event default_strict v e = Ok v' → is_error e = false → terminated_by_error v = false →
  terminated_by_error v' = false ∧
  seen_message_stop v' = (match e with MessageStop _ _ => true | _ => seen_message_stop v end) ∧
  (∀ u, e = ResponseStop u → seen_message_stop v = true ∧ seen_response_stop v' = true).
Proof.
  destruct v as [rs ms mstop rstop o t c tb]. simpl. intros Hv He ->.
  destruct e; simpl in *; try done;
    unfold step_delta, check_post_message_stop, check_post_response_stop, check_delta_kind in Hv;
    repeat (simpl in *; case_match); simplify_eq/=; split_and!; try done;
    by destruct mstop.
Qed.

Lemma omap_delta_cons e l :
  omap delta_in (e :: l) = option_list (delta_in e) ++ omap delta_in l.
Proof. by destruct e. Qed.

Lemma consumed_deltas its v :
  terminated_by_error v = false → Forall no_error (oks its) →
  validate_from default_strict v (oks its) = Ok tt →
  omap delta_in (oks (consumed (seen_message_stop v) its)) = omap delta_in (oks its).
Proof.
  revert v. induction its as [|[e|err] its IH]; intros v Ht Hl Hv; [done| |].
  - change (oks (Ok e :: its)) with (e :: oks its) in *. inversion_clear Hl as [|? ? He Hl'].
    simpl in Hv. rewrite Ht in Hv.
    destruct (step_event default_strict v e) as [v'|] eqn:Hstep; [|done]. simpl in Hv.
    destruct (step_event_keeps _ _ _ Hstep He Ht) as (Ht' & Hm & Hr).
    specialize (IH v' Ht' Hl' Hv). rewrite Hm in IH.
    cbn [consumed]. destruct e; rewrite oks_cons, !omap_delta_cons; try by rewrite IH.
    destruct (Hr usage eq_refl) as [Hs Hr']. rewrite Hs in *. simpl.
    symmetry. apply (stopped_no_deltas _ v'); done.
  - cbn [consumed]. change (oks (Err err :: ?l)) with (oks l). by apply IH.
Qed.

(** The text of a response. *)
Definition response_text (e : OutboundEvent) : string :=
  match e with OContentBlockDelta _ (DTextDelta t) => t | _ => "" end.
Definition delta_text (d : Z * ContentBlockDelta) : string :=
  match d.2 with DTextDelta t => t | _ => "" end.

Lemma response_text_deltas evs :
  concat_strings (response_text <$> evs) = concat_strings (delta_text <$> omap delta_out evs).
Proof. induction evs as [|[] evs IH]; csimpl; rewrite ?IH; try done. Qed.
Lemma all_text_deltas l : concat_strings (delta_text <$> omap delta_in l) = all_text l.
Proof. induction l as [|[] l IH]; unfold all_text in *; csimpl; rewrite ?IH; try done. Qed.

(** A balanced stream that starts, stops. *)
Lemma balanced_stops l id m n : envelope_balanced (ResponseStart id m n :: l) → ∃ u, ResponseStop u ∈ l.
Proof.
  intros (k & _ & H1 & _ & _ & H4).
  assert (Hk : occurrences is_response_stop l ≠ 0) by (unfold occurrences in *; simpl in *; lia).
  clear H1 H4. induction l as [|e l IH]; [by destruct Hk|].
  destruct (is_response_stop e) eqn:He.
  - destruct e; try done. eexists. by apply list_elem_of_here.
  - destruct IH as [u Hu]; [|exists u; by apply list_elem_of_further].
    unfold occurrences in *. simpl in Hk. by rewrite He in Hk.
Qed.

(** Only stream errors: only error events. *)
Lemma outbound_errors_only its s :
  oks its = [] → monitor proto_check proto0 (encode_items outbound_handle its s) = Some proto0 ∧
  omap delta_out (encode_items outbound_handle its s) = [].
Proof. induction its as [|[e|err] its IH]; intros Hits; [done..|]. by apply IH. Qed.
End Composition.

(** ** Usage *)
Section UsageDropped.
Context `{J : JsonApi} `{H : HashOrder}.

(** A [ResponseStop] without usage. *)
Definition silent_stop (e : StreamEvent) : Prop :=
  match e with ResponseStop (Some _) => False | _ => True end.

Lemma silent_stop_handle_done : emits silent_stop handle_done.
Proof. unfold handle_done, message_start_once, close_text_block, drain_tool_blocks, message_stop_once. emits. Qed.
Lemma silent_stop_finalize : emits silent_stop finalize.
Proof. unfold finalize, message_start_once, close_text_block, drain_tool_blocks, message_stop_once. emits. Qed.
Lemma silent_stop_chunk v : emits silent_stop (parse_chunk_value v).
Proof.
  unfold parse_chunk_value, handle_choice, handle_delta, handle_content, handle_tool_call,
    handle_finish_reason, message_start_once, close_text_block, drain_tool_blocks, message_stop_once. emits.
Qed.

Lemma parse_all_silent_stop l : Forall silent_stop (oks (parse_all l)).
Proof.
  apply Forall_oks, feed_Forall.
  - intros i s _. apply Forall_oks. destruct i as [ev|e]; simpl;
      [|unfold handle_transport_error; case_match; constructor].
    unfold handle_event, parse_chunk. case_bool_decide; simpl.
    { rewrite oks_Ok. apply silent_stop_handle_done. }
    destruct (from_str (data ev)); simpl; [|constructor]. rewrite oks_Ok. apply silent_stop_chunk.
  - intros s. apply Forall_oks. simpl. rewrite oks_Ok. apply silent_stop_finalize.
Qed.

Lemma Forall_oks_read (P : StreamEvent → Prop) its : Forall P (oks its) → Forall P (oks (read its)).
Proof.
  induction its as [|[e|err] its IH]; intros Hits; [constructor| |constructor].
  cbn [read]. rewrite oks_cons in *. inversion_clear Hits. constructor; [done|].
  destruct e; auto.
Qed.
End UsageDropped.

(** ** Properties *)
Section Properties.
Context `{J : JsonApi} `{H : HashOrder}.

(** C2: an OpenAI-compatible upstream that follows its protocol, announces each
    tool call once and reports no error is turned, whatever transport errors
    and undecodable events interrupt it, into a response that follows the
    Messages streaming protocol, leaves no block open, is terminated by
    [message_stop] as soon as anything was received, and whose text is exactly
    the text of the upstream's chunks. *)
Theorem chat_upstream_to_anthropic_client fresh_id l :
  conforms l = true → announces l = true → Forall (λ i, item_error i = false) l →
  let evs := outbound fresh_id (parse_all l) in
  (∃ g, monitor proto_check proto0 evs = Some g ∧ p_open g = ∅ ∧
     (p_stopped g = true ↔ oks (parse_all l) ≠ [])) ∧
  concat_strings (response_text <$> evs) = concat_strings (event_text <$> l).
Proof.
  intros Hc Ha He. cbv zeta.
  pose proof (parse_all_lifecycle l Hc) as Hv. pose proof (parse_all_no_error l He) as Hne.
  split.
  - pose proof (parse_all_head l) as Hhead. pose proof (parse_all_announced l Ha) as Han.
    pose proof (parse_all_envelope l) as Henv.
    destruct (oks (parse_all l)) as [|e rest] eqn:Hl.
    + exists proto0. destruct (outbound_errors_only (parse_all l) (new_encoder fresh_id) Hl) as [Hm _].
      split_and!; [exact Hm|done|]. by split.
    + assert (Hstart : ∃ id m n, e = ResponseStart id m n).
      { inversion_clear Hne as [|? ? Hee _]. destruct e; eauto; by destruct Hhead. }
      destruct Hstart as (id & m & n & ->). rewrite <- Hl in Hv. inversion_clear Hne as [|? ? _ Hne'].
      destruct (response_protocol fresh_id (parse_all l) id m n rest Hl Hv Han Hne') as (g & Hg & Ho & Hs).
      exists g. split_and!; [done..|]. rewrite Hs. split; [done|]. intros _. by eapply balanced_stops.
  - rewrite response_text_deltas. unfold outbound. rewrite outbound_deltas.
    rewrite (consumed_deltas _ default_state); [|done..].
    by rewrite all_text_deltas, parse_all_text.
Qed.

(** A Chat client of a Chat upstream never learns the token usage: whatever
    the upstream reports, no chunk of the response carries it, since the parser
    reports usage in [UsageDelta] events and the encoder sends only that of
    [ResponseStop]. *)
Theorem chat_to_chat_drops_usage clock now l :
  omap frame_usage (chat_outbound clock now (parse_all l)) = [].
Proof.
  unfold chat_outbound. rewrite (proj1 (proj2 (outbound_read clock (parse_all l) _))).
  assert (Hall : Forall silent_stop (oks (read (parse_all l)))).
  { apply Forall_oks_read, parse_all_silent_stop. }
  induction Hall as [|e its He _ IH]; [done|]. destruct e as [| | | | | | | | | | |[]| |]; done.
Qed.
End Properties.

(** ** Concrete upstreams *)
Module Samples.
Definition delta (fields : list (string * tree)) : tree := TObj
  [("id", TStr "chatcmpl-1"); ("model", TStr "m"); ("created", TNum 1);
   ("choices", TArr [TObj [("index", TNum 0); ("delta", TObj fields); ("finish_reason", TNull)]])].
Definition finish (reason : string) : tree := TObj
  [("id", TStr "chatcmpl-1"); ("model", TStr "m"); ("created", TNum 1);
   ("choices", TArr [TObj [("index", TNum 0); ("delta", TObj []); ("finish_reason", TStr reason)]])].
Definition call (fields : list (string * tree)) : tree := delta
  [("tool_calls", TArr [TObj (("index", TNum 0) :: fields)])].
Definition table : list (string * tree) :=
  [("hello", delta [("content", TStr "hello")]);
   ("tool", call [("id", TStr "call_1"); ("function", TObj [("name", TStr "f"); ("arguments", TStr "")])]);
   ("args", call [("function", TObj [("arguments", TStr "{}")])]);
   ("again", call [("id", TStr "call_1"); ("function", TObj [("arguments", TStr "{}")])]);
   ("stop", finish "tool_calls")].
#[local] Instance sample_json : JsonApi := TreeJson table.
#[local] Instance sample_order : HashOrder := elements_order.
Definition sse (d : string) : result SseEvent string := Ok {| Drain.event := "message"; data := d |}.

Lemma chat_upstream_to_anthropic_client_witness :
  let l := [sse "hello"; Err "reset"; sse "???"; sse "tool"; sse "args"; sse "stop"; sse "[DONE]"] in
  conforms l = true ∧ announces l = true ∧
  concat_strings (response_text <$> outbound "r" (parse_all l)) = concat_strings (event_text <$> l).
Proof.
  intros l. assert (Hc : conforms l = true) by (vm_compute; reflexivity).
  assert (Ha : announces l = true) by (vm_compute; reflexivity).
  split; [exact Hc|]. split; [exact Ha|].
  refine (proj2 (chat_upstream_to_anthropic_client "r" l Hc Ha _)). repeat constructor.
Defined.

(** The announcement of each call once is necessary: an upstream that repeats
    the id with every fragment makes the Anthropic client see the block start
    twice, which the protocol forbids. *)
Theorem repeated_id_starts_block_twice :
  monitor proto_check proto0
    (outbound "r" (parse_all [sse "tool"; sse "again"; sse "stop"; sse "[DONE]"])) = None.
Proof. vm_compute. reflexivity. Qed.

(** A Chat client sees the upstream's first tool call, of index 0, under index
    1. *)
Theorem tool_index_is_shifted :
  (chat_outbound None 0 (parse_all [sse "tool"; sse "stop"; sse "[DONE]"]) ≫= frame_deltas) =
  [inr (tool_call 1 (Some "call_1") (Some "f") "")].
Proof. vm_compute. reflexivity. Qed.
End Samples.
