(* ===== verification/ResponsesRelay.v ===== *)
(** * From a Responses upstream to the clients

    What [ResponsesParse] makes of an upstream that follows the Responses
    protocol is what the encoders ask for: it opens with [ResponseStart],
    announces and stops each tool call once and meets the canonical lifecycle.
    And what [ResponsesEncode] writes is such an upstream: a gateway can stand
    behind another one. *)
From S2P Require Import Prelude Json CoreTypes Emit Lifecycle Drain ResponsesParse.
From S2P Require AnthropicEncode ResponsesEncode EndToEnd.
#[local] Open Scope string_scope.
#[local] Open Scope list_scope.

#[local] Abbreviation calls_check := ResponsesEncode.calls_check.

Section Ready.
Context `{J : JsonApi}.
Implicit Types (g : upstream) (s : ParserState) (A D : gset Z).

(** What the encoders ask of a stream besides the lifecycle: no error event,
    [ResponseStart] first, the discipline of the tool calls. *)
Definition ready_check (st : bool * (gset Z * gset Z)) (e : StreamEvent) : option (bool * (gset Z * gset Z)) :=
  if is_error e then None
  else if st.1 then pair true <$> calls_check st.2 e
  else match e with ResponseStart _ _ _ => Some (true, st.2) | _ => None end.

Definition ready g s (st : bool * (gset Z * gset Z)) : Prop :=
  let '(b, (A, D)) := st in
  u_failed g = false ∧ b = u_started g ∧ emitted_response_start s = u_started g ∧
  emitted_response_stop s = u_stopped g ∧ open_items s = u_open g ∧
  (∀ i, is_Some (u_open g !! i) → u_started g = true ∧ i ∈ u_used g) ∧
  (∀ i, i ∈ A ∨ i ∈ D → i ∈ u_used g) ∧
  (∀ i, u_open g !! i = Some ToolCall → i ∈ A ∧ i ∉ D).

(** An event that is no concern of the tool calls. *)
Lemma ready_push e s AD (Q : unit → ParserState → bool * (gset Z * gset Z) → Prop) :
  is_error e = false → calls_check AD e = Some AD → Q tt s (true, AD) → wp ready_check (push e) Q s (true, AD).
Proof. intros He Hc HQ. eapply wp_push; [|exact HQ]. unfold ready_check. by rewrite He; simpl; rewrite Hc. Qed.
Lemma ready_message_start s AD (Q : unit → ParserState → bool * (gset Z * gset Z) → Prop) :
  (∀ s', emitted_response_start s' = emitted_response_start s → emitted_response_stop s' = emitted_response_stop s →
     open_items s' = open_items s → Q tt s' (true, AD)) →
  wp ready_check message_start_once Q s (true, AD).
Proof.
  intros HQ. unfold message_start_once. wp_steps; [|by apply HQ].
  destruct AD. by apply ready_push; [done..|apply HQ].
Qed.

(** A block is closed once. *)
Lemma ready_close i kind A D s (Q : unit → ParserState → bool * (gset Z * gset Z) → Prop) :
  (kind = ToolCall → i ∈ A ∧ i ∉ D) →
  (∀ D', (∀ j, j ∈ D' → j = i ∨ j ∈ D) → (∀ j, j ∈ D → j ∈ D') → Q tt s (true, (A, D'))) →
  wp ready_check (close_block (i, kind)) Q s (true, (A, D)).
Proof.
  intros Hk HQ. unfold close_block. simpl. wp_steps.
  - case_bool_decide as Ht; [|done]. eapply wp_push.
    { unfold ready_check. simpl. rewrite bool_decide_eq_true_2 by auto. done. }
    apply ready_push; [done..|]. apply HQ; set_solver.
  - apply ready_push; [done..|]. apply HQ; auto.
Qed.

Lemma ready_created data g g' s st :
  up_check g (ECreated, data) = Some g' → ready g s st →
  wp ready_check (on_created data) (λ _ s' st', ready g' s' st') s st.
Proof.
  destruct st as [b [A D]]. intros Hg (Hf & -> & Hrs & Hrp & Hop & Hu & HA & Ht).
  unfold up_check in Hg. rewrite Hf in Hg. destruct (u_stopped g) eqn:Hsp; [done|]. injection Hg as <-.
  unfold on_created. wp_steps; rewrite Hrs in *; destruct (u_started g) eqn:Hst; try done.
  eapply wp_push; [reflexivity|]. unfold ready. simpl. split_and!; try done. intros i Hi. by destruct (Hu i Hi).
Qed.

Lemma ready_item_added data g g' s st :
  up_check g (EItemAdded, data) = Some g' → ready g s st →
  wp ready_check (on_item_added data) (λ _ s' st', ready g' s' st') s st.
Proof.
  destruct st as [b [A D]]. intros Hg (Hf & -> & Hrs & Hrp & Hop & Hu & HA & Ht).
  unfold up_check in Hg. rewrite Hf in Hg.
  destruct (u_started g && negb (u_stopped g)) eqn:Hrun; [|by destruct (item_kind data)]. simpl in Hg.
  apply andb_true_iff in Hrun as [Hst _]. rewrite Hst in *.
  unfold on_item_added. apply wp_bind, ready_message_start. intros s' Hs1 Hs2 Hs3.
  rewrite Hrs in Hs1. rewrite Hrp in Hs2. rewrite Hop in Hs3. clear s Hrs Hrp Hop.
  set (i := output_index_of data) in *. destruct (item_kind data) as [kind|].
  2: { simplify_eq. apply wp_ret. unfold ready. simpl. rewrite Hst. by split_and!. }
  case_bool_decide as Hiu; [done|]. simpl in Hg. injection Hg as <-.
  assert (Hfin : ∀ A', (∀ j, j ∈ A' → j = i ∨ j ∈ A) →
    (∀ j, <[i:=kind]> (u_open g) !! j = Some ToolCall → j ∈ A' ∧ j ∉ D) →
    ready (set_u_items (<[i:=kind]> (u_open g)) ({[i]} ∪ u_used g) g)
      (set_open_items (<[i:=kind]> (open_items s')) s') (true, (A', D))).
  { intros A' H1 H2. unfold ready. simpl. rewrite Hst. split_and!; try done; [by rewrite Hs3|..].
    - intros j [->|[_ ?%Hu]]%lookup_insert_is_Some; (split; [done|set_solver]).
    - intros j [[->|?]%H1|?]; [set_solver|apply elem_of_union_r, HA; by left|apply elem_of_union_r, HA; by right]. }
  assert (Hother : kind ≠ ToolCall → ready (set_u_items (<[i:=kind]> (u_open g)) ({[i]} ∪ u_used g) g)
      (set_open_items (<[i:=kind]> (open_items s')) s') (true, (A, D))).
  { intros Hk. apply Hfin; [auto|]. intros j [[_ ?]|[_ ?]]%lookup_insert_Some; [done|by apply Ht]. }
  destruct kind; wp_steps; (apply ready_push; [done..|]); wp_steps; try by apply Hother.
  eapply wp_push.
  { unfold ready_check. simpl. rewrite bool_decide_eq_false_2 by naive_solver. done. }
  apply Hfin; [set_solver|].
  intros j [[<- _]|[? Hj]]%lookup_insert_Some; [split; [set_solver|naive_solver]|].
  apply Ht in Hj as [? ?]. set_solver.
Qed.

Lemma ready_item_done data g g' s st :
  up_check g (EItemDone, data) = Some g' → ready g s st →
  wp ready_check (on_item_done data) (λ _ s' st', ready g' s' st') s st.
Proof.
  destruct st as [b [A D]]. intros Hg (Hf & -> & Hrs & Hrp & Hop & Hu & HA & Ht).
  unfold up_check in Hg. rewrite Hf in Hg. unfold on_item_done.
  set (i := output_index_of data) in *. destruct (item_kind data) as [kind|]; [|by simplify_eq].
  case_bool_decide as Hk; [|done]. injection Hg as <-. destruct (Hu i) as [Hst Hiu]; [by eexists|].
  rewrite Hst in *. apply wp_bind. apply ready_close; [by intros ->; apply Ht|].
  intros D' H1 H2. apply wp_modify. unfold ready. simpl. rewrite Hst. split_and!; try done.
  - by rewrite Hop.
  - intros j [x [_ Hx]%lookup_delete_Some]. apply Hu. by eexists.
  - intros j [?|[->|?]%H1]; [apply HA; by left|done|apply HA; by right].
  - intros j [Hne Hj]%lookup_delete_Some. destruct (Ht j Hj) as [? HD]. split; [done|].
    intros [->|?]%H1; done.
Qed.

Lemma ready_event ev g g' s st :
  up_check g ev = Some g' → u_failed g' = false → ready g s st →
  wp ready_check (parse_event ev.1 ev.2) (λ _ s' st', ready g' s' st') s st.
Proof.
  destruct ev as [ty data]. intros Hg Hf' Hr.
  destruct ty; cbn [fst snd parse_event];
    [by eapply ready_created|by eapply ready_item_added| | |by eapply ready_item_done|..];
    destruct st as [b [A D]]; pose proof Hr as Hr'; destruct Hr' as (Hf & -> & Hrs & Hrp & Hop & Hu & HA & Ht);
    unfold up_check in Hg; rewrite Hf in Hg; simpl in Hg.
  - case_bool_decide as Hk; [|done]. injection Hg as <-. destruct (Hu _ (ltac:(by eexists))) as [Hst _].
    rewrite Hst in *. wp_steps; [|done]. by apply ready_push.
  - case_bool_decide as Hk; [|done]. injection Hg as <-. destruct (Hu _ (ltac:(by eexists))) as [Hst _].
    rewrite Hst in *. wp_steps; [|done]. apply ready_push; [done| |done].
    simpl. by rewrite bool_decide_eq_true_2 by by apply Ht.
  - destruct (u_started g && negb (u_stopped g)) eqn:Hrun; [|done]. simpl in Hg.
    apply andb_true_iff in Hrun as [Hst _]. rewrite Hst in *. case_bool_decide as He; [|done]. injection Hg as <-.
    unfold on_completed. wp_steps. apply ready_push; [done..|]. wp_steps. apply ready_push; [done..|].
    unfold ready. simpl. split_and!; try done.
  - by simplify_eq.
  - by simplify_eq.
  - simplify_eq. by apply wp_ret.
Qed.

Lemma ready_close_all l s A D :
  (∀ p, p ∈ l → p.2 = ToolCall → p.1 ∈ A ∧ p.1 ∉ D) → NoDup l.*1 →
  wp ready_check (for_each l close_block) (λ _ s' st', s' = s ∧ st'.1 = true) s (true, (A, D)).
Proof.
  revert D. induction l as [|[i kind] l IH]; intros D Hl Hnd; [done|].
  inversion_clear Hnd as [|? ? Hi Hnd']. simpl for_each. apply wp_bind.
  apply ready_close; [intros ->; by apply (Hl (i, ToolCall)); [left|]|].
  intros D' H1 _. apply IH; [|done]. intros p Hp Hk. destruct (Hl p) as [? HD]; [by right|done|].
  split; [done|]. intros [Heq|?]%H1; [|done]. apply Hi. rewrite <- Heq. by apply (list_elem_of_fmap_2 fst).
Qed.

Lemma ready_finalize g s st : ready g s st → is_Some (monitor ready_check st (emitted finalize s)).
Proof.
  intros Hr. enough (Hwp : wp ready_check finalize (λ _ _ _, True) s st).
  { destruct (wp_elim _ _ _ _ _ Hwp) as (st' & ? & _). by exists st'. }
  destruct st as [b [A D]], Hr as (Hf & -> & Hrs & Hrp & Hop & Hu & HA & Ht).
  unfold finalize. apply wp_bind, wp_gets. case_match; [by apply wp_ret|].
  apply wp_bind, wp_gets. rewrite Hrs. destruct (u_started g); [|by apply wp_ret]. simpl.
  apply wp_bind, ready_message_start. intros s' _ _ Hs. rewrite Hop in Hs.
  apply wp_bind, wp_gets, wp_bind, wp_modify, wp_bind. destruct (orphaned_spec s') as [Hnd Hmap].
  eapply wp_mono; [apply ready_close_all; [|done]|].
  { intros [i k] Hp Hk. simpl in *. subst k. apply Ht. rewrite <- Hs, <- Hmap. by apply elem_of_list_to_map_1. }
  intros [] s'' [b' [A' D']] [_ Hb]. simpl in Hb. subst b'.
  wp_steps; [apply ready_push; [done..|]; wp_steps|].
  all: by apply ready_push; [done..|].
Qed.

Lemma steps_failed l g g' : steps up_check g l = Some g' → u_failed g' = false → u_failed g = false.
Proof.
  revert g. induction l as [|ev l IH]; intros g; simpl; [by intros [= ->]|].
  intros (g1 & H1 & H2)%bind_Some Hf. specialize (IH _ H2 Hf).
  destruct ev as [ty data]. unfold up_check in H1. destruct (u_failed g) eqn:Hg; [simplify_eq; congruence|done].
Qed.

Lemma parse_ready l g :
  steps up_check upstream0 (omap readable l) = Some g → u_failed g = false →
  is_Some (monitor ready_check (false, (∅, ∅)) (oks (parse l))).
Proof.
  intros Hg Hf. destruct (feed_monitor on_item on_eof (on_ok ready_check)
    (λ l s st, ∃ p, steps up_check p (omap readable l) = Some g ∧ ready p s st)
    (λ _, True) l default_parser_state (false, (∅, ∅))) as (st & Hm & _).
  - clear l Hg. intros i l s st (p & Hp & Hr). simpl in Hp.
    destruct i as [ev|e]; simpl in *.
    2: { exists st. split; [|by exists p]. by destruct (stream_completed s). }
    set (s1 := if bool_decide _ then _ else s).
    assert (Hr1 : ready p s1 st) by (unfold s1; destruct st as [b [A D]]; by case_bool_decide).
    destruct (from_str (data ev)) as [d|e]; simpl in *; [|exists st; split; [done|by exists p]].
    apply bind_Some in Hp as (p' & H1 & H2). rewrite monitor_on_ok, oks_Ok.
    destruct (wp_elim _ _ _ _ _ (ready_event (event_type_of (event ev), d) _ _ _ _ H1 (steps_failed _ _ _ H2 Hf) Hr1)) as (st' & Hm & Hr').
    exists st'. split; [done|]. by exists p'.
  - intros s st (p & _ & Hr). simpl. rewrite monitor_on_ok, oks_Ok.
    destruct (ready_finalize p s st Hr) as [st' ?]. by exists st'.
  - exists upstream0. split; [done|]. unfold ready. simpl. split_and!; try done; [intros i [? ?]; done|set_solver].
  - rewrite monitor_on_ok in Hm. by exists st.
Qed.

(** What readiness means. *)
Lemma ready_calls l AD st : monitor ready_check (true, AD) l = Some st →
  is_Some (monitor calls_check AD l) ∧ Forall (λ e, is_error e = false) l.
Proof.
  revert AD. induction l as [|e l IH]; intros AD; [by intros _; split; [|constructor]|].
  simpl. destruct (ready_check (true, AD) e) as [st'|] eqn:Hr; [|done]. unfold ready_check in Hr.
  destruct (is_error e) eqn:He; [done|]. simpl in Hr. destruct (calls_check AD e) as [AD'|]; [|done].
  injection Hr as <-. intros [H1 H2]%IH. split; [done|by constructor].
Qed.
Lemma ready_head l : is_Some (monitor ready_check (false, (∅, ∅)) l) →
  l = [] ∨ ∃ id m n l', l = ResponseStart id m n :: l' ∧
    is_Some (monitor calls_check (∅, ∅) l') ∧ Forall (λ e, is_error e = false) l'.
Proof.
  destruct l as [|e l]; [by left|]. intros [st Hst]. right. destruct e; try done. simpl in Hst.
  apply ready_calls in Hst as [? ?]. do 4 eexists. eauto.
Qed.
(** The Anthropic encoder asks for less. *)
Lemma calls_announced l A D : is_Some (monitor calls_check (A, D) l) → is_Some (monitor AnthropicEncode.announce_check A l).
Proof.
  revert A D. induction l as [|e l IH]; intros A D; [done|]. simpl.
  destruct e; simpl; try apply IH; repeat case_bool_decide; simpl; try apply IH; try (by intros [? ?]); naive_solver.
Qed.
End Ready.

(** ** What is said *)
Section Said.
Context `{J : JsonApi}.

(** The texts, tool calls and argument fragments of a stream, without their
    indices; the parser drops empty deltas. *)
Inductive said := SText (t : string) | SCall (id name : string) | SArguments (a : string).
Definition said_in (e : StreamEvent) : list said :=
  match e with
  | TextDelta _ t => [SText t]
  | ToolCallStart _ id name => [SCall id name]
  | ToolCallArgumentsDelta _ a => [SArguments a]
  | _ => []
  end.
(** What an event of the upstream says. *)
Definition said_event (ev : EventType * value) : list said :=
  let '(ty, data) := ev in
  match ty with
  | EItemAdded =>
      match item_kind data with
      | Some ToolCall =>
          [SCall (default "" (get_str "call_id" (item_of data))) (default "" (get_str "name" (item_of data)))]
      | _ => []
      end
  | ETextDelta => if str_is_empty (delta_of data) then [] else [SText (delta_of data)]
  | EArgumentsDelta => if str_is_empty (delta_of data) then [] else [SArguments (delta_of data)]
  | _ => []
  end.
Definition said_item (i : result SseEvent string) : list said :=
  match readable i with Some ev => said_event ev | None => [] end.

#[local] Abbreviation saying := (collects said_in).
Lemma says_finalize : saying finalize [].
Proof. unfold finalize, message_start_once, close_block. collects_nothing. Qed.
Lemma says_event ev : saying (parse_event ev.1 ev.2) (said_event ev).
Proof.
  destruct ev as [[] data]; simpl; unfold on_created, on_item_done, on_completed, close_block;
    try solve [collects_nothing].
  - unfold on_item_added, message_start_once. apply collects_then; [collects_nothing|intros []].
    destruct (item_kind data) as [[]|]; try solve [collects_nothing].
    apply collects_then; [collects_nothing|intros []].
    apply collects_and_nothing; [apply (collects_push said_in)|intros []; collects_nothing].
  - destruct (str_is_empty (delta_of data)); simpl; [apply collects_ret|apply (collects_push said_in)].
  - destruct (str_is_empty (delta_of data)); simpl; [apply collects_ret|apply (collects_push said_in)].
Qed.
Lemma parse_says l : oks (parse l) ≫= said_in = l ≫= said_item.
Proof.
  apply (feed_collects on_item on_eof (λ o, oks o ≫= said_in)); [done|..].
  - intros. by rewrite oks_app, bind_app.
  - intros [ev|e] s; unfold said_item; simpl; [|by destruct (stream_completed s)].
    destruct (from_str (data ev)) as [d|e]; simpl; [|done]. rewrite oks_Ok.
    apply (says_event (event_type_of (event ev), d)).
  - intros s. simpl. rewrite oks_Ok. apply says_finalize.
Qed.
End Said.

(** ** The deltas of the upstream, read off its own events *)
Section Deltas.
Context `{J : JsonApi}.
(** The text or arguments an event carries and the output index it carries them
    for; an empty one carries nothing. *)
Definition delta_event (ev : EventType * value) : option (Z * AnthropicEncode.ContentBlockDelta) :=
  let '(ty, data) := ev in
  let carried (wrap : string → AnthropicEncode.ContentBlockDelta) :=
    text ← get_str "delta" data;
    if str_is_empty text then None else Some (as_u32 (default 0%Z (get_u64 "output_index" data)), wrap text) in
  match ty with
  | ETextDelta => carried AnthropicEncode.DTextDelta
  | EArgumentsDelta => carried AnthropicEncode.DInputJsonDelta
  | _ => None
  end.
Definition delta_item (i : result SseEvent string) : list (Z * AnthropicEncode.ContentBlockDelta) :=
  option_list (readable i ≫= delta_event).
Definition deltas_in (e : StreamEvent) : list (Z * AnthropicEncode.ContentBlockDelta) :=
  option_list (AnthropicEncode.delta_in e).

Lemma omap_bind {A B} (f : A → option B) (l : list A) : omap f l = l ≫= λ x, option_list (f x).
Proof. induction l as [|x l IH]; [done|]. csimpl. rewrite IH. by destruct (f x). Qed.
#[local] Abbreviation carrying := (collects deltas_in).
Lemma carries_finalize : carrying finalize [].
Proof. unfold finalize, message_start_once, close_block. collects_nothing. Qed.
Lemma carries_event ev : carrying (parse_event ev.1 ev.2) (option_list (delta_event ev)).
Proof.
  destruct ev as [[] data]; simpl; unfold on_created, on_item_added, on_item_done, on_completed, message_start_once, close_block;
    try solve [collects_nothing]; unfold delta_of, output_index_of; destruct (get_str "delta" data) as [t|]; simpl;
    first [apply collects_ret|destruct (str_is_empty t); simpl; [apply collects_ret|apply (collects_push deltas_in)]].
Qed.
Lemma parse_deltas l : omap AnthropicEncode.delta_in (oks (parse l)) = omap delta_event (omap readable l).
Proof.
  assert (Hl : oks (parse l) ≫= deltas_in = l ≫= delta_item).
  { apply (feed_collects on_item on_eof (λ o, oks o ≫= deltas_in)); [done|..].
    - intros. by rewrite oks_app, bind_app.
    - intros [ev|e] s; unfold delta_item; simpl; [|by destruct (stream_completed s)].
      destruct (from_str (data ev)) as [d|e]; simpl; [|done]. rewrite oks_Ok.
      apply (carries_event (event_type_of (event ev), d)).
    - intros s. simpl. rewrite oks_Ok. apply carries_finalize. }
  rewrite omap_bind. etransitivity; [exact Hl|]. clear Hl. induction l as [|i l IH]; [done|].
  rewrite bind_cons, IH. unfold delta_item. csimpl. destruct (readable i) as [ev|]; [|done]. csimpl.
  by destruct (delta_event ev).
Qed.
End Deltas.

(** ** The start and the stop of an accepted stream *)
Section Stops.
Context `{J : JsonApi}.

Lemma step_seen v e v' :
  terminated_by_error v = false → step_event default_strict v e = Ok v' → is_error e = false →
  terminated_by_error v' = false ∧
  (seen_response_start v = true ∨ (∃ id m n, e = ResponseStart id m n) → seen_response_start v' = true) ∧
  (seen_response_stop v' = true → seen_response_stop v = true ∨ ∃ u, e = ResponseStop u).
Proof.
  intros Ht Hv He.
  destruct v as [rs ms mstop rstop o t c tb]. simpl in *. subst tb.
  destruct e; simpl in *; try done;
    unfold step_delta, check_post_message_stop, check_post_response_stop, check_delta_kind in Hv;
    repeat (simpl in *; case_match); simplify_eq/=; split_and!; try done; naive_solver.
Qed.
Lemma monitor_seen l v v' :
  monitor check v l = Some v' → terminated_by_error v = false → Forall (λ e, is_error e = false) l →
  (seen_response_start v = true → seen_response_start v' = true) ∧
  (seen_response_stop v' = true → seen_response_stop v = true ∨ ∃ u, ResponseStop u ∈ l).
Proof.
  revert v. induction l as [|e l IH]; intros v; [by intros [= ->]; auto|]. simpl. intros Hm Ht Hl.
  inversion_clear Hl as [|? ? He Hl']. destruct (check v e) as [v1|] eqn:Hs; [|done]. simpl in Hm.
  unfold check in Hs. rewrite Ht in Hs. destruct (step_event default_strict v e) as [v2|] eqn:Hs2; [|done].
  injection Hs as ->.
  destruct (step_seen v e v1 Ht Hs2 He) as (Ht1 & H1 & H2). destruct (IH v1 Hm Ht1 Hl') as [H3 H4].
  split; [auto|]. intros [Hv|[u Hu]]%H4; [|right; exists u; by right].
  destruct (H2 Hv) as [|[u ->]]; [by left|right; exists u; by left].
Qed.
End Stops.

(** ** What the clients receive *)
Section Clients.
Context `{J : JsonApi}.

Lemma outbound_silent clock its : oks its = [] →
  monitor ResponsesEncode.proto_check ResponsesEncode.proto0 (ResponsesEncode.outbound clock its) =
  Some ResponsesEncode.proto0.
Proof.
  unfold ResponsesEncode.outbound. generalize (ResponsesEncode.start_state clock).
  induction its as [|[e|err] its IH]; intros s Hits; [done..|]. by apply IH.
Qed.

(** The stream of a conforming upstream: nothing, or a complete response. *)
Lemma parse_response l g :
  steps up_check upstream0 (omap readable l) = Some g → u_failed g = false →
  oks (parse l) = [] ∨
  ∃ id m n rest, oks (parse l) = ResponseStart id m n :: rest ∧
    is_Some (monitor calls_check (∅, ∅) rest) ∧ Forall (λ e, is_error e = false) rest ∧
    ∃ u, ResponseStop u ∈ rest.
Proof.
  intros Hg Hf. destruct (ready_head _ (parse_ready l g Hg Hf)) as [?|(id & m & n & rest & Hl & Hc & He)]; [by left|].
  right. exists id, m, n, rest. split_and!; [done..|].
  destruct (parse_accepted l g Hg) as (v & Hm & _ & Hs). specialize (Hs Hf). rewrite Hl in Hm.
  erewrite monitor_cons in Hm by reflexivity. destruct (monitor_seen _ _ _ Hm) as [H1 H2]; [done..|].
  rewrite H1 in Hs by done. by destruct (H2 Hs).
Qed.

(** C19: an upstream that follows the Responses protocol and reports no failure
    (no [response.failed], no error event), wherever it breaks off, is relayed to
    Anthropic and to Responses clients as a response that follows their protocol
    and is complete as soon as the upstream has announced its response.  An
    Anthropic client receives exactly the texts and argument fragments of the
    upstream's own readable events, in order and under their output indices.  An
    upstream that reports a failure is left out: its error event reaches the
    client, and what surrounds it is in [responses_parse_lifecycle]. *)
Theorem responses_upstream_to_clients fresh_id clock l g :
  steps up_check upstream0 (omap readable l) = Some g → u_failed g = false →
  (∃ p, monitor AnthropicEncode.proto_check AnthropicEncode.proto0 (AnthropicEncode.outbound fresh_id (parse l)) = Some p ∧
     AnthropicEncode.p_open p = ∅ ∧ (AnthropicEncode.p_stopped p = true ↔ created (omap readable l))) ∧
  omap AnthropicEncode.delta_out (AnthropicEncode.outbound fresh_id (parse l)) = omap delta_event (omap readable l) ∧
  ((Z.of_nat (length (oks (parse l))) ≤ u32_max)%Z →
   ∃ p, monitor ResponsesEncode.proto_check ResponsesEncode.proto0 (ResponsesEncode.outbound clock (parse l)) = Some p ∧
     ResponsesEncode.rp_open p = ∅ ∧ (ResponsesEncode.rp_completed p = true ↔ created (omap readable l))).
Proof.
  intros Hg Hf. destruct (parse_accepted l g Hg) as (v & Hm & Ho & _).
  pose proof (be_starts _ _ (parse_begins_and_ends l)) as Hcr. rewrite <- parse_deltas.
  assert (Hv : assert_canonical_lifecycle (oks (parse l)) = Ok tt) by by apply (assert_of_monitor _ v).
  destruct (parse_response l g Hg Hf) as [Hnil|(id & m & n & rest & Hl & Hc & He & Hstop)].
  - destruct (EndToEnd.outbound_errors_only (parse l) (AnthropicEncode.new_encoder fresh_id) Hnil) as [H1 H2].
    rewrite Hnil. split_and!.
    + exists AnthropicEncode.proto0. split_and!; [exact H1|done|]. rewrite <- Hcr, Hnil. split; [done|set_solver].
    + exact H2.
    + intros _. exists ResponsesEncode.proto0. split_and!; [by apply outbound_silent|done|]. rewrite <- Hcr, Hnil. split; [done|set_solver].
  - split_and!.
    + destruct (AnthropicEncode.response_protocol fresh_id (parse l) id m n rest Hl Hv (calls_announced _ _ _ Hc) He)
        as (p & Hp & Hpo & Hps). exists p. split_and!; [done..|]. rewrite Hps, <- Hcr, Hl. split; [intros _; exists id, m, n; left|done].
    + unfold AnthropicEncode.outbound. rewrite AnthropicEncode.outbound_deltas.
      apply (EndToEnd.consumed_deltas (parse l) default_state); [done| |done]. rewrite Hl. by constructor.
    + intros Hlen. destruct (ResponsesEncode.responses_protocol clock (parse l) id m n rest Hl Hv Hc He)
        as (p & Hp & Hpo & Hps). { rewrite Hl in Hlen. simpl in Hlen. lia. }
      exists p. split_and!; [done..|]. rewrite Hps, <- Hcr, Hl. split; [intros _; exists id, m, n; left|done].
Qed.
End Clients.

Module Samples.
#[local] Existing Instance ResponsesParse.Samples.sample_json.
Lemma responses_upstream_to_clients_witness :
  let its := parse ResponsesParse.Samples.broken in
  (∃ p, monitor AnthropicEncode.proto_check AnthropicEncode.proto0 (AnthropicEncode.outbound "msg" its) = Some p ∧
     AnthropicEncode.p_open p = ∅ ∧ AnthropicEncode.p_stopped p = true) ∧
  ∃ p, monitor ResponsesEncode.proto_check ResponsesEncode.proto0 (ResponsesEncode.outbound None its) = Some p ∧
     ResponsesEncode.rp_open p = ∅ ∧ ResponsesEncode.rp_completed p = true.
Proof.
  destruct (steps up_check upstream0 (omap readable ResponsesParse.Samples.broken)) as [g|] eqn:Hg;
    [|exfalso; vm_compute in Hg; discriminate].
  assert (Hf : u_failed g = false) by (vm_compute in Hg; by injection Hg as <-).
  destruct (responses_upstream_to_clients "msg" None _ g Hg Hf) as ((p & Hp & Ho & Hs) & _ & H).
  destruct H as (q & Hq & Hqo & Hqs); [vm_compute; discriminate|].
  assert (Hc : created (omap readable ResponsesParse.Samples.broken)) by (eexists; left).
  split; [exists p|exists q]; (split_and!; [done..|]); [apply Hs|apply Hqs]; exact Hc.
Defined.
End Samples.
