(* ===== verification/ResponsesChain.v ===== *)
(** * A gateway behind a gateway (the Responses dialect)

    What the Responses encoder writes, the Responses parser reads: the response
    to a conforming canonical stream is a conforming upstream, and says the same.
    The serialisation of the wire types is that of their serde derives
    ([openai_responses/wire.rs], [encode_stream.rs]) into JSON trees; the JSON
    text itself is serde_json's, a parameter with its documented law. *)
From S2P Require Import Prelude Json CoreTypes Emit Lifecycle Drain ResponsesParse ResponsesRelay.
From S2P Require ResponsesEncode EndToEnd.
#[local] Open Scope string_scope.
#[local] Open Scope list_scope.

Import (hints) ResponsesEncode.
#[local] Abbreviation outbound := ResponsesEncode.outbound.
#[local] Abbreviation ResponsesEvent := ResponsesEncode.ResponsesEvent.

(** ** The wire, as JSON *)
Definition num (z : Z) : tree := TNum (Z.to_N z).
Definition content_tree (c : ResponsesEncode.OutputContent) : tree :=
  match c with
  | ResponsesEncode.OutputText t => TObj [("type", TStr "output_text"); ("text", TStr t)]
  | ResponsesEncode.OutputReasoning t summary =>
      TObj ([("type", TStr "reasoning"); ("text", TStr t)] ++ option_list (pair "summary" <$> (TStr <$> summary)))
  end.
Definition item_tree (i : ResponsesEncode.OutputItem) : tree :=
  match i with
  | ResponsesEncode.ItemMessage id status content =>
      TObj [("type", TStr "message"); ("id", TStr id); ("role", TStr "assistant"); ("status", TStr status);
            ("content", TArr (content_tree <$> content))]
  | ResponsesEncode.ItemFunctionCall id call_id name arguments status =>
      TObj [("type", TStr "function_call"); ("id", TStr id); ("call_id", TStr call_id); ("name", TStr name);
            ("arguments", TStr arguments); ("status", TStr status)]
  | ResponsesEncode.ItemReasoning id status content =>
      TObj [("type", TStr "reasoning"); ("id", TStr id); ("status", TStr status);
            ("content", TArr (content_tree <$> content))]
  end.
Definition usage_tree (u : ResponsesEncode.UsageOut) : tree := TObj
  [("input_tokens", num (ResponsesEncode.u_input_tokens u)); ("output_tokens", num (ResponsesEncode.u_output_tokens u));
   ("total_tokens", num (ResponsesEncode.u_total_tokens u))].
Definition response_tree (r : ResponsesEncode.ResponseObject) : tree := TObj
  ([("id", TStr (ResponsesEncode.ro_id r)); ("object", TStr "response"); ("status", TStr (ResponsesEncode.ro_status r));
    ("model", TStr (ResponsesEncode.ro_model r)); ("created_at", num (ResponsesEncode.ro_created_at r));
    ("output", TArr (item_tree <$> ResponsesEncode.ro_output r))] ++
   option_list (pair "usage" <$> (usage_tree <$> ResponsesEncode.ro_usage r))).
Definition event_tree (ev : ResponsesEvent) : tree :=
  match ev with
  | ResponsesEncode.RCreated r | ResponsesEncode.RCompleted r => response_tree r
  | ResponsesEncode.ROutputItemAdded oi item | ResponsesEncode.ROutputItemDone oi item =>
      TObj [("output_index", num oi); ("item", item_tree item)]
  | ResponsesEncode.RContentPartAdded id oi ci part | ResponsesEncode.RContentPartDone id oi ci part =>
      TObj [("item_id", TStr id); ("output_index", num oi); ("content_index", num ci); ("part", content_tree part)]
  | ResponsesEncode.RTextDelta id oi ci delta =>
      TObj [("item_id", TStr id); ("output_index", num oi); ("content_index", num ci); ("delta", TStr delta)]
  | ResponsesEncode.RTextDone id oi ci text =>
      TObj [("item_id", TStr id); ("output_index", num oi); ("content_index", num ci); ("text", TStr text)]
  | ResponsesEncode.RArgsDelta id oi delta | ResponsesEncode.RReasoningDelta id oi delta =>
      TObj [("item_id", TStr id); ("output_index", num oi); ("delta", TStr delta)]
  | ResponsesEncode.RArgsDone id oi arguments =>
      TObj [("item_id", TStr id); ("output_index", num oi); ("arguments", TStr arguments)]
  | ResponsesEncode.RReasoningDone id oi text =>
      TObj [("item_id", TStr id); ("output_index", num oi); ("text", TStr text)]
  | ResponsesEncode.RErrorEvent message =>
      TObj [("type", TStr "error"); ("code", TStr "server_error"); ("message", TStr message)]
  end.

(** What an outbound item says, and what of it is heard. *)
Definition said_out (o : result ResponsesEvent string) : list said :=
  match o with
  | Ok (ResponsesEncode.ROutputItemAdded _ (ResponsesEncode.ItemFunctionCall _ call_id name _ _)) => [SCall call_id name]
  | Ok (ResponsesEncode.RTextDelta _ _ _ t) => [SText t]
  | Ok (ResponsesEncode.RArgsDelta _ _ a) => [SArguments a]
  | _ => []
  end.
Definition audible (x : said) : list said :=
  match x with
  | SText t => if str_is_empty t then [] else [x]
  | SArguments a => if str_is_empty a then [] else [x]
  | SCall _ _ => [x]
  end.

(** ** The encoder says what it is told *)
Section Encoder.
Context `{J : JsonApi} (clock : option Z).
Import ResponsesEncode.

Definition sound (o : result ResponsesEvent string) : Prop := match o with Ok _ => True | Err _ => False end.

Lemma with_output_says what index k x s :
  (∀ oi, collects said_out (k oi) x) →
  Forall sound (emitted (with_output what index k) s) → emitted (with_output what index k) s ≫= said_out = x.
Proof.
  intros Hk. unfold with_output. rewrite emitted_gets_bind. destruct (canonical_to_output s !! index); [intros _; apply Hk|].
  intros H. by inversion_clear H.
Qed.
(** An item that pushes one event after reading its id. *)
Lemma collects_one (f : string → ResponsesEvent) (up : EncoderState → EncoderState) oi x :
  (∀ id, said_out (Ok (f id)) = x) →
  collects said_out (item_id ← item_id_of oi; push_event (f item_id);; modify up) x.
Proof.
  intros Hf. apply collects_then; [apply collects_gets|intros id].
  apply collects_and_nothing; [rewrite <- (Hf id); apply collects_push|intros []; apply collects_modify].
Qed.

Lemma handle_says e s :
  is_error e = false → Forall sound (emitted (handle_event clock e) s) →
  emitted (handle_event clock e) s ≫= said_out = said_in e.
Proof.
  assert (Hdone : ∀ m : emit EncoderState (result ResponsesEvent string) unit, ∀ s,
    emitted (m;; mret false) s = emitted m s).
  { intros m s'. rewrite emitted_bind. apply app_nil_r. }
  intros He. destruct e; simpl in *; try done; rewrite ?Hdone.
  - intros _. revert s. change (collects said_out (handle_response_start clock id model created_at_unix) []).
    unfold handle_response_start, push_event. collects_nothing.
  - intros _. revert s. change (collects said_out (handle_block_start index kind) []).
    unfold handle_block_start, next_output_index, push_event. collects_nothing.
  - apply with_output_says. intros oi. by apply collects_one.
  - apply with_output_says. intros oi. by apply collects_one.
  - apply with_output_says. intros oi. by apply collects_one.
  - apply with_output_says. intros oi. unfold item_id_of, push_event. collects_nothing.
  - intros _. revert s. change (collects said_out (handle_block_stop index) []).
    unfold handle_block_stop, item_id_of, push_event. collects_nothing.
  - intros _. revert s. change (collects said_out (handle_response_stop usage) []).
    unfold handle_response_stop, push_event. collects_nothing.
Qed.

(** Only [ResponseStop] completes the stream. *)
Lemma handle_answer e s : (∀ u, e ≠ ResponseStop u) → answer (handle_event clock e) s = false.
Proof.
  intros He. destruct e; simpl; try (by rewrite answer_bind); try done. by destruct (He usage).
Qed.

(** Nothing is said after the [ResponseStop] of a stream that meets the lifecycle. *)
Lemma stopped_says_nothing l v :
  seen_response_stop v = true → seen_message_stop v = true → terminated_by_error v = false →
  Forall (λ e, is_error e = false) l → validate_from default_strict v l = Ok tt → l ≫= said_in = [].
Proof.
  revert v. induction l as [|e l IH]; intros v Hr Hs Ht Hl Hv; [done|].
  simpl in Hv. rewrite Ht in Hv. inversion_clear Hl as [|? ? He Hl'].
  destruct e; simpl in Hv; try done;
    unfold step_delta, check_post_message_stop, check_post_response_stop in Hv;
    rewrite ?Hr, ?Hs in Hv; simpl in Hv; try rewrite Hr in Hv; try done.
  destruct (seen_response_start v); simpl in *; [done|]. by eapply IH in Hv.
Qed.

(** Without encoding errors the whole response says what the stream says. *)
Lemma encode_says its v s :
  terminated_by_error v = false → Forall (λ e, is_error e = false) (oks its) →
  Forall (λ i, is_Some (result_ok i)) its → validate_from default_strict v (oks its) = Ok tt →
  Forall sound (encode_items (outbound_handle clock) its s) →
  encode_items (outbound_handle clock) its s ≫= said_out = oks its ≫= said_in.
Proof.
  revert v s. induction its as [|[e|err] its IH]; intros v s Ht He Hok Hv Hs; [done| |by inversion_clear Hok as [|? ? []]].
  change (oks (Ok e :: its)) with (e :: oks its) in *. inversion_clear He as [|? ? He1 He2]. inversion_clear Hok.
  simpl in Hv. rewrite Ht in Hv. destruct (step_event default_strict v e) as [v'|] eqn:Hstep; [|done]. simpl in Hv.
  destruct (EndToEnd.step_event_keeps _ _ _ Hstep He1 Ht) as (Ht' & Hm & Hr).
  assert (Hh : outbound_handle clock (Ok e) s =
    (final (handle_event clock e) s, emitted (handle_event clock e) s, answer (handle_event clock e) s)).
  { unfold outbound_handle, final, emitted, answer. simpl. by destruct (handle_event clock e s) as [[? ?] ?]. }
  cbn [encode_items] in *. rewrite Hh in *. apply Forall_app in Hs as [Hs1 Hs2].
  rewrite bind_app, handle_says by done. csimpl. f_equal.
  destruct (answer (handle_event clock e) s) eqn:Ha.
  - assert (∃ u, e = ResponseStop u) as [u ->].
    { destruct e; try (rewrite handle_answer in Ha; [done|congruence]). eauto. }
    destruct (Hr u eq_refl) as [Hms Hrs]. symmetry. apply (stopped_says_nothing _ v'); [done| |done..].
    by rewrite Hm.
  - by apply (IH v').
Qed.
End Encoder.

(** ** Reading back *)
Section ReadBack.
Context (table : list (string * tree)) (to_json : ResponsesEvent → option string).
#[local] Instance wire_json : JsonApi := TreeJson table.
Import ResponsesEncode.
#[local] Abbreviation upstream := ResponsesParse.upstream.
Implicit Types (pg : proto) (ug : upstream).

(** The SSE event a client receives; an encoding error breaks the response. *)
Definition client_event (o : result ResponsesEvent string) : result SseEvent string :=
  match o with
  | Ok ev => Ok {| event := event_name ev; data := default "" (to_json ev) |}
  | Err e => Err e
  end.
(** The documents of the events are serialised, and parsed back. *)
Definition serialised (o : result ResponsesEvent string) : Prop :=
  match o with Ok ev => ∃ s, to_json ev = Some s ∧ from_str s = Ok (event_tree ev) | Err _ => True end.
Lemma client_event_readable ev : serialised (Ok ev) →
  readable (client_event (Ok ev)) = Some (event_type_of (event_name ev), event_tree ev).
Proof. intros (s & Hs & Hp). simpl. rewrite Hs. simpl in *. by rewrite Hp. Qed.

Definition indexed (fields : list (string * tree)) (i : Z) : Prop :=
  get_u64 "output_index" (TObj fields : value) = as_u64 (num i : value).
Lemma output_index_num t i : get_u64 "output_index" t = as_u64 (num i) → is_u32 i → output_index_of t = i.
Proof.
  intros Ht Hi. unfold output_index_of. rewrite Ht. simpl. unfold is_u32, u32_max in Hi. rewrite Z2N.id by lia.
  destruct (Z.leb_spec i u64_max) as [Hle|Hgt]; simpl; [by apply wrap32_small|]. unfold u64_max in Hgt. lia.
Qed.

(** ** The encoder's protocol is the parser's *)
Definition state_kind (st : item_state) : option ContentBlockKind :=
  match st with IMessage _ _ => Some Text | ICall _ _ _ _ => Some ToolCall | IReasoning _ _ => None end.
Definition rel pg ug : Prop :=
  u_failed ug = false ∧ u_started ug = rp_created pg ∧ u_stopped ug = rp_completed pg ∧
  (0 ≤ rp_next pg)%Z ∧ (∀ i, i ∈ u_used ug → 0 ≤ i < rp_next pg)%Z ∧
  (∀ i, u_open ug !! i = rp_open pg !! i ≫= state_kind) ∧
  (∀ i, is_Some (rp_open pg !! i) → 0 ≤ i < rp_next pg)%Z.

Lemma rel0 : rel proto0 upstream0.
Proof. unfold rel. simpl. split_and!; try done; first [set_solver|by intros i [? ?]]. Qed.

(** An item changes its state, not its kind. *)
Lemma wire_touch pg ug i st st' :
  rp_open pg !! i = Some st → state_kind st' = state_kind st → rel pg ug →
  rel (set_rp_open (<[i:=st']> (rp_open pg)) pg) ug.
Proof.
  intros Hi Hk (Hf & Hst & Hsp & Hn & Hu & Ho & Hb). unfold rel. simpl. split_and!; try done.
  - intros j. rewrite Ho. destruct (decide (i = j)) as [<-|]; [by rewrite lookup_insert_eq, Hi; simpl|].
    by rewrite lookup_insert_ne.
  - intros j [->|[_ ?]]%lookup_insert_is_Some; [apply Hb; by eexists|by apply Hb].
Qed.
Lemma item_step_kind oi st ev st' : item_step oi st ev = Some st' → state_kind st' = state_kind st.
Proof. destruct st, ev; simpl; intros; repeat (case_match; simplify_eq/=); done. Qed.

(** An event that only touches an open item. *)
Lemma sim_item_event pg pg' ug ev :
  event_index ev ≠ None → proto_check pg (Ok ev) = Some pg' → rel pg ug →
  rel pg' ug ∧ ∃ oi st st', event_index ev = Some oi ∧ rp_open pg !! oi = Some st ∧
    item_step oi st ev = Some st' ∧ (0 ≤ oi < rp_next pg')%Z.
Proof.
  intros Hev Hp Hr. pose proof Hr as (_ & _ & _ & _ & _ & _ & Hb). unfold proto_check in Hp. destruct (rp_completed pg); [done|].
  assert (Hgen : (oi ← event_index ev; st ← rp_open pg !! oi; st' ← item_step oi st ev;
    Some (set_rp_open (<[oi := st']> (rp_open pg)) pg)) = Some pg') by (by destruct ev).
  destruct (event_index ev) as [oi|]; [|done]. simpl in Hgen.
  destruct (rp_open pg !! oi) as [st|] eqn:Hoi; [|done]. simpl in Hgen.
  destruct (item_step oi st ev) as [st'|] eqn:Hst; [|done]. injection Hgen as <-.
  split; [eapply wire_touch; [done| |done]; by eapply item_step_kind|].
  exists oi, st, st'. split_and!; [done..| |]; by apply (Hb oi); eexists.
Qed.

(** The parser's view of an event of the wire. *)
Definition heard (ev : ResponsesEvent) : EventType * tree := (event_type_of (event_name ev), event_tree ev).
Lemma heard_item ug ev : u_failed ug = false → event_type_of (event_name ev) = EIgnored → up_check ug (heard ev) = Some ug.
Proof. intros Hf He. unfold heard, up_check. by rewrite He, Hf. Qed.

Lemma sim_created pg pg' ug r :
  proto_check pg (Ok (RCreated r)) = Some pg' → rel pg ug →
  ∃ ug', up_check ug (heard (RCreated r)) = Some ug' ∧ rel pg' ug'.
Proof.
  intros Hp (Hf & Hst & Hsp & H0 & Hu & Ho & Hb). unfold proto_check in Hp.
  destruct (rp_completed pg) eqn:Hc; [done|]. destruct (rp_created pg); [done|]. injection Hp as <-.
  unfold up_check, heard. simpl. rewrite Hf, Hsp. eexists. split; [done|]. by unfold rel.
Qed.
Lemma sim_completed pg pg' ug r :
  proto_check pg (Ok (RCompleted r)) = Some pg' → rel pg ug →
  ∃ ug', up_check ug (heard (RCompleted r)) = Some ug' ∧ rel pg' ug'.
Proof.
  intros Hp (Hf & Hst & Hsp & H0 & Hu & Ho & Hb). unfold proto_check in Hp.
  destruct (rp_completed pg) eqn:Hc; [done|]. destruct (rp_created pg); [|done]. simpl in Hp.
  case_bool_decide as Hd; [|done]. injection Hp as <-. apply dom_empty_iff_L in Hd.
  assert (Hopen : u_open ug = ∅) by (apply map_eq; intros i; by rewrite Ho, Hd, !lookup_empty).
  unfold up_check, heard. simpl. rewrite Hf, Hst, Hsp, Hopen. simpl. eexists. split; [done|].
  unfold rel. simpl. by split_and!.
Qed.

Lemma sim_added pg pg' ug oi item :
  proto_check pg (Ok (ROutputItemAdded oi item)) = Some pg' → (rp_next pg' ≤ u32_max)%Z → rel pg ug →
  ∃ ug', up_check ug (heard (ROutputItemAdded oi item)) = Some ug' ∧ rel pg' ug'.
Proof.
  intros Hp Hn Hr. pose proof Hr as (Hf & Hst & Hsp & H0 & Hu & Ho & Hb). unfold proto_check in Hp.
  destruct (rp_completed pg) eqn:Hc; [done|]. destruct (rp_created pg) eqn:Hcr; [|done]. simpl in Hp.
  case_bool_decide as Hoi; [|done]. destruct (initial_state oi item) as [st|] eqn:Hi; [|done]. injection Hp as <-.
  simpl in Hn. assert (Hidx : output_index_of (event_tree (ROutputItemAdded oi item) : value) = oi)
    by (apply output_index_num; [done|unfold is_u32; lia]).
  assert (Hnone : rp_open pg !! oi = None) by (apply eq_None_not_Some; intros ?%Hb; lia).
  assert (Hfresh : oi ∉ u_used ug) by (intros ?%Hu; lia).
  assert (Hrel : ∀ o u, (∀ i, i ∈ u → i = oi ∨ i ∈ u_used ug) →
    (∀ i, o !! i = <[oi := st]> (rp_open pg) !! i ≫= state_kind) →
    rel {| rp_created := true; rp_next := rp_next pg + 1; rp_open := <[oi := st]> (rp_open pg); rp_completed := false |}%Z
      (set_u_items o u ug)).
  { intros o u H1 H2. unfold rel. simpl. split_and!; try done; [lia|intros i [->|?%Hu]%H1; lia|].
    intros i [->|[_ ?%Hb]]%lookup_insert_is_Some; lia. }
  assert (Hkind : item_kind (event_tree (ROutputItemAdded oi item) : value) = state_kind st).
  { destruct item as [? ? []| |? ? []]; simpl in Hi; try done; case_bool_decide; by simplify_eq. }
  unfold heard, up_check. rewrite Hf, Hidx, Hst, Hsp. simpl event_type_of. cbn [negb andb].
  replace (event_type_of (event_name (ROutputItemAdded oi item))) with EItemAdded by done. rewrite Hkind.
  destruct (state_kind st) as [kind|] eqn:Hk.
  - rewrite bool_decide_eq_false_2 by done. eexists. split; [done|]. apply Hrel; [set_solver|].
    intros i. destruct (decide (oi = i)) as [<-|]; [by rewrite !lookup_insert_eq|by rewrite !lookup_insert_ne].
  - eexists. split; [done|]. apply Hrel; [auto|].
    intros i. destruct (decide (oi = i)) as [<-|]; [by rewrite lookup_insert_eq, Ho, Hnone|by rewrite lookup_insert_ne].
Qed.

Lemma sim_done pg pg' ug oi item :
  proto_check pg (Ok (ROutputItemDone oi item)) = Some pg' → (rp_next pg' ≤ u32_max)%Z → rel pg ug →
  ∃ ug', up_check ug (heard (ROutputItemDone oi item)) = Some ug' ∧ rel pg' ug'.
Proof.
  intros Hp Hn Hr. pose proof Hr as (Hf & Hst & Hsp & H0 & Hu & Ho & Hb). unfold proto_check in Hp.
  destruct (rp_completed pg) eqn:Hc; [done|].
  destruct (rp_open pg !! oi) as [st|] eqn:Hoi; [|done]. simpl in Hp.
  case_bool_decide as Hfin; [|done]. injection Hp as <-. simpl in Hn. destruct (Hb oi) as [Hlo Hhi]; [by eexists|].
  assert (Hidx : output_index_of (event_tree (ROutputItemDone oi item) : value) = oi)
    by (apply output_index_num; [done|unfold is_u32; lia]).
  assert (Hkind : item_kind (event_tree (ROutputItemDone oi item) : value) = state_kind st).
  { destruct st as [[] ?|[] ?|? ? [] ?]; simpl in Hfin; by simplify_eq. }
  assert (Hrel : ∀ o, (∀ i, o !! i = delete oi (rp_open pg) !! i ≫= state_kind) →
    rel (set_rp_open (delete oi (rp_open pg)) pg) (set_u_items o (u_used ug) ug)).
  { intros o H1. unfold rel. simpl. split_and!; try done; try congruence.
    intros i [x Hx]. apply lookup_delete_Some in Hx as [_ Hx]. apply Hb. by eexists. }
  unfold heard, up_check. rewrite Hf, Hidx.
  replace (event_type_of (event_name (ROutputItemDone oi item))) with EItemDone by done. rewrite Hkind.
  destruct (state_kind st) as [kind|] eqn:Hk.
  - rewrite bool_decide_eq_true_2 by (by rewrite Ho, Hoi). eexists. split; [done|]. apply Hrel.
    intros i. destruct (decide (oi = i)) as [<-|]; [by rewrite !lookup_delete_eq|by rewrite !lookup_delete_ne].
  - eexists. split; [done|]. unfold rel. simpl. split_and!; try done; try congruence.
    + intros i. destruct (decide (oi = i)) as [<-|]; [by rewrite lookup_delete_eq, Ho, Hoi|by rewrite lookup_delete_ne].
    + intros i [x Hx]. apply lookup_delete_Some in Hx as [_ Hx]. apply Hb. by eexists.
Qed.

(** The events of an open item: deltas are read, the others ignored. *)
Lemma sim_delta pg pg' ug ev :
  event_index ev ≠ None → proto_check pg (Ok ev) = Some pg' → (rp_next pg' ≤ u32_max)%Z → rel pg ug →
  ∃ ug', up_check ug (heard ev) = Some ug' ∧ rel pg' ug'.
Proof.
  intros Hev Hp Hn Hr. destruct (sim_item_event _ _ _ _ Hev Hp Hr) as (Hr' & oi & st & st' & H1 & H2 & H3 & H4).
  destruct Hr as (Hf & _ & _ & _ & _ & Ho & _). specialize (Ho oi). rewrite H2 in Ho. simpl in Ho.
  exists ug. split; [|done].
  destruct ev; simpl in H1; simplify_eq; try (by apply heard_item).
  - assert (Hidx : output_index_of (event_tree (RTextDelta item_id oi content_index delta) : value) = oi)
      by (apply output_index_num; [done|unfold is_u32; lia]).
    unfold heard, up_check. rewrite Hf, Hidx. change (event_type_of _) with ETextDelta. cbv iota.
    rewrite bool_decide_eq_true_2; [done|]. rewrite Ho. by destruct content_index, st.
  - assert (Hidx : output_index_of (event_tree (RArgsDelta item_id oi delta) : value) = oi)
      by (apply output_index_num; [done|unfold is_u32; lia]).
    unfold heard, up_check. rewrite Hf, Hidx. change (event_type_of _) with EArgumentsDelta. cbv iota.
    rewrite bool_decide_eq_true_2; [done|]. rewrite Ho. by destruct st.
Qed.

Lemma chain_step pg pg' ug ev :
  proto_check pg (Ok ev) = Some pg' → (∀ m, ev ≠ RErrorEvent m) → (rp_next pg' ≤ u32_max)%Z → rel pg ug →
  ∃ ug', up_check ug (heard ev) = Some ug' ∧ rel pg' ug'.
Proof.
  intros Hp Hne Hn Hr. destruct ev; first
    [by eapply sim_created | by eapply sim_completed | by eapply sim_added | by eapply sim_done
    | by eapply sim_delta | by destruct (Hne message)].
Qed.

(** What is heard is what is said, but for the empty deltas. *)
Lemma heard_says ev : said_event (heard ev) = said_out (Ok ev) ≫= audible.
Proof.
  destruct ev; try reflexivity; unfold said_event, heard.
  - by destruct item.
  - change (event_type_of _) with ETextDelta. unfold delta_of. simpl. by destruct (str_is_empty delta).
  - change (event_type_of _) with EArgumentsDelta. unfold delta_of. simpl. by destruct (str_is_empty delta).
Qed.

Lemma proto_next_mono l pg pg' : monitor proto_check pg l = Some pg' → (rp_next pg ≤ rp_next pg' ≤ rp_next pg + Z.of_nat (length l))%Z.
Proof.
  revert pg. induction l as [|o l IH]; intros pg; simpl; [intros [= ->]; lia|].
  destruct (proto_check pg o) as [pg1|] eqn:Ho; [|done]. simpl. intros Hm%IH.
  enough (rp_next pg ≤ rp_next pg1 ≤ rp_next pg + 1)%Z by lia. clear Hm IH.
  unfold proto_check in Ho. destruct (rp_completed pg); [done|].
  destruct o as [[]|]; repeat (simpl in Ho; case_match); simplify_eq/=; try lia;
    repeat (apply bind_Some in Ho as (? & ? & Ho)); simplify_eq/=; try lia.
  case_bool_decide; simplify_eq/=. lia.
Qed.

Definition plain (o : result ResponsesEvent string) : Prop :=
  match o with Ok (RErrorEvent _) => False | _ => True end.
Lemma chain_run l pg pg' ug :
  monitor proto_check pg l = Some pg' → (rp_next pg' ≤ u32_max)%Z → Forall plain l → Forall serialised l → rel pg ug →
  ∃ ug', steps up_check ug (omap readable (client_event <$> l)) = Some ug' ∧ rel pg' ug' ∧
    (client_event <$> l) ≫= said_item = (l ≫= said_out) ≫= audible.
Proof.
  revert pg ug. induction l as [|o l IH]; intros pg ug Hm Hn Hpl Hse Hr; [injection Hm as <-; by exists ug|].
  simpl in Hm. destruct (proto_check pg o) as [pg1|] eqn:Ho; [|done]. simpl in Hm.
  inversion_clear Hpl as [|? ? Hpl1 Hpl2]. inversion_clear Hse as [|? ? Hse1 Hse2].
  destruct o as [ev|e]; [|by unfold proto_check in Ho; destruct (rp_completed pg)].
  destruct (proto_next_mono _ _ _ Hm) as [Hmono _].
  destruct (chain_step pg pg1 ug ev) as (ug1 & Hu & Hr1); [done|by intros m ->|lia|done|].
  destruct (IH pg1 ug1) as (ug' & Hs & Hr' & Hsaid); [done..|].
  exists ug'. cbn [fmap list_fmap]. pose proof (client_event_readable ev Hse1) as Hread.
  split_and!; [|done|].
  - cbn [omap list_omap]. rewrite Hread. cbn [steps]. unfold heard in Hu. rewrite Hu. exact Hs.
  - rewrite bind_cons. unfold said_item at 1. rewrite Hread. etrans; [|symmetry; rewrite bind_cons; apply bind_app].
    f_equal; [apply heard_says|exact Hsaid].
Qed.

(** An accepted response has no encoding error, and a stream without errors no
    error event. *)
Lemma accepted_sound l pg pg' : monitor proto_check pg l = Some pg' → Forall sound l.
Proof.
  revert pg. induction l as [|o l IH]; intros pg; simpl; [constructor|].
  destruct (proto_check pg o) as [pg1|] eqn:Ho; [|done]. simpl. intros Hm. constructor; [|by eapply IH].
  destruct o; [done|]. unfold proto_check in Ho. by destruct (rp_completed pg).
Qed.
Lemma handle_plain clock e s : is_error e = false → Forall plain (emitted (handle_event clock e) s).
Proof.
  intros He. revert s. change (emits plain (handle_event clock e)).
  unfold handle_event, handle_response_start, handle_block_start, handle_text_delta, handle_reasoning_delta,
    handle_tool_start, handle_tool_args, handle_tool_stop, handle_block_stop, handle_response_stop, with_output,
    next_output_index, item_id_of, push_event, push_encode_error.
  destruct e; try done; emits.
Qed.
Lemma encode_plain clock its s :
  Forall (λ e, is_error e = false) (oks its) → Forall (λ i, is_Some (result_ok i)) its →
  Forall plain (encode_items (outbound_handle clock) its s).
Proof.
  revert s. induction its as [|[e|err] its IH]; intros s He Hok; [constructor| |by inversion_clear Hok as [|? ? []]].
  change (oks (Ok e :: its)) with (e :: oks its) in He. inversion_clear He as [|? ? He1 He2]. inversion_clear Hok.
  cbn [encode_items]. unfold outbound_handle at 1. simpl. pose proof (handle_plain clock e s He1) as Hp.
  unfold emitted in Hp. destruct (handle_event clock e s) as [[a s'] evs]. simpl in Hp.
  apply Forall_app. split; [done|]. destruct a; [constructor|by apply IH].
Qed.

(** C20: the response to a canonical stream that meets the lifecycle contract,
    with each tool call announced and stopped once, is itself a conforming
    Responses upstream: read back by the parser, it meets the lifecycle contract
    again and says the same texts, tool calls and argument fragments in the same
    order, but for the empty ones. *)
Theorem responses_response_reads_back clock its id m n l :
  oks its = ResponseStart id m n :: l → assert_canonical_lifecycle (oks its) = Ok tt →
  is_Some (monitor calls_check (∅, ∅) l) → Forall (λ e, is_error e = false) l →
  Forall (λ i, is_Some (result_ok i)) its →
  (Z.of_nat (length l) ≤ u32_max)%Z → (Z.of_nat (length (outbound clock its)) ≤ u32_max)%Z →
  Forall serialised (outbound clock its) →
  let up := client_event <$> outbound clock its in
  assert_canonical_lifecycle (oks (parse up)) = Ok tt ∧
  oks (parse up) ≫= said_in = (oks its ≫= said_in) ≫= audible.
Proof.
  intros Hl Hv Hc He Hok Hn1 Hn2 Hse. cbv zeta.
  assert (He' : Forall (λ e, is_error e = false) (oks its)) by (rewrite Hl; by constructor).
  destruct (responses_protocol clock its id m n l Hl Hv Hc He Hn1) as (pg & Hm & _ & _).
  destruct (proto_next_mono _ _ _ Hm) as [_ Hnext]. simpl in Hnext.
  destruct (chain_run (outbound clock its) proto0 pg upstream0 Hm) as (ug & Hu & _ & Hsaid);
    [lia|by apply encode_plain|done|apply rel0|].
  split.
  - destruct (parse_accepted _ _ Hu) as (v & Hacc & Ho & _). by apply (assert_of_monitor _ v).
  - rewrite parse_says, Hsaid. f_equal.
    apply (encode_says clock its default_state); [done..|]. by eapply accepted_sound.
Qed.
End ReadBack.

(** ** Concrete responses *)
Module Samples.
Import ResponsesEncode.
Definition response `{J : JsonApi} : list (result StreamEvent StreamError) := Ok <$>
  [ResponseStart "r" "m" 7; MessageStart Assistant; ContentBlockStart 0 Text; TextDelta 0 "hi"; TextDelta 0 "";
   ContentBlockStop 0; ContentBlockStart 1 ToolCall; ToolCallStart 1 "c" "f"; ToolCallArgumentsDelta 1 "{}";
   ToolCallStop 1; ContentBlockStop 1; MessageStop ToolUse None; ResponseStop None].
(** Each event under a name of its own. *)
Definition key (ev : ResponsesEvent) : string :=
  (event_name ev ++
   match ev with
   | ROutputItemAdded oi _ | ROutputItemDone oi _ => show_u32 oi
   | RTextDelta _ _ _ t => t
   | _ => ""
   end)%string.
Definition events : list ResponsesEvent := oks (outbound (J := TreeJson []) None response).
Definition table : list (string * tree) := Eval vm_compute in (λ ev, (key ev, event_tree ev)) <$> events.
#[local] Instance sample_json : JsonApi := TreeJson table.
Definition to_json (ev : ResponsesEvent) : option string := Some (key ev).

Lemma responses_response_reads_back_witness :
  oks (parse (client_event to_json <$> outbound None response)) ≫= said_in =
  [SText "hi"; SCall "c" "f"; SArguments "{}"].
Proof.
  assert (Hs : Forall (serialised table to_json) (outbound None response)).
  { set (l := outbound None response). vm_compute in l. subst l.
    repeat apply Forall_cons_2; [..|apply Forall_nil_2]; eexists; (split; [reflexivity|reflexivity]). }
  assert (He : Forall (λ e, is_error e = false) (tl (oks response)))
    by (cbv [response]; simpl; repeat (apply Forall_cons_2; [reflexivity|]); apply Forall_nil_2).
  assert (Hok : Forall (λ i, is_Some (result_ok i)) response)
    by (cbv [response]; simpl; repeat (apply Forall_cons_2; [by eexists|]); apply Forall_nil_2).
  assert (Hc : is_Some (monitor calls_check (∅, ∅) (tl (oks response)))) by (vm_compute; by eexists).
  assert (Hn : (Z.of_nat (length (tl (oks response))) ≤ u32_max)%Z) by (vm_compute; discriminate).
  assert (Hm : (Z.of_nat (length (outbound None response)) ≤ u32_max)%Z) by (vm_compute; discriminate).
  destruct (responses_response_reads_back table to_json None response "r" "m" 7 (tl (oks response))
    eq_refl eq_refl Hc He Hok Hn Hm Hs) as [_ H].
  etrans; [exact H|]. reflexivity.
Defined.
End Samples.
