(* ===== verification/RoundTrip.v ===== *)
(** * Chat responses read back

    What the OpenAI Chat encoder writes, the Chat SSE parser reads: a gateway
    in front of another one.  The serialisation of the wire types is that of
    their serde derives ([openai_chat/wire.rs]) into JSON trees; the JSON text
    itself is serde_json's, a parameter with its documented law. *)
From S2P Require Import Prelude Json CoreTypes Emit Lifecycle Drain Envelope Sse.
From S2P Require Import ChatEncode ChatSse.
#[local] Open Scope string_scope.
#[local] Open Scope list_scope.
#[local] Open Scope nat_scope.

(** ** The deltas of a parsed stream *)
Section Deltas.
Context `{J : JsonApi} `{H : HashOrder}.

(** Texts and tool-call fragments; the parser drops the empty ones. *)
Definition text_deltas (t : string) : list (string + ToolCallDeltaOut) :=
  if str_is_empty t then [] else [inl t].
Definition argument_deltas (i : Z) (a : string) : list (string + ToolCallDeltaOut) :=
  if str_is_empty a then [] else [inr (tool_call i None None a)].

(** What an upstream's tool call, choice, chunk and event carry. *)
Definition call_deltas (tc : value) : list (string + ToolCallDeltaOut) :=
  let i := u32_add (as_u32 (default 0%Z (get_u64 "index" tc))) 1 in
  match get_str "id" tc with
  | Some id =>
      [inr (tool_call i (Some id) (Some (default "" (get2 "function" "name" tc ≫= as_str))) "")]
  | None => []
  end ++
  match get2 "function" "arguments" tc ≫= as_str with
  | Some args => argument_deltas i args
  | None => []
  end.
Definition choice_deltas (choice : value) : list (string + ToolCallDeltaOut) :=
  match get "delta" choice with
  | Some delta =>
      (default [] (text_deltas <$> get_str "content" delta)) ++
      (default [] (get_array "tool_calls" delta) ≫= call_deltas)
  | None => []
  end.
Definition chunk_deltas (v : value) : list (string + ToolCallDeltaOut) :=
  match get "error" v, get_array "choices" v with
  | None, Some choices => choices ≫= choice_deltas
  | _, _ => []
  end.
Definition item_deltas (i : result SseEvent string) : list (string + ToolCallDeltaOut) :=
  match i with
  | Ok ev =>
      if bool_decide (data ev = "[DONE]") then []
      else match from_str (data ev) with Ok v => chunk_deltas v | Err _ => [] end
  | Err _ => []
  end.

#[local] Abbreviation collected := (collects event_deltas).

Lemma deltas_message_start_once : collected message_start_once [].
Proof. unfold message_start_once. collects_nothing. Qed.
Lemma deltas_close_text_block : collected close_text_block [].
Proof. unfold close_text_block. collects_nothing. Qed.
Lemma deltas_drain_tool_blocks : collected drain_tool_blocks [].
Proof. unfold drain_tool_blocks. collects_nothing. Qed.
Lemma deltas_message_stop_once r : collected (message_stop_once r) [].
Proof. unfold message_stop_once. collects_nothing. Qed.
Hint Resolve deltas_message_start_once deltas_close_text_block deltas_drain_tool_blocks
  deltas_message_stop_once : core.
Lemma deltas_handle_done : collected handle_done [].
Proof. unfold handle_done. collects_nothing; auto. Qed.
Lemma deltas_finalize : collected finalize [].
Proof. unfold finalize. collects_nothing; auto. Qed.
Lemma deltas_handle_finish_reason r : collected (handle_finish_reason r) [].
Proof. unfold handle_finish_reason. collects_nothing; auto. Qed.

Lemma deltas_handle_content t : collected (handle_content t) (text_deltas t).
Proof.
  unfold handle_content, text_deltas. destruct (str_is_empty t); [apply collects_ret|].
  apply collects_then; [auto|intros []]. apply collects_then; [apply collects_gets|intros ?].
  apply collects_then; [collects_nothing|intros []]. apply (collects_push event_deltas).
Qed.
Lemma deltas_handle_tool_call tc : collected (handle_tool_call tc) (call_deltas tc).
Proof.
  unfold handle_tool_call, call_deltas. apply collects_bind.
  - destruct (get_str "id" tc); [|apply collects_ret].
    apply collects_then; [apply collects_gets|intros ?].
    apply collects_then; [collects_nothing|intros []]. apply (collects_push event_deltas).
  - intros []. destruct (get2 "function" "arguments" tc ≫= as_str) as [a|]; [|apply collects_ret].
    unfold argument_deltas. destruct (str_is_empty a); [apply collects_ret|].
    apply (collects_push event_deltas).
Qed.
Lemma deltas_handle_choice choice : collected (handle_choice choice) (choice_deltas choice).
Proof.
  unfold handle_choice, choice_deltas. apply collects_and_nothing.
  - destruct (get "delta" choice) as [delta|]; [|apply collects_ret]. unfold handle_delta.
    apply collects_then; [collects_nothing; auto|intros []].
    apply collects_bind; [destruct (get_str "content" delta); [apply deltas_handle_content|apply collects_ret]|intros []].
    destruct (get_array "tool_calls" delta); [|apply collects_ret].
    apply collects_then; [auto|intros []]. apply collects_then; [auto|intros []].
    apply collects_for_each, deltas_handle_tool_call.
  - intros []. destruct (get_str "finish_reason" choice); [apply deltas_handle_finish_reason|apply collects_ret].
Qed.
Lemma deltas_parse_chunk_value v : collected (parse_chunk_value v) (chunk_deltas v).
Proof.
  unfold parse_chunk_value, chunk_deltas. destruct (get "error" v); [collects_nothing|].
  apply collects_then; [apply collects_modify|intros []].
  apply collects_then; [apply collects_gets|intros ?].
  apply collects_then; [collects_nothing|intros []].
  destruct (get_array "choices" v); [|collects_nothing].
  apply collects_and_nothing; [|intros []; collects_nothing].
  apply collects_for_each, deltas_handle_choice.
Qed.

Lemma deltas_on_item i s : oks (on_item i s).2 ≫= event_deltas = item_deltas i.
Proof.
  destruct i as [ev|e]; simpl; [|unfold handle_transport_error; by case_match].
  unfold ChatSse.handle_event, parse_chunk. case_bool_decide as Hd; simpl.
  - rewrite oks_Ok. apply deltas_handle_done.
  - destruct (from_str (data ev)) as [v|e]; [|done]. simpl. rewrite oks_Ok. apply deltas_parse_chunk_value.
Qed.
Lemma parse_all_deltas l : oks (parse_all l) ≫= event_deltas = l ≫= item_deltas.
Proof.
  apply (feed_collects on_item on_eof (λ o, oks o ≫= event_deltas)); [done|..].
  - intros. by rewrite oks_app, bind_app.
  - apply deltas_on_item.
  - intros s. simpl. rewrite oks_Ok. apply deltas_finalize.
Qed.
End Deltas.

(** ** The wire, as JSON *)
Definition opt_field (k : string) (o : option tree) : list (string * tree) := option_list (pair k <$> o).
Definition num (z : Z) : tree := TNum (Z.to_N z).

Definition usage_tree (u : UsageOut) : tree := TObj
  [("prompt_tokens", num (prompt_tokens u)); ("completion_tokens", num (completion_tokens u));
   ("total_tokens", num (total_tokens u))].
Definition function_tree (f : ToolCallFunctionDeltaOut) : tree := TObj
  (opt_field "name" (TStr <$> fn_name f) ++ opt_field "arguments" (TStr <$> fn_arguments f)).
Definition tool_tree (t : ToolCallDeltaOut) : tree := TObj
  ([("index", num (tool_index t))] ++ opt_field "id" (TStr <$> tool_id t) ++
   opt_field "type" (TStr <$> tool_ty t) ++ [("function", function_tree (tool_function t))]).
Definition delta_tree (d : DeltaOut) : tree := TObj
  (opt_field "role" (TStr <$> delta_role d) ++ opt_field "content" (TStr <$> delta_content d) ++
   if bool_decide (delta_tool_calls d = []) then []
   else [("tool_calls", TArr (tool_tree <$> delta_tool_calls d))]).
Definition choice_tree (c : ChoiceOut) : tree := TObj
  [("index", TNum 0); ("delta", delta_tree (choice_delta c));
   ("finish_reason", match finish_reason c with Some r => TStr r | None => TNull end)].
Definition chunk_tree (c : ChunkOut) : tree := TObj
  ([("id", TStr (chunk_id c)); ("object", TStr "chat.completion.chunk"); ("created", num (chunk_created c));
    ("model", TStr (chunk_model c)); ("choices", TArr (choice_tree <$> chunk_choices c))] ++
   opt_field "usage" (usage_tree <$> chunk_usage c)).
Definition frame_tree (f : Frame) : option tree :=
  match f with
  | FChunk c => Some (chunk_tree c)
  | FError message => Some (TObj [("error", TObj [("message", TStr message)])])
  | FDone => None
  end.

#[export] Instance tool_call_function_eq_dec : EqDecision ToolCallFunctionDeltaOut.
Proof. solve_decision. Defined.

(** ** Reading back *)
Section ReadBack.
Context (table : list (string * tree)) `{H : HashOrder}.
#[local] Instance wire_json : JsonApi := TreeJson table.
Context (to_json : Frame → option string).

(** The SSE event a client receives for a frame ([data_only_serialized]). *)
Definition client_event (f : Frame) : result SseEvent string :=
  Ok {| Drain.event := "message"; data := match f with FDone => "[DONE]" | _ => default "" (to_json f) end |}.

(** The documents of the frames are serialised, and parsed back. *)
Definition serialised (f : Frame) : Prop :=
  ∀ t, frame_tree f = Some t → ∃ s, to_json f = Some s ∧ s ≠ "[DONE]" ∧ from_str s = Ok t.

(** What becomes of a delta: empty texts and arguments are dropped, and tool
    calls move up by one. *)
Definition received (d : string + ToolCallDeltaOut) : list (string + ToolCallDeltaOut) :=
  match d with
  | inl t => text_deltas t
  | inr tc =>
      let i := u32_add (tool_index tc) 1 in
      match tool_id tc with
      | Some id => [inr (tool_call i (Some id) (Some (default "" (fn_name (tool_function tc)))) "")]
      | None => []
      end ++
      match fn_arguments (tool_function tc) with Some a => argument_deltas i a | None => [] end
  end.
Definition in_range (d : string + ToolCallDeltaOut) : Prop :=
  match d with inl _ => True | inr tc => is_u32 (tool_index tc) end.

Lemma tool_tree_deltas tc : is_u32 (tool_index tc) → call_deltas (tool_tree tc) = received (inr tc).
Proof.
  intros Hi. destruct tc as [i id ty [name args]]. simpl in Hi.
  assert (Hidx : as_u32 (default 0%Z (get_u64 "index" (tool_tree
    {| tool_index := i; tool_id := id; tool_ty := ty;
       tool_function := {| fn_name := name; fn_arguments := args |} |}))) = i).
  { unfold get_u64. simpl. unfold is_u32, u32_max in Hi.
    destruct (Z.leb_spec (Z.of_N (Z.to_N i)) u64_max) as [Hle|Hgt]; simpl.
    - rewrite Z2N.id by lia. by apply wrap32_small.
    - unfold u64_max in Hgt. lia. }
  unfold call_deltas. rewrite Hidx. unfold received. simpl. destruct id, ty, name, args; reflexivity.
Qed.

Lemma choice_tree_deltas c :
  Forall in_range (inr <$> delta_tool_calls (choice_delta c)) →
  choice_deltas (choice_tree c) =
  (option_list (inl <$> delta_content (choice_delta c)) ++ (inr <$> delta_tool_calls (choice_delta c)))
    ≫= received.
Proof.
  destruct c as [[role content tcs] fin]. cbn [choice_delta delta_content delta_tool_calls]. intros Hr.
  set (d := delta_tree {| delta_role := role; delta_content := content; delta_tool_calls := tcs |}).
  change (choice_deltas _) with
    (default [] (text_deltas <$> get_str "content" d) ++
     (default [] (get_array "tool_calls" d) ≫= call_deltas)).
  assert (Hget : get_str "content" d = content) by (destruct role, content, tcs; reflexivity).
  assert (Harr : default [] (get_array "tool_calls" d) = tool_tree <$> tcs)
    by (destruct role, content, tcs; reflexivity).
  rewrite Hget, Harr, bind_app. f_equal; [by destruct content; simpl; rewrite ?app_nil_r|].
  clear Hget Harr d. induction tcs as [|tc tcs IH]; [done|]. csimpl. inversion_clear Hr as [|? ? H1 H2].
  rewrite tool_tree_deltas by done. f_equal. by apply IH.
Qed.

Lemma client_event_deltas f :
  serialised f → Forall in_range (frame_deltas f) → item_deltas (client_event f) = frame_deltas f ≫= received.
Proof.
  intros Hs Hr. unfold item_deltas, client_event. destruct f as [c|m|]; simpl; [..|done].
  - destruct (Hs (chunk_tree c) eq_refl) as (s & -> & Hd & Hp). simpl.
    rewrite bool_decide_eq_false_2 by done. simpl in Hp. rewrite Hp. unfold chunk_deltas.
    assert (Herr : get "error" (chunk_tree c) = None) by (by destruct c as [? ? ? ? []]).
    assert (Hch : get_array "choices" (chunk_tree c) = Some (choice_tree <$> chunk_choices c))
      by (by destruct c as [? ? ? ? []]).
    rewrite Herr, Hch. simpl in Hr. revert Hr. clear. induction (chunk_choices c) as [|ch l IH]; [done|].
    csimpl. intros [H1 H2]%Forall_app. etrans; [|symmetry; apply bind_app]. f_equal; [|by apply IH].
    apply choice_tree_deltas. by apply Forall_app in H1 as [_ ?].
  - destruct (Hs _ eq_refl) as (s & -> & Hd & Hp). simpl.
    rewrite bool_decide_eq_false_2 by done. simpl in Hp. by rewrite Hp.
Qed.

(** The response to a canonical stream, read back by the Chat parser, has
    the same texts, tool calls and argument fragments, in the same order, with
    the empty ones dropped and the tool calls' indices moved up by one. *)
Theorem chat_response_reads_back clock now its :
  Forall serialised (chat_outbound clock now its) →
  Forall in_range (oks (read its) ≫= event_deltas) →
  oks (parse_all (client_event <$> chat_outbound clock now its)) ≫= event_deltas =
  (oks (read its) ≫= event_deltas) ≫= received.
Proof.
  intros Hs Hr. rewrite parse_all_deltas.
  assert (Hd : chat_outbound clock now its ≫= frame_deltas = oks (read its) ≫= event_deltas)
    by apply (outbound_read clock its).
  rewrite <- Hd in Hr |- *. revert Hs Hr. generalize (chat_outbound clock now its). clear.
  induction l as [|f l IH]; [done|]. csimpl. intros Hs [H1 H2]%Forall_app.
  inversion_clear Hs. etrans; [|symmetry; apply bind_app]. f_equal; [by apply client_event_deltas|by apply IH].
Qed.
End ReadBack.

(** ** A concrete response *)
Module Samples.
Definition header (fields : list (string * tree)) (fin : tree) : tree := TObj
  [("id", TStr "r"); ("object", TStr "chat.completion.chunk"); ("created", TNum 7); ("model", TStr "m");
   ("choices", TArr [TObj [("index", TNum 0); ("delta", TObj fields); ("finish_reason", fin)]])].
Definition table : list (string * tree) :=
  [("role", header [("role", TStr "assistant")] TNull);
   ("text", header [("content", TStr "hi")] TNull);
   ("call", header [("tool_calls", TArr [TObj [("index", TNum 1); ("id", TStr "c"); ("type", TStr "function");
      ("function", TObj [("name", TStr "f"); ("arguments", TStr "")])]])] TNull);
   ("args", header [("tool_calls", TArr [TObj [("index", TNum 1);
      ("function", TObj [("arguments", TStr "{}")])]])] TNull);
   ("finish", header [] (TStr "tool_calls"))].
#[local] Instance sample_json : JsonApi := TreeJson table.
#[local] Instance sample_order : HashOrder := elements_order.

(** The texts of the five chunks. *)
Definition to_json (f : Frame) : option string :=
  match f with
  | FChunk c =>
      match chunk_choices c with
      | [{| choice_delta := d; finish_reason := fin |}] =>
          match fin, delta_role d, delta_content d, delta_tool_calls d with
          | Some _, _, _, _ => Some "finish"
          | _, Some _, _, _ => Some "role"
          | _, _, Some _, _ => Some "text"
          | _, _, _, [t] => if bool_decide (tool_id t = None) then Some "args" else Some "call"
          | _, _, _, _ => None
          end
      | _ => None
      end
  | _ => None
  end.
Definition sample : list (result StreamEvent StreamError) := Ok <$>
  [ResponseStart "r" "m" 7; MessageStart Assistant; TextDelta 0 "hi";
   ContentBlockStart 1 ToolCall; ToolCallStart 1 "c" "f"; ToolCallArgumentsDelta 1 "{}";
   ToolCallStop 1; ContentBlockStop 1; MessageStop ToolUse None; ResponseStop None].

Lemma chat_response_reads_back_witness :
  (oks (parse_all (client_event to_json <$> chat_outbound None 0 sample)) ≫= event_deltas) =
  [inl "hi"; inr (tool_call 2 (Some "c") (Some "f") ""); inr (tool_call 2 None None "{}")].
Proof.
  assert (Hs : Forall (serialised table to_json) (chat_outbound None 0 sample)).
  { set (l := chat_outbound None 0 sample). vm_compute in l. subst l.
    repeat apply Forall_cons_2; [..|apply Forall_nil_2]; intros t Ht; try discriminate Ht;
      injection Ht as <-; eexists; (split; [reflexivity|]); (split; [discriminate|reflexivity]). }
  etrans; [exact (chat_response_reads_back table to_json None 0 sample Hs ltac:(repeat constructor; done))|].
  reflexivity.
Defined.
End Samples.
